(** * VHub-Server: the version-control engine and its two storage backends

    A shallow embedding of [utils/hash_utils.py], [utils/path_utils.py],
    [implementations/graph_db_impl.py] and [implementations/sqlite_fs_impl.py],
    followed by the properties of push, pull, clone and the change engine.

    Conventions of the embedding.
    - A Python [str] is a Rocq [string] whose characters are the code points
      below 256; [encode_utf8] is written out for that range.
    - A Python [dict] whose iteration order is observable (the commits of a
      repository, the files of a commit) is an insertion-ordered association
      list ([odict]); a [dict] or [set] that is only looked up is a [gmap]
      or a [gset].
    - The file system below [./repositories/<backend>] is a finite map from
      directory names to directory contents; a name that leads to that
      directory itself or above it is told apart by [names_repository].
    - The depth that Python's recursion limit leaves to the recursive
      [visit] of a pull is the parameter [limit] of the document backend's
      [pull_commits].
    - A handler's response is the pair of its JSON payload and status code. *)

From Stdlib Require Import ZArith List Ascii String Bool Lia Sorted.
From stdpp Require Import gmap strings list fin_maps.

Local Open Scope string_scope.
Local Open Scope list_scope.
Local Open Scope stdpp_scope.

(** ** Python string primitives *)

Module PyStr.

Definition ord (c : ascii) : Z := Z.of_N (N_of_ascii c).

Definition chr (n : Z) : ascii := ascii_of_N (Z.to_N n).

(** [sep.join(parts)] *)
Fixpoint join (sep : string) (parts : list string) : string :=
  match parts with
  | [] => ""
  | [p] => p
  | p :: rest => p +:+ sep +:+ join sep rest
  end.

(** The line boundaries of [str.splitlines] among the code points below 256:
    LF, VT, FF, CR, FS, GS, RS and NEL; CR LF counts as one boundary. *)
Definition is_linebreak (c : ascii) : bool :=
  let n := ord c in
  ((10 <=? n) && (n <=? 13) || (28 <=? n) && (n <=? 30) || (n =? 133))%Z.

Definition is_cr (c : ascii) : bool := (ord c =? 13)%Z.
Definition is_lf (c : ascii) : bool := (ord c =? 10)%Z.

Definition line_of (cur : list ascii) : string := string_of_list_ascii (rev cur).

(** [s.splitlines()]; [cur] holds the characters of the line being read,
    most recent first. *)
Fixpoint splitlines_acc (cur : list ascii) (s : string) : list string :=
  match s with
  | EmptyString =>
      match cur with
      | [] => []
      | _ => [line_of cur]
      end
  | String c rest =>
      if is_linebreak c then
        match rest with
        | String d rest2 =>
            if is_cr c && is_lf d
            then line_of cur :: splitlines_acc [] rest2
            else line_of cur :: splitlines_acc [] rest
        | EmptyString => [line_of cur]
        end
      else splitlines_acc (c :: cur) rest
  end.

Definition splitlines (s : string) : list string := splitlines_acc [] s.

Definition LF : ascii := chr 10.

(** Reading a file opened in text mode ([open(path, 'r')], [newline=None]):
    CR LF and a lone CR come back as LF. *)
Fixpoint universal_newlines (s : string) : string :=
  match s with
  | EmptyString => EmptyString
  | String c rest =>
      if is_cr c then
        match rest with
        | String d rest2 =>
            if is_lf d then String LF (universal_newlines rest2)
            else String LF (universal_newlines rest)
        | EmptyString => String LF EmptyString
        end
      else String c (universal_newlines rest)
  end.

Definition in_range (lo hi : Z) (c : ascii) : bool :=
  ((lo <=? ord c) && (ord c <=? hi))%Z.

(** [\w] of a [str] pattern, on the code points below 256. *)
Definition is_word (c : ascii) : bool :=
  in_range 48 57 c || in_range 65 90 c || in_range 95 95 c
  || in_range 97 122 c || in_range 170 170 c || in_range 178 179 c
  || in_range 181 181 c || in_range 185 186 c || in_range 188 190 c
  || in_range 192 214 c || in_range 216 246 c || in_range 248 255 c.

(** [\s] and [str.isspace], on the code points below 256. *)
Definition is_space (c : ascii) : bool :=
  in_range 9 13 c || in_range 28 32 c || in_range 133 133 c
  || in_range 160 160 c.

Fixpoint filter_chars (keep : ascii -> bool) (s : string) : string :=
  match s with
  | EmptyString => EmptyString
  | String c rest =>
      if keep c then String c (filter_chars keep rest)
      else filter_chars keep rest
  end.

Fixpoint lstrip (s : string) : string :=
  match s with
  | EmptyString => EmptyString
  | String c rest => if is_space c then lstrip rest else s
  end.

Fixpoint rstrip (s : string) : string :=
  match s with
  | EmptyString => EmptyString
  | String c rest =>
      match rstrip rest with
      | EmptyString => if is_space c then EmptyString else String c EmptyString
      | r => String c r
      end
  end.

(** [s.strip()] *)
Definition strip (s : string) : string := rstrip (lstrip s).

(** Comparison of two [str] by code points, as Python's [<] on strings and
    SQLite's BINARY collation on their UTF-8 encodings. *)
Fixpoint ltb (s t : string) : bool :=
  match s, t with
  | _, EmptyString => false
  | EmptyString, String _ _ => true
  | String a s', String b t' =>
      if (ord a <? ord b)%Z then true
      else if (ord b <? ord a)%Z then false
      else ltb s' t'
  end.

(** Decimal rendering of a natural number, as [str(n)] and ['{}'.format(n)]. *)
Definition digit (n : nat) : ascii := chr (48 + Z.of_nat n).

Fixpoint decimal_fuel (fuel n : nat) (acc : string) : string :=
  match fuel with
  | O => acc
  | S fuel' =>
      let acc' := String (digit (n mod 10)) acc in
      if Nat.ltb n 10 then acc' else decimal_fuel fuel' (n / 10) acc'
  end.

Definition decimal (n : nat) : string := decimal_fuel (S n) n EmptyString.

End PyStr.

(** ** hashlib.sha1 and [calculate_hash] *)

Module Hashlib.

Local Open Scope Z_scope.

Definition wrap32 (x : Z) : Z := x mod 2 ^ 32.

Definition rotl (n x : Z) : Z :=
  wrap32 (Z.lor (Z.shiftl x n) (Z.shiftr x (32 - n))).

Definition not32 (x : Z) : Z := 2 ^ 32 - 1 - x.

(** [content.encode('utf-8')] for code points below 256. *)
Definition encode_char (c : ascii) : list Z :=
  let n := PyStr.ord c in
  if n <? 128 then [n]
  else [Z.lor 192 (Z.shiftr n 6); Z.lor 128 (Z.land n 63)].

Fixpoint encode_utf8 (s : string) : list Z :=
  match s with
  | EmptyString => []
  | String c rest => encode_char c ++ encode_utf8 rest
  end.

(** Big-endian bytes of [x], [n] of them. *)
Fixpoint be_bytes (n : nat) (x : Z) : list Z :=
  match n with
  | O => []
  | S n' => Z.shiftr x (8 * Z.of_nat n') mod 256 :: be_bytes n' x
  end.

(** The message followed by the byte 0x80, zeros up to 56 modulo 64, and the
    bit length on eight bytes. *)
Definition pad (msg : list Z) : list Z :=
  let len := Z.of_nat (length msg) in
  let zeros := Z.to_nat ((55 - len) mod 64) in
  msg ++ 128 :: repeat 0 zeros ++ be_bytes 8 (8 * len).

Fixpoint be_word (bs : list Z) : Z :=
  match bs with
  | [] => 0
  | b :: rest => b * 256 ^ Z.of_nat (length rest) + be_word rest
  end.

Fixpoint words_of (n : nat) (bs : list Z) : list Z :=
  match n with
  | O => []
  | S n' => be_word (firstn 4 bs) :: words_of n' (skipn 4 bs)
  end.

(** The message schedule: [w] holds the words so far, most recent first. *)
Fixpoint schedule (n : nat) (w : list Z) : list Z :=
  match n with
  | O => w
  | S n' =>
      let x := Z.lxor (Z.lxor (nth 2 w 0) (nth 7 w 0))
                      (Z.lxor (nth 13 w 0) (nth 15 w 0)) in
      schedule n' (rotl 1 x :: w)
  end.

Record state := State { ha : Z; hb : Z; hc : Z; hd : Z; he : Z }.

Definition round (i : nat) (w : Z) (s : state) : state :=
  let '(State a b c d e) := s in
  let '(f, k) :=
    if Nat.ltb i 20 then
      (Z.lor (Z.land b c) (Z.land (not32 b) d), 1518500249)
    else if Nat.ltb i 40 then
      (Z.lxor (Z.lxor b c) d, 1859775393)
    else if Nat.ltb i 60 then
      (Z.lor (Z.lor (Z.land b c) (Z.land b d)) (Z.land c d), 2400959708)
    else
      (Z.lxor (Z.lxor b c) d, 3395469782) in
  let temp := wrap32 (rotl 5 a + f + e + k + w) in
  State temp a (rotl 30 b) c d.

Fixpoint rounds (i : nat) (ws : list Z) (s : state) : state :=
  match ws with
  | [] => s
  | w :: rest => rounds (S i) rest (round i w s)
  end.

Definition compress (s : state) (chunk : list Z) : state :=
  let ws := rev (schedule 64 (rev (words_of 16 chunk))) in
  let '(State a b c d e) := rounds 0 ws s in
  State (wrap32 (ha s + a)) (wrap32 (hb s + b)) (wrap32 (hc s + c))
        (wrap32 (hd s + d)) (wrap32 (he s + e)).

Fixpoint chunks (n : nat) (bs : list Z) (s : state) : state :=
  match n with
  | O => s
  | S n' => chunks n' (skipn 64 bs) (compress s (firstn 64 bs))
  end.

Definition init : state :=
  State 1732584193 4023233417 2562383102 271733878 3285377520.

Definition sha1 (msg : list Z) : list Z :=
  let p := pad msg in
  let '(State a b c d e) := chunks (length p / 64) p init in
  be_bytes 4 a ++ be_bytes 4 b ++ be_bytes 4 c ++ be_bytes 4 d ++ be_bytes 4 e.

Definition hex_digit (n : Z) : ascii :=
  if n <? 10 then PyStr.chr (48 + n) else PyStr.chr (87 + n).

Fixpoint hexdigest (bs : list Z) : string :=
  match bs with
  | [] => EmptyString
  | b :: rest => String (hex_digit (b / 16)) (String (hex_digit (b mod 16)) (hexdigest rest))
  end.

End Hashlib.

(** [utils/hash_utils.py: calculate_hash], on a [str] argument. *)
Definition calculate_hash (content : string) : string :=
  Hashlib.hexdigest (Hashlib.sha1 (Hashlib.encode_utf8 content)).

Arguments calculate_hash : simpl never.

(** ** difflib.unified_diff

    A transcription of CPython's [difflib.py]: [SequenceMatcher(None, a, b)]
    (no junk predicate, [autojunk] on) and [unified_diff] with empty file
    dates.  Sequence indices are natural numbers. *)

Module Difflib.

Inductive tag := Replace | Delete | Insert | Equal.

Definition opcode : Type := tag * nat * nat * nat * nat.

Definition is_equal (t : tag) : bool :=
  match t with Equal => true | _ => false end.

Section SequenceMatcher.

Variables a b : list string.

Definition item (l : list string) (i : nat) : string := nth i l "".

(** The positions of [elt] in [b], increasing: [b2j[elt]] before purging. *)
Fixpoint positions (elt : string) (j : nat) (l : list string) : list nat :=
  match l with
  | [] => []
  | x :: rest =>
      if String.eqb x elt then j :: positions elt (S j) rest
      else positions elt (S j) rest
  end.

(** [__chain_b]: with [n >= 200] an element occurring more than
    [n // 100 + 1] times is popular and loses its entry in [b2j]. *)
Definition popular (elt : string) : bool :=
  let n := length b in
  Nat.leb 200 n && Nat.ltb (n / 100 + 1) (length (positions elt 0 b)).

(** [b2j.get(elt, nothing)] *)
Definition b2j_get (elt : string) : list nat :=
  if popular elt then [] else positions elt 0 b.

Fixpoint j2len_get (j2len : list (nat * nat)) (j : nat) : nat :=
  match j2len with
  | [] => 0
  | (j', k) :: rest => if Nat.eqb j' j then k else j2len_get rest j
  end.

Definition best : Type := nat * nat * nat.

(** The inner loop of [find_longest_match] over the positions of [a[i]]. *)
Fixpoint scan_positions (i blo bhi : nat) (j2len : list (nat * nat))
    (js : list nat) (newj2len : list (nat * nat)) (bst : best)
    : list (nat * nat) * best :=
  match js with
  | [] => (newj2len, bst)
  | j :: rest =>
      if Nat.ltb j blo then scan_positions i blo bhi j2len rest newj2len bst
      else if Nat.leb bhi j then (newj2len, bst)
      else
        let k := (match j with O => 0 | S j' => j2len_get j2len j' end) + 1 in
        let '(_, _, bestsize) := bst in
        let bst' := if Nat.ltb bestsize k then (i + 1 - k, j + 1 - k, k) else bst in
        scan_positions i blo bhi j2len rest ((j, k) :: newj2len) bst'
  end.

Fixpoint scan_rows (blo bhi : nat) (rows : list nat)
    (j2len : list (nat * nat)) (bst : best) : best :=
  match rows with
  | [] => bst
  | i :: rest =>
      let '(newj2len, bst') :=
        scan_positions i blo bhi j2len (b2j_get (item a i)) [] bst in
      scan_rows blo bhi rest newj2len bst'
  end.

(** The first [while] loop: extend the match to the left. *)
Fixpoint extend_left (fuel alo blo : nat) (bst : best) : best :=
  match fuel with
  | O => bst
  | S fuel' =>
      let '(besti, bestj, bestsize) := bst in
      if Nat.ltb alo besti && Nat.ltb blo bestj
         && String.eqb (item a (besti - 1)) (item b (bestj - 1))
      then extend_left fuel' alo blo (besti - 1, bestj - 1, bestsize + 1)
      else bst
  end.

(** The second [while] loop: extend the match to the right. *)
Fixpoint extend_right (fuel ahi bhi : nat) (bst : best) : best :=
  match fuel with
  | O => bst
  | S fuel' =>
      let '(besti, bestj, bestsize) := bst in
      if Nat.ltb (besti + bestsize) ahi && Nat.ltb (bestj + bestsize) bhi
         && String.eqb (item a (besti + bestsize)) (item b (bestj + bestsize))
      then extend_right fuel' ahi bhi (besti, bestj, bestsize + 1)
      else bst
  end.

(** [find_longest_match(alo, ahi, blo, bhi)]; the two loops over junk
    elements never run, [bjunk] being empty. *)
Definition find_longest_match (alo ahi blo bhi : nat) : best :=
  let bst := scan_rows blo bhi (seq alo (ahi - alo)) [] (alo, blo, 0) in
  let bst := extend_left (length a) alo blo bst in
  extend_right (length a) ahi bhi bst.

(** The [while queue] loop of [get_matching_blocks]; the queue is a stack
    whose top is the head of the list.  At most [2 * len(a) + 1] ranges are
    ever popped. *)
Fixpoint drain (fuel : nat) (queue : list (nat * nat * nat * nat))
    (blocks : list best) : list best :=
  match fuel, queue with
  | O, _ => blocks
  | _, [] => blocks
  | S fuel', (alo, ahi, blo, bhi) :: queue' =>
      let '(i, j, k) := find_longest_match alo ahi blo bhi in
      if Nat.eqb k 0 then drain fuel' queue' blocks
      else
        let q1 := if Nat.ltb alo i && Nat.ltb blo j
                  then (alo, i, blo, j) :: queue' else queue' in
        let q2 := if Nat.ltb (i + k) ahi && Nat.ltb (j + k) bhi
                  then (i + k, ahi, j + k, bhi) :: q1 else q1 in
        drain fuel' q2 (blocks ++ [(i, j, k)])
  end.

Definition best_leb (x y : best) : bool :=
  let '(i1, j1, k1) := x in
  let '(i2, j2, k2) := y in
  Nat.ltb i1 i2
  || Nat.eqb i1 i2 && (Nat.ltb j1 j2 || Nat.eqb j1 j2 && Nat.leb k1 k2).

Fixpoint insert_sorted (x : best) (l : list best) : list best :=
  match l with
  | [] => [x]
  | y :: rest => if best_leb x y then x :: l else y :: insert_sorted x rest
  end.

(** [matching_blocks.sort()] *)
Definition sort_blocks (l : list best) : list best :=
  fold_right insert_sorted [] l.

(** Collapsing adjacent blocks; [cur] is [(i1, j1, k1)]. *)
Fixpoint collapse (cur : best) (blocks : list best) : list best :=
  let '(i1, j1, k1) := cur in
  match blocks with
  | [] => if Nat.eqb k1 0 then [] else [cur]
  | (i2, j2, k2) :: rest =>
      if Nat.eqb (i1 + k1) i2 && Nat.eqb (j1 + k1) j2
      then collapse (i1, j1, k1 + k2) rest
      else (if Nat.eqb k1 0 then [] else [cur]) ++ collapse (i2, j2, k2) rest
  end.

Definition get_matching_blocks : list best :=
  let la := length a in
  let lb := length b in
  let blocks := drain (2 * la + 1) [(0, la, 0, lb)] [] in
  collapse (0, 0, 0) (sort_blocks blocks) ++ [(la, lb, 0)].

Fixpoint opcodes_from (i j : nat) (blocks : list best) : list opcode :=
  match blocks with
  | [] => []
  | (ai, bj, size) :: rest =>
      let change :=
        if Nat.ltb i ai && Nat.ltb j bj then [(Replace, i, ai, j, bj)]
        else if Nat.ltb i ai then [(Delete, i, ai, j, bj)]
        else if Nat.ltb j bj then [(Insert, i, ai, j, bj)]
        else [] in
      let same :=
        if Nat.eqb size 0 then [] else [(Equal, ai, ai + size, bj, bj + size)] in
      change ++ same ++ opcodes_from (ai + size) (bj + size) rest
  end.

Definition get_opcodes : list opcode := opcodes_from 0 0 get_matching_blocks.

(** [codes[0] = tag, max(i1, i2-n), i2, max(j1, j2-n), j2] *)
Definition trim_first (n : nat) (codes : list opcode) : list opcode :=
  match codes with
  | (Equal, i1, i2, j1, j2) :: rest =>
      (Equal, Nat.max i1 (i2 - n), i2, Nat.max j1 (j2 - n), j2) :: rest
  | _ => codes
  end.

(** [codes[-1] = tag, i1, min(i2, i1+n), j1, min(j2, j1+n)] *)
Fixpoint trim_last (n : nat) (codes : list opcode) : list opcode :=
  match codes with
  | [] => []
  | [(Equal, i1, i2, j1, j2)] =>
      [(Equal, i1, Nat.min i2 (i1 + n), j1, Nat.min j2 (j1 + n))]
  | c :: rest => c :: trim_last n rest
  end.

(** The loop of [get_grouped_opcodes]; [group] is the group being built. *)
Fixpoint group_codes (n : nat) (codes : list opcode) (group : list opcode)
    : list (list opcode) :=
  match codes with
  | [] =>
      match group with
      | [] => []
      | [(Equal, _, _, _, _)] => []
      | _ => [group]
      end
  | (t, i1, i2, j1, j2) :: rest =>
      if is_equal t && Nat.ltb (n + n) (i2 - i1) then
        (group ++ [(t, i1, Nat.min i2 (i1 + n), j1, Nat.min j2 (j1 + n))])
        :: group_codes n rest [(t, Nat.max i1 (i2 - n), i2, Nat.max j1 (j2 - n), j2)]
      else group_codes n rest (group ++ [(t, i1, i2, j1, j2)])
  end.

Definition get_grouped_opcodes (n : nat) : list (list opcode) :=
  let codes := match get_opcodes with [] => [(Equal, 0, 1, 0, 1)] | c => c end in
  group_codes n (trim_last n (trim_first n codes)) [].

Definition slice (l : list string) (i1 i2 : nat) : list string :=
  firstn (i2 - i1) (skipn i1 l).

Definition _format_range_unified (start stop : nat) : string :=
  let beginning := start + 1 in
  let len := stop - start in
  if Nat.eqb len 1 then PyStr.decimal beginning
  else
    let beginning := if Nat.eqb len 0 then beginning - 1 else beginning in
    PyStr.decimal beginning +:+ "," +:+ PyStr.decimal len.

Definition opcode_lines (c : opcode) : list string :=
  let '(t, i1, i2, j1, j2) := c in
  match t with
  | Equal => map (fun line => " " +:+ line) (slice a i1 i2)
  | Replace =>
      map (fun line => "-" +:+ line) (slice a i1 i2)
      ++ map (fun line => "+" +:+ line) (slice b j1 j2)
  | Delete => map (fun line => "-" +:+ line) (slice a i1 i2)
  | Insert => map (fun line => "+" +:+ line) (slice b j1 j2)
  end.

Definition hunk (lineterm : string) (group : list opcode) : list string :=
  match group, List.last group (Equal, 0, 0, 0, 0) with
  | (_, fi1, _, fj1, _) :: _, (_, _, li2, _, lj2) =>
      ("@@ -" +:+ _format_range_unified fi1 li2 +:+ " +"
        +:+ _format_range_unified fj1 lj2 +:+ " @@" +:+ lineterm)
      :: concat (map opcode_lines group)
  | [], _ => []
  end.

(** [unified_diff(a, b, fromfile, tofile, n=n, lineterm=lineterm)] as the
    list of the lines it yields. *)
Definition unified_diff (fromfile tofile : string) (n : nat)
    (lineterm : string) : list string :=
  match get_grouped_opcodes n with
  | [] => []
  | groups =>
      ("--- " +:+ fromfile +:+ lineterm) :: ("+++ " +:+ tofile +:+ lineterm)
      :: concat (map (hunk lineterm) groups)
  end.

End SequenceMatcher.

(** The default of the keyword [n]: three lines of context. *)
Definition default_context : nat := 3.

End Difflib.

(** ** Insertion-ordered dictionaries

    A Python [dict] keyed by strings, as the list of its items in insertion
    order.  [set] overwrites in place or appends, as [d[k] = v] does. *)

Module OD.

Definition odict (V : Type) : Type := list (string * V).

Section Ops.

Context {V : Type}.

Fixpoint get (k : string) (d : odict V) : option V :=
  match d with
  | [] => None
  | (k', v) :: rest => if String.eqb k' k then Some v else get k rest
  end.

Fixpoint set (k : string) (v : V) (d : odict V) : odict V :=
  match d with
  | [] => [(k, v)]
  | (k', v') :: rest =>
      if String.eqb k' k then (k, v) :: rest else (k', v') :: set k v rest
  end.

Definition mem (k : string) (d : odict V) : bool :=
  match get k d with Some _ => true | None => false end.

Definition keys (d : odict V) : list string := map fst d.

End Ops.

End OD.

Abbreviation odict := OD.odict.

(** ** Data shared by the two backends *)

(** Python truthiness of an optional string: [None] and [''] are falsy. *)
Definition truthy (o : option string) : bool :=
  match o with
  | Some (String _ _) => true
  | _ => false
  end.

Inductive status := added | modified | deleted.

(** One entry of a change record:
    [{"status", "diff", "previous_hash", "current_hash"}]. *)
Record change := Change {
  change_status : status;
  diff : option string;
  previous_hash : option string;
  current_hash : option string
}.

(** The [{"hash": ..., "content": ...}] dictionaries of the change engine; a
    missing object and a NULL column read as [None]. *)
Record file_entry := FileEntry {
  hash : string;
  content : option string
}.

(** One file of a pushed commit, as the client sends it. *)
Record file_info := FileInfo {
  fi_hash : string;
  fi_content : string
}.

(** The JSON body of a push.  Every key is present; [parent_id] may be null. *)
Record push_data := PushData {
  repo_name : string;
  id : string;
  message : string;
  author : string;
  timestamp : string;
  parent_id : option string;
  files : odict file_info
}.

(** The JSON body of pull and clone. *)
Record sync_data := SyncData {
  source_repo : string;
  target_repo : string
}.

(** One entry of [get_commits]. *)
Record commit_summary := CommitSummary {
  cs_id : string;
  cs_message : string;
  cs_author : string;
  cs_timestamp : string;
  cs_parent_id : option string;
  cs_change_count : nat
}.

(** The [last_commit] entry of [list_repos]. *)
Record commit_info := CommitInfo {
  ci_id : string;
  ci_message : string;
  ci_author : string;
  ci_timestamp : string
}.

Record repo_stats := RepoStats {
  commit_count : nat;
  file_count : nat;
  last_commit : option commit_info
}.

(** [get_commit]: the commit with its files and its change record. *)
Record commit_details := CommitDetails {
  cd_id : string;
  cd_message : string;
  cd_author : string;
  cd_timestamp : string;
  cd_parent_id : option string;
  cd_files : gmap string file_entry;
  cd_changes : gmap string change
}.

Inductive exn :=
| KeyError (key : string)
| TypeError
| AttributeError
| FileNotFoundError
| IntegrityError
| RecursionError
| OperationalError
| OSError.

(** The JSON payload of a response. *)
Inductive payload :=
| Message (msg : string)
| Error (msg : string)
| Failure (context : string) (e : exn)
| Pushed (msg : string) (changes : nat)
| Pulled (msg : string) (pulled_commits skipped_commits : nat)
| Cloned (msg : string) (commit_count file_count : nat)
| Exists (exists_ : bool)
| Commits (l : list commit_summary)
| CommitFound (c : commit_details)
| Changes (c : gmap string change).

Definition response : Type := payload * nat.

Definition is_success (r : response) : bool := Nat.eqb (snd r) 200.

Definition is_name_char (c : ascii) : bool :=
  PyStr.in_range 97 122 c || PyStr.in_range 65 90 c || PyStr.in_range 48 57 c
  || PyStr.in_range 95 95 c || PyStr.in_range 45 45 c.

(** The rest of a match of [[a-zA-Z0-9_-]+$]: [$] also matches just before a
    final line feed. *)
Fixpoint name_tail (s : string) : bool :=
  match s with
  | EmptyString => true
  | String c rest =>
      if is_name_char c then name_tail rest
      else PyStr.is_lf c && match rest with EmptyString => true | _ => false end
  end.

(** [validate_repo_name]: [bool(re.match(r'^[a-zA-Z0-9_-]+$', repo_name))],
    the same in both backends. *)
Definition validate_repo_name (repo_name : string) : bool :=
  match repo_name with
  | EmptyString => false
  | String c rest => is_name_char c && name_tail rest
  end.

(** [utils/path_utils.py: sanitize_path] *)
Definition sanitize_path (path : string) : string :=
  let keep c :=
    PyStr.is_word c || PyStr.is_space c || PyStr.in_range 45 46 c in
  PyStr.strip (PyStr.filter_chars keep path).

(** [get_repo_path], relative to the backend's base directory. *)
Definition get_repo_path (repo_name : string) : string :=
  sanitize_path repo_name.

(** Whether [os.path.join(base_dir, sanitize_path(repo_name))] is a directory
    inside the base directory.  It is not when [sanitize_path] leaves
    nothing or a single dot, which name the base directory itself, or two
    dots, which name the directory above it. *)
Definition names_repository (repo_name : string) : bool :=
  negb (String.eqb (sanitize_path repo_name) ""
        || String.eqb (sanitize_path repo_name) "."
        || String.eqb (sanitize_path repo_name) "..").

Arguments get_repo_path : simpl never.
Arguments validate_repo_name : simpl never.

(** [sorted(..., key=timestamp, reverse=True)] and [ORDER BY timestamp DESC]:
    a stable insertion sort, later timestamps first. *)
Section Sorting.

Context {A : Type} (key : A -> string).

Fixpoint insert_desc (x : A) (l : list A) : list A :=
  match l with
  | [] => [x]
  | y :: rest =>
      if PyStr.ltb (key x) (key y) then y :: insert_desc x rest else x :: l
  end.

Definition sort_desc (l : list A) : list A := fold_right insert_desc [] l.

Fixpoint insert_asc (x : A) (l : list A) : list A :=
  match l with
  | [] => [x]
  | y :: rest =>
      if PyStr.ltb (key y) (key x) then y :: insert_asc x rest else x :: l
  end.

Definition sort_asc (l : list A) : list A := fold_right insert_asc [] l.

End Sorting.

(** One entry of [get_commit_history]: the commit and what its change
    record holds for the file. *)
Record history_entry := HistoryEntry {
  he_commit_id : string;
  he_message : string;
  he_author : string;
  he_timestamp : string;
  he_status : status;
  he_diff : option string;
  he_previous_hash : option string;
  he_current_hash : option string
}.

(** [change_info.get("diff") if change_info.get("status") == "modified" else
    None] *)
Definition history_diff (change_info : change) : option string :=
  match change_status change_info with
  | modified => diff change_info
  | _ => None
  end.

(** ** Handlers as state transformers with exceptions

    A computation runs on the store of type [S] and either returns a value
    or raises; what it wrote before raising stays written. *)

Inductive outcome (A : Type) :=
| Return (a : A)
| Raise (e : exn).

Arguments Return {A} a.
Arguments Raise {A} e.

Definition M (S A : Type) : Type := S -> S * outcome A.

Definition ret {S A} (a : A) : M S A := fun s => (s, Return a).

Definition raise {S A} (e : exn) : M S A := fun s => (s, Raise e).

Definition bind {S A B} (m : M S A) (k : A -> M S B) : M S B :=
  fun s =>
    match m s with
    | (s', Return a) => k a s'
    | (s', Raise e) => (s', Raise e)
    end.

Notation "x <- m ;; k" := (bind m (fun x => k))
  (at level 100, m at next level, right associativity).
Notation "m ;;; k" := (bind m (fun _ => k))
  (at level 100, right associativity).

(** [try: body except Exception as e: handler(e)] *)
Definition try_except {S A} (body : M S A) (handler : exn -> M S A) : M S A :=
  fun s =>
    match body s with
    | (s', Return a) => (s', Return a)
    | (s', Raise e) => handler e s'
    end.

(** A handler whose [try] covers its body always answers. *)
Definition answer {S} (m : M S response) (context : string) : S -> S * response :=
  fun s =>
    match m s with
    | (s', Return r) => (s', r)
    | (s', Raise e) => (s', (Failure context e, 500))
    end.

(** ** The document backend: [graph.json] and flat-file objects *)

Module GraphDatabaseImplementation.

(** A value of the ["commits"] dictionary of [graph.json]. *)
Record commit := Commit {
  c_message : string;
  c_author : string;
  c_timestamp : string;
  c_parent_id : option string;
  c_files : odict string
}.

Record graph_data := GraphData {
  commits : odict commit;
  changes : gmap string (gmap string change);
  branches : gmap string (option string);
  HEAD : option string
}.

(** A repository directory: [graph.json] when it exists, and the files below
    [objects/], keyed by the object hash that names them. *)
Record repo_dir := RepoDir {
  graph_json : option graph_data;
  objects : gmap string string
}.

(** The directories below [./repositories/graph_db]. *)
Abbreviation store := (gmap string repo_dir).

Abbreviation io := (M store).

Definition empty_dir : repo_dir := RepoDir None ∅.

(** [os.makedirs(d, exist_ok=True)] *)
Definition makedirs (d : string) : io unit :=
  fun fs =>
    match fs !! d with
    | Some _ => (fs, Return tt)
    | None => (<[d := empty_dir]> fs, Return tt)
    end.

(** [get_objects_dir]: creates the directory when it is missing. *)
Definition get_objects_dir (repo_name : string) : io string :=
  let repo_dir := get_repo_path repo_name in
  makedirs repo_dir ;;; ret repo_dir.

(** [with open(graph_db_path, 'r') as f: json.load(f)] *)
Definition read_graph (repo_name : string) : io graph_data :=
  fun fs =>
    match fs !! get_repo_path repo_name with
    | Some (RepoDir (Some g) _) => (fs, Return g)
    | _ => (fs, Raise FileNotFoundError)
    end.

(** [with open(graph_db_path, 'w') as f: json.dump(graph_data, f)] *)
Definition write_graph (repo_name : string) (g : graph_data) : io unit :=
  fun fs =>
    match fs !! get_repo_path repo_name with
    | Some dir =>
        (<[get_repo_path repo_name := RepoDir (Some g) (objects dir)]> fs, Return tt)
    | None => (fs, Raise FileNotFoundError)
    end.

(** [os.path.exists(graph_db_path)] *)
Definition graph_exists (fs : store) (repo_name : string) : bool :=
  match fs !! get_repo_path repo_name with
  | Some (RepoDir (Some _) _) => true
  | _ => false
  end.

(** [os.path.exists(repo_dir)] *)
Definition dir_exists (fs : store) (repo_name : string) : bool :=
  match fs !! get_repo_path repo_name with
  | Some _ => true
  | None => false
  end.

Definition empty_graph : graph_data :=
  GraphData [] ∅ {["main" := None]} None.

Definition init_repo_graph (repo_name : string) : io unit :=
  fun fs =>
    if graph_exists fs repo_name then (fs, Return tt)
    else write_graph repo_name empty_graph fs.

(** The three calls that make a repository: the directory, its objects
    directory, its graph. *)
Definition make_repo (repo_name : string) : io unit :=
  makedirs (get_repo_path repo_name) ;;;
  get_objects_dir repo_name ;;;
  init_repo_graph repo_name.

Definition create_repo (name : string) : io response :=
  if negb (validate_repo_name name) then
    ret (Error "Invalid repository name", 400)
  else fun fs =>
    if dir_exists fs name then
      (fs, Return (Message ("Repository '" +:+ name +:+ "' already exists"), 200))
    else
      (make_repo name ;;;
       ret (Message ("Repository '" +:+ name +:+ "' created successfully"), 200)) fs.

Definition count_files (cs : odict commit) : nat :=
  fold_left (fun n kv => n + length (c_files (snd kv))) cs 0.

(** The statistics [list_repos] reports for one repository. *)
Definition repo_info (g : graph_data) : repo_stats :=
  let last :=
    match HEAD g with
    | Some (String _ _ as head_commit_id) =>
        match OD.get head_commit_id (commits g) with
        | Some c =>
            Some (CommitInfo head_commit_id (c_message c) (c_author c) (c_timestamp c))
        | None => None
        end
    | _ => None
    end in
  RepoStats (length (commits g)) (count_files (commits g)) last.

(** [list_repos], keyed by directory name: only directories holding a
    [graph.json] are listed. *)
Definition list_repos (fs : store) : gmap string repo_stats :=
  omap (fun dir => repo_info <$> graph_json dir) fs.

Definition summary (g : graph_data) (kv : string * commit) : commit_summary :=
  let '(commit_id, c) := kv in
  let change_count :=
    match changes g !! commit_id with
    | Some ch => size ch
    | None => 0
    end in
  CommitSummary commit_id (c_message c) (c_author c) (c_timestamp c)
    (c_parent_id c) change_count.

Definition not_found (repo_name : string) : response :=
  (Error ("Repository '" +:+ repo_name +:+ "' not found"), 404).

Definition get_commits (repo_name : string) (fs : store) : response :=
  match fs !! get_repo_path repo_name with
  | Some (RepoDir (Some g) _) =>
      (Commits (sort_desc cs_timestamp (map (summary g) (commits g))), 200)
  | _ => not_found repo_name
  end.

(** [get_object_content]: the text of the object file, read in text mode, or
    [None] when there is no such file. *)
Definition get_object_content (repo_name object_hash : string)
    : io (option string) :=
  objects_dir <- get_objects_dir repo_name ;;
  fun fs =>
    match fs !! objects_dir with
    | Some dir => (fs, Return (PyStr.universal_newlines <$> objects dir !! object_hash))
    | None => (fs, Return None)
    end.

(** The loops that fill [files_data], [parent_files] and [current_files]. *)
Fixpoint load_files (repo_name : string) (files : odict string)
    (acc : gmap string file_entry) : io (gmap string file_entry) :=
  match files with
  | [] => ret acc
  | (file_path, file_hash) :: rest =>
      content <- get_object_content repo_name file_hash ;;
      load_files repo_name rest (<[file_path := FileEntry file_hash content]> acc)
  end.

Definition get_commit (repo_name commit_id : string) : store -> store * response :=
  fun fs =>
    if negb (graph_exists fs repo_name) then (fs, not_found repo_name)
    else
      answer
        (graph_data <- read_graph repo_name ;;
         match OD.get commit_id (commits graph_data) with
         | None => ret (Error ("Commit '" +:+ commit_id +:+ "' not found"), 404)
         | Some commit_data =>
             files_data <- load_files repo_name (c_files commit_data) ∅ ;;
             let changes_data := default ∅ (changes graph_data !! commit_id) in
             ret (CommitFound
                    (CommitDetails commit_id (c_message commit_data)
                       (c_author commit_data) (c_timestamp commit_data)
                       (c_parent_id commit_data) files_data changes_data), 200)
         end)
        "Error getting commit" fs.

Definition check_commit (repo_name commit_id : string) (fs : store) : response :=
  match fs !! get_repo_path repo_name with
  | Some (RepoDir (Some g) _) => (Exists (OD.mem commit_id (commits g)), 200)
  | _ => (Exists false, 404)
  end.

(** [store_object]: the object file is written only when no file of that
    name exists. *)
Definition store_object (repo_name content : string) : io string :=
  let object_hash := calculate_hash content in
  objects_dir <- get_objects_dir repo_name ;;
  fun fs =>
    match fs !! objects_dir with
    | Some dir =>
        match objects dir !! object_hash with
        | Some _ => (fs, Return object_hash)
        | None =>
            (<[objects_dir :=
                 RepoDir (graph_json dir) (<[object_hash := content]> (objects dir))]> fs,
             Return object_hash)
        end
    | None => (fs, Raise FileNotFoundError)
    end.

(** The body of [for file_path in all_paths] in [calculate_changes];
    [all_paths] is a set, visited in no particular order. *)
Fixpoint changes_loop (parent_files current_files : gmap string file_entry)
    (all_paths : list string) (changes : gmap string change)
    : outcome (gmap string change) :=
  match all_paths with
  | [] => Return changes
  | file_path :: rest =>
      match current_files !! file_path, parent_files !! file_path with
      | Some cur, None =>
          changes_loop parent_files current_files rest
            (<[file_path := Change added None None (Some (hash cur))]> changes)
      | None, Some par =>
          changes_loop parent_files current_files rest
            (<[file_path := Change deleted None (Some (hash par)) None]> changes)
      | Some cur, Some par =>
          if negb (String.eqb (hash cur) (hash par)) then
            match content par, content cur with
            | Some old, Some new =>
                let diff :=
                  PyStr.join (String PyStr.LF EmptyString)
                    (Difflib.unified_diff (PyStr.splitlines old) (PyStr.splitlines new)
                       ("a/" +:+ file_path) ("b/" +:+ file_path)
                       Difflib.default_context "") in
                changes_loop parent_files current_files rest
                  (<[file_path :=
                       Change modified (Some diff) (Some (hash par)) (Some (hash cur))]>
                     changes)
            | _, _ => Raise AttributeError
            end
          else changes_loop parent_files current_files rest changes
      | None, None => Raise (KeyError file_path)
      end
  end.

(** The loop of the branch without a parent: every file is added. *)
Fixpoint added_loop (files : odict string) (changes : gmap string change)
    : gmap string change :=
  match files with
  | [] => changes
  | (file_path, file_hash) :: rest =>
      added_loop rest (<[file_path := Change added None None (Some file_hash)]> changes)
  end.

(** [parent_files] of [calculate_changes]: empty when the parent is not in
    the graph. *)
Definition load_parent_files (repo_name parent_id : string) (g : graph_data)
    : io (gmap string file_entry) :=
  match OD.get parent_id (commits g) with
  | Some parent_commit => load_files repo_name (c_files parent_commit) ∅
  | None => ret ∅
  end.

(** [calculate_changes(repo_name, commit_data)], [commit_data] holding
    [parent_id] and [files]. *)
Definition calculate_changes (repo_name : string) (parent_id : option string)
    (files : odict string) : io (gmap string change) :=
  graph_data <- read_graph repo_name ;;
  match parent_id with
  | Some (String _ _ as parent) =>
      parent_files <- load_parent_files repo_name parent graph_data ;;
      current_files <- load_files repo_name files ∅ ;;
      let all_paths := elements (dom parent_files ∪ dom current_files) in
      fun fs => (fs, changes_loop parent_files current_files all_paths ∅)
  | _ => ret (added_loop files ∅)
  end.

(** The first loop of [push_commit]: store every file, collect the hashes. *)
Fixpoint store_files (repo_name : string) (files : odict file_info)
    (files_hashes : odict string) : io (odict string) :=
  match files with
  | [] => ret files_hashes
  | (file_path, file_info) :: rest =>
      file_hash <- store_object repo_name (fi_content file_info) ;;
      store_files repo_name rest (OD.set file_path file_hash files_hashes)
  end.

(** [current_head is None or current_head == data.get('parent_id')] *)
Definition advances (current_head parent_id : option string) : bool :=
  match current_head with
  | None => true
  | Some _ => bool_decide (current_head = parent_id)
  end.

Definition push_body (data : push_data) : io response :=
  graph_data <- read_graph (repo_name data) ;;
  if OD.mem (id data) (commits graph_data) then
    ret (Message ("Commit '" +:+ id data +:+ "' already exists"), 200)
  else
    files_hashes <- store_files (repo_name data) (files data) [] ;;
    let commit_data :=
      Commit (message data) (author data) (timestamp data) (parent_id data)
        files_hashes in
    changes_ <- calculate_changes (repo_name data) (parent_id data) files_hashes ;;
    let commits' := OD.set (id data) commit_data (commits graph_data) in
    let changes' := <[id data := changes_]> (changes graph_data) in
    let graph_data' :=
      if advances (HEAD graph_data) (parent_id data) then
        GraphData commits' changes'
          (<["main" := Some (id data)]> (branches graph_data)) (Some (id data))
      else
        GraphData commits' changes' (branches graph_data) (HEAD graph_data) in
    write_graph (repo_name data) graph_data' ;;;
    ret (Pushed ("Commit '" +:+ id data +:+ "' pushed successfully") (size changes_),
         200).

Definition push_commit (data : push_data) : store -> store * response :=
  fun fs =>
    if negb (validate_repo_name (repo_name data)) then
      (fs, (Error "Invalid repository name", 400))
    else
      let fs1 :=
        if dir_exists fs (repo_name data) then fs
        else fst (make_repo (repo_name data) fs) in
      answer (push_body data) "Error pushing commit" fs1.

Definition get_changes (repo_name commit_id : string) (fs : store) : response :=
  match fs !! get_repo_path repo_name with
  | Some (RepoDir (Some g) _) =>
      if OD.mem commit_id (commits g) then
        (Changes (default ∅ (changes g !! commit_id)), 200)
      else (Error ("Commit '" +:+ commit_id +:+ "' not found"), 404)
  | _ => not_found repo_name
  end.

(** The nested function [visit] of [pull_commits]; its state is the pair of
    [visited] and [commit_order].  [fuel] is the number of nested calls the
    interpreter still allows: every call of [visit] takes one, and a call
    made when none is left raises [RecursionError], here [None]. *)
Fixpoint visit (fuel : nat) (source_commits : odict commit) (commit_id : string)
    (st : gset string * list string) : option (gset string * list string) :=
  match fuel with
  | O => None
  | S fuel' =>
      let '(visited, commit_order) := st in
      if bool_decide (commit_id ∈ visited) then Some st
      else
        let visited := {[commit_id]} ∪ visited in
        let parent_id :=
          match OD.get commit_id source_commits with
          | Some c => c_parent_id c
          | None => None
          end in
        let after_parent :=
          match parent_id with
          | Some (String _ _ as parent) =>
              visit fuel' source_commits parent (visited, commit_order)
          | _ => Some (visited, commit_order)
          end in
        match after_parent with
        | Some (visited, commit_order) => Some (visited, commit_order ++ [commit_id])
        | None => None
        end
  end.

(** [for commit_id in source_commits: visit(commit_id)] *)
Fixpoint visit_all (fuel : nat) (source_commits : odict commit)
    (ids : list string) (st : gset string * list string)
    : option (gset string * list string) :=
  match ids with
  | [] => Some st
  | commit_id :: rest =>
      match visit fuel source_commits commit_id st with
      | Some st' => visit_all fuel source_commits rest st'
      | None => None
      end
  end.

(** The visitation order of a pull.  [limit] is the number of nested calls
    of [visit] that Python's recursion limit leaves at the point where
    [pull_commits] runs its first loop; the order is [None] when a chain of
    parents needs more. *)
Definition commit_order (limit : nat) (source_commits : odict commit)
    : option (list string) :=
  snd <$> visit_all limit source_commits (OD.keys source_commits) (∅, []).

(** The state of the second loop of [pull_commits]. *)
Record pull_state := PullState {
  st_graph : graph_data;
  st_ids : gset string;
  st_pulled : nat;
  st_skipped : nat
}.

(** [parent_id and parent_id not in target_commit_ids] *)
Definition parent_missing (parent_id : option string) (ids : gset string) : bool :=
  match parent_id with
  | Some (String _ _ as parent) => negb (bool_decide (parent ∈ ids))
  | _ => false
  end.

(** Copy the objects of one commit from the source to the target. *)
Fixpoint copy_files (source_repo target_repo : string) (files : odict string)
    (files_dict : odict string) : io (odict string) :=
  match files with
  | [] => ret files_dict
  | (file_path, file_hash) :: rest =>
      content <- get_object_content source_repo file_hash ;;
      match content with
      | Some text =>
          new_hash <- store_object target_repo text ;;
          copy_files source_repo target_repo rest (OD.set file_path new_hash files_dict)
      | None => raise TypeError
      end
  end.

Fixpoint pull_loop (source_repo target_repo : string) (source : graph_data)
    (order : list string) (st : pull_state) : io pull_state :=
  match order with
  | [] => ret st
  | commit_id :: rest =>
      if bool_decide (commit_id ∈ st_ids st) then
        pull_loop source_repo target_repo source rest
          (PullState (st_graph st) (st_ids st) (st_pulled st) (st_skipped st + 1))
      else
        match OD.get commit_id (commits source) with
        | None => raise (KeyError commit_id)
        | Some commit_data =>
            if parent_missing (c_parent_id commit_data) (st_ids st)
            then pull_loop source_repo target_repo source rest st
            else
              files_dict <-
                copy_files source_repo target_repo (c_files commit_data) [] ;;
              let tg := st_graph st in
              let commits' :=
                OD.set commit_id
                  (Commit (c_message commit_data) (c_author commit_data)
                     (c_timestamp commit_data) (c_parent_id commit_data) files_dict)
                  (commits tg) in
              let changes' :=
                match changes source !! commit_id with
                | Some ch => <[commit_id := ch]> (changes tg)
                | None => changes tg
                end in
              let tg' :=
                match HEAD tg with
                | None =>
                    GraphData commits' changes'
                      (<["main" := Some commit_id]> (branches tg)) (Some commit_id)
                | Some _ => GraphData commits' changes' (branches tg) (HEAD tg)
                end in
              pull_loop source_repo target_repo source rest
                (PullState tg' ({[commit_id]} ∪ st_ids st)
                   (st_pulled st + 1) (st_skipped st))
        end
  end.

Definition pulled_message (source_repo target_repo : string) (n : nat) : string :=
  "Pulled " +:+ PyStr.decimal n +:+ " commits from '" +:+ source_repo
  +:+ "' to '" +:+ target_repo +:+ "'".

Definition pull_body (limit : nat) (source_repo target_repo : string)
    : io response :=
  source_graph_data <- read_graph source_repo ;;
  target_graph_data <- read_graph target_repo ;;
  let target_commit_ids : gset string :=
    list_to_set (OD.keys (commits target_graph_data)) in
  match commit_order limit (commits source_graph_data) with
  | None => raise RecursionError
  | Some order =>
      st <- pull_loop source_repo target_repo source_graph_data order
              (PullState target_graph_data target_commit_ids 0 0) ;;
      write_graph target_repo (st_graph st) ;;;
      ret (Pulled (pulled_message source_repo target_repo (st_pulled st))
             (st_pulled st) (st_skipped st), 200)
  end.

(** [pull_commits]; [limit] is the depth the recursion of [visit] may
    reach. *)
Definition pull_commits (limit : nat) (data : sync_data)
    : store -> store * response :=
  fun fs =>
    let source_repo := source_repo data in
    let target_repo := target_repo data in
    if negb (validate_repo_name source_repo) || negb (validate_repo_name target_repo)
    then (fs, (Error "Invalid repository name", 400))
    else if negb (graph_exists fs source_repo) then
      (fs, (Error ("Source repository '" +:+ source_repo +:+ "' not found"), 404))
    else
      let fs1 :=
        if graph_exists fs target_repo then fs
        else fst (create_repo target_repo fs) in
      answer (pull_body limit source_repo target_repo) "Error pulling commits" fs1.

(** [shutil.rmtree(d)] *)
Definition rmtree (d : string) : io unit := fun fs => (delete d fs, Return tt).

(** The [os.walk] loop of [clone_repo]: every object file of the source is
    copied over the target's. *)
Definition copy_objects (source_repo target_repo : string) : io unit :=
  fun fs =>
    match fs !! get_repo_path source_repo, fs !! get_repo_path target_repo with
    | Some src, Some tgt =>
        (<[get_repo_path target_repo :=
             RepoDir (graph_json tgt) (objects src ∪ objects tgt)]> fs,
         Return tt)
    | _, _ => (fs, Raise FileNotFoundError)
    end.

(** [file_set] of [clone_repo]. *)
Definition file_set (cs : odict commit) : gset string :=
  list_to_set (concat (map (fun kv => OD.keys (c_files (snd kv))) cs)).

Definition clone_body (source_repo target_repo : string) : io response :=
  create_repo target_repo ;;;
  get_objects_dir target_repo ;;;
  source_graph_data <- read_graph source_repo ;;
  target_graph_data <- read_graph target_repo ;;
  copy_objects source_repo target_repo ;;;
  let target_graph_data :=
    GraphData (commits source_graph_data) (changes source_graph_data)
      (branches source_graph_data) (HEAD source_graph_data) in
  write_graph target_repo target_graph_data ;;;
  ret (Cloned
         ("Repository '" +:+ source_repo +:+ "' cloned to '" +:+ target_repo
          +:+ "' successfully")
         (length (commits target_graph_data))
         (size (file_set (commits target_graph_data))), 200).

(** A storage fault inside the [try] block of [clone_repo]: the block raises
    having left the target directory as [partial], or not created at all. *)
Definition interrupted (target_repo : string) (partial : option repo_dir)
    : io response :=
  fun fs =>
    (match partial with
     | Some dir => <[get_repo_path target_repo := dir]> fs
     | None => fs
     end, Raise OSError).

(** [clone_repo]; [fault] is [None] when the storage layer does not fail. *)
Definition clone_repo (fault : option (option repo_dir)) (data : sync_data)
    : store -> store * response :=
  fun fs =>
    let source_repo := source_repo data in
    let target_repo := target_repo data in
    if negb (validate_repo_name source_repo) || negb (validate_repo_name target_repo)
    then (fs, (Error "Invalid repository name", 400))
    else
      let fs1 := fst (get_objects_dir source_repo fs) in
      if negb (dir_exists fs1 source_repo) || negb (graph_exists fs1 source_repo) then
        (fs1, (Error ("Source repository '" +:+ source_repo +:+ "' not found"), 404))
      else if dir_exists fs1 target_repo then
        (fs1, (Error ("Target repository '" +:+ target_repo +:+ "' already exists"), 400))
      else
        let body :=
          match fault with
          | None => clone_body source_repo target_repo
          | Some partial => interrupted target_repo partial
          end in
        match body fs1 with
        | (fs2, Return r) => (fs2, r)
        | (fs2, Raise e) =>
            let fs3 :=
              if dir_exists fs2 target_repo
              then fst (rmtree (get_repo_path target_repo) fs2) else fs2 in
            (fs3, (Failure "Error cloning repository" e, 500))
        end.

(** [delete_repo].  The name is not validated.  When it does not name a
    directory inside the base directory, [repo_dir] is the base directory or
    the directory above it: [outer] tells whether that directory exists, and
    [shutil.rmtree] then removes it with every repository of the backend. *)
Definition delete_repo (outer : bool) (repo_name : string) (fs : store)
    : store * response :=
  if negb (names_repository repo_name) then
    if outer then
      (∅, (Message ("Repository '" +:+ repo_name +:+ "' deleted successfully"), 200))
    else (fs, not_found repo_name)
  else if negb (dir_exists fs repo_name) then (fs, not_found repo_name)
  else
    (delete (get_repo_path repo_name) fs,
     (Message ("Repository '" +:+ repo_name +:+ "' deleted successfully"), 200)).

(** The body of the loop of [get_commit_history]: the entry of one commit,
    when its change record holds the file. *)
Definition history_of (g : graph_data) (file_path : string) (kv : string * commit)
    : option history_entry :=
  let '(commit_id, commit_data) := kv in
  match changes g !! commit_id with
  | Some record =>
      match record !! file_path with
      | Some change_info =>
          Some (HistoryEntry commit_id (c_message commit_data) (c_author commit_data)
                  (c_timestamp commit_data) (change_status change_info)
                  (history_diff change_info) (previous_hash change_info)
                  (current_hash change_info))
      | None => None
      end
  | None => None
  end.

(** [get_commit_history]: the history on 200, the error otherwise. *)
Definition get_commit_history (repo_name file_path : string) (fs : store)
    : list history_entry + response :=
  match fs !! get_repo_path repo_name with
  | Some (RepoDir (Some g) _) =>
      inl (sort_desc he_timestamp (omap (history_of g file_path) (commits g)))
  | _ => inr (not_found repo_name)
  end.

End GraphDatabaseImplementation.

(** ** The relational backend: one SQLite database per repository

    Every path of the code creates a repository directory together with its
    [vcs.db] ([os.makedirs] followed by [init_repo_db]), so the store maps a
    directory name to the database it holds.  A table with a primary key is
    a finite map on that key; the [commits] table keeps its rows in rowid
    order, which is the order an [ORDER BY timestamp] leaves between rows
    of equal timestamp. *)

Module SQLiteFileSystemImplementation.

(** A row of [commits]. *)
Record commit_row := CommitRow {
  r_id : string;
  r_message : string;
  r_author : string;
  r_timestamp : string;
  r_parent_id : option string
}.

Record database := Database {
  t_commits : list commit_row;
  t_files : gmap string (gmap string file_entry);
  t_changes : gmap string (gmap string change)
}.

(** The directories below [./repositories/sqlite_fs]. *)
Abbreviation store := (gmap string database).

(** A connection: statements run on the database and may raise. *)
Abbreviation sql := (M database).

(** [init_repo_db]: three empty tables. *)
Definition empty_db : database := Database [] ∅ ∅.

(** [os.path.exists(repo_dir)] and [os.path.exists(db_path)] *)
Definition dir_exists (fs : store) (repo_name : string) : bool :=
  match fs !! get_repo_path repo_name with
  | Some _ => true
  | None => false
  end.

(** [os.makedirs(repo_dir, exist_ok=True); self.init_repo_db(repo_name)] *)
Definition make_repo (repo_name : string) (fs : store) : store :=
  match fs !! get_repo_path repo_name with
  | Some _ => fs
  | None => <[get_repo_path repo_name := empty_db]> fs
  end.

Definition create_repo (name : string) (fs : store) : store * response :=
  if negb (validate_repo_name name) then
    (fs, (Error "Invalid repository name", 400))
  else if dir_exists fs name then
    (fs, (Message ("Repository '" +:+ name +:+ "' already exists"), 200))
  else
    (make_repo name fs,
     (Message ("Repository '" +:+ name +:+ "' created successfully"), 200)).

(** [SELECT 1 FROM commits WHERE id = ? LIMIT 1] *)
Definition commit_exists (commit_id : string) (db : database) : bool :=
  existsb (fun r => String.eqb (r_id r) commit_id) (t_commits db).

(** [SELECT ... FROM files WHERE commit_id = ?], as the rows keyed by path. *)
Definition select_files (commit_id : string) (db : database)
    : gmap string file_entry :=
  default ∅ (t_files db !! commit_id).

(** [SELECT ... FROM changes WHERE commit_id = ?] *)
Definition select_changes (commit_id : string) (db : database)
    : gmap string change :=
  default ∅ (t_changes db !! commit_id).

Definition count_rows {V} (table : gmap string (gmap string V)) : nat :=
  map_fold (fun _ rows n => n + size rows) 0 table.

(** The statistics [list_repos] reports for one repository: [last_commit] is
    the first row of [ORDER BY timestamp DESC LIMIT 1]. *)
Definition repo_info (db : database) : repo_stats :=
  let last :=
    match sort_desc r_timestamp (t_commits db) with
    | r :: _ => Some (CommitInfo (r_id r) (r_message r) (r_author r) (r_timestamp r))
    | [] => None
    end in
  RepoStats (length (t_commits db)) (count_rows (t_files db)) last.

Definition list_repos (fs : store) : gmap string repo_stats := repo_info <$> fs.

Definition summary (db : database) (r : commit_row) : commit_summary :=
  CommitSummary (r_id r) (r_message r) (r_author r) (r_timestamp r) (r_parent_id r)
    (size (select_changes (r_id r) db)).

Definition not_found (repo_name : string) : response :=
  (Error ("Repository '" +:+ repo_name +:+ "' not found"), 404).

Definition get_commits (repo_name : string) (fs : store) : response :=
  match fs !! get_repo_path repo_name with
  | Some db => (Commits (map (summary db) (sort_desc r_timestamp (t_commits db))), 200)
  | None => not_found repo_name
  end.

(** The [diff] column is reported for modified files only. *)
Definition reported (c : change) : change :=
  Change (change_status c)
    (match change_status c with modified => diff c | _ => None end)
    (previous_hash c) (current_hash c).

Definition get_commit (repo_name commit_id : string) (fs : store) : response :=
  match fs !! get_repo_path repo_name with
  | Some db =>
      match List.find (fun r => String.eqb (r_id r) commit_id) (t_commits db) with
      | Some r =>
          (CommitFound
             (CommitDetails (r_id r) (r_message r) (r_author r) (r_timestamp r)
                (r_parent_id r) (select_files commit_id db)
                (reported <$> select_changes commit_id db)), 200)
      | None => (Error ("Commit '" +:+ commit_id +:+ "' not found"), 404)
      end
  | None => not_found repo_name
  end.

Definition check_commit (repo_name commit_id : string) (fs : store) : response :=
  match fs !! get_repo_path repo_name with
  | Some db => (Exists (commit_exists commit_id db), 200)
  | None => (Exists false, 404)
  end.

(** The body of [for file_path in all_paths] in [calculate_changes];
    [current_files] is [commit_data['files']]. *)
Fixpoint changes_loop (parent_files : gmap string file_entry)
    (current_files : odict file_info) (all_paths : list string)
    (changes : gmap string change) : outcome (gmap string change) :=
  match all_paths with
  | [] => Return changes
  | file_path :: rest =>
      match OD.get file_path current_files, parent_files !! file_path with
      | Some cur, None =>
          changes_loop parent_files current_files rest
            (<[file_path := Change added None None (Some (fi_hash cur))]> changes)
      | None, Some par =>
          changes_loop parent_files current_files rest
            (<[file_path := Change deleted None (Some (hash par)) None]> changes)
      | Some cur, Some par =>
          if negb (String.eqb (fi_hash cur) (hash par)) then
            match content par with
            | Some old =>
                let diff :=
                  PyStr.join (String PyStr.LF EmptyString)
                    (Difflib.unified_diff (PyStr.splitlines old)
                       (PyStr.splitlines (fi_content cur))
                       ("a/" +:+ file_path) ("b/" +:+ file_path)
                       Difflib.default_context "") in
                changes_loop parent_files current_files rest
                  (<[file_path :=
                       Change modified (Some diff) (Some (hash par)) (Some (fi_hash cur))]>
                     changes)
            | None => Raise AttributeError
            end
          else changes_loop parent_files current_files rest changes
      | None, None => Raise (KeyError file_path)
      end
  end.

(** The loop of the branch without a parent: every file is added. *)
Fixpoint added_loop (files : odict file_info) (changes : gmap string change)
    : gmap string change :=
  match files with
  | [] => changes
  | (file_path, file_info) :: rest =>
      added_loop rest
        (<[file_path := Change added None None (Some (fi_hash file_info))]> changes)
  end.

(** [calculate_changes(conn, commit_data)] *)
Definition calculate_changes (commit_data : push_data) : sql (gmap string change) :=
  match parent_id commit_data with
  | Some (String _ _ as parent) =>
      fun db =>
        let parent_files := select_files parent db in
        let current_files := files commit_data in
        let all_paths :=
          elements (dom parent_files ∪ list_to_set (OD.keys current_files)) in
        (db, changes_loop parent_files current_files all_paths ∅)
  | _ => ret (added_loop (files commit_data) ∅)
  end.

(** [INSERT INTO commits]: the id is the primary key. *)
Definition insert_commit (r : commit_row) : sql unit :=
  fun db =>
    if commit_exists (r_id r) db then (db, Raise IntegrityError)
    else (Database (t_commits db ++ [r]) (t_files db) (t_changes db), Return tt).

(** A loop of [INSERT]s into the rows of one commit, keyed by file path. *)
Fixpoint insert_rows {V} (rows : list (string * V)) (existing : gmap string V)
    : outcome (gmap string V) :=
  match rows with
  | [] => Return existing
  | (file_path, v) :: rest =>
      match existing !! file_path with
      | Some _ => Raise IntegrityError
      | None => insert_rows rest (<[file_path := v]> existing)
      end
  end.

Definition insert_all {V} (commit_id : string) (rows : list (string * V))
    (table : gmap string (gmap string V)) : outcome (gmap string (gmap string V)) :=
  match rows with
  | [] => Return table
  | _ =>
      match insert_rows rows (default ∅ (table !! commit_id)) with
      | Return m => Return (<[commit_id := m]> table)
      | Raise e => Raise e
      end
  end.

(** [INSERT INTO files], one row per file. *)
Definition insert_files (commit_id : string) (rows : list (string * file_entry))
    : sql unit :=
  fun db =>
    match insert_all commit_id rows (t_files db) with
    | Return t => (Database (t_commits db) t (t_changes db), Return tt)
    | Raise e => (db, Raise e)
    end.

(** [INSERT INTO changes], one row per changed path. *)
Definition insert_changes (commit_id : string) (rows : list (string * change))
    : sql unit :=
  fun db =>
    match insert_all commit_id rows (t_changes db) with
    | Return t => (Database (t_commits db) (t_files db) t, Return tt)
    | Raise e => (db, Raise e)
    end.

Definition file_row (kv : string * file_info) : string * file_entry :=
  (fst kv, FileEntry (fi_hash (snd kv)) (Some (fi_content (snd kv)))).

(** The parent a push names without the repository having it:
    [parent_id] is truthy and no row of [commits] has that id. *)
Definition missing_parent (data : push_data) (db : database) : option string :=
  match parent_id data with
  | Some (String _ _ as parent) =>
      if commit_exists parent db then None else Some parent
  | _ => None
  end.

(** The statements of [push_commit] between [connect] and [commit]. *)
Definition push_transaction (data : push_data) : sql response :=
  fun db =>
    if commit_exists (id data) db then
      (db, Return (Message ("Commit '" +:+ id data +:+ "' already exists"), 200))
    else
      match missing_parent data db with
      | Some parent =>
          (db, Return (Error ("Parent commit '" +:+ parent +:+ "' not found"), 400))
      | None =>
          (insert_commit
             (CommitRow (id data) (message data) (author data) (timestamp data)
                (parent_id data)) ;;;
           insert_files (id data) (map file_row (files data)) ;;;
           changes_ <- calculate_changes data ;;
           insert_changes (id data) (map_to_list changes_) ;;;
           ret (Pushed ("Commit '" +:+ id data +:+ "' pushed successfully")
                  (size changes_), 200)) db
      end.

(** Run the statements on the database of [repo_name]; what they wrote is
    kept only when they return, an exception leaves the file as it was. *)
Definition transaction (repo_name : string) (body : sql response)
    (context : string) : store -> store * response :=
  fun fs =>
    match fs !! get_repo_path repo_name with
    | None => (fs, (Failure context OperationalError, 500))
    | Some db =>
        match body db with
        | (db', Return r) => (<[get_repo_path repo_name := db']> fs, r)
        | (_, Raise e) => (fs, (Failure context e, 500))
        end
    end.

Definition push_commit (data : push_data) : store -> store * response :=
  fun fs =>
    if negb (validate_repo_name (repo_name data)) then
      (fs, (Error "Invalid repository name", 400))
    else
      transaction (repo_name data) (push_transaction data) "Error pushing commit"
        (make_repo (repo_name data) fs).

Definition get_changes (repo_name commit_id : string) (fs : store) : response :=
  match fs !! get_repo_path repo_name with
  | Some db =>
      if commit_exists commit_id db then
        (Changes (reported <$> select_changes commit_id db), 200)
      else (Error ("Commit '" +:+ commit_id +:+ "' not found"), 404)
  | None => not_found repo_name
  end.

(** The state of the loop of [pull_commits]: the target database with the
    rows inserted so far, not yet committed. *)
Record pull_state := PullState {
  st_db : database;
  st_ids : gset string;
  st_pulled : nat;
  st_skipped : nat
}.

(** [parent_id and parent_id not in target_commit_ids] *)
Definition parent_missing (parent_id : option string) (ids : gset string) : bool :=
  match parent_id with
  | Some (String _ _ as parent) => negb (bool_decide (parent ∈ ids))
  | _ => false
  end.

Fixpoint pull_loop (source : database) (source_commits : list commit_row)
    (st : pull_state) : outcome pull_state :=
  match source_commits with
  | [] => Return st
  | commit :: rest =>
      let commit_id := r_id commit in
      if bool_decide (commit_id ∈ st_ids st) then
        pull_loop source rest
          (PullState (st_db st) (st_ids st) (st_pulled st) (st_skipped st + 1))
      else if parent_missing (r_parent_id commit) (st_ids st) then
        pull_loop source rest st
      else
        let files := map_to_list (select_files commit_id source) in
        let changes := map_to_list (select_changes commit_id source) in
        match (insert_commit commit ;;;
               insert_files commit_id files ;;;
               insert_changes commit_id changes) (st_db st) with
        | (db', Return _) =>
            pull_loop source rest
              (PullState db' ({[commit_id]} ∪ st_ids st) (st_pulled st + 1)
                 (st_skipped st))
        | (_, Raise e) => Raise e
        end
  end.

Definition pulled_message (source_repo target_repo : string) (n : nat) : string :=
  "Pulled " +:+ PyStr.decimal n +:+ " commits from '" +:+ source_repo
  +:+ "' to '" +:+ target_repo +:+ "'".

(** [SELECT ... FROM commits ORDER BY timestamp ASC]: the order in which a
    pull visits the commits of the source. *)
Definition visit_order (source : database) : list commit_row :=
  sort_asc r_timestamp (t_commits source).

(** [pull_commits]; [fault] tells whether the storage layer raises inside
    the [try] block.  The rows inserted into the target are committed at the
    end of the block only. *)
Definition pull_commits (fault : bool) (data : sync_data)
    : store -> store * response :=
  fun fs =>
    let source_repo := source_repo data in
    let target_repo := target_repo data in
    if negb (validate_repo_name source_repo) || negb (validate_repo_name target_repo)
    then (fs, (Error "Invalid repository name", 400))
    else if negb (dir_exists fs source_repo) then
      (fs, (Error ("Source repository '" +:+ source_repo +:+ "' not found"), 404))
    else
      let fs1 :=
        if dir_exists fs target_repo then fs
        else fst (create_repo target_repo fs) in
      match fs1 !! get_repo_path source_repo, fs1 !! get_repo_path target_repo with
      | Some source, Some target =>
          if fault then (fs1, (Failure "Error pulling commits" OperationalError, 500))
          else
            let source_commits := visit_order source in
            let target_commit_ids : gset string :=
              list_to_set (map r_id (t_commits target)) in
            match pull_loop source source_commits
                    (PullState target target_commit_ids 0 0) with
            | Return st =>
                (<[get_repo_path target_repo := st_db st]> fs1,
                 (Pulled (pulled_message source_repo target_repo (st_pulled st))
                    (st_pulled st) (st_skipped st), 200))
            | Raise e => (fs1, (Failure "Error pulling commits" e, 500))
            end
      | _, _ => (fs1, (Failure "Error pulling commits" OperationalError, 500))
      end.

(** Where the storage layer fails during a clone: inside [create_repo],
    leaving the target directory as [partial] or not created at all, or
    inside [pull_commits]. *)
Inductive fault :=
| FaultInCreate (partial : option database)
| FaultInPull.

(** [clone_repo]; [fault] is [None] when the storage layer does not fail. *)
Definition clone_repo (fault : option fault) (data : sync_data)
    : store -> store * response :=
  fun fs =>
    let source_repo := source_repo data in
    let target_repo := target_repo data in
    if negb (validate_repo_name source_repo) || negb (validate_repo_name target_repo)
    then (fs, (Error "Invalid repository name", 400))
    else if negb (dir_exists fs source_repo) then
      (fs, (Error ("Source repository '" +:+ source_repo +:+ "' not found"), 404))
    else if dir_exists fs target_repo then
      (fs, (Error ("Target repository '" +:+ target_repo +:+ "' already exists"), 400))
    else
      match fault with
      | Some (FaultInCreate partial) =>
          let fs2 :=
            match partial with
            | Some db => <[get_repo_path target_repo := db]> fs
            | None => fs
            end in
          let fs3 :=
            if dir_exists fs2 target_repo
            then delete (get_repo_path target_repo) fs2 else fs2 in
          (fs3, (Failure "Error cloning repository" OSError, 500))
      | Some FaultInPull =>
          pull_commits true data (fst (create_repo target_repo fs))
      | None =>
          pull_commits false data (fst (create_repo target_repo fs))
      end.

(** [delete_repo].  The name is not validated.  When it does not name a
    directory inside the base directory, [repo_dir] is the base directory or
    the directory above it: [outer] tells whether that directory exists, and
    [shutil.rmtree] then removes it with every repository of the backend. *)
Definition delete_repo (outer : bool) (repo_name : string) (fs : store)
    : store * response :=
  if negb (names_repository repo_name) then
    if outer then
      (∅, (Message ("Repository '" +:+ repo_name +:+ "' deleted successfully"), 200))
    else (fs, not_found repo_name)
  else if negb (dir_exists fs repo_name) then (fs, not_found repo_name)
  else
    (delete (get_repo_path repo_name) fs,
     (Message ("Repository '" +:+ repo_name +:+ "' deleted successfully"), 200)).

(** One row of the join of [commits] and [changes] on the commit id, for the
    file asked for. *)
Definition history_of (db : database) (file_path : string) (r : commit_row)
    : option history_entry :=
  match select_changes (r_id r) db !! file_path with
  | Some change_info =>
      Some (HistoryEntry (r_id r) (r_message r) (r_author r) (r_timestamp r)
              (change_status change_info) (history_diff change_info)
              (previous_hash change_info) (current_hash change_info))
  | None => None
  end.

(** [get_commit_history]: the rows of the join, [ORDER BY c.timestamp DESC];
    the history on 200, the error otherwise. *)
Definition get_commit_history (repo_name file_path : string) (fs : store)
    : list history_entry + response :=
  match fs !! get_repo_path repo_name with
  | Some db =>
      inl (omap (history_of db file_path) (sort_desc r_timestamp (t_commits db)))
  | None => inr (not_found repo_name)
  end.

End SQLiteFileSystemImplementation.

(** ** Notions used to state the properties *)

(** The object files of a repository of the document backend. *)
Definition objects_of (fs : GraphDatabaseImplementation.store) (repo_name : string)
    : gmap string string :=
  match fs !! get_repo_path repo_name with
  | Some dir => GraphDatabaseImplementation.objects dir
  | None => ∅
  end.

(** Every object file is named by the hash of what it holds. *)
Definition content_addressed (objs : gmap string string) : Prop :=
  ∀ h c, objs !! h = Some c → h = calculate_hash c.

(** A computation of the document backend is confined to the directory [t]
    when, on a store that holds the directory [s], it keeps [s] in place and
    leaves every directory other than [t] as it was. *)
Definition confined {A} (t s : string) (m : GraphDatabaseImplementation.io A) : Prop :=
  ∀ fs, is_Some (fs !! s) →
    is_Some ((m fs).1 !! s) ∧ ∀ d, d ≠ t → (m fs).1 !! d = fs !! d.

(** A computation of the document backend that writes no [graph.json]. *)
Definition keeps_graphs {A} (m : GraphDatabaseImplementation.io A) : Prop :=
  ∀ fs d,
    ((m fs).1 !! d) ≫= GraphDatabaseImplementation.graph_json
    = (fs !! d) ≫= GraphDatabaseImplementation.graph_json.

(** The parent a commit requires: its [parent_id] when that is truthy. *)
Definition required_parent (parent_id : option string) : option string :=
  match parent_id with
  | Some (String _ _ as parent) => Some parent
  | _ => None
  end.

(** The change engine as the specification words it (section 4.3).  The diff
    of a modified file is the unified diff of the lines of the two contents,
    labelled [a/<path>] and [b/<path>], with three lines of context and no
    line terminator, joined by line feeds. *)
Definition unified_diff_text (file_path old new : string) : string :=
  PyStr.join (String PyStr.LF EmptyString)
    (Difflib.unified_diff (PyStr.splitlines old) (PyStr.splitlines new)
       ("a/" +:+ file_path) ("b/" +:+ file_path) 3 "").

(** The entry [c] the change record holds for a path, given the entries of
    the path in the parent's files and in the commit's files. *)
Definition change_matches (file_path : string) (parent current : option file_entry)
    (c : option change) : Prop :=
  match parent, current with
  | None, None => c = None
  | None, Some cur => c = Some (Change added None None (Some (hash cur)))
  | Some par, None => c = Some (Change deleted None (Some (hash par)) None)
  | Some par, Some cur =>
      if String.eqb (hash cur) (hash par) then c = None
      else
        ∃ old new,
          content par = Some old ∧ content cur = Some new
          ∧ c = Some (Change modified (Some (unified_diff_text file_path old new))
                        (Some (hash par)) (Some (hash cur)))
  end.

(** The entry of a file that is added. *)
Definition added_entry (e : file_entry) : change :=
  Change added None None (Some (hash e)).

(** A file of a push, as the relational backend stores and compares it. *)
Definition entry_of_info (f : file_info) : file_entry :=
  FileEntry (fi_hash f) (Some (fi_content f)).

(** What the loops of the document backend compute on a repository directory
    that exists, as functions of its graph and objects. *)

(** [load_files]: the entries read for the files of a commit. *)
Fixpoint entries_of (objs : gmap string string) (files : odict string)
    (acc : gmap string file_entry) : gmap string file_entry :=
  match files with
  | [] => acc
  | (file_path, file_hash) :: rest =>
      entries_of objs rest
        (<[file_path := FileEntry file_hash (PyStr.universal_newlines <$> objs !! file_hash)]>
           acc)
  end.

(** [store_files]: the hashes collected. *)
Fixpoint hashes_of (files : odict file_info) (acc : odict string) : odict string :=
  match files with
  | [] => acc
  | (file_path, file_info) :: rest =>
      hashes_of rest (OD.set file_path (calculate_hash (fi_content file_info)) acc)
  end.

(** [store_files]: the objects of the repository once the files are stored. *)
Fixpoint stored (files : odict file_info) (objs : gmap string string)
    : gmap string string :=
  match files with
  | [] => objs
  | (file_path, file_info) :: rest =>
      stored rest
        (match objs !! calculate_hash (fi_content file_info) with
         | Some _ => objs
         | None => <[calculate_hash (fi_content file_info) := fi_content file_info]> objs
         end)
  end.

(** [parent_files] and [current_files] of [calculate_changes] in the document
    backend; no parent files when the parent is null, empty or unknown. *)
Definition graph_parent_files (g : GraphDatabaseImplementation.graph_data)
    (objs : gmap string string) (parent_id : option string)
    : gmap string file_entry :=
  match required_parent parent_id with
  | Some parent =>
      match OD.get parent (GraphDatabaseImplementation.commits g) with
      | Some parent_commit =>
          entries_of objs (GraphDatabaseImplementation.c_files parent_commit) ∅
      | None => ∅
      end
  | None => ∅
  end.

Definition graph_current_files (objs : gmap string string) (files : odict string)
    : gmap string file_entry :=
  entries_of objs files ∅.

(** [calculate_changes] of the document backend on a repository that
    exists. *)
Definition graph_changes (g : GraphDatabaseImplementation.graph_data)
    (objs : gmap string string) (parent_id : option string) (files : odict string)
    : outcome (gmap string change) :=
  match required_parent parent_id with
  | Some parent =>
      let parent_files := graph_parent_files g objs parent_id in
      let current_files := graph_current_files objs files in
      GraphDatabaseImplementation.changes_loop parent_files current_files
        (elements (dom parent_files ∪ dom current_files)) ∅
  | None => Return (GraphDatabaseImplementation.added_loop files ∅)
  end.

(** [parent_files] of [calculate_changes] in the relational backend; no
    parent files when the parent is null or empty. *)
Definition sqlite_parent_files (db : SQLiteFileSystemImplementation.database)
    (parent_id : option string) : gmap string file_entry :=
  match required_parent parent_id with
  | Some parent => SQLiteFileSystemImplementation.select_files parent db
  | None => ∅
  end.

(** The graph and the objects a push to the document backend starts from:
    those of the repository, or the empty ones of the repository it creates;
    none when the directory exists without a graph. *)
Definition push_start (fs : GraphDatabaseImplementation.store) (repo_name : string)
    : option (GraphDatabaseImplementation.graph_data * gmap string string) :=
  match fs !! get_repo_path repo_name with
  | Some (GraphDatabaseImplementation.RepoDir (Some g) objs) => Some (g, objs)
  | Some (GraphDatabaseImplementation.RepoDir None _) => None
  | None => Some (GraphDatabaseImplementation.empty_graph, ∅)
  end.

(** The database a push to the relational backend runs on: that of the
    repository, or the empty one of the repository it creates. *)
Definition db_of (fs : SQLiteFileSystemImplementation.store) (repo_name : string)
    : SQLiteFileSystemImplementation.database :=
  default SQLiteFileSystemImplementation.empty_db (fs !! get_repo_path repo_name).

(** The graph of a repository of the document backend; the empty graph when
    there is none. *)
Definition graph_of (fs : GraphDatabaseImplementation.store) (repo_name : string)
    : GraphDatabaseImplementation.graph_data :=
  match fs !! get_repo_path repo_name with
  | Some (GraphDatabaseImplementation.RepoDir (Some g) _) => g
  | _ => GraphDatabaseImplementation.empty_graph
  end.

(** The required parent of a commit of a graph, and of a [commits] table. *)
Definition parent_of (cs : odict GraphDatabaseImplementation.commit)
    (commit_id : string) : option string :=
  OD.get commit_id cs
    ≫= λ c, required_parent (GraphDatabaseImplementation.c_parent_id c).

Definition parent_in (rows : list SQLiteFileSystemImplementation.commit_row)
    (commit_id : string) : option string :=
  List.find (λ r, String.eqb (SQLiteFileSystemImplementation.r_id r) commit_id) rows
    ≫= λ r, required_parent (SQLiteFileSystemImplementation.r_parent_id r).

(** [p] occurs before [c] in [l]. *)
Definition before (p c : string) (l : list string) : Prop :=
  ∃ l1 l2 l3, l = l1 ++ p :: l2 ++ c :: l3.

(** An order emits every commit after its parent. *)
Definition parents_first (parent : string → option string) (order : list string)
    : Prop :=
  ∀ c p, c ∈ order → parent c = Some p → before p c order.

(** The parent links are acyclic: some measure decreases from every commit
    to its parent. *)
Definition acyclic (parent : string → option string) : Prop :=
  ∃ rank : string → nat, ∀ c p, parent c = Some p → rank p < rank c.

(** [l] lists ancestors of [c], nearest first: its parent, the parent of its
    parent, and so on. *)
Fixpoint ancestors (parent : string → option string) (c : string)
    (l : list string) : Prop :=
  match l with
  | [] => True
  | p :: rest => parent c = Some p ∧ ancestors parent p rest
  end.

(** The commits of a repository of the document backend, in insertion
    order; none when there is no graph. *)
Definition commits_of (fs : GraphDatabaseImplementation.store) (repo_name : string)
    : odict GraphDatabaseImplementation.commit :=
  match fs !! get_repo_path repo_name with
  | Some (GraphDatabaseImplementation.RepoDir (Some g) _) =>
      GraphDatabaseImplementation.commits g
  | _ => []
  end.

(** The rows of [commits] of a repository of the relational backend, in
    rowid order. *)
Definition rows_of (fs : SQLiteFileSystemImplementation.store) (repo_name : string)
    : list SQLiteFileSystemImplementation.commit_row :=
  match fs !! get_repo_path repo_name with
  | Some db => SQLiteFileSystemImplementation.t_commits db
  | None => []
  end.

(** The ids a [get_commits] response lists, in order. *)
Definition listed_ids (r : response) : list string :=
  match fst r with
  | Commits l => map cs_id l
  | _ => []
  end.

(** ** A small history, used to instantiate the properties *)

Module Scenario.

Definition files_v1 : odict file_info :=
  [("f.txt", FileInfo (calculate_hash "v1") "v1")].

Definition files_v2 : odict file_info :=
  [("f.txt", FileInfo (calculate_hash "v2") "v2")].

(** Commit A has no parent, commit B is its child. *)
Definition commit_a : push_data :=
  PushData "repo" "A" "first" "alice" "2024-01-01T10:00:00" None files_v1.

Definition commit_b : push_data :=
  PushData "repo" "B" "second" "alice" "2024-01-02T10:00:00" (Some "A") files_v2.

(** The document store after pushing A, and after pushing A then B. *)
Definition graph_a : GraphDatabaseImplementation.store :=
  fst (GraphDatabaseImplementation.push_commit commit_a ∅).

Definition graph_ab : GraphDatabaseImplementation.store :=
  fst (GraphDatabaseImplementation.push_commit commit_b graph_a).

(** The relational store after the same pushes. *)
Definition sqlite_a : SQLiteFileSystemImplementation.store :=
  fst (SQLiteFileSystemImplementation.push_commit commit_a ∅).

Definition sqlite_ab : SQLiteFileSystemImplementation.store :=
  fst (SQLiteFileSystemImplementation.push_commit commit_b sqlite_a).

(** A parent whose timestamp is later than its child's, in the relational
    backend: A is pushed first, then B, whose parent is A. *)
Definition late_parent : push_data :=
  PushData "late" "A" "parent" "alice" "2024-01-02T10:00:00" None files_v1.

Definition early_child : push_data :=
  PushData "late" "B" "child" "alice" "2024-01-01T10:00:00" (Some "A") files_v2.

Definition sqlite_late_parent : SQLiteFileSystemImplementation.store :=
  fst (SQLiteFileSystemImplementation.push_commit late_parent ∅).

Definition sqlite_late : SQLiteFileSystemImplementation.store :=
  fst (SQLiteFileSystemImplementation.push_commit early_child sqlite_late_parent).

Definition late_db : SQLiteFileSystemImplementation.database :=
  default SQLiteFileSystemImplementation.empty_db (sqlite_late !! "late").

(** Two commits that name each other as parent, in the document backend,
    which accepts a parent it does not hold. *)
Definition loop_x : push_data :=
  PushData "loop" "X" "x" "alice" "2024-01-01T10:00:00" (Some "Y") files_v1.

Definition loop_y : push_data :=
  PushData "loop" "Y" "y" "alice" "2024-01-02T10:00:00" (Some "X") files_v2.

Definition graph_loop : GraphDatabaseImplementation.store :=
  fst (GraphDatabaseImplementation.push_commit loop_y
         (fst (GraphDatabaseImplementation.push_commit loop_x ∅))).

(** A commit without parent, later than A and B. *)
Definition stray : push_data :=
  PushData "repo" "C" "third" "bob" "2024-01-03T10:00:00" None files_v1.

(** Pushes whose parent the repository does not hold: a new commit naming a
    missing parent, a new commit whose parent_id is the empty string, and
    commit A again under a missing parent. *)
Definition orphan : push_data :=
  PushData "repo" "E" "orphan" "bob" "2024-01-05T10:00:00" (Some "missing") files_v1.

Definition empty_parent : push_data :=
  PushData "repo" "D" "fourth" "bob" "2024-01-04T10:00:00" (Some "") files_v1.

Definition repeated : push_data :=
  PushData "repo" "A" "again" "bob" "2024-01-06T10:00:00" (Some "missing") files_v1.

(** A commit whose id is the empty string, and a child naming it as parent,
    with the same file. *)
Definition odd_root : push_data :=
  PushData "odd" "" "root" "alice" "2024-01-01T10:00:00" None files_v1.

Definition odd_child : push_data :=
  PushData "odd" "K" "child" "alice" "2024-01-02T10:00:00" (Some "") files_v1.

Definition graph_odd : GraphDatabaseImplementation.store :=
  fst (GraphDatabaseImplementation.push_commit odd_child
         (fst (GraphDatabaseImplementation.push_commit odd_root ∅))).

Definition sqlite_odd : SQLiteFileSystemImplementation.store :=
  fst (SQLiteFileSystemImplementation.push_commit odd_child
         (fst (SQLiteFileSystemImplementation.push_commit odd_root ∅))).

(** A measure on the ids of the history A, B: B is the child. *)
Definition rank_ab (commit_id : string) : nat :=
  if String.eqb commit_id "B" then 1 else 0.

(** A depth the recursion of [visit] may reach: CPython allows 1000 nested
    calls by default, some of which the server has made when [pull_commits]
    runs. *)
Definition depth : nat := 900.

End Scenario.

(** ** Notions used to state the further properties *)

(** Every character of [s] satisfies [p]. *)
Fixpoint all_chars (p : ascii -> bool) (s : string) : bool :=
  match s with
  | EmptyString => true
  | String c rest => p c && all_chars p rest
  end.

(** The path separators [/] and [\]. *)
Definition is_separator (c : ascii) : bool :=
  PyStr.in_range 47 47 c || PyStr.in_range 92 92 c.

(** The digits of a hexadecimal digest: [0-9a-f]. *)
Definition is_hex (c : ascii) : bool :=
  PyStr.in_range 48 57 c || PyStr.in_range 97 102 c.

(** [implementations/base.py: BaseVCSImplementation.validate_repo_name], which
    both backends override. *)
Module BaseVCSImplementation.

Definition validate_repo_name (repo_name : string) : bool :=
  match repo_name with
  | EmptyString => false
  | _ => all_chars (fun c => negb (is_separator c)) repo_name
  end.

End BaseVCSImplementation.

(** The characters [sanitize_path] keeps: [\w], [\s], [-] and [.]. *)
Definition kept (c : ascii) : bool :=
  PyStr.is_word c || PyStr.is_space c || PyStr.in_range 45 46 c.

(** A string that does not begin with white space. *)
Definition starts_clean (s : string) : bool :=
  match s with
  | EmptyString => true
  | String c _ => negb (PyStr.is_space c)
  end.

(** The graph of the target once a pull has applied one commit of the
    source: the body of the second loop of [pull_commits] of the document
    backend, after the files are copied. *)
Definition pulled_graph (source tg : GraphDatabaseImplementation.graph_data)
    (commit_id : string) (commit_data : GraphDatabaseImplementation.commit)
    (files_dict : odict string) : GraphDatabaseImplementation.graph_data :=
  let commits' :=
    OD.set commit_id
      (GraphDatabaseImplementation.Commit
         (GraphDatabaseImplementation.c_message commit_data)
         (GraphDatabaseImplementation.c_author commit_data)
         (GraphDatabaseImplementation.c_timestamp commit_data)
         (GraphDatabaseImplementation.c_parent_id commit_data) files_dict)
      (GraphDatabaseImplementation.commits tg) in
  let changes' :=
    match GraphDatabaseImplementation.changes source !! commit_id with
    | Some ch => <[commit_id := ch]> (GraphDatabaseImplementation.changes tg)
    | None => GraphDatabaseImplementation.changes tg
    end in
  match GraphDatabaseImplementation.HEAD tg with
  | None =>
      GraphDatabaseImplementation.GraphData commits' changes'
        (<["main" := Some commit_id]> (GraphDatabaseImplementation.branches tg))
        (Some commit_id)
  | Some _ =>
      GraphDatabaseImplementation.GraphData commits' changes'
        (GraphDatabaseImplementation.branches tg) (GraphDatabaseImplementation.HEAD tg)
  end.

(** HEAD and the branch [main] name the same commit, and the graph holds
    it. *)
Definition head_consistent (g : GraphDatabaseImplementation.graph_data) : Prop :=
  GraphDatabaseImplementation.branches g !! "main"
  = Some (GraphDatabaseImplementation.HEAD g)
  ∧ ∀ h, GraphDatabaseImplementation.HEAD g = Some h →
         OD.mem h (GraphDatabaseImplementation.commits g) = true.

(** A computation of the document backend keeps the property [P] of the
    store, whether it returns or raises. *)
Definition preserves {A} (P : GraphDatabaseImplementation.store → Prop)
    (m : GraphDatabaseImplementation.io A) : Prop :=
  ∀ fs, P fs → P (m fs).1.

(** The objects of the repository [t] are named by the hash of what they
    hold. *)
Definition addressed (t : string) (fs : GraphDatabaseImplementation.store) : Prop :=
  content_addressed (objects_of fs t).

(** A database of the relational backend is well formed when the ids of
    [commits] are distinct, the required parent of every row is a row of the
    table, and [files] and [changes] hold rows of commits of the table
    only. *)
Definition well_formed (db : SQLiteFileSystemImplementation.database) : Prop :=
  NoDup (map SQLiteFileSystemImplementation.r_id
           (SQLiteFileSystemImplementation.t_commits db))
  ∧ (∀ r p,
       r ∈ SQLiteFileSystemImplementation.t_commits db →
       required_parent (SQLiteFileSystemImplementation.r_parent_id r) = Some p →
       SQLiteFileSystemImplementation.commit_exists p db = true)
  ∧ (∀ c,
       SQLiteFileSystemImplementation.commit_exists c db = false →
       SQLiteFileSystemImplementation.t_files db !! c = None
       ∧ SQLiteFileSystemImplementation.t_changes db !! c = None).

(** No two of the texts have the same hash without being the same text. *)
Definition collision_free (texts : list string) : bool :=
  forallb
    (λ a, forallb
            (λ b, implb (String.eqb (calculate_hash a) (calculate_hash b))
                    (String.eqb a b)) texts) texts.

(** The contents of the files of a push. *)
Definition contents_of (files : odict file_info) : list string :=
  map (λ kv, fi_content (snd kv)) files.

(** A file of a push as [get_commit] of the document backend reads it back:
    under the hash of its content, the content as a text-mode read returns
    it. *)
Definition read_back (f : file_info) : file_entry :=
  FileEntry (calculate_hash (fi_content f))
    (Some (PyStr.universal_newlines (fi_content f))).

(** In the order [rows], the required parent of every row is among [ids] or
    is the id of a row that comes before it. *)
Fixpoint parents_before (ids : gset string)
    (rows : list SQLiteFileSystemImplementation.commit_row) : Prop :=
  match rows with
  | [] => True
  | r :: rest =>
      (∀ p, required_parent (SQLiteFileSystemImplementation.r_parent_id r) = Some p →
            p ∈ ids)
      ∧ parents_before ({[SQLiteFileSystemImplementation.r_id r]} ∪ ids) rest
  end.

(** Every commit of the table is later than its required parent. *)
Definition later_than_parent (db : SQLiteFileSystemImplementation.database) : Prop :=
  ∀ r q,
    r ∈ SQLiteFileSystemImplementation.t_commits db →
    q ∈ SQLiteFileSystemImplementation.t_commits db →
    required_parent (SQLiteFileSystemImplementation.r_parent_id r)
    = Some (SQLiteFileSystemImplementation.r_id q) →
    PyStr.ltb (SQLiteFileSystemImplementation.r_timestamp q)
      (SQLiteFileSystemImplementation.r_timestamp r) = true.

(** ** The request layer: [main.py] *)

(** [require_api_key]: whether the decorated handler runs; the request is
    answered 401 otherwise.  [vcs_key] is the value of [VCS_API_KEY] in the
    environment once [load_dotenv] has run, [api_key] the header
    [X-API-Key]. *)
Definition require_api_key (vcs_key api_key : option string) : bool :=
  if bool_decide (vcs_key = Some "no-key") then true
  else if negb (truthy api_key)
          || negb (bool_decide (api_key = Some (default "demo-key" vcs_key)))
  then false
  else true.

(** ** Further inputs, used to instantiate the properties *)

Module Examples.

(** A valid name that ends with a line feed. *)
Definition name_lf : string := "repo" +:+ String PyStr.LF EmptyString.

(** The document store of the history A, B with a third commit whose parent
    the repository does not hold. *)
Definition graph_orphan : GraphDatabaseImplementation.store :=
  fst (GraphDatabaseImplementation.push_commit Scenario.orphan Scenario.graph_ab).

(** A text with a CR LF line ending, and a push of a file that holds it. *)
Definition crlf_text : string :=
  "a" +:+ String (PyStr.chr 13) (String PyStr.LF "b").

Definition crlf_push : push_data :=
  PushData "repo" "W" "windows" "alice" "2024-02-01T10:00:00" None
    [("w.txt", FileInfo (calculate_hash crlf_text) crlf_text)].

End Examples.

(** * Properties *)

(** ** Test vectors *)

Example calculate_hash_abc :
  calculate_hash "abc" = "a9993e364706816aba3e25717850c26c9cd0d89d".
Proof. vm_compute. reflexivity. Qed.

(** ** Ordered dictionaries *)

Module ODFacts.

Section Facts.

Context {V : Type}.
Implicit Types (d : odict V) (k : string) (v : V).

Lemma get_set_eq k v d : OD.get k (OD.set k v d) = Some v.
Proof.
  induction d as [|[k' v'] d IH]; simpl.
  - by rewrite String.eqb_refl.
  - destruct (String.eqb k' k) eqn:E; simpl.
    + by rewrite String.eqb_refl.
    + by rewrite E.
Qed.

Lemma get_set_ne k k' v d : k ≠ k' → OD.get k' (OD.set k v d) = OD.get k' d.
Proof.
  intros Hne. induction d as [|[k0 v0] d IH]; simpl.
  - destruct (String.eqb_spec k k'); congruence.
  - destruct (String.eqb_spec k0 k) as [->|Hk]; simpl.
    + destruct (String.eqb_spec k k'); congruence.
    + destruct (String.eqb_spec k0 k'); congruence.
Qed.

Lemma get_None k d : OD.get k d = None ↔ k ∉ OD.keys d.
Proof.
  induction d as [|[k' v'] d IH]; simpl.
  - split; [intros _; apply not_elem_of_nil | done].
  - rewrite not_elem_of_cons. destruct (String.eqb_spec k' k) as [->|Hk].
    + split; [done | intros [? _]; congruence].
    + rewrite IH. split; [intros ?; split; congruence | tauto].
Qed.

Lemma get_Some_keys k v d : OD.get k d = Some v → k ∈ OD.keys d.
Proof.
  intros H. destruct (decide (k ∈ OD.keys d)) as [|Hn]; [done|].
  apply get_None in Hn. congruence.
Qed.

Lemma mem_keys k d : OD.mem k d = true ↔ k ∈ OD.keys d.
Proof.
  unfold OD.mem. destruct (OD.get k d) eqn:E.
  - split; [intros _; by eapply get_Some_keys | done].
  - split; [done | intros H; by apply get_None in E].
Qed.

(** Setting a key that is not there appends the item. *)
Lemma set_fresh k v d : OD.get k d = None → OD.set k v d = d ++ [(k, v)].
Proof.
  induction d as [|[k' v'] d IH]; simpl; [done|].
  destruct (String.eqb k' k); [done|]. intros H. by rewrite IH.
Qed.

Lemma keys_set_fresh k v d :
  OD.get k d = None → OD.keys (OD.set k v d) = OD.keys d ++ [k].
Proof.
  intros H. rewrite set_fresh; [|done]. unfold OD.keys. by rewrite map_app.
Qed.

Lemma get_app_l k d1 d2 v :
  OD.get k d1 = Some v → OD.get k (d1 ++ d2) = Some v.
Proof.
  induction d1 as [|[k' v'] d1 IH]; simpl; [done|].
  destruct (String.eqb k' k); auto.
Qed.

Lemma get_app_r k d1 d2 :
  OD.get k d1 = None → OD.get k (d1 ++ d2) = OD.get k d2.
Proof.
  induction d1 as [|[k' v'] d1 IH]; simpl; [done|].
  destruct (String.eqb k' k); [done | auto].
Qed.

End Facts.

End ODFacts.

(** ** The document backend: reading and writing the store *)

Module GraphFacts.

Import GraphDatabaseImplementation.

Implicit Types (fs : store) (g : graph_data).

Lemma makedirs_exists fs d dir :
  fs !! d = Some dir → makedirs d fs = (fs, Return tt).
Proof. intros H. unfold makedirs. by rewrite H. Qed.

Lemma get_objects_dir_exists fs repo dir :
  fs !! get_repo_path repo = Some dir →
  get_objects_dir repo fs = (fs, Return (get_repo_path repo)).
Proof.
  intros H. unfold get_objects_dir, bind.
  by rewrite (makedirs_exists _ _ _ H).
Qed.

Lemma read_graph_exists fs repo g objs :
  fs !! get_repo_path repo = Some (RepoDir (Some g) objs) →
  read_graph repo fs = (fs, Return g).
Proof. intros H. unfold read_graph. by rewrite H. Qed.

Lemma dir_exists_true fs repo dir :
  fs !! get_repo_path repo = Some dir → dir_exists fs repo = true.
Proof. intros H. unfold dir_exists. by rewrite H. Qed.

Lemma graph_exists_true fs repo g objs :
  fs !! get_repo_path repo = Some (RepoDir (Some g) objs) →
  graph_exists fs repo = true.
Proof. intros H. unfold graph_exists. by rewrite H. Qed.

Lemma graph_exists_inv fs repo :
  graph_exists fs repo = true →
  ∃ g objs, fs !! get_repo_path repo = Some (RepoDir (Some g) objs).
Proof.
  unfold graph_exists. destruct (fs !! get_repo_path repo) as [[[g|] objs]|]; try done.
  eauto.
Qed.

Lemma confined_ret {A} t s (a : A) : confined t s (ret a).
Proof. intros fs H. by split. Qed.

Lemma confined_raise {A} t s e : confined t s (raise (A := A) e).
Proof. intros fs H. by split. Qed.

Lemma confined_bind {A B} t s (m : io A) (k : A → io B) :
  confined t s m → (∀ a, confined t s (k a)) → confined t s (bind m k).
Proof.
  intros Hm Hk fs H. unfold bind.
  destruct (Hm fs H) as [H1 H2]. destruct (m fs) as [fs' [a|e]]; simpl in *.
  - destruct (Hk a fs' H1) as [H3 H4]. split; [done|].
    intros d Hd. by rewrite H4, H2.
  - by split.
Qed.

Lemma confined_pure {A} t s (f : store → outcome A) :
  confined t s (λ fs, (fs, f fs)).
Proof. intros fs H. by split. Qed.

Lemma confined_read_graph t s repo : confined t s (read_graph repo).
Proof.
  intros fs H. unfold read_graph.
  destruct (fs !! get_repo_path repo) as [[[g|] objs]|]; by split.
Qed.

Lemma insert_keeps (fs : store) s t x :
  is_Some (fs !! s) → is_Some (<[t := x]> fs !! s).
Proof.
  intros H. rewrite lookup_insert. by case_decide.
Qed.

Lemma confined_write_graph s repo g :
  confined (get_repo_path repo) s (write_graph repo g).
Proof.
  intros fs H. unfold write_graph.
  destruct (fs !! get_repo_path repo) as [dir|]; simpl; [|by split].
  split; [by apply insert_keeps|]. intros d Hd. by rewrite lookup_insert_ne.
Qed.

Lemma confined_makedirs s d : confined d s (makedirs d).
Proof.
  intros fs H. unfold makedirs. destruct (fs !! d); simpl; [by split|].
  split; [by apply insert_keeps|]. intros d' Hd. by rewrite lookup_insert_ne.
Qed.

Lemma confined_get_objects_dir s repo :
  confined (get_repo_path repo) s (get_objects_dir repo).
Proof.
  apply confined_bind; [apply confined_makedirs | intros; apply confined_ret].
Qed.

Lemma confined_init_repo_graph s repo :
  confined (get_repo_path repo) s (init_repo_graph repo).
Proof.
  intros fs H. unfold init_repo_graph.
  destruct (graph_exists fs repo); [by split|]. by apply confined_write_graph.
Qed.

Lemma confined_make_repo s repo : confined (get_repo_path repo) s (make_repo repo).
Proof.
  unfold make_repo. apply confined_bind; [apply confined_makedirs|]. intros _.
  apply confined_bind; [apply confined_get_objects_dir|]. intros _.
  apply confined_init_repo_graph.
Qed.

Lemma confined_create_repo s repo : confined (get_repo_path repo) s (create_repo repo).
Proof.
  unfold create_repo. destruct (negb (validate_repo_name repo)); [apply confined_ret|].
  intros fs H. destruct (dir_exists fs repo); [by split|].
  revert fs H. apply confined_bind; [apply confined_make_repo | intros; apply confined_ret].
Qed.

Lemma confined_of_shape {A} t s (m : io A) :
  (∀ fs, (m fs).1 = fs ∨ ∃ x, (m fs).1 = <[t := x]> fs) → confined t s m.
Proof.
  intros Hm fs H. destruct (Hm fs) as [->|[x ->]]; [by split|].
  split; [by apply insert_keeps|]. intros d Hd. by rewrite lookup_insert_ne.
Qed.

Lemma store_object_exists fs repo text dir :
  fs !! get_repo_path repo = Some dir →
  store_object repo text fs
  = (match objects dir !! calculate_hash text with
     | Some _ => fs
     | None =>
         <[get_repo_path repo :=
             RepoDir (graph_json dir) (<[calculate_hash text := text]> (objects dir))]> fs
     end, Return (calculate_hash text)).
Proof.
  intros E. unfold store_object, bind. rewrite (get_objects_dir_exists _ _ _ E), E.
  by destruct (objects dir !! calculate_hash text).
Qed.

Lemma store_object_missing fs repo text :
  fs !! get_repo_path repo = None →
  store_object repo text fs
  = (<[get_repo_path repo := RepoDir None {[calculate_hash text := text]}]> fs,
     Return (calculate_hash text)).
Proof.
  intros E. unfold store_object, get_objects_dir, makedirs, ret, bind. rewrite E.
  rewrite lookup_insert_eq. simpl. rewrite lookup_empty, insert_insert_eq.
  by rewrite insert_empty.
Qed.

Lemma confined_store_object s repo text :
  confined (get_repo_path repo) s (store_object repo text).
Proof.
  apply confined_of_shape. intros fs.
  destruct (fs !! get_repo_path repo) as [dir|] eqn:E.
  - rewrite (store_object_exists _ _ _ _ E).
    destruct (objects dir !! calculate_hash text); simpl; eauto.
  - rewrite (store_object_missing _ _ _ E). simpl. eauto.
Qed.

Lemma get_object_content_exists fs repo h dir :
  fs !! get_repo_path repo = Some dir →
  get_object_content repo h fs
  = (fs, Return (PyStr.universal_newlines <$> objects dir !! h)).
Proof.
  intros E. unfold get_object_content, bind.
  by rewrite (get_objects_dir_exists _ _ _ E), E.
Qed.

(** Reading an object of a directory that exists writes nothing. *)
Lemma get_object_content_frame t repo h :
  confined t (get_repo_path repo) (get_object_content repo h).
Proof.
  intros fs [dir E]. rewrite (get_object_content_exists _ _ _ _ E). simpl.
  split; [by rewrite E | done].
Qed.

Lemma confined_copy_files source target files acc :
  confined (get_repo_path target) (get_repo_path source)
    (copy_files source target files acc).
Proof.
  revert acc. induction files as [|[file_path file_hash] rest IH]; intros acc; simpl.
  - apply confined_ret.
  - apply confined_bind; [apply get_object_content_frame|]. intros [text|].
    + apply confined_bind; [apply confined_store_object | intros; apply IH].
    + apply confined_raise.
Qed.

Lemma confined_pull_loop source target g order st :
  confined (get_repo_path target) (get_repo_path source)
    (pull_loop source target g order st).
Proof.
  revert st. induction order as [|commit_id rest IH]; intros st; simpl.
  - apply confined_ret.
  - case_bool_decide; [apply IH|].
    destruct (OD.get commit_id (commits g)) as [commit_data|]; [|apply confined_raise].
    destruct (parent_missing _ _); [apply IH|].
    apply confined_bind; [apply confined_copy_files | intros; apply IH].
Qed.

Lemma confined_pull_body limit source target :
  confined (get_repo_path target) (get_repo_path source)
    (pull_body limit source target).
Proof.
  unfold pull_body.
  apply confined_bind; [apply confined_read_graph|]. intros sg.
  apply confined_bind; [apply confined_read_graph|]. intros tg.
  destruct (commit_order _); [|apply confined_raise].
  apply confined_bind; [apply confined_pull_loop|]. intros st.
  apply confined_bind; [apply confined_write_graph | intros; apply confined_ret].
Qed.

(** When every commit of the source is already among the target's ids, the
    loop of a pull writes nothing and keeps the target graph. *)
Lemma pull_loop_all_present source target g order st fs :
  (∀ k, k ∈ OD.keys (commits g) → k ∈ st_ids st) →
  ∃ out, pull_loop source target g order st fs = (fs, out)
         ∧ ∀ st', out = Return st' → st_graph st' = st_graph st.
Proof.
  revert st. induction order as [|commit_id rest IH]; intros st Hids; simpl.
  - eexists. split; [reflexivity|]. by intros st' [= <-].
  - case_bool_decide as Hin.
    + destruct (IH (PullState (st_graph st) (st_ids st) (st_pulled st) (st_skipped st + 1)))
        as (out & -> & Hout); [done|]. eauto.
    + destruct (OD.get commit_id (commits g)) as [commit_data|] eqn:E.
      * apply ODFacts.get_Some_keys in E. by apply Hids in E.
      * eexists. split; [reflexivity|]. done.
Qed.

Lemma answer_fst {S} (m : M S response) context (s : S) :
  (answer m context s).1 = (m s).1.
Proof. unfold answer. by destruct (m s) as [s' [r|e]]. Qed.

(** A pull of a repository onto its own directory leaves the store as it
    was. *)
Lemma pull_body_onto_itself limit source target fs :
  get_repo_path source = get_repo_path target →
  (pull_body limit source target fs).1 = fs.
Proof.
  intros Hst. unfold pull_body, bind.
  destruct (read_graph source fs) as [fs0 [g|e]] eqn:Hr; unfold read_graph in Hr.
  2:{ destruct (fs !! get_repo_path source) as [[[?|] ?]|]; by simplify_eq. }
  destruct (fs !! get_repo_path source) as [[[g'|] objs]|] eqn:Hs; simplify_eq.
  unfold read_graph. rewrite <- Hst, Hs.
  destruct (commit_order limit (commits g)) as [order|]; [|done].
  destruct (pull_loop_all_present source target g order
              (PullState g (list_to_set (OD.keys (commits g))) 0 0) fs0)
    as (out & -> & Hout).
  { intros k Hk. simpl. by apply elem_of_list_to_set. }
  destruct out as [st|e]; [|done].
  rewrite (Hout st eq_refl). simpl.
  unfold write_graph. rewrite <- Hst, Hs. simpl. by rewrite insert_id.
Qed.

(** The document backend's pull leaves the source directory, and every
    directory other than the target's, as it was. *)
Lemma pull_commits_frame limit data fs d :
  d = get_repo_path (source_repo data) ∨ d ≠ get_repo_path (target_repo data) →
  (pull_commits limit data fs).1 !! d = fs !! d.
Proof.
  intros Hd. unfold pull_commits.
  destruct (negb (validate_repo_name (source_repo data))
            || negb (validate_repo_name (target_repo data))); [done|].
  destruct (graph_exists fs (source_repo data)) eqn:Hsrc; [|done]. simpl.
  apply graph_exists_inv in Hsrc as (g & objs & Hs).
  rewrite answer_fst.
  destruct (decide (get_repo_path (source_repo data)
                    = get_repo_path (target_repo data))) as [Hst|Hst].
  - assert (graph_exists fs (target_repo data) = true) as ->.
    { unfold graph_exists. by rewrite <- Hst, Hs. }
    by rewrite pull_body_onto_itself.
  - assert (d ≠ get_repo_path (target_repo data)) as Hdt
      by (destruct Hd; congruence).
    assert (is_Some (fs !! get_repo_path (source_repo data))) as Hsome by eauto.
    destruct (graph_exists fs (target_repo data)).
    + by apply (confined_pull_body limit _ _ fs Hsome).
    + destruct (confined_create_repo (get_repo_path (source_repo data))
                  (target_repo data) fs Hsome) as [H1 H2].
      destruct (confined_pull_body limit (source_repo data) (target_repo data) _ H1)
        as [_ H3].
      by rewrite H3, H2.
Qed.

End GraphFacts.

(** ** The relational backend: reading and writing the store *)

Module SQLiteFacts.

Import SQLiteFileSystemImplementation.

Implicit Types (fs : store) (db : database).

Lemma db_exists_true fs repo db :
  fs !! get_repo_path repo = Some db → dir_exists fs repo = true.
Proof. intros H. unfold dir_exists. by rewrite H. Qed.

Lemma make_repo_exists fs repo db :
  fs !! get_repo_path repo = Some db → make_repo repo fs = fs.
Proof. intros H. unfold make_repo. by rewrite H. Qed.

Lemma insert_asc_elem {A} (key : A → string) x y l :
  y ∈ insert_asc key x l ↔ y = x ∨ y ∈ l.
Proof.
  induction l as [|z l IH]; simpl.
  - rewrite list_elem_of_singleton. split; [auto | intros [|H]; [done | by inversion H]].
  - destruct (PyStr.ltb (key z) (key x)).
    + rewrite !elem_of_cons, IH. tauto.
    + rewrite !elem_of_cons. tauto.
Qed.

Lemma sort_asc_elem {A} (key : A → string) y l :
  y ∈ sort_asc key l ↔ y ∈ l.
Proof.
  induction l as [|x l IH]; simpl; [done|].
  rewrite insert_asc_elem, elem_of_cons, IH. tauto.
Qed.

(** When every commit visited is already among the target's ids, the loop
    of a pull inserts nothing. *)
Lemma pull_loop_all_skipped source rows st :
  (∀ r, r ∈ rows → r_id r ∈ st_ids st) →
  ∃ st', pull_loop source rows st = Return st' ∧ st_db st' = st_db st.
Proof.
  revert st. induction rows as [|r rows IH]; intros st Hids; simpl.
  - eauto.
  - rewrite bool_decide_eq_true_2 by (apply Hids; left).
    destruct (IH (PullState (st_db st) (st_ids st) (st_pulled st) (st_skipped st + 1)))
      as (st' & -> & Hst'); [|eauto].
    intros r' Hr'. simpl. apply Hids. by right.
Qed.

Lemma create_repo_frame fs repo d :
  d ≠ get_repo_path repo → (create_repo repo fs).1 !! d = fs !! d.
Proof.
  intros Hd. unfold create_repo.
  destruct (negb (validate_repo_name repo)); [done|].
  destruct (dir_exists fs repo); [done|]. simpl. unfold make_repo.
  destruct (fs !! get_repo_path repo); [done|]. by rewrite lookup_insert_ne.
Qed.

(** The relational backend's pull leaves the source database, and every
    database other than the target's, as it was. *)
Lemma sqlite_pull_commits_frame fault data fs d :
  d = get_repo_path (source_repo data) ∨ d ≠ get_repo_path (target_repo data) →
  (pull_commits fault data fs).1 !! d = fs !! d.
Proof.
  intros Hd. unfold pull_commits.
  destruct (negb (validate_repo_name (source_repo data))
            || negb (validate_repo_name (target_repo data))); [done|].
  destruct (dir_exists fs (source_repo data)) eqn:Hsrc; [|done]. simpl.
  unfold dir_exists in Hsrc.
  destruct (fs !! get_repo_path (source_repo data)) as [sdb|] eqn:Hs; [|done].
  destruct (decide (get_repo_path (source_repo data)
                    = get_repo_path (target_repo data))) as [Hst|Hst].
  - assert (dir_exists fs (target_repo data) = true) as ->.
    { unfold dir_exists. by rewrite <- Hst, Hs. }
    rewrite <- Hst, Hs. destruct fault; [done|].
    destruct (pull_loop_all_skipped sdb (visit_order sdb)
                (PullState sdb (list_to_set (map r_id (t_commits sdb))) 0 0))
      as (st' & -> & Hst').
    { intros r Hr. simpl. apply elem_of_list_to_set, list_elem_of_fmap.
      exists r. split; [done|]. by apply sort_asc_elem in Hr. }
    fold (visit_order sdb).
    simpl. rewrite Hst'. simpl. by rewrite insert_id.
  - assert (d ≠ get_repo_path (target_repo data)) as Hdt
      by (destruct Hd; congruence).
    set (fs1 := if dir_exists fs (target_repo data) then fs
                else (create_repo (target_repo data) fs).1).
    assert (fs1 !! d = fs !! d) as Hfs1.
    { unfold fs1. destruct (dir_exists fs (target_repo data)); [done|].
      by apply create_repo_frame. }
    destruct (fs1 !! get_repo_path (source_repo data)) as [source|]; [|done].
    destruct (fs1 !! get_repo_path (target_repo data)) as [target|]; [|done].
    destruct fault; [done|].
    destruct (pull_loop _ _ _) as [st|e]; [|done].
    simpl. by rewrite lookup_insert_ne.
Qed.

End SQLiteFacts.

(** ** Pushing a commit that is already there *)

(** C1. In both backends, pushing a commit whose id the repository already
    holds answers with a success message and leaves the whole store as it
    was. *)
Theorem push_existing_commit_is_noop :
  (∀ (fs : GraphDatabaseImplementation.store) data g objs,
      validate_repo_name (repo_name data) = true →
      fs !! get_repo_path (repo_name data)
        = Some (GraphDatabaseImplementation.RepoDir (Some g) objs) →
      OD.mem (id data) (GraphDatabaseImplementation.commits g) = true →
      ∃ msg, GraphDatabaseImplementation.push_commit data fs
             = (fs, (Message msg, 200)))
  ∧ (∀ (fs : SQLiteFileSystemImplementation.store) data db,
      validate_repo_name (repo_name data) = true →
      fs !! get_repo_path (repo_name data) = Some db →
      SQLiteFileSystemImplementation.commit_exists (id data) db = true →
      ∃ msg, SQLiteFileSystemImplementation.push_commit data fs
             = (fs, (Message msg, 200))).
Proof.
  split.
  - intros fs data g objs Hv Hfs Hmem. eexists.
    unfold GraphDatabaseImplementation.push_commit. rewrite Hv. simpl.
    rewrite (GraphFacts.dir_exists_true _ _ _ Hfs).
    unfold answer, GraphDatabaseImplementation.push_body, bind.
    rewrite (GraphFacts.read_graph_exists _ _ _ _ Hfs), Hmem. reflexivity.
  - intros fs data db Hv Hfs Hex. eexists.
    unfold SQLiteFileSystemImplementation.push_commit. rewrite Hv. simpl.
    rewrite (SQLiteFacts.make_repo_exists _ _ _ Hfs).
    unfold SQLiteFileSystemImplementation.transaction. rewrite Hfs.
    unfold SQLiteFileSystemImplementation.push_transaction. rewrite Hex.
    by rewrite insert_id.
Qed.

Lemma push_existing_commit_is_noop_witness :
  (∃ msg, GraphDatabaseImplementation.push_commit Scenario.commit_a Scenario.graph_ab
          = (Scenario.graph_ab, (Message msg, 200)))
  ∧ (∃ msg, SQLiteFileSystemImplementation.push_commit Scenario.commit_a Scenario.sqlite_ab
            = (Scenario.sqlite_ab, (Message msg, 200))).
Proof.
  split.
  - eapply (proj1 push_existing_commit_is_noop);
      [reflexivity | vm_compute; reflexivity | reflexivity].
  - eapply (proj2 push_existing_commit_is_noop);
      [reflexivity | vm_compute; reflexivity | reflexivity].
Defined.

(** ** The object store *)

Module ObjectStore.

Import GraphDatabaseImplementation.

Lemma store_object_result (fs : store) repo content :
  snd (store_object repo content fs) = Return (calculate_hash content).
Proof.
  unfold store_object, get_objects_dir, makedirs, ret, bind.
  destruct (fs !! get_repo_path repo) as [dir|] eqn:E; simpl.
  - rewrite E. by destruct (objects dir !! calculate_hash content).
  - rewrite lookup_insert_eq. simpl. by rewrite lookup_empty.
Qed.

Lemma store_object_present (fs : store) repo content :
  is_Some (objects_of fs repo !! calculate_hash content) →
  store_object repo content fs = (fs, Return (calculate_hash content)).
Proof.
  unfold objects_of. intros [c Hc].
  destruct (fs !! get_repo_path repo) as [dir|] eqn:E; [|by rewrite lookup_empty in Hc].
  unfold store_object, bind. rewrite (GraphFacts.get_objects_dir_exists _ _ _ E).
  by rewrite E, Hc.
Qed.

(** What [store_object] leaves in the objects of the repository. *)
Lemma store_object_objects (fs : store) repo content :
  objects_of (fst (store_object repo content fs)) repo
  = match objects_of fs repo !! calculate_hash content with
    | Some _ => objects_of fs repo
    | None => <[calculate_hash content := content]> (objects_of fs repo)
    end.
Proof.
  unfold objects_of, store_object, get_objects_dir, makedirs, ret, bind.
  destruct (fs !! get_repo_path repo) as [dir|] eqn:E; simpl.
  - rewrite E. destruct (objects dir !! calculate_hash content) eqn:E'; simpl.
    + by rewrite E.
    + by rewrite lookup_insert_eq.
  - rewrite lookup_insert_eq. simpl. rewrite !lookup_empty. simpl.
    by rewrite lookup_insert_eq.
Qed.

Lemma store_object_other (fs : store) repo content d :
  d ≠ get_repo_path repo →
  fst (store_object repo content fs) !! d = fs !! d.
Proof.
  intros Hd. unfold store_object, get_objects_dir, makedirs, ret, bind.
  destruct (fs !! get_repo_path repo) as [dir|] eqn:E; simpl.
  - rewrite E. destruct (objects dir !! calculate_hash content); simpl; [done|].
    by rewrite lookup_insert_ne.
  - rewrite lookup_insert_eq. simpl. rewrite lookup_empty. simpl.
    by rewrite !lookup_insert_ne.
Qed.

(** [store_object] leaves [graph.json] alone. *)
Lemma store_object_graph (fs : store) repo content :
  (fst (store_object repo content fs) !! get_repo_path repo) ≫= graph_json
  = (fs !! get_repo_path repo) ≫= graph_json.
Proof.
  unfold store_object, get_objects_dir, makedirs, ret, bind.
  destruct (fs !! get_repo_path repo) as [dir|] eqn:E; simpl.
  - rewrite E. destruct (objects dir !! calculate_hash content); simpl.
    + by rewrite E.
    + by rewrite lookup_insert_eq.
  - rewrite lookup_insert_eq. simpl. rewrite lookup_empty. simpl.
    by rewrite lookup_insert_eq.
Qed.

End ObjectStore.

(** C6. [store_object] names a blob by the hexadecimal SHA-1 digest of the
    UTF-8 bytes of its content; storing content whose object is already
    there writes nothing, so storing twice is storing once; and in a store
    where every object is named by the hash of what it holds, which
    [store_object] maintains, no content is held under two names. *)
Theorem store_object_content_addressed :
  (∀ (fs : GraphDatabaseImplementation.store) repo content,
      snd (GraphDatabaseImplementation.store_object repo content fs)
      = Return (Hashlib.hexdigest (Hashlib.sha1 (Hashlib.encode_utf8 content))))
  ∧ (∀ (fs : GraphDatabaseImplementation.store) repo content,
      is_Some (objects_of fs repo !! calculate_hash content) →
      fst (GraphDatabaseImplementation.store_object repo content fs) = fs)
  ∧ (∀ (fs : GraphDatabaseImplementation.store) repo content,
      let fs' := fst (GraphDatabaseImplementation.store_object repo content fs) in
      objects_of fs' repo !! calculate_hash content
      = Some (default content (objects_of fs repo !! calculate_hash content))
      ∧ fst (GraphDatabaseImplementation.store_object repo content fs') = fs')
  ∧ (∀ (fs : GraphDatabaseImplementation.store) repo content,
      content_addressed (objects_of fs repo) →
      content_addressed
        (objects_of (fst (GraphDatabaseImplementation.store_object repo content fs)) repo))
  ∧ (∀ objs h1 h2 c,
      content_addressed objs → objs !! h1 = Some c → objs !! h2 = Some c → h1 = h2).
Proof.
  split; [|split; [|split; [|split]]].
  - intros. apply ObjectStore.store_object_result.
  - intros fs repo text H. by rewrite ObjectStore.store_object_present.
  - intros fs repo text. simpl. rewrite ObjectStore.store_object_objects. split.
    + destruct (objects_of fs repo !! calculate_hash text) eqn:E; simpl; [done|].
      by rewrite lookup_insert_eq.
    + rewrite ObjectStore.store_object_present; [done|].
      rewrite ObjectStore.store_object_objects.
      destruct (objects_of fs repo !! calculate_hash text) eqn:E; [by rewrite E|].
      by rewrite lookup_insert_eq.
  - intros fs repo text Hca h c. rewrite ObjectStore.store_object_objects.
    destruct (objects_of fs repo !! calculate_hash text) eqn:E; [by apply Hca|].
    rewrite lookup_insert. case_decide; [intros; simplify_eq; done | by apply Hca].
  - intros objs h1 h2 c Hca H1 H2. by rewrite (Hca _ _ H1), (Hca _ _ H2).
Qed.

Lemma store_object_content_addressed_witness :
  fst (GraphDatabaseImplementation.store_object "repo" "v1" Scenario.graph_ab)
  = Scenario.graph_ab
  ∧ content_addressed
      (objects_of
         (fst (GraphDatabaseImplementation.store_object "repo" "v3" ∅)) "repo").
Proof.
  split.
  - apply (proj1 (proj2 store_object_content_addressed)).
    vm_compute. eexists. reflexivity.
  - apply (proj1 (proj2 (proj2 (proj2 store_object_content_addressed)))).
    intros h c H. vm_compute in H. discriminate H.
Defined.

(** ** Pull leaves the source alone *)

(** C10. In both backends a pull leaves the source repository as it was,
    whatever the outcome, and changes no directory other than the
    target's. *)
Theorem pull_never_modifies_source :
  (∀ limit (fs : GraphDatabaseImplementation.store) data d,
      d = get_repo_path (source_repo data) ∨ d ≠ get_repo_path (target_repo data) →
      (GraphDatabaseImplementation.pull_commits limit data fs).1 !! d = fs !! d)
  ∧ (∀ fault (fs : SQLiteFileSystemImplementation.store) data d,
      d = get_repo_path (source_repo data) ∨ d ≠ get_repo_path (target_repo data) →
      (SQLiteFileSystemImplementation.pull_commits fault data fs).1 !! d = fs !! d).
Proof.
  split.
  - intros. by apply GraphFacts.pull_commits_frame.
  - intros. by apply SQLiteFacts.sqlite_pull_commits_frame.
Qed.

Lemma pull_never_modifies_source_witness :
  (GraphDatabaseImplementation.pull_commits Scenario.depth (SyncData "repo" "mirror")
     Scenario.graph_ab).1 !! "repo" = Scenario.graph_ab !! "repo"
  ∧ (SQLiteFileSystemImplementation.pull_commits false (SyncData "repo" "mirror")
       Scenario.sqlite_ab).1 !! "repo" = Scenario.sqlite_ab !! "repo".
Proof.
  split.
  - apply (proj1 pull_never_modifies_source). left. reflexivity.
  - apply (proj2 pull_never_modifies_source). left. reflexivity.
Defined.

(** ** The visitation order of a pull *)

Module VisitFacts.

Import GraphDatabaseImplementation.

Implicit Types (cs : odict commit) (visited : gset string) (order : list string).

(** The recursion of [visit] never runs out of fuel when the fuel exceeds the
    number of commits not yet visited. *)
Lemma visit_total cs fuel : ∀ commit_id visited order,
  size (list_to_set (OD.keys cs) ∖ visited : gset string) < fuel →
  ∃ visited' order',
    visit fuel cs commit_id (visited, order) = Some (visited', order')
    ∧ visited ⊆ visited'.
Proof.
  induction fuel as [|fuel IH]; intros commit_id visited order Hsize; [lia|].
  simpl. case_bool_decide as Hin; [by eauto|].
  assert (∀ p, is_Some (OD.get commit_id cs) →
            ∃ visited' order',
              visit fuel cs p ({[commit_id]} ∪ visited, order) = Some (visited', order')
              ∧ {[commit_id]} ∪ visited ⊆ visited') as Hrec.
  { intros p [c Hc]. apply IH. apply ODFacts.get_Some_keys in Hc.
    eapply Nat.lt_le_trans; [|apply Nat.lt_succ_r, Hsize].
    apply subset_size. apply strict_spec_alt. split; [set_solver|].
    intros Heq. assert (commit_id ∈ (list_to_set (OD.keys cs) ∖ visited : gset string))
      as Hm by (apply elem_of_difference; split; [by apply elem_of_list_to_set | done]).
    rewrite <- Heq in Hm. set_solver. }
  destruct (OD.get commit_id cs) as [c|] eqn:Hc.
  - destruct (c_parent_id c) as [[|a p]|].
    + eexists _, _. split; [reflexivity | set_solver].
    + destruct (Hrec (String a p)) as (v' & o' & -> & Hsub); [by eauto|].
      eexists _, _. split; [reflexivity | set_solver].
    + eexists _, _. split; [reflexivity | set_solver].
  - eexists _, _. split; [reflexivity | set_solver].
Qed.

Lemma visit_all_total cs fuel ids : ∀ visited order,
  size (list_to_set (OD.keys cs) ∖ visited : gset string) < fuel →
  is_Some (visit_all fuel cs ids (visited, order)).
Proof.
  induction ids as [|commit_id ids IH]; intros visited order Hsize; simpl; [by eauto|].
  destruct (visit_total cs fuel commit_id visited order Hsize)
    as (v' & o' & -> & Hsub).
  apply IH. eapply Nat.le_lt_trans; [|exact Hsize].
  apply subseteq_size. set_solver.
Qed.

Lemma size_list_to_set_le (l : list string) :
  (size (list_to_set l : gset string) ≤ length l)%nat.
Proof.
  induction l as [|x l IH]; [by rewrite list_to_set_nil, size_empty|].
  rewrite list_to_set_cons. simpl.
  destruct (decide (x ∈ (list_to_set l : gset string))) as [Hin|Hin].
  - rewrite (subseteq_union_1_L {[x]}); [lia | set_solver].
  - rewrite size_union, size_singleton; [lia | set_solver].
Qed.

(** The visit stays within a limit that exceeds the number of commits. *)
Lemma commit_order_total limit cs :
  length cs < limit → is_Some (commit_order limit cs).
Proof.
  intros Hlimit. unfold commit_order.
  destruct (visit_all_total cs limit (OD.keys cs) ∅ []) as [st ->];
    [|by eauto].
  rewrite difference_empty_L.
  eapply Nat.le_lt_trans; [|exact Hlimit].
  etrans; [apply size_list_to_set_le|]. unfold OD.keys. by rewrite length_map.
Qed.

Lemma before_app_r p c l l' : before p c l → before p c (l ++ l').
Proof.
  intros (l1 & l2 & l3 & ->). exists l1, l2, (l3 ++ l').
  by rewrite <- !app_assoc, <- !app_comm_cons, <- app_assoc.
Qed.

Lemma before_snoc p c l : p ∈ l → before p c (l ++ [c]).
Proof.
  intros (l1 & l2 & ->)%list_elem_of_split. exists l1, l2, [].
  by rewrite <- app_assoc.
Qed.

Lemma visit_unfold cs fuel commit_id visited order :
  visit (S fuel) cs commit_id (visited, order)
  = if bool_decide (commit_id ∈ visited) then Some (visited, order)
    else
      match
        match parent_of cs commit_id with
        | Some parent => visit fuel cs parent ({[commit_id]} ∪ visited, order)
        | None => Some ({[commit_id]} ∪ visited, order)
        end
      with
      | Some (visited', order') => Some (visited', order' ++ [commit_id])
      | None => None
      end.
Proof.
  simpl. unfold parent_of. case_bool_decide; [done|].
  destruct (OD.get commit_id cs) as [c|]; simpl; [|done].
  by destruct (c_parent_id c) as [[|a p]|].
Qed.

(** One call of [visit] appends the commits it reaches that were not visited
    yet; when [rank] decreases along parent links and every commit being
    visited outranks [commit_id], each appended commit comes after its
    parent. *)
Lemma visit_spec cs (rank : string → nat) fuel :
  ∀ commit_id visited order visited' order',
  visit fuel cs commit_id (visited, order) = Some (visited', order') →
  ∃ new,
    order' = order ++ new
    ∧ visited' = visited ∪ list_to_set new
    ∧ (∀ v, v ∈ new → v ∉ visited)
    ∧ NoDup new
    ∧ (commit_id ∈ visited ∨ commit_id ∈ new)
    ∧ ((∀ c p, parent_of cs c = Some p → rank p < rank c) →
       (∀ v, v ∈ visited → v ∉ order → rank commit_id < rank v) →
       (commit_id ∈ order ∨ commit_id ∈ new)
       ∧ ∀ c p, c ∈ new → parent_of cs c = Some p → before p c (order ++ new)).
Proof.
  induction fuel as [|fuel IH]; intros commit_id visited order visited' order' Hv;
    [done|].
  rewrite visit_unfold in Hv. case_bool_decide as Hin.
  - injection Hv as <- <-. exists [].
    rewrite app_nil_r, list_to_set_nil, union_empty_r_L.
    split; [done|]. split; [done|]. split; [by intros v Hv%elem_of_nil|].
    split; [constructor|]. split; [by left|]. intros Hrank Hstack. split.
    + destruct (decide (commit_id ∈ order)) as [|Hno]; [by left|].
      specialize (Hstack _ Hin Hno). lia.
    + by intros c p Hc%elem_of_nil.
  - destruct (parent_of cs commit_id) as [parent|] eqn:Hp.
    + destruct (visit fuel cs parent ({[commit_id]} ∪ visited, order))
        as [[v1 o1]|] eqn:Hrec; [|done].
      injection Hv as <- <-.
      destruct (IH _ _ _ _ _ Hrec) as (new1 & -> & -> & Hfresh & Hnd & Hpin & Hrk).
      exists (new1 ++ [commit_id]).
      assert (commit_id ∉ new1) as Hnotin by (intros H; apply Hfresh in H; set_solver).
      split; [by rewrite app_assoc|].
      split; [rewrite list_to_set_app_L; set_solver|].
      split.
      { intros v [Hv| ->%list_elem_of_singleton]%elem_of_app; [|done].
        apply Hfresh in Hv. set_solver. }
      split.
      { apply NoDup_app. split; [done|]. split; [|apply NoDup_singleton].
        intros x Hx ->%list_elem_of_singleton. done. }
      split; [right; apply elem_of_app; right; by left|].
      intros Hrank Hstack.
      split; [right; apply elem_of_app; right; by left|].
      intros c p Hc Hcp.
      destruct Hrk as [Hpar Hbefore]; [done | |].
      { intros v Hv Hvo. apply elem_of_union in Hv as [->%elem_of_singleton|Hv].
        - by apply Hrank.
        - specialize (Hstack _ Hv Hvo). specialize (Hrank _ _ Hp). lia. }
      rewrite app_assoc.
      apply elem_of_app in Hc as [Hc| ->%list_elem_of_singleton].
      * by apply before_app_r, Hbefore.
      * rewrite Hp in Hcp. injection Hcp as <-. apply before_snoc.
        apply elem_of_app. done.
    + injection Hv as <- <-. exists [commit_id].
      split; [done|].
      split; [set_solver|].
      split; [by intros v ->%list_elem_of_singleton|].
      split; [apply NoDup_singleton|].
      split; [right; by left|].
      intros Hrank Hstack. split; [right; by left|].
      intros c p ->%list_elem_of_singleton Hcp. congruence.
Qed.

Lemma visit_all_spec cs (rank : string → nat) fuel ids :
  ∀ visited order visited' order',
  visit_all fuel cs ids (visited, order) = Some (visited', order') →
  visited = list_to_set order → NoDup order →
  visited' = list_to_set order'
  ∧ NoDup order'
  ∧ (∀ k, k ∈ order ∨ k ∈ ids → k ∈ order')
  ∧ ((∀ c p, parent_of cs c = Some p → rank p < rank c) →
     parents_first (parent_of cs) order → parents_first (parent_of cs) order').
Proof.
  induction ids as [|commit_id ids IH]; intros visited order visited' order' Hv Hset Hnd.
  - simpl in Hv. injection Hv as <- <-.
    split; [done|]. split; [done|]. split; [|done].
    intros k [|Hk%elem_of_nil]; done.
  - simpl in Hv.
    destruct (visit fuel cs commit_id (visited, order)) as [[v1 o1]|] eqn:Hone; [|done].
    destruct (visit_spec cs rank _ _ _ _ _ _ Hone)
      as (new & -> & -> & Hfresh & Hndnew & Hin & Hrank).
    destruct (IH _ _ _ _ Hv) as (Hset' & Hnd' & Hcov & Hpf).
    { rewrite list_to_set_app_L. by rewrite Hset. }
    { apply NoDup_app. split; [done|]. split; [|done].
      intros x Hx Hxn. apply Hfresh in Hxn. apply Hxn. rewrite Hset.
      by apply elem_of_list_to_set. }
    split; [done|]. split; [done|]. split.
    + intros k [Hk|[->|Hk]%elem_of_cons].
      * apply Hcov. left. apply elem_of_app. by left.
      * apply Hcov. left. apply elem_of_app.
        destruct Hin as [Hin|Hin]; [|by right].
        left. rewrite Hset in Hin. by apply elem_of_list_to_set in Hin.
      * apply Hcov. by right.
    + intros Hr Hfirst. apply Hpf; [done|].
      destruct Hrank as [_ Hbefore]; [done | |].
      { intros v Hv' Hvo. rewrite Hset in Hv'. by apply elem_of_list_to_set in Hv'. }
      intros c p [Hc|Hc]%elem_of_app Hcp.
      * by apply before_app_r, Hfirst.
      * by apply Hbefore.
Qed.

(** The visitation order of the document backend lists every commit of the
    source once and, when the parent links are acyclic, every commit after
    its parent. *)
Lemma commit_order_spec limit cs order :
  commit_order limit cs = Some order →
  NoDup order
  ∧ (∀ k, k ∈ OD.keys cs → k ∈ order)
  ∧ (acyclic (parent_of cs) → parents_first (parent_of cs) order).
Proof.
  unfold commit_order. intros Hv.
  destruct (visit_all _ _ _ _) as [[visited' order']|] eqn:Hall; [|done].
  simpl in Hv. injection Hv as <-.
  split; [|split].
  - eapply (visit_all_spec cs (λ _, 0)); [exact Hall | by rewrite list_to_set_nil | constructor].
  - intros k Hk.
    eapply (visit_all_spec cs (λ _, 0)); [exact Hall | by rewrite list_to_set_nil | constructor |].
    by right.
  - intros [rank Hrank].
    eapply (visit_all_spec cs rank); [exact Hall | by rewrite list_to_set_nil | constructor | done |].
    by intros c p Hc%elem_of_nil.
Qed.

(** A commit that has not been visited, with [fuel] ancestors or more that
    have not been visited either, is more than [visit] can descend. *)
Lemma visit_deep cs l : ∀ (fuel : nat) (commit_id : string) visited order,
  ancestors (parent_of cs) commit_id l →
  NoDup (commit_id :: l) →
  (∀ k, k ∈ commit_id :: l → k ∉ visited) →
  (fuel ≤ length l)%nat →
  visit fuel cs commit_id (visited, order) = None.
Proof.
  induction l as [|p l IH]; intros fuel commit_id visited order Hanc Hnd Hnew Hfuel.
  - simpl in Hfuel. by replace fuel with 0 by lia.
  - destruct fuel as [|fuel]; [done|].
    rewrite visit_unfold.
    rewrite bool_decide_eq_false_2 by (apply Hnew, elem_of_cons; by left).
    destruct Hanc as [Hp Hanc]. rewrite Hp.
    apply NoDup_cons in Hnd as [Hc Hnd].
    rewrite (IH fuel p); [done|done|done| |simpl in Hfuel; lia].
    intros k Hk [Hin%elem_of_singleton|Hin]%elem_of_union.
    + by subst k.
    + apply (Hnew k); [apply elem_of_cons; by right|done].
Qed.

(** The order of a pull cannot be computed when the first commit of the
    source has [limit] ancestors or more. *)
Lemma commit_order_deep limit cs k rest l :
  OD.keys cs = k :: rest →
  ancestors (parent_of cs) k l →
  NoDup (k :: l) →
  (limit ≤ length l)%nat →
  commit_order limit cs = None.
Proof.
  intros Hkeys Hanc Hnd Hlimit. unfold commit_order. rewrite Hkeys. simpl.
  rewrite (visit_deep cs l); [done|done|done| |done].
  intros k' _. set_solver.
Qed.

End VisitFacts.

(** ** A pull never applies a commit before its parent *)

Module GuardFacts.

Import GraphDatabaseImplementation.

Lemma keeps_graphs_ret {A} (a : A) : keeps_graphs (ret a).
Proof. by intros fs d. Qed.

Lemma keeps_graphs_raise {A} e : keeps_graphs (raise (A := A) e).
Proof. by intros fs d. Qed.

Lemma keeps_graphs_bind {A B} (m : io A) (k : A → io B) :
  keeps_graphs m → (∀ a, keeps_graphs (k a)) → keeps_graphs (bind m k).
Proof.
  intros Hm Hk fs d. unfold bind. specialize (Hm fs d).
  destruct (m fs) as [fs' [a|e]]; simpl in *; [|done].
  by rewrite (Hk a fs' d).
Qed.

Lemma keeps_graphs_store_object repo text : keeps_graphs (store_object repo text).
Proof.
  intros fs d. destruct (decide (d = get_repo_path repo)) as [->|Hd].
  - apply ObjectStore.store_object_graph.
  - by rewrite ObjectStore.store_object_other.
Qed.

Lemma keeps_graphs_get_object_content repo h :
  keeps_graphs (get_object_content repo h).
Proof.
  intros fs d. unfold get_object_content, get_objects_dir, makedirs, ret, bind.
  destruct (fs !! get_repo_path repo) as [dir|] eqn:E; simpl.
  - by rewrite E.
  - rewrite lookup_insert_eq. simpl. rewrite lookup_insert. case_decide; [|done].
    subst d. by rewrite E.
Qed.

Lemma keeps_graphs_copy_files source target files acc :
  keeps_graphs (copy_files source target files acc).
Proof.
  revert acc. induction files as [|[file_path file_hash] rest IH]; intros acc; simpl.
  - apply keeps_graphs_ret.
  - apply keeps_graphs_bind; [apply keeps_graphs_get_object_content|]. intros [text|].
    + apply keeps_graphs_bind; [apply keeps_graphs_store_object | intros; apply IH].
    + apply keeps_graphs_raise.
Qed.

Lemma keeps_graphs_pull_loop source target g order st :
  keeps_graphs (pull_loop source target g order st).
Proof.
  revert st. induction order as [|commit_id rest IH]; intros st; simpl.
  - apply keeps_graphs_ret.
  - case_bool_decide; [apply IH|].
    destruct (OD.get commit_id (commits g)) as [commit_data|];
      [|apply keeps_graphs_raise].
    destruct (parent_missing _ _); [apply IH|].
    apply keeps_graphs_bind; [apply keeps_graphs_copy_files | intros; apply IH].
Qed.

Lemma commits_of_graph fs repo :
  commits_of fs repo
  = match (fs !! get_repo_path repo) ≫= graph_json with
    | Some g => commits g
    | None => []
    end.
Proof.
  unfold commits_of. by destruct (fs !! get_repo_path repo) as [[[g|] objs]|].
Qed.

Lemma parent_present parent_id ids p :
  parent_missing parent_id ids = false →
  required_parent parent_id = Some p → p ∈ ids.
Proof.
  unfold parent_missing, required_parent.
  destruct parent_id as [[|a s]|]; try done.
  intros H [= <-]. apply negb_false_iff in H. by apply bool_decide_eq_true in H.
Qed.

(** The loop of a pull appends commits to the target graph, each one after
    its required parent. *)
Lemma pull_loop_guard source target g order : ∀ st fs fs' st',
  pull_loop source target g order st fs = (fs', Return st') →
  st_ids st = list_to_set (OD.keys (commits (st_graph st))) →
  ∃ added,
    commits (st_graph st') = commits (st_graph st) ++ added
    ∧ ∀ c cd p, (c, cd) ∈ added → required_parent (c_parent_id cd) = Some p →
        before p c (OD.keys (commits (st_graph st'))).
Proof.
  induction order as [|commit_id rest IH]; intros st fs fs' st' Hloop Hids; simpl in Hloop.
  - injection Hloop as <- <-. exists []. split; [by rewrite app_nil_r|].
    by intros c cd p Hc%elem_of_nil.
  - case_bool_decide as Hin.
    { by apply (IH _ _ _ _ Hloop). }
    destruct (OD.get commit_id (commits g)) as [commit_data|] eqn:Hget; [|done].
    destruct (parent_missing (c_parent_id commit_data) (st_ids st)) eqn:Hpm.
    { by apply (IH _ _ _ _ Hloop). }
    unfold bind in Hloop.
    destruct (copy_files source target (c_files commit_data) [] fs)
      as [fs1 [files_dict|e]]; [|done].
    assert (OD.get commit_id (commits (st_graph st)) = None) as Hfresh.
    { apply ODFacts.get_None. intros Hk. apply Hin. rewrite Hids.
      by apply elem_of_list_to_set. }
    set (cd' := Commit (c_message commit_data) (c_author commit_data)
                  (c_timestamp commit_data) (c_parent_id commit_data) files_dict) in *.
    apply IH in Hloop as (added & Hadd & Hbefore).
    + assert (commits (st_graph st') = (commits (st_graph st) ++ [(commit_id, cd')]) ++ added)
        as Hall.
      { rewrite Hadd. rewrite <- (ODFacts.set_fresh commit_id cd' _ Hfresh).
        by destruct (HEAD (st_graph st)). }
      exists ((commit_id, cd') :: added). split.
      { rewrite Hall. by rewrite <- app_assoc. }
      intros c cd p [Heq|Hc]%elem_of_cons Hp; [|by eapply Hbefore].
      injection Heq as -> ->.
      rewrite Hall. unfold OD.keys. rewrite !map_app. simpl.
      apply VisitFacts.before_app_r, VisitFacts.before_snoc.
      pose proof (parent_present _ _ _ Hpm Hp) as Hpin.
      rewrite Hids in Hpin. by apply elem_of_list_to_set in Hpin.
    + simpl. rewrite Hids.
      assert (OD.keys (OD.set commit_id cd' (commits (st_graph st)))
              = OD.keys (commits (st_graph st)) ++ [commit_id]) as Hk
        by by apply ODFacts.keys_set_fresh.
      destruct (HEAD (st_graph st)); simpl; rewrite Hk, list_to_set_app_L; set_solver.
Qed.

Lemma create_repo_commits fs repo :
  graph_exists fs repo = false → commits_of (create_repo repo fs).1 repo = [].
Proof.
  intros Hg. unfold create_repo.
  assert (commits_of fs repo = []) as Hnone.
  { unfold commits_of, graph_exists in *.
    by destruct (fs !! get_repo_path repo) as [[[g|] objs]|]. }
  destruct (negb (validate_repo_name repo)); [done|].
  destruct (dir_exists fs repo) eqn:Hd; [done|].
  unfold dir_exists in Hd.
  destruct (fs !! get_repo_path repo) eqn:E; [done|].
  unfold make_repo, get_objects_dir, makedirs, init_repo_graph, graph_exists,
    write_graph, ret, bind, commits_of.
  rewrite E. simpl. rewrite !lookup_insert_eq. simpl.
  by rewrite !lookup_insert_eq.
Qed.

(** What a pull of the document backend adds to the target comes after what
    was there, every added commit after its required parent. *)
Lemma pull_commits_guard limit data fs :
  ∃ added,
    commits_of (pull_commits limit data fs).1 (target_repo data)
    = commits_of fs (target_repo data) ++ added
    ∧ ∀ c cd p, (c, cd) ∈ added → required_parent (c_parent_id cd) = Some p →
        before p c
          (OD.keys (commits_of (pull_commits limit data fs).1 (target_repo data))).
Proof.
  assert (∀ fs', commits_of fs' (target_repo data) = commits_of fs (target_repo data) →
            ∃ added,
              commits_of fs' (target_repo data) = commits_of fs (target_repo data) ++ added
              ∧ ∀ c cd p, (c, cd) ∈ added → required_parent (c_parent_id cd) = Some p →
                  before p c (OD.keys (commits_of fs' (target_repo data)))) as Hsame.
  { intros fs' ->. exists []. split; [by rewrite app_nil_r|].
    by intros c cd p Hc%elem_of_nil. }
  unfold pull_commits.
  destruct (negb (validate_repo_name (source_repo data))
            || negb (validate_repo_name (target_repo data))); [by apply Hsame|].
  destruct (graph_exists fs (source_repo data)) eqn:Hsrc; [|by apply Hsame]. simpl.
  set (fs1 := if graph_exists fs (target_repo data) then fs
              else (create_repo (target_repo data) fs).1).
  assert (commits_of fs1 (target_repo data) = commits_of fs (target_repo data)) as H1.
  { unfold fs1. destruct (graph_exists fs (target_repo data)) eqn:Ht; [done|].
    rewrite (create_repo_commits _ _ Ht). unfold commits_of, graph_exists in *.
    by destruct (fs !! get_repo_path (target_repo data)) as [[[g|] objs]|]. }
  rewrite <- H1. clearbody fs1. clear H1 Hsame Hsrc.
  assert (∀ fs', commits_of fs' (target_repo data) = commits_of fs1 (target_repo data) →
            ∃ added,
              commits_of fs' (target_repo data) = commits_of fs1 (target_repo data) ++ added
              ∧ ∀ c cd p, (c, cd) ∈ added → required_parent (c_parent_id cd) = Some p →
                  before p c (OD.keys (commits_of fs' (target_repo data)))) as Hsame.
  { intros fs' ->. exists []. split; [by rewrite app_nil_r|].
    by intros c cd p Hc%elem_of_nil. }
  rewrite GraphFacts.answer_fst. unfold pull_body, bind.
  destruct (read_graph (source_repo data) fs1) as [fs2 [sg|e]] eqn:Hrs;
    unfold read_graph in Hrs.
  2:{ destruct (fs1 !! get_repo_path (source_repo data)) as [[[?|] ?]|];
        simplify_eq; by apply Hsame. }
  assert (fs2 = fs1) as ->.
  { by destruct (fs1 !! get_repo_path (source_repo data)) as [[[?|] ?]|]; simplify_eq. }
  clear Hrs. unfold read_graph.
  destruct (fs1 !! get_repo_path (target_repo data)) as [[[tg|] objs]|] eqn:Ht;
    try by apply Hsame.
  destruct (commit_order limit (commits sg)) as [order|]; [|by apply Hsame].
  destruct (pull_loop _ _ _ _ _ fs1) as [fs3 [st|e]] eqn:Hloop.
  2:{ simpl. apply Hsame. rewrite !commits_of_graph.
      pose proof (keeps_graphs_pull_loop (source_repo data) (target_repo data) sg order
                    (PullState tg (list_to_set (OD.keys (commits tg))) 0 0) fs1
                    (get_repo_path (target_repo data))) as Hk.
      rewrite Hloop in Hk. simpl in Hk. by rewrite Hk. }
  pose proof (keeps_graphs_pull_loop (source_repo data) (target_repo data) sg order
                (PullState tg (list_to_set (OD.keys (commits tg))) 0 0) fs1
                (get_repo_path (target_repo data))) as Hk.
  rewrite Hloop, Ht in Hk. simpl in Hk.
  apply pull_loop_guard in Hloop as (added & Hadd & Hbefore); [|done].
  simpl in Hadd.
  unfold write_graph.
  destruct (fs3 !! get_repo_path (target_repo data)) as [dir|] eqn:E3; [|done].
  simpl. exists added.
  assert (commits_of (<[get_repo_path (target_repo data) :=
                         RepoDir (Some (st_graph st)) (objects dir)]> fs3)
            (target_repo data) = commits (st_graph st)) as ->.
  { unfold commits_of. by rewrite lookup_insert_eq. }
  split; [|done]. rewrite Hadd. unfold commits_of. by rewrite Ht.
Qed.

(** When the visit exceeds the limit the pull answers 500 and the commits of
    the target are those it had. *)
Lemma pull_commits_too_deep limit data fs sg sobjs :
  validate_repo_name (source_repo data) = true →
  validate_repo_name (target_repo data) = true →
  fs !! get_repo_path (source_repo data) = Some (RepoDir (Some sg) sobjs) →
  commit_order limit (commits sg) = None →
  ∃ e,
    (pull_commits limit data fs).2 = (Failure "Error pulling commits" e, 500)
    ∧ commits_of (pull_commits limit data fs).1 (target_repo data)
      = commits_of fs (target_repo data).
Proof.
  intros Hvs Hvt Hs Hdeep. unfold pull_commits. rewrite Hvs, Hvt. simpl.
  rewrite (GraphFacts.graph_exists_true _ _ _ _ Hs). simpl.
  set (fs1 := if graph_exists fs (target_repo data) then fs
              else (create_repo (target_repo data) fs).1).
  assert (commits_of fs1 (target_repo data) = commits_of fs (target_repo data)) as H1.
  { unfold fs1. destruct (graph_exists fs (target_repo data)) eqn:Ht; [done|].
    rewrite (create_repo_commits _ _ Ht). unfold commits_of, graph_exists in *.
    by destruct (fs !! get_repo_path (target_repo data)) as [[[g|] objs]|]. }
  assert (fs1 !! get_repo_path (source_repo data) = Some (RepoDir (Some sg) sobjs))
    as Hs1.
  { unfold fs1. destruct (graph_exists fs (target_repo data)) eqn:Ht; [done|].
    destruct (GraphFacts.confined_create_repo (get_repo_path (source_repo data))
                (target_repo data) fs) as [_ H2]; [by eauto|].
    rewrite H2; [done|]. intros Heq. unfold graph_exists in Ht.
    by rewrite <- Heq, Hs in Ht. }
  rewrite <- H1. clearbody fs1.
  unfold answer, pull_body, bind, read_graph. rewrite Hs1.
  destruct (fs1 !! get_repo_path (target_repo data)) as [[[tg|] objs]|];
    [rewrite Hdeep|..]; by eexists.
Qed.

End GuardFacts.

Module SQLiteGuardFacts.

Import SQLiteFileSystemImplementation.

(** The three inserts of one commit append its row to [commits]. *)
Lemma insert_commit_rows r files_rows changes_rows db db' u :
  (insert_commit r ;;;
   insert_files (r_id r) files_rows ;;;
   insert_changes (r_id r) changes_rows) db = (db', Return u) →
  t_commits db' = t_commits db ++ [r].
Proof.
  unfold insert_commit, insert_files, insert_changes, bind.
  destruct (commit_exists (r_id r) db); [done|]. simpl.
  destruct (insert_all (r_id r) files_rows (t_files db)) as [t|e]; [|done]. simpl.
  destruct (insert_all (r_id r) changes_rows (t_changes db)) as [t'|e]; [|done].
  by intros [= <- _].
Qed.

Lemma sqlite_parent_present parent_id ids p :
  parent_missing parent_id ids = false →
  required_parent parent_id = Some p → p ∈ ids.
Proof.
  unfold parent_missing, required_parent.
  destruct parent_id as [[|a s]|]; try done.
  intros H [= <-]. apply negb_false_iff in H. by apply bool_decide_eq_true in H.
Qed.

(** The loop of a pull appends rows to the target's [commits], each one
    after the row of its required parent. *)
Lemma sqlite_pull_loop_guard source rows : ∀ st st',
  pull_loop source rows st = Return st' →
  st_ids st = list_to_set (map r_id (t_commits (st_db st))) →
  ∃ added,
    t_commits (st_db st') = t_commits (st_db st) ++ added
    ∧ ∀ r p, r ∈ added → required_parent (r_parent_id r) = Some p →
        before p (r_id r) (map r_id (t_commits (st_db st'))).
Proof.
  induction rows as [|commit rest IH]; intros st st' Hloop Hids; simpl in Hloop.
  - injection Hloop as <-. exists []. split; [by rewrite app_nil_r|].
    by intros r p Hr%elem_of_nil.
  - case_bool_decide as Hin.
    { by apply (IH _ _ Hloop). }
    destruct (parent_missing (r_parent_id commit) (st_ids st)) eqn:Hpm.
    { by apply (IH _ _ Hloop). }
    destruct ((insert_commit commit ;;; _) (st_db st)) as [db' [u|e]] eqn:Hins; [|done].
    apply insert_commit_rows in Hins.
    apply IH in Hloop as (added & Hadd & Hbefore); simpl in *.
    + exists (commit :: added). split.
      { rewrite Hadd, Hins. by rewrite <- app_assoc. }
      intros r p [->|Hr]%elem_of_cons Hp; [|by eapply Hbefore].
      rewrite Hadd, Hins, !map_app. simpl.
      apply VisitFacts.before_app_r, VisitFacts.before_snoc.
      pose proof (sqlite_parent_present _ _ _ Hpm Hp) as Hpin.
      rewrite Hids in Hpin. by apply elem_of_list_to_set in Hpin.
    + rewrite Hins, Hids, map_app, list_to_set_app_L. simpl. set_solver.
Qed.

Lemma create_repo_rows fs repo :
  rows_of (create_repo repo fs).1 repo = rows_of fs repo.
Proof.
  unfold create_repo, rows_of.
  destruct (negb (validate_repo_name repo)); [done|].
  destruct (dir_exists fs repo) eqn:Hd; [done|]. simpl.
  unfold dir_exists, make_repo in *.
  destruct (fs !! get_repo_path repo); [done|]. by rewrite lookup_insert_eq.
Qed.

(** What a pull of the relational backend adds to the target comes after
    what was there, every added row after the row of its required parent. *)
Lemma sqlite_pull_commits_guard fault data fs :
  ∃ added,
    rows_of (pull_commits fault data fs).1 (target_repo data)
    = rows_of fs (target_repo data) ++ added
    ∧ ∀ r p, r ∈ added → required_parent (r_parent_id r) = Some p →
        before p (r_id r)
          (map r_id (rows_of (pull_commits fault data fs).1 (target_repo data))).
Proof.
  assert (∀ fs', rows_of fs' (target_repo data) = rows_of fs (target_repo data) →
            ∃ added,
              rows_of fs' (target_repo data) = rows_of fs (target_repo data) ++ added
              ∧ ∀ r p, r ∈ added → required_parent (r_parent_id r) = Some p →
                  before p (r_id r) (map r_id (rows_of fs' (target_repo data)))) as Hsame.
  { intros fs' ->. exists []. split; [by rewrite app_nil_r|].
    by intros r p Hr%elem_of_nil. }
  unfold pull_commits.
  destruct (negb (validate_repo_name (source_repo data))
            || negb (validate_repo_name (target_repo data))); [by apply Hsame|].
  destruct (dir_exists fs (source_repo data)); [|by apply Hsame]. simpl.
  set (fs1 := if dir_exists fs (target_repo data) then fs
              else (create_repo (target_repo data) fs).1).
  assert (rows_of fs1 (target_repo data) = rows_of fs (target_repo data)) as H1.
  { unfold fs1. destruct (dir_exists fs (target_repo data)); [done|].
    apply create_repo_rows. }
  clearbody fs1.
  destruct (fs1 !! get_repo_path (source_repo data)) as [source|]; [|by apply Hsame].
  destruct (fs1 !! get_repo_path (target_repo data)) as [target|] eqn:Ht;
    [|by apply Hsame].
  destruct fault; [by apply Hsame|].
  destruct (pull_loop _ _ _) as [st|e] eqn:Hloop; [|by apply Hsame].
  apply sqlite_pull_loop_guard in Hloop as (added & Hadd & Hbefore); [|done].
  simpl in *. exists added.
  assert (rows_of (<[get_repo_path (target_repo data) := st_db st]> fs1)
            (target_repo data) = t_commits (st_db st)) as ->.
  { unfold rows_of. by rewrite lookup_insert_eq. }
  split; [|done]. rewrite Hadd, <- H1. unfold rows_of. by rewrite Ht.
Qed.

End SQLiteGuardFacts.

(** C3, as amended. The document backend visits the commits of the source
    depth first, within the depth that Python's recursion limit leaves. An
    order it computes lists each commit once and, when the parent links are
    acyclic, every commit after its parent; one is computed whenever the
    limit exceeds the number of commits. When the first commit of the source
    has as many ancestors as the limit or more, no order is computed, and a
    pull for which none is computed answers 500 and adds nothing. The
    relational backend visits the commits by ascending timestamp. In both
    backends the commits a pull adds to the target come after those already
    there, and every added commit comes after its required parent: a commit
    whose parent is missing from the target is skipped, never applied
    before it. *)
Theorem pull_order_and_guard :
  (∀ limit cs order,
      GraphDatabaseImplementation.commit_order limit cs = Some order →
      NoDup order
      ∧ (∀ k, k ∈ OD.keys cs → k ∈ order)
      ∧ (acyclic (parent_of cs) → parents_first (parent_of cs) order))
  ∧ (∀ limit cs,
      length cs < limit →
      is_Some (GraphDatabaseImplementation.commit_order limit cs))
  ∧ (∀ limit cs k rest l,
      OD.keys cs = k :: rest →
      ancestors (parent_of cs) k l →
      NoDup (k :: l) →
      (limit ≤ length l)%nat →
      GraphDatabaseImplementation.commit_order limit cs = None)
  ∧ (∀ limit data fs sg sobjs,
      validate_repo_name (source_repo data) = true →
      validate_repo_name (target_repo data) = true →
      fs !! get_repo_path (source_repo data)
        = Some (GraphDatabaseImplementation.RepoDir (Some sg) sobjs) →
      GraphDatabaseImplementation.commit_order limit
        (GraphDatabaseImplementation.commits sg) = None →
      ∃ e,
        (GraphDatabaseImplementation.pull_commits limit data fs).2
        = (Failure "Error pulling commits" e, 500)
        ∧ commits_of (GraphDatabaseImplementation.pull_commits limit data fs).1
            (target_repo data)
          = commits_of fs (target_repo data))
  ∧ (∀ limit data fs, ∃ added,
      commits_of (GraphDatabaseImplementation.pull_commits limit data fs).1
        (target_repo data)
      = commits_of fs (target_repo data) ++ added
      ∧ ∀ c cd p,
          (c, cd) ∈ added →
          required_parent (GraphDatabaseImplementation.c_parent_id cd) = Some p →
          before p c
            (OD.keys
               (commits_of (GraphDatabaseImplementation.pull_commits limit data fs).1
                  (target_repo data))))
  ∧ (∀ fault data fs, ∃ added,
      rows_of (SQLiteFileSystemImplementation.pull_commits fault data fs).1
        (target_repo data)
      = rows_of fs (target_repo data) ++ added
      ∧ ∀ r p,
          r ∈ added →
          required_parent (SQLiteFileSystemImplementation.r_parent_id r) = Some p →
          before p (SQLiteFileSystemImplementation.r_id r)
            (map SQLiteFileSystemImplementation.r_id
               (rows_of (SQLiteFileSystemImplementation.pull_commits fault data fs).1
                  (target_repo data)))).
Proof.
  split; [|split; [|split; [|split; [|split]]]].
  - intros limit cs order. apply VisitFacts.commit_order_spec.
  - intros limit cs. apply VisitFacts.commit_order_total.
  - intros limit cs k rest l. apply VisitFacts.commit_order_deep.
  - intros limit data fs sg sobjs. apply GuardFacts.pull_commits_too_deep.
  - intros. apply GuardFacts.pull_commits_guard.
  - intros. apply SQLiteGuardFacts.sqlite_pull_commits_guard.
Qed.

Lemma pull_order_and_guard_witness :
  (NoDup ["A"; "B"]
   ∧ parents_first (parent_of (commits_of Scenario.graph_ab "repo")) ["A"; "B"])
  ∧ is_Some (GraphDatabaseImplementation.commit_order Scenario.depth
               (commits_of Scenario.graph_ab "repo"))
  ∧ GraphDatabaseImplementation.commit_order 1 (commits_of Scenario.graph_loop "loop")
    = None.
Proof.
  split; [|split].
  - destruct (proj1 pull_order_and_guard Scenario.depth
                (commits_of Scenario.graph_ab "repo") ["A"; "B"])
      as (Hnd & _ & Hfirst); [vm_compute; reflexivity|].
    split; [exact Hnd|]. apply Hfirst.
    exists Scenario.rank_ab. intros c p.
    remember (commits_of Scenario.graph_ab "repo") as cs eqn:Hcs.
    vm_compute in Hcs. subst cs. unfold parent_of, OD.get.
    destruct (String.eqb_spec "A" c) as [<-|_]; [discriminate|].
    destruct (String.eqb_spec "B" c) as [<-|_]; [|discriminate].
    intros [= <-]. vm_compute. lia.
  - apply (proj1 (proj2 pull_order_and_guard)). vm_compute. lia.
  - apply (proj1 (proj2 (proj2 pull_order_and_guard)) 1
             (commits_of Scenario.graph_loop "loop") "X" ["Y"] ["Y"]).
    + vm_compute. reflexivity.
    + split; [vm_compute; reflexivity|exact I].
    + apply NoDup_cons. split; [|apply NoDup_singleton].
      intros Hin%list_elem_of_singleton. discriminate Hin.
    + simpl. lia.
Defined.

Lemma not_before_swapped (x y : string) : x ≠ y → ¬ before x y [y; x].
Proof.
  intros Hne (l1 & l2 & l3 & Heq).
  destruct l1 as [|a [|b l1]]; simplify_eq/=.
  - by destruct l2.
  - by destruct l1.
Qed.

(** C3 as stated fails. In the relational backend the child B, whose
    timestamp is earlier than its parent's, is visited before its parent A,
    and a pull into a fresh repository applies A only; in the document
    backend two commits that are each other's parent cannot both be visited
    after their parent. *)
Lemma pull_order_counterexample :
  (map SQLiteFileSystemImplementation.r_id
     (SQLiteFileSystemImplementation.visit_order Scenario.late_db) = ["B"; "A"]
   ∧ ¬ parents_first
         (parent_in (SQLiteFileSystemImplementation.t_commits Scenario.late_db))
         (map SQLiteFileSystemImplementation.r_id
            (SQLiteFileSystemImplementation.visit_order Scenario.late_db))
   ∧ map SQLiteFileSystemImplementation.r_id
       (rows_of
          (SQLiteFileSystemImplementation.pull_commits false (SyncData "late" "copy")
             Scenario.sqlite_late).1 "copy") = ["A"])
  ∧ (GraphDatabaseImplementation.commit_order Scenario.depth
       (commits_of Scenario.graph_loop "loop")
     = Some ["Y"; "X"]
     ∧ ¬ parents_first (parent_of (commits_of Scenario.graph_loop "loop")) ["Y"; "X"]).
Proof.
  split; [split; [|split]|split].
  - vm_compute. reflexivity.
  - intros H. specialize (H "B" "A").
    assert (map SQLiteFileSystemImplementation.r_id
              (SQLiteFileSystemImplementation.visit_order Scenario.late_db) = ["B"; "A"])
      as Heq by (vm_compute; reflexivity).
    rewrite Heq in H. apply (not_before_swapped "A" "B"); [done|].
    apply H; [by left | vm_compute; reflexivity].
  - vm_compute. reflexivity.
  - vm_compute. reflexivity.
  - intros H. specialize (H "Y" "X"). apply (not_before_swapped "X" "Y"); [done|].
    apply H; [by left | vm_compute; reflexivity].
Qed.

(** ** Pushing a new commit to the document backend *)

Module PushFacts.

Import GraphDatabaseImplementation.

Lemma load_files_exists repo files : ∀ acc fs dir,
  fs !! get_repo_path repo = Some dir →
  load_files repo files acc fs = (fs, Return (entries_of (objects dir) files acc)).
Proof.
  induction files as [|[file_path file_hash] rest IH]; intros acc fs dir E; simpl.
  - done.
  - unfold bind. rewrite (GraphFacts.get_object_content_exists _ _ _ _ E).
    by apply IH.
Qed.

Lemma repo_dir_eta (dir : repo_dir) : RepoDir (graph_json dir) (objects dir) = dir.
Proof. by destruct dir. Qed.

Lemma store_files_exists repo files : ∀ acc fs dir,
  fs !! get_repo_path repo = Some dir →
  store_files repo files acc fs
  = (<[get_repo_path repo := RepoDir (graph_json dir) (stored files (objects dir))]> fs,
     Return (hashes_of files acc)).
Proof.
  induction files as [|[file_path file_info] rest IH]; intros acc fs dir E; simpl.
  - unfold ret. by rewrite repo_dir_eta, insert_id.
  - unfold bind. rewrite (GraphFacts.store_object_exists _ _ _ _ E).
    destruct (objects dir !! calculate_hash (fi_content file_info)) eqn:Ho.
    + by apply IH.
    + erewrite IH; [|by rewrite lookup_insert_eq]. simpl.
      by rewrite insert_insert_eq.
Qed.

Lemma calculate_changes_exists repo parent_id files fs g objs :
  fs !! get_repo_path repo = Some (RepoDir (Some g) objs) →
  calculate_changes repo parent_id files fs
  = (fs, graph_changes g objs parent_id files).
Proof.
  intros E. unfold calculate_changes, graph_changes, graph_parent_files,
    graph_current_files, bind.
  rewrite (GraphFacts.read_graph_exists _ _ _ _ E).
  destruct parent_id as [[|a parent]|]; simpl; try done.
  unfold load_parent_files.
  destruct (OD.get (String a parent) (commits g)) as [parent_commit|].
  - rewrite (load_files_exists _ _ _ _ _ E), (load_files_exists _ _ _ _ _ E). done.
  - unfold ret. rewrite (load_files_exists _ _ _ _ _ E). done.
Qed.

(** The graph a successful push writes. *)
Lemma push_body_new data fs g objs :
  fs !! get_repo_path (repo_name data) = Some (RepoDir (Some g) objs) →
  OD.mem (id data) (commits g) = false →
  push_body data fs
  = let objs' := stored (files data) objs in
    let files_hashes := hashes_of (files data) [] in
    match graph_changes g objs' (parent_id data) files_hashes with
    | Return ch =>
        let commits' :=
          OD.set (id data)
            (Commit (message data) (author data) (timestamp data) (parent_id data)
               files_hashes) (commits g) in
        let changes' := <[id data := ch]> (changes g) in
        let g' :=
          if advances (HEAD g) (parent_id data) then
            GraphData commits' changes' (<["main" := Some (id data)]> (branches g))
              (Some (id data))
          else GraphData commits' changes' (branches g) (HEAD g) in
        (<[get_repo_path (repo_name data) := RepoDir (Some g') objs']> fs,
         Return (Pushed ("Commit '" +:+ id data +:+ "' pushed successfully") (size ch),
                 200))
    | Raise e =>
        (<[get_repo_path (repo_name data) := RepoDir (Some g) objs']> fs, Raise e)
    end.
Proof.
  intros E Hmem. unfold push_body, bind.
  rewrite (GraphFacts.read_graph_exists _ _ _ _ E), Hmem.
  rewrite (store_files_exists _ _ _ _ _ E). simpl.
  erewrite calculate_changes_exists; [|by rewrite lookup_insert_eq].
  destruct (graph_changes _ _ _ _) as [ch|e]; [|done].
  unfold write_graph. rewrite lookup_insert_eq. simpl.
  rewrite insert_insert_eq. by destruct (advances _ _).
Qed.

(** The store on which the body of a push runs. *)
Lemma push_start_store fs repo g objs :
  push_start fs repo = Some (g, objs) →
  ∃ fs1,
    (if dir_exists fs repo then fs else (make_repo repo fs).1) = fs1
    ∧ fs1 !! get_repo_path repo = Some (RepoDir (Some g) objs)
    ∧ ∀ d, d ≠ get_repo_path repo → fs1 !! d = fs !! d.
Proof.
  unfold push_start, dir_exists. intros H.
  destruct (fs !! get_repo_path repo) as [[[g0|] objs0]|] eqn:E; simplify_eq.
  - eexists. split; [reflexivity|]. split; [done|]. done.
  - eexists. split; [reflexivity|].
    unfold make_repo, get_objects_dir, makedirs, init_repo_graph, graph_exists,
      write_graph, ret, bind.
    rewrite E. simpl. rewrite !lookup_insert_eq. simpl. rewrite !lookup_insert_eq.
    simpl. split; [done|].
    intros d Hd. by rewrite !lookup_insert_ne.
Qed.

Lemma push_start_None fs repo :
  push_start fs repo = None →
  dir_exists fs repo = true ∧ read_graph repo fs = (fs, Raise FileNotFoundError).
Proof.
  unfold push_start, dir_exists, read_graph.
  by destruct (fs !! get_repo_path repo) as [[[g0|] objs0]|].
Qed.

(** A push that answers [Pushed] started from a graph without the commit,
    computed its change record, and wrote the graph extended with both. *)
Lemma push_commit_pushed data fs fs' msg n :
  push_commit data fs = (fs', (Pushed msg n, 200)) →
  ∃ g objs ch,
    push_start fs (repo_name data) = Some (g, objs)
    ∧ OD.mem (id data) (commits g) = false
    ∧ graph_changes g (stored (files data) objs) (parent_id data)
        (hashes_of (files data) []) = Return ch
    ∧ n = size ch
    ∧ fs' !! get_repo_path (repo_name data)
      = Some (RepoDir
                (Some
                   (let commits' :=
                      OD.set (id data)
                        (Commit (message data) (author data) (timestamp data)
                           (parent_id data) (hashes_of (files data) [])) (commits g) in
                    let changes' := <[id data := ch]> (changes g) in
                    if advances (HEAD g) (parent_id data) then
                      GraphData commits' changes'
                        (<["main" := Some (id data)]> (branches g)) (Some (id data))
                    else GraphData commits' changes' (branches g) (HEAD g)))
                (stored (files data) objs)).
Proof.
  unfold push_commit.
  destruct (negb (validate_repo_name (repo_name data))); [done|].
  destruct (push_start fs (repo_name data)) as [[g objs]|] eqn:Hstart.
  - destruct (push_start_store _ _ _ _ Hstart) as (fs1 & -> & E & _).
    unfold answer.
    destruct (OD.mem (id data) (commits g)) eqn:Hmem.
    { unfold push_body, bind.
      rewrite (GraphFacts.read_graph_exists _ _ _ _ E), Hmem. done. }
    rewrite (push_body_new _ _ _ _ E Hmem). simpl.
    destruct (graph_changes _ _ _ _) as [ch|e] eqn:Hch; [|done].
    intros [= <- <- <-]. exists g, objs, ch.
    repeat split; try done. by rewrite lookup_insert_eq.
  - destruct (push_start_None _ _ Hstart) as [-> Hread].
    unfold answer, push_body, bind. by rewrite Hread.
Qed.

(** Conversely, a push of a new commit to a valid name answers [Pushed] as
    soon as its change record can be computed. *)
Lemma push_commit_succeeds data fs g objs ch :
  validate_repo_name (repo_name data) = true →
  push_start fs (repo_name data) = Some (g, objs) →
  OD.mem (id data) (commits g) = false →
  graph_changes g (stored (files data) objs) (parent_id data)
    (hashes_of (files data) []) = Return ch →
  (push_commit data fs).2
  = (Pushed ("Commit '" +:+ id data +:+ "' pushed successfully") (size ch), 200).
Proof.
  intros Hv Hstart Hmem Hch. unfold push_commit. rewrite Hv. simpl.
  destruct (push_start_store _ _ _ _ Hstart) as (fs1 & -> & E & _).
  unfold answer. rewrite (push_body_new _ _ _ _ E Hmem). simpl. by rewrite Hch.
Qed.

(** A push that answers [Pushed] has recorded the commit. *)
Lemma push_commit_records data fs fs' msg n :
  push_commit data fs = (fs', (Pushed msg n, 200)) →
  OD.get (id data) (commits (graph_of fs' (repo_name data)))
  = Some (Commit (message data) (author data) (timestamp data) (parent_id data)
            (hashes_of (files data) [])).
Proof.
  intros Hpush.
  apply push_commit_pushed in Hpush as (g & objs & ch & _ & _ & _ & _ & Hfs').
  unfold graph_of. rewrite Hfs'. cbv zeta.
  destruct (advances _ _); simpl; apply ODFacts.get_set_eq.
Qed.

End PushFacts.

(** ** Pushing a new commit to the relational backend *)

Module SQLitePushFacts.

Import SQLiteFileSystemImplementation.

Lemma make_repo_lookup fs repo :
  make_repo repo fs !! get_repo_path repo = Some (db_of fs repo).
Proof.
  unfold make_repo, db_of. destruct (fs !! get_repo_path repo) eqn:E; simpl.
  - done.
  - by rewrite lookup_insert_eq.
Qed.

Lemma make_repo_other fs repo d :
  d ≠ get_repo_path repo → make_repo repo fs !! d = fs !! d.
Proof.
  intros Hd. unfold make_repo. destruct (fs !! get_repo_path repo); [done|].
  by rewrite lookup_insert_ne.
Qed.

Lemma commit_exists_app commit_id rows r fls chs :
  commit_exists commit_id (Database (rows ++ [r]) fls chs)
  = commit_exists commit_id (Database rows fls chs) || String.eqb (r_id r) commit_id.
Proof.
  unfold commit_exists. simpl. rewrite existsb_app. simpl. by rewrite orb_false_r.
Qed.

(** A push that answers [Pushed] ran on a database without the commit and
    with its required parent, and committed the database extended with the
    row of the commit, its files and its change record. *)
Lemma sqlite_push_commit_pushed data fs fs' msg n :
  push_commit data fs = (fs', (Pushed msg n, 200)) →
  let db := db_of fs (repo_name data) in
  commit_exists (id data) db = false
  ∧ missing_parent data db = None
  ∧ ∃ fls ch chs,
      insert_all (id data) (map file_row (files data)) (t_files db) = Return fls
      ∧ (calculate_changes data
           (Database
              (t_commits db
               ++ [CommitRow (id data) (message data) (author data) (timestamp data)
                     (parent_id data)]) fls (t_changes db))).2 = Return ch
      ∧ insert_all (id data) (map_to_list ch) (t_changes db) = Return chs
      ∧ n = size ch
      ∧ fs' !! get_repo_path (repo_name data)
        = Some (Database
                  (t_commits db
                   ++ [CommitRow (id data) (message data) (author data)
                         (timestamp data) (parent_id data)]) fls chs).
Proof.
  unfold push_commit.
  destruct (negb (validate_repo_name (repo_name data))); [done|].
  unfold transaction. rewrite make_repo_lookup.
  set (db := db_of fs (repo_name data)). simpl.
  unfold push_transaction.
  destruct (commit_exists (id data) db) eqn:Hex; [done|].
  destruct (missing_parent data db) as [p|] eqn:Hmp; [done|].
  unfold insert_commit, insert_files, insert_changes, bind. cbn [r_id]. rewrite Hex.
  cbn [t_commits t_files t_changes].
  destruct (insert_all (id data) (map file_row (files data)) (t_files db))
    as [fls|e] eqn:Hfls; [|done]. simpl.
  destruct (calculate_changes data _) as [db2 [ch|e]] eqn:Hcalc; [|done].
  assert (db2 = Database
            (t_commits db
             ++ [CommitRow (id data) (message data) (author data) (timestamp data)
                   (parent_id data)]) fls (t_changes db)) as ->.
  { unfold calculate_changes, ret in Hcalc.
    destruct (parent_id data) as [[|a s]|]; by injection Hcalc as <-. }
  simpl.
  destruct (insert_all (id data) (map_to_list ch) (t_changes db)) as [chs|e] eqn:Hchs;
    [|done].
  simpl. intros [= <- <- <-]. split; [done|]. split; [done|].
  exists fls, ch, chs. split; [done|]. split; [by rewrite Hcalc|].
  split; [done|]. split; [done|]. by rewrite lookup_insert_eq.
Qed.

(** A push whose required parent is missing is rejected and writes no row. *)
Lemma sqlite_push_missing_parent data fs p :
  validate_repo_name (repo_name data) = true →
  commit_exists (id data) (db_of fs (repo_name data)) = false →
  missing_parent data (db_of fs (repo_name data)) = Some p →
  push_commit data fs
  = (make_repo (repo_name data) fs,
     (Error ("Parent commit '" +:+ p +:+ "' not found"), 400)).
Proof.
  intros Hv Hex Hmp. unfold push_commit. rewrite Hv. simpl.
  unfold transaction. rewrite make_repo_lookup.
  unfold push_transaction. rewrite Hex, Hmp.
  rewrite insert_id; [done|]. apply make_repo_lookup.
Qed.

End SQLitePushFacts.

(** ** The order of timestamps *)

Module OrderFacts.

Lemma ltb_ge_trans x : ∀ y z,
  PyStr.ltb x y = false → PyStr.ltb y z = false → PyStr.ltb x z = false.
Proof.
  induction x as [|a x IH]; intros [|b y] [|c z]; simpl; try done.
  destruct (Z.ltb_spec (PyStr.ord a) (PyStr.ord b)); [done|].
  destruct (Z.ltb_spec (PyStr.ord b) (PyStr.ord a)).
  - intros _. destruct (Z.ltb_spec (PyStr.ord b) (PyStr.ord c)); [done|].
    destruct (Z.ltb_spec (PyStr.ord c) (PyStr.ord b)).
    + intros _. destruct (Z.ltb_spec (PyStr.ord a) (PyStr.ord c)); [lia|].
      destruct (Z.ltb_spec (PyStr.ord c) (PyStr.ord a)); [done | lia].
    + intros _. destruct (Z.ltb_spec (PyStr.ord a) (PyStr.ord c)); [lia|].
      destruct (Z.ltb_spec (PyStr.ord c) (PyStr.ord a)); [done | lia].
  - intros Hxy. destruct (Z.ltb_spec (PyStr.ord b) (PyStr.ord c)); [done|].
    destruct (Z.ltb_spec (PyStr.ord c) (PyStr.ord b)).
    + intros _. destruct (Z.ltb_spec (PyStr.ord a) (PyStr.ord c)); [lia|].
      destruct (Z.ltb_spec (PyStr.ord c) (PyStr.ord a)); [done | lia].
    + intros Hyz. destruct (Z.ltb_spec (PyStr.ord a) (PyStr.ord c)); [lia|].
      destruct (Z.ltb_spec (PyStr.ord c) (PyStr.ord a)); [done|]. by eapply IH.
Qed.

Lemma ltb_asym x : ∀ y, PyStr.ltb x y = true → PyStr.ltb y x = false.
Proof.
  induction x as [|a x IH]; intros [|b y]; simpl; try done.
  destruct (Z.ltb_spec (PyStr.ord a) (PyStr.ord b)).
  - intros _. destruct (Z.ltb_spec (PyStr.ord b) (PyStr.ord a)); [lia | done].
  - destruct (Z.ltb_spec (PyStr.ord b) (PyStr.ord a)); [done | apply IH].
Qed.

Lemma ltb_irrefl x : PyStr.ltb x x = false.
Proof.
  induction x as [|a x IH]; simpl; [done|].
  by rewrite Z.ltb_irrefl.
Qed.

Section Desc.

Context {A : Type} (key : A → string).

Lemma insert_desc_elem x y l : y ∈ insert_desc key x l ↔ y = x ∨ y ∈ l.
Proof.
  induction l as [|z l IH]; simpl.
  - rewrite list_elem_of_singleton. split; [auto | intros [|H]; [done | by inversion H]].
  - destruct (PyStr.ltb (key x) (key z)).
    + rewrite !elem_of_cons, IH. tauto.
    + rewrite !elem_of_cons. tauto.
Qed.

Lemma sort_desc_elem y l : y ∈ sort_desc key l ↔ y ∈ l.
Proof.
  induction l as [|x l IH]; simpl; [done|].
  rewrite insert_desc_elem, elem_of_cons, IH. tauto.
Qed.

(** In a list sorted by [sort_desc] no element has a key below the key of an
    element that follows it. *)
Lemma insert_desc_sorted x l :
  StronglySorted (λ a b, PyStr.ltb (key a) (key b) = false) l →
  StronglySorted (λ a b, PyStr.ltb (key a) (key b) = false) (insert_desc key x l).
Proof.
  induction 1 as [|y l Hl IH Hy]; simpl.
  - repeat constructor.
  - destruct (PyStr.ltb (key x) (key y)) eqn:E.
    + constructor; [done|]. apply Forall_forall. intros w Hw.
      apply insert_desc_elem in Hw as [->|Hw].
      * by apply ltb_asym.
      * rewrite Forall_forall in Hy. by apply Hy.
    + constructor; [by constructor|]. constructor; [done|].
      apply Forall_forall. intros w Hw. rewrite Forall_forall in Hy.
      eapply ltb_ge_trans; [exact E | by apply Hy].
Qed.

Lemma sort_desc_sorted l :
  StronglySorted (λ a b, PyStr.ltb (key a) (key b) = false) (sort_desc key l).
Proof.
  induction l as [|x l IH]; simpl; [constructor | by apply insert_desc_sorted].
Qed.

(** The first element of [sort_desc] is one of the list, and none has a
    greater key. *)
Lemma sort_desc_head l h rest :
  sort_desc key l = h :: rest →
  h ∈ l ∧ ∀ y, y ∈ l → PyStr.ltb (key h) (key y) = false.
Proof.
  intros Hs. pose proof (sort_desc_sorted l) as Hsorted. rewrite Hs in Hsorted.
  split.
  - apply sort_desc_elem. rewrite Hs. by left.
  - intros y Hy. apply sort_desc_elem in Hy. rewrite Hs in Hy.
    apply elem_of_cons in Hy as [->|Hy]; [apply ltb_irrefl|].
    apply StronglySorted_inv in Hsorted as [_ Hall].
    rewrite Forall_forall in Hall. by apply Hall.
Qed.

End Desc.

End OrderFacts.

(** ** The tip of a repository after a push *)

Lemma advances_spec (current_head parent_id : option string) :
  GraphDatabaseImplementation.advances current_head parent_id = true
  ↔ current_head = None ∨ current_head = parent_id.
Proof.
  unfold GraphDatabaseImplementation.advances. destruct current_head as [h|].
  - rewrite bool_decide_eq_true. split; [auto | by intros [|]].
  - split; auto.
Qed.

Lemma graph_of_push_start fs repo g objs :
  push_start fs repo = Some (g, objs) → graph_of fs repo = g.
Proof.
  unfold push_start, graph_of.
  destruct (fs !! get_repo_path repo) as [[[g0|] objs0]|]; by intros [= <- <-].
Qed.

(** C4, as amended. In the document backend a successful push of a new
    commit sets HEAD and the branch main to the new id exactly when HEAD was
    null or equal to the parent_id of the push, and leaves both as they were
    otherwise. The relational backend keeps no HEAD and no branch: the last
    commit it reports is one of greatest timestamp. In both backends the
    commit is recorded and found by check_commit. *)
Theorem push_moves_head :
  (∀ data fs fs' msg n,
      GraphDatabaseImplementation.push_commit data fs = (fs', (Pushed msg n, 200)) →
      let g := graph_of fs (repo_name data) in
      let g' := graph_of fs' (repo_name data) in
      ((GraphDatabaseImplementation.HEAD g = None
        ∨ GraphDatabaseImplementation.HEAD g = parent_id data) →
       GraphDatabaseImplementation.HEAD g' = Some (id data)
       ∧ GraphDatabaseImplementation.branches g' !! "main" = Some (Some (id data)))
      ∧ (¬ (GraphDatabaseImplementation.HEAD g = None
            ∨ GraphDatabaseImplementation.HEAD g = parent_id data) →
         GraphDatabaseImplementation.HEAD g' = GraphDatabaseImplementation.HEAD g
         ∧ GraphDatabaseImplementation.branches g'
           = GraphDatabaseImplementation.branches g)
      ∧ GraphDatabaseImplementation.check_commit (repo_name data) (id data) fs'
        = (Exists true, 200)
      ∧ OD.get (id data) (GraphDatabaseImplementation.commits g')
        = Some (GraphDatabaseImplementation.Commit (message data) (author data)
                  (timestamp data) (parent_id data) (hashes_of (files data) [])))
  ∧ (∀ data fs fs' msg n,
      SQLiteFileSystemImplementation.push_commit data fs = (fs', (Pushed msg n, 200)) →
      SQLiteFileSystemImplementation.check_commit (repo_name data) (id data) fs'
      = (Exists true, 200)
      ∧ SQLiteFileSystemImplementation.CommitRow (id data) (message data) (author data)
          (timestamp data) (parent_id data) ∈ rows_of fs' (repo_name data))
  ∧ (∀ db tip,
      last_commit (SQLiteFileSystemImplementation.repo_info db) = Some tip →
      ∃ r,
        r ∈ SQLiteFileSystemImplementation.t_commits db
        ∧ ci_id tip = SQLiteFileSystemImplementation.r_id r
        ∧ ∀ r', r' ∈ SQLiteFileSystemImplementation.t_commits db →
            PyStr.ltb (SQLiteFileSystemImplementation.r_timestamp r)
              (SQLiteFileSystemImplementation.r_timestamp r') = false).
Proof.
  split; [|split].
  - intros data fs fs' msg n Hpush.
    pose proof (PushFacts.push_commit_records _ _ _ _ _ Hpush) as Hrec.
    apply PushFacts.push_commit_pushed in Hpush
      as (g & objs & ch & Hstart & Hmem & _ & _ & Hfs').
    rewrite (graph_of_push_start _ _ _ _ Hstart).
    cbv zeta. split; [|split; [|split; [|exact Hrec]]]; clear Hrec.
    all: unfold graph_of, GraphDatabaseImplementation.check_commit; rewrite Hfs'.
    all: destruct (GraphDatabaseImplementation.advances _ _) eqn:Hadv; simpl.
    + intros _. by rewrite lookup_insert_eq.
    + intros Hh. apply advances_spec in Hh. congruence.
    + apply advances_spec in Hadv. intros Hn. by destruct Hn.
    + done.
    + unfold OD.mem. by rewrite ODFacts.get_set_eq.
    + unfold OD.mem. by rewrite ODFacts.get_set_eq.
  - intros data fs fs' msg n Hpush.
    apply SQLitePushFacts.sqlite_push_commit_pushed in Hpush
      as (Hex & _ & fls & ch & chs & _ & _ & _ & _ & Hfs').
    unfold SQLiteFileSystemImplementation.check_commit, rows_of. rewrite Hfs'.
    split.
    + rewrite SQLitePushFacts.commit_exists_app. simpl.
      by rewrite String.eqb_refl, orb_true_r.
    + simpl. apply elem_of_app. right. by left.
  - intros db tip. unfold SQLiteFileSystemImplementation.repo_info. simpl.
    destruct (sort_desc _ _) as [|r rest] eqn:Hs; [done|].
    intros [= <-]. apply OrderFacts.sort_desc_head in Hs as [Hin Hmax].
    exists r. by repeat split.
Qed.

Lemma push_moves_head_witness :
  (GraphDatabaseImplementation.HEAD (graph_of Scenario.graph_ab "repo") = Some "B"
   ∧ GraphDatabaseImplementation.branches (graph_of Scenario.graph_ab "repo") !! "main"
     = Some (Some "B"))
  ∧ SQLiteFileSystemImplementation.check_commit "repo" "B" Scenario.sqlite_ab
    = (Exists true, 200).
Proof.
  split.
  - assert (GraphDatabaseImplementation.push_commit Scenario.commit_b Scenario.graph_a
            = (Scenario.graph_ab, (Pushed "Commit 'B' pushed successfully" 1, 200)))
      as Hpush by (vm_compute; reflexivity).
    destruct (proj1 push_moves_head _ _ _ _ _ Hpush) as [Hadv _].
    apply Hadv. right. vm_compute. reflexivity.
  - assert (SQLiteFileSystemImplementation.push_commit Scenario.commit_b Scenario.sqlite_a
            = (Scenario.sqlite_ab, (Pushed "Commit 'B' pushed successfully" 1, 200)))
      as Hpush by (vm_compute; reflexivity).
    exact (proj1 (proj1 (proj2 push_moves_head) _ _ _ _ _ Hpush)).
Defined.

(** C4 as stated fails in the relational backend, whose only tip is the last
    commit it reports. With A the only commit, hence the tip, the accepted
    push of B, child of A with an earlier timestamp, leaves the tip at A; and
    the accepted push of C, no child of the tip B, moves the tip to C. *)
Lemma push_moves_head_counterexample :
  (ci_id <$> last_commit
     (SQLiteFileSystemImplementation.repo_info (db_of Scenario.sqlite_late_parent "late"))
   = Some "A"
   ∧ parent_id Scenario.early_child = Some "A"
   ∧ (SQLiteFileSystemImplementation.push_commit Scenario.early_child
        Scenario.sqlite_late_parent).2
     = (Pushed "Commit 'B' pushed successfully" 1, 200)
   ∧ ci_id <$> last_commit
       (SQLiteFileSystemImplementation.repo_info (db_of Scenario.sqlite_late "late"))
     = Some "A")
  ∧ (ci_id <$> last_commit
       (SQLiteFileSystemImplementation.repo_info (db_of Scenario.sqlite_ab "repo"))
     = Some "B"
     ∧ parent_id Scenario.stray = None
     ∧ (SQLiteFileSystemImplementation.push_commit Scenario.stray Scenario.sqlite_ab).2
       = (Pushed "Commit 'C' pushed successfully" 1, 200)
     ∧ ci_id <$> last_commit
         (SQLiteFileSystemImplementation.repo_info
            (db_of (SQLiteFileSystemImplementation.push_commit Scenario.stray
                      Scenario.sqlite_ab).1 "repo"))
       = Some "C").
Proof.
  repeat split; vm_compute; reflexivity.
Qed.

(** ** A push whose parent is absent *)

Module AbsentParent.

Lemma missing_parent_spec data db p :
  required_parent (parent_id data) = Some p →
  SQLiteFileSystemImplementation.commit_exists p db = false →
  SQLiteFileSystemImplementation.missing_parent data db = Some p.
Proof.
  unfold required_parent, SQLiteFileSystemImplementation.missing_parent.
  destruct (parent_id data) as [[|a s]|]; try done.
  intros [= <-] ->. done.
Qed.

Lemma missing_parent_None data db p :
  SQLiteFileSystemImplementation.missing_parent data db = None →
  required_parent (parent_id data) = Some p →
  SQLiteFileSystemImplementation.commit_exists p db = true.
Proof.
  unfold required_parent, SQLiteFileSystemImplementation.missing_parent.
  destruct (parent_id data) as [[|a s]|]; try done.
  intros Hmp [= <-].
  by destruct (SQLiteFileSystemImplementation.commit_exists (String a s) db).
Qed.

(** Without parent files the loop of the change engine cannot raise. *)
Lemma changes_loop_no_parent cf paths : ∀ acc,
  (∀ path, path ∈ paths → is_Some (cf !! path)) →
  ∃ ch, GraphDatabaseImplementation.changes_loop ∅ cf paths acc = Return ch.
Proof.
  induction paths as [|path paths IH]; intros acc Hin; simpl; [by eauto|].
  destruct (Hin path) as [cur Hcur]; [by left|].
  rewrite Hcur, lookup_empty. apply IH. intros q Hq. apply Hin. by right.
Qed.

Lemma graph_changes_absent_parent g objs parent_id files p :
  required_parent parent_id = Some p →
  OD.mem p (GraphDatabaseImplementation.commits g) = false →
  ∃ ch, graph_changes g objs parent_id files = Return ch.
Proof.
  intros Hp Hmem. unfold graph_changes, graph_parent_files. rewrite Hp.
  unfold OD.mem in Hmem.
  destruct (OD.get p (GraphDatabaseImplementation.commits g)); [done|].
  apply changes_loop_no_parent. intros path Hpath.
  apply elem_of_elements in Hpath. rewrite dom_empty_L, union_empty_l_L in Hpath.
  by apply elem_of_dom in Hpath.
Qed.

End AbsentParent.

(** C9, as amended. A push of a commit the repository does not hold yet,
    whose parent_id is neither null nor empty and names a commit the
    repository does not hold either, is rejected by the relational backend
    with a 400 error, no table changing; the document backend accepts it and
    records the commit with that dangling parent_id. *)
Theorem push_with_absent_parent :
  (∀ data fs p,
      validate_repo_name (repo_name data) = true →
      SQLiteFileSystemImplementation.commit_exists (id data) (db_of fs (repo_name data))
      = false →
      required_parent (parent_id data) = Some p →
      SQLiteFileSystemImplementation.commit_exists p (db_of fs (repo_name data))
      = false →
      (SQLiteFileSystemImplementation.push_commit data fs).2
      = (Error ("Parent commit '" +:+ p +:+ "' not found"), 400)
      ∧ db_of (SQLiteFileSystemImplementation.push_commit data fs).1 (repo_name data)
        = db_of fs (repo_name data)
      ∧ ∀ d, d ≠ get_repo_path (repo_name data) →
          (SQLiteFileSystemImplementation.push_commit data fs).1 !! d = fs !! d)
  ∧ (∀ data fs g objs p,
      validate_repo_name (repo_name data) = true →
      push_start fs (repo_name data) = Some (g, objs) →
      OD.mem (id data) (GraphDatabaseImplementation.commits g) = false →
      required_parent (parent_id data) = Some p →
      OD.mem p (GraphDatabaseImplementation.commits g) = false →
      ∃ n,
        (GraphDatabaseImplementation.push_commit data fs).2
        = (Pushed ("Commit '" +:+ id data +:+ "' pushed successfully") n, 200)
        ∧ OD.get (id data)
            (GraphDatabaseImplementation.commits
               (graph_of (GraphDatabaseImplementation.push_commit data fs).1
                  (repo_name data)))
          = Some (GraphDatabaseImplementation.Commit (message data) (author data)
                    (timestamp data) (parent_id data) (hashes_of (files data) []))
        ∧ parent_id data = Some p).
Proof.
  split.
  - intros data fs p Hv Hex Hp Hpex.
    rewrite (SQLitePushFacts.sqlite_push_missing_parent data fs p Hv Hex)
      by by apply AbsentParent.missing_parent_spec.
    simpl. split; [done|]. split.
    + unfold db_of at 1. by rewrite SQLitePushFacts.make_repo_lookup.
    + intros d Hd. by apply SQLitePushFacts.make_repo_other.
  - intros data fs g objs p Hv Hstart Hmem Hp Hpmem.
    destruct (AbsentParent.graph_changes_absent_parent g
                (stored (files data) objs) (parent_id data)
                (hashes_of (files data) []) p Hp Hpmem) as [ch Hch].
    pose proof (PushFacts.push_commit_succeeds data fs g objs ch Hv Hstart Hmem Hch)
      as Hres.
    destruct (GraphDatabaseImplementation.push_commit data fs) as [fs' r] eqn:Hpush.
    simpl in Hres. subst r.
    exists (size ch). split; [done|].
    split; [by eapply PushFacts.push_commit_records|].
    unfold required_parent in Hp. by destruct (parent_id data) as [[|a s]|]; simplify_eq.
Qed.

Lemma push_with_absent_parent_witness :
  ((SQLiteFileSystemImplementation.push_commit Scenario.orphan Scenario.sqlite_ab).2
   = (Error "Parent commit 'missing' not found", 400)
   ∧ db_of (SQLiteFileSystemImplementation.push_commit Scenario.orphan
              Scenario.sqlite_ab).1 "repo"
     = db_of Scenario.sqlite_ab "repo")
  ∧ ∃ n,
      (GraphDatabaseImplementation.push_commit Scenario.orphan Scenario.graph_ab).2
      = (Pushed "Commit 'E' pushed successfully" n, 200).
Proof.
  split.
  - destruct (proj1 push_with_absent_parent Scenario.orphan Scenario.sqlite_ab "missing")
      as (H1 & H2 & _); [reflexivity | vm_compute; reflexivity | reflexivity
                        | vm_compute; reflexivity |].
    split; [exact H1 | exact H2].
  - edestruct (proj2 push_with_absent_parent Scenario.orphan Scenario.graph_ab)
      as (n & H1 & _);
      [reflexivity | vm_compute; reflexivity | reflexivity | reflexivity
      | vm_compute; reflexivity |].
    exists n. exact H1.
Defined.

(** C9 as stated fails. The relational backend accepts a push whose
    parent_id is the empty string, which names no commit of the repository;
    and a push of a commit id the repository already holds is answered
    'already exists' by both backends whatever parent it names, nothing being
    rejected and nothing recorded. *)
Lemma push_with_absent_parent_counterexample :
  (parent_id Scenario.empty_parent = Some ""
   ∧ SQLiteFileSystemImplementation.commit_exists "" (db_of Scenario.sqlite_ab "repo")
     = false
   ∧ (SQLiteFileSystemImplementation.push_commit Scenario.empty_parent
        Scenario.sqlite_ab).2
     = (Pushed "Commit 'D' pushed successfully" 1, 200))
  ∧ (parent_id Scenario.repeated = Some "missing"
     ∧ SQLiteFileSystemImplementation.commit_exists "missing"
         (db_of Scenario.sqlite_ab "repo") = false
     ∧ SQLiteFileSystemImplementation.push_commit Scenario.repeated Scenario.sqlite_ab
       = (Scenario.sqlite_ab, (Message "Commit 'A' already exists", 200))
     ∧ GraphDatabaseImplementation.push_commit Scenario.repeated Scenario.graph_ab
       = (Scenario.graph_ab, (Message "Commit 'A' already exists", 200))).
Proof.
  repeat split; vm_compute; reflexivity.
Qed.

(** ** The change engine *)

Module ChangeFacts.

(** The loop of the document backend keeps every entry of the change record
    in line with the specification, and brings every path it visits in
    line. *)
Lemma graph_changes_loop_spec pf cf paths : ∀ acc ch,
  GraphDatabaseImplementation.changes_loop pf cf paths acc = Return ch →
  (∀ path, acc !! path = None
           ∨ change_matches path (pf !! path) (cf !! path) (acc !! path)) →
  (∀ path, ch !! path = None
           ∨ change_matches path (pf !! path) (cf !! path) (ch !! path))
  ∧ (∀ path, change_matches path (pf !! path) (cf !! path) (acc !! path) →
             change_matches path (pf !! path) (cf !! path) (ch !! path))
  ∧ (∀ path, path ∈ paths →
             change_matches path (pf !! path) (cf !! path) (ch !! path)).
Proof.
  induction paths as [|file_path rest IH]; intros acc ch Hloop Hinv.
  - simpl in Hloop. injection Hloop as <-. split; [done|]. split; [done|].
    by intros path Hp%elem_of_nil.
  - simpl in Hloop.
    assert (∀ acc1,
              GraphDatabaseImplementation.changes_loop pf cf rest acc1 = Return ch →
              change_matches file_path (pf !! file_path) (cf !! file_path)
                (acc1 !! file_path) →
              (∀ path, path ≠ file_path → acc1 !! path = acc !! path) →
              (∀ path, ch !! path = None
                       ∨ change_matches path (pf !! path) (cf !! path) (ch !! path))
              ∧ (∀ path, change_matches path (pf !! path) (cf !! path) (acc !! path) →
                         change_matches path (pf !! path) (cf !! path) (ch !! path))
              ∧ (∀ path, path ∈ file_path :: rest →
                         change_matches path (pf !! path) (cf !! path) (ch !! path)))
      as Hstep.
    { intros acc1 Hrest Hhere Hother.
      destruct (IH acc1 ch Hrest) as (H1 & H2 & H3).
      { intros path. destruct (decide (path = file_path)) as [->|Hne]; [by right|].
        rewrite (Hother _ Hne). apply Hinv. }
      split; [done|]. split.
      - intros path Hm. apply H2.
        destruct (decide (path = file_path)) as [->|Hne]; [done|].
        by rewrite (Hother _ Hne).
      - intros path [->|Hin]%elem_of_cons; [by apply H2 | by apply H3]. }
    destruct (cf !! file_path) as [cur|] eqn:Hcur;
      destruct (pf !! file_path) as [par|] eqn:Hpar.
    + destruct (String.eqb (hash cur) (hash par)) eqn:Heq; simpl in Hloop.
      * apply (Hstep acc Hloop); [|done].
        destruct (Hinv file_path) as [Hn|Hm].
        -- rewrite Hn. simpl. by rewrite Heq.
        -- by rewrite Hpar, Hcur in Hm.
      * destruct (content par) as [old|] eqn:Hold; [|done].
        destruct (content cur) as [new|] eqn:Hnew; [|done].
        apply (Hstep _ Hloop).
        -- rewrite lookup_insert_eq. simpl. rewrite Heq. eauto.
        -- intros path Hne. by rewrite lookup_insert_ne.
    + apply (Hstep _ Hloop).
      * by rewrite lookup_insert_eq.
      * intros path Hne. by rewrite lookup_insert_ne.
    + apply (Hstep _ Hloop).
      * by rewrite lookup_insert_eq.
      * intros path Hne. by rewrite lookup_insert_ne.
    + done.
Qed.

(** Over all the paths of the two sides, from the empty record, the loop
    yields the change record of the specification. *)
Lemma graph_changes_loop_all pf cf ch :
  GraphDatabaseImplementation.changes_loop pf cf (elements (dom pf ∪ dom cf)) ∅
  = Return ch →
  ∀ path, change_matches path (pf !! path) (cf !! path) (ch !! path).
Proof.
  intros Hloop path.
  destruct (graph_changes_loop_spec pf cf _ ∅ ch Hloop) as (H1 & _ & H3).
  { intros q. left. apply lookup_empty. }
  destruct (decide (path ∈ dom pf ∪ dom cf)) as [Hin|Hout].
  - apply H3. by apply elem_of_elements.
  - apply not_elem_of_union in Hout as [Hp Hc].
    apply not_elem_of_dom in Hp, Hc. destruct (H1 path) as [Hn|Hm]; [|done].
    by rewrite Hp, Hc.
Qed.

(** The loops of the two backends are the same function of the same
    mappings. *)
Lemma changes_loops_agree pf cf files paths : ∀ acc,
  (∀ path, cf !! path = entry_of_info <$> OD.get path files) →
  SQLiteFileSystemImplementation.changes_loop pf files paths acc
  = GraphDatabaseImplementation.changes_loop pf cf paths acc.
Proof.
  intros acc Hcf. revert acc.
  induction paths as [|file_path rest IH]; intros acc; simpl; [done|].
  rewrite Hcf. destruct (OD.get file_path files) as [cur|]; simpl.
  - destruct (pf !! file_path) as [par|]; [|apply IH].
    destruct (String.eqb (fi_hash cur) (hash par)); simpl; [apply IH|].
    destruct (content par); [apply IH | done].
  - destruct (pf !! file_path); [apply IH | done].
Qed.

(** Without a parent every file of the commit is added. *)
Lemma graph_added_loop_spec objs files : ∀ acc entries,
  (∀ path, acc !! path = added_entry <$> entries !! path) →
  ∀ path,
    GraphDatabaseImplementation.added_loop files acc !! path
    = added_entry <$> entries_of objs files entries !! path.
Proof.
  induction files as [|[file_path file_hash] rest IH]; intros acc entries Hacc path;
    simpl; [done|].
  apply IH. intros q. rewrite !lookup_insert. case_decide; [done | apply Hacc].
Qed.

Lemma sqlite_added_loop_spec files : ∀ acc path,
  NoDup (OD.keys files) →
  SQLiteFileSystemImplementation.added_loop files acc !! path
  = match OD.get path files with
    | Some f => Some (added_entry (entry_of_info f))
    | None => acc !! path
    end.
Proof.
  induction files as [|[file_path f] rest IH]; intros acc path Hnd; simpl; [done|].
  unfold OD.keys in Hnd. simpl in Hnd. apply NoDup_cons in Hnd as [Hnotin Hnd].
  rewrite IH by done.
  destruct (String.eqb_spec file_path path) as [->|Hne].
  - apply ODFacts.get_None in Hnotin. rewrite Hnotin. by rewrite lookup_insert_eq.
  - destruct (OD.get path rest); [done|]. by rewrite lookup_insert_ne.
Qed.

(** A loop of inserts that succeeds had rows of distinct keys. *)
Lemma insert_rows_NoDup {V} (rows : list (string * V)) : ∀ existing m,
  SQLiteFileSystemImplementation.insert_rows rows existing = Return m →
  NoDup (map fst rows) ∧ ∀ k, k ∈ map fst rows → existing !! k = None.
Proof.
  induction rows as [|[k v] rest IH]; intros existing m Hins; simpl in *.
  - split; [constructor | by intros k Hk%elem_of_nil].
  - destruct (existing !! k) eqn:Hk; [done|].
    destruct (IH _ _ Hins) as [Hnd Hfree]. split.
    + constructor; [|done]. intros Hin. specialize (Hfree _ Hin).
      by rewrite lookup_insert_eq in Hfree.
    + intros q [->|Hq]%elem_of_cons; [done|].
      specialize (Hfree _ Hq). rewrite lookup_insert in Hfree.
      by case_decide.
Qed.

Lemma insert_all_NoDup {V} commit_id (rows : list (string * V)) table t :
  SQLiteFileSystemImplementation.insert_all commit_id rows table = Return t →
  NoDup (map fst rows).
Proof.
  unfold SQLiteFileSystemImplementation.insert_all.
  destruct rows as [|r rows]; [intros _; constructor|].
  destruct (SQLiteFileSystemImplementation.insert_rows _ _) as [m|e] eqn:Hins; [|done].
  intros _. by apply insert_rows_NoDup in Hins as [Hnd _].
Qed.

Lemma insert_all_other {V} commit_id (rows : list (string * V)) table t c :
  SQLiteFileSystemImplementation.insert_all commit_id rows table = Return t →
  c ≠ commit_id → t !! c = table !! c.
Proof.
  unfold SQLiteFileSystemImplementation.insert_all.
  destruct rows as [|r rows]; [by intros [= <-]|].
  destruct (SQLiteFileSystemImplementation.insert_rows _ _) as [m|e]; [|done].
  intros [= <-] Hc. by rewrite lookup_insert_ne.
Qed.

Lemma keys_file_rows files :
  map fst (map SQLiteFileSystemImplementation.file_row files) = OD.keys files.
Proof. unfold OD.keys. rewrite map_map. by apply map_ext. Qed.

(** The paths the two backends loop over are the same set. *)
Lemma all_paths_agree (pf cf : gmap string file_entry) (files : odict file_info) :
  (∀ path, cf !! path = entry_of_info <$> OD.get path files) →
  dom pf ∪ dom cf = dom pf ∪ list_to_set (OD.keys files).
Proof.
  intros Hcf. f_equal. apply set_eq. intros path.
  rewrite elem_of_dom, Hcf, elem_of_list_to_set, <- ODFacts.mem_keys.
  unfold OD.mem. destruct (OD.get path files); simpl; split; try done; eauto.
Qed.

(** [calculate_changes] of the relational backend, as a function of the
    parent's files in the database and of the files of the push. *)
Lemma sqlite_calculate_changes data db :
  SQLiteFileSystemImplementation.calculate_changes data db
  = (db,
     match required_parent (parent_id data) with
     | Some parent =>
         SQLiteFileSystemImplementation.changes_loop
           (sqlite_parent_files db (parent_id data)) (files data)
           (elements (dom (sqlite_parent_files db (parent_id data))
                      ∪ list_to_set (OD.keys (files data)))) ∅
     | None => Return (SQLiteFileSystemImplementation.added_loop (files data) ∅)
     end).
Proof.
  unfold SQLiteFileSystemImplementation.calculate_changes, sqlite_parent_files,
    required_parent.
  by destruct (parent_id data) as [[|a s]|].
Qed.

(** The files of a push as a finite map. *)
Lemma get_list_to_map {V} (d : odict V) k :
  (list_to_map d : gmap string V) !! k = OD.get k d.
Proof.
  induction d as [|[k' v] d IH]; simpl; [done|].
  rewrite lookup_insert. destruct (String.eqb_spec k' k) as [->|Hne].
  - by rewrite decide_True.
  - by rewrite decide_False.
Qed.

(** A change record the relational backend returns from its loop is the one
    of the specification. *)
Lemma sqlite_changes_loop_all pf files ch :
  SQLiteFileSystemImplementation.changes_loop pf files
    (elements (dom pf ∪ list_to_set (OD.keys files))) ∅ = Return ch →
  ∀ path,
    change_matches path (pf !! path) (entry_of_info <$> OD.get path files) (ch !! path).
Proof.
  intros Hloop path.
  set (cf := entry_of_info <$> (list_to_map files : gmap string file_info)).
  assert (∀ q, cf !! q = entry_of_info <$> OD.get q files) as Hcf.
  { intros q. unfold cf. by rewrite lookup_fmap, get_list_to_map. }
  rewrite <- (all_paths_agree pf cf files Hcf) in Hloop.
  rewrite (changes_loops_agree pf cf files _ ∅ Hcf) in Hloop.
  rewrite <- Hcf. by apply graph_changes_loop_all.
Qed.

End ChangeFacts.

(** C7. Whenever the two backends read the same parent files and the same
    current files, path by path with hash and content, their change
    computations give the same outcome; and a change record they return is
    the one of the specification, the diff of a modified path being the
    unified diff of the two contents' lines labelled a/<path> and b/<path>,
    with three lines of context and no line terminators. *)
Theorem change_engines_agree :
  ∀ (fs : GraphDatabaseImplementation.store) repo g objs db data files_hashes,
    fs !! get_repo_path repo = Some (GraphDatabaseImplementation.RepoDir (Some g) objs) →
    NoDup (OD.keys (files data)) →
    graph_parent_files g objs (parent_id data) = sqlite_parent_files db (parent_id data) →
    (∀ path, graph_current_files objs files_hashes !! path
             = entry_of_info <$> OD.get path (files data)) →
    (GraphDatabaseImplementation.calculate_changes repo (parent_id data) files_hashes fs).2
    = (SQLiteFileSystemImplementation.calculate_changes data db).2
    ∧ ∀ ch,
        (SQLiteFileSystemImplementation.calculate_changes data db).2 = Return ch →
        ∀ path,
          change_matches path (sqlite_parent_files db (parent_id data) !! path)
            (entry_of_info <$> OD.get path (files data)) (ch !! path).
Proof.
  intros fs repo g objs db data files_hashes Hfs Hnd Hpf Hcf.
  rewrite (PushFacts.calculate_changes_exists _ _ _ _ _ _ Hfs).
  rewrite ChangeFacts.sqlite_calculate_changes. simpl.
  unfold graph_changes. rewrite Hpf.
  destruct (required_parent (parent_id data)) as [parent|] eqn:Hp.
  - rewrite (ChangeFacts.all_paths_agree _ _ _ Hcf).
    rewrite (ChangeFacts.changes_loops_agree _ _ _ _ _ Hcf).
    split; [done|]. intros ch Hch path.
    rewrite <- (ChangeFacts.all_paths_agree _ _ _ Hcf) in Hch.
    rewrite <- Hcf. by apply ChangeFacts.graph_changes_loop_all.
  - assert (GraphDatabaseImplementation.added_loop files_hashes ∅
            = SQLiteFileSystemImplementation.added_loop (files data) ∅) as Heq.
    { apply map_eq. intros path.
      rewrite (ChangeFacts.graph_added_loop_spec objs files_hashes ∅ ∅) by done.
      fold (graph_current_files objs files_hashes). rewrite Hcf.
      rewrite ChangeFacts.sqlite_added_loop_spec by done.
      by destruct (OD.get path (files data)). }
    split; [by rewrite Heq|]. intros ch [= <-] path.
    rewrite ChangeFacts.sqlite_added_loop_spec by done.
    unfold sqlite_parent_files. rewrite Hp, lookup_empty.
    by destruct (OD.get path (files data)).
Qed.

Lemma change_engines_agree_witness :
  (GraphDatabaseImplementation.calculate_changes "repo" (Some "A")
     (hashes_of Scenario.files_v2 []) Scenario.graph_ab).2
  = (SQLiteFileSystemImplementation.calculate_changes Scenario.commit_b
       (db_of Scenario.sqlite_a "repo")).2.
Proof.
  assert (Scenario.graph_ab !! get_repo_path "repo"
          = Some (GraphDatabaseImplementation.RepoDir
                    (Some (graph_of Scenario.graph_ab "repo"))
                    (objects_of Scenario.graph_ab "repo"))) as Hfs
    by (vm_compute; reflexivity).
  refine (proj1 (change_engines_agree _ _ _ _ (db_of Scenario.sqlite_a "repo")
                   Scenario.commit_b (hashes_of Scenario.files_v2 []) Hfs _ _ _)).
  - apply NoDup_singleton.
  - vm_compute. reflexivity.
  - intros path.
    assert (graph_current_files (objects_of Scenario.graph_ab "repo")
              (hashes_of Scenario.files_v2 [])
            = {["f.txt" := FileEntry (calculate_hash "v2") (Some "v2")]}) as ->
      by (vm_compute; reflexivity).
    unfold Scenario.commit_b, Scenario.files_v2, OD.get, files.
    generalize (calculate_hash "v2"). intros h.
    destruct (String.eqb_spec "f.txt" path) as [<-|Hne].
    + rewrite lookup_singleton_eq. reflexivity.
    + rewrite lookup_singleton_ne by exact Hne. reflexivity.
Defined.

(** ** The change record of a push *)

(** C2, as amended. The change record a successful push computes and records
    follows the specification's table when the parent_id is neither null nor
    empty and names a commit of the repository: a path only in the commit is
    added, a path only in the parent is deleted, a path in both is modified
    with a diff when the hashes differ and has no entry when they are equal,
    and no other path has an entry. When the parent_id is null or empty every
    file of the commit is added, without diff. *)
Theorem push_change_record :
  (∀ data fs fs' msg n,
      GraphDatabaseImplementation.push_commit data fs = (fs', (Pushed msg n, 200)) →
      ∃ ch,
        GraphDatabaseImplementation.changes (graph_of fs' (repo_name data)) !! id data
        = Some ch
        ∧ n = size ch
        ∧ (∀ p parent_commit,
             required_parent (parent_id data) = Some p →
             OD.get p (GraphDatabaseImplementation.commits (graph_of fs (repo_name data)))
             = Some parent_commit →
             ∀ path,
               change_matches path
                 (entries_of (objects_of fs' (repo_name data))
                    (GraphDatabaseImplementation.c_files parent_commit) ∅ !! path)
                 (entries_of (objects_of fs' (repo_name data))
                    (hashes_of (files data) []) ∅ !! path)
                 (ch !! path))
        ∧ (required_parent (parent_id data) = None →
           ∀ path,
             ch !! path
             = added_entry
               <$> entries_of (objects_of fs' (repo_name data))
                     (hashes_of (files data) []) ∅ !! path))
  ∧ (∀ data fs fs' msg n,
      SQLiteFileSystemImplementation.push_commit data fs = (fs', (Pushed msg n, 200)) →
      ∃ ch,
        n = size ch
        ∧ SQLiteFileSystemImplementation.insert_all (id data) (map_to_list ch)
            (SQLiteFileSystemImplementation.t_changes (db_of fs (repo_name data)))
          = Return (SQLiteFileSystemImplementation.t_changes (db_of fs' (repo_name data)))
        ∧ (∀ p,
             required_parent (parent_id data) = Some p →
             SQLiteFileSystemImplementation.commit_exists p (db_of fs (repo_name data))
             = true
             ∧ ∀ path,
                 change_matches path
                   (SQLiteFileSystemImplementation.select_files p
                      (db_of fs (repo_name data)) !! path)
                   (entry_of_info <$> OD.get path (files data))
                   (ch !! path))
        ∧ (required_parent (parent_id data) = None →
           ∀ path,
             ch !! path
             = added_entry <$> (entry_of_info <$> OD.get path (files data)))).
Proof.
  split.
  - intros data fs fs' msg n Hpush.
    apply PushFacts.push_commit_pushed in Hpush
      as (g & objs & ch & Hstart & Hmem & Hch & Hn & Hfs').
    rewrite (graph_of_push_start _ _ _ _ Hstart).
    unfold graph_of, objects_of. rewrite Hfs'. cbv zeta.
    exists ch. split; [|split; [done|split]].
    + destruct (GraphDatabaseImplementation.advances _ _); simpl;
        apply lookup_insert_eq.
    + intros p parent_commit Hp Hget path. simpl.
      unfold graph_changes, graph_parent_files in Hch. rewrite Hp, Hget in Hch.
      by apply ChangeFacts.graph_changes_loop_all.
    + intros Hp path. simpl. unfold graph_changes in Hch. rewrite Hp in Hch.
      injection Hch as <-. by apply ChangeFacts.graph_added_loop_spec.
  - intros data fs fs' msg n Hpush.
    apply SQLitePushFacts.sqlite_push_commit_pushed in Hpush
      as (Hex & Hmp & fls & ch & chs & Hfls & Hch & Hchs & Hn & Hfs').
    exists ch. split; [done|]. split.
    { unfold db_of at 2. rewrite Hfs'. done. }
    rewrite ChangeFacts.sqlite_calculate_changes in Hch. simpl in Hch. split.
    + intros p Hp. rewrite Hp in Hch.
      assert (SQLiteFileSystemImplementation.commit_exists p (db_of fs (repo_name data))
              = true) as Hpex.
      { by eapply AbsentParent.missing_parent_None. }
      split; [done|]. intros path.
      assert (p ≠ id data) as Hne by (intros ->; congruence).
      unfold sqlite_parent_files in Hch. rewrite Hp in Hch.
      unfold SQLiteFileSystemImplementation.select_files in *. simpl in Hch.
      rewrite (ChangeFacts.insert_all_other _ _ _ _ p Hfls Hne) in Hch.
      by apply ChangeFacts.sqlite_changes_loop_all.
    + intros Hp path. rewrite Hp in Hch. injection Hch as <-.
      rewrite ChangeFacts.sqlite_added_loop_spec.
      * by destruct (OD.get path (files data)).
      * rewrite <- ChangeFacts.keys_file_rows.
        by eapply ChangeFacts.insert_all_NoDup.
Qed.

Lemma push_change_record_witness :
  ∃ ch parent_commit,
    OD.get "A" (GraphDatabaseImplementation.commits (graph_of Scenario.graph_a "repo"))
    = Some parent_commit
    ∧ GraphDatabaseImplementation.changes (graph_of Scenario.graph_ab "repo") !! "B"
      = Some ch
    ∧ ∀ path,
        change_matches path
          (entries_of (objects_of Scenario.graph_ab "repo")
             (GraphDatabaseImplementation.c_files parent_commit) ∅ !! path)
          (entries_of (objects_of Scenario.graph_ab "repo")
             (hashes_of Scenario.files_v2 []) ∅ !! path)
          (ch !! path).
Proof.
  assert (GraphDatabaseImplementation.push_commit Scenario.commit_b Scenario.graph_a
          = (Scenario.graph_ab, (Pushed "Commit 'B' pushed successfully" 1, 200)))
    as Hpush by (vm_compute; reflexivity).
  destruct (proj1 push_change_record _ _ _ _ _ Hpush) as (ch & Hrec & _ & Hparent & _).
  eexists ch, _. split; [vm_compute; reflexivity|]. split; [exact Hrec|].
  apply (Hparent "A"); [reflexivity | vm_compute; reflexivity].
Defined.

(** C2 as stated fails for a parent whose id is the empty string. Commit K
    names the commit of id '' as parent; that commit is in the repository and
    holds f.txt with the hash K holds it with; yet the change record of K
    lists f.txt as added, in both backends, where the claim has no entry. *)
Lemma push_change_record_counterexample :
  parent_id Scenario.odd_child = Some ""
  ∧ (GraphDatabaseImplementation.check_commit "odd" "" Scenario.graph_odd
     = (Exists true, 200)
     ∧ (OD.get "" (commits_of Scenario.graph_odd "odd")
        ≫= λ c, OD.get "f.txt" (GraphDatabaseImplementation.c_files c))
       = Some (calculate_hash "v1")
     ∧ (OD.get "K" (commits_of Scenario.graph_odd "odd")
        ≫= λ c, OD.get "f.txt" (GraphDatabaseImplementation.c_files c))
       = Some (calculate_hash "v1")
     ∧ GraphDatabaseImplementation.get_changes "odd" "K" Scenario.graph_odd
       = (Changes {["f.txt" := Change added None None (Some (calculate_hash "v1"))]},
          200))
  ∧ (SQLiteFileSystemImplementation.check_commit "odd" "" Scenario.sqlite_odd
     = (Exists true, 200)
     ∧ hash <$> SQLiteFileSystemImplementation.select_files ""
                  (db_of Scenario.sqlite_odd "odd") !! "f.txt"
       = Some (calculate_hash "v1")
     ∧ hash <$> SQLiteFileSystemImplementation.select_files "K"
                  (db_of Scenario.sqlite_odd "odd") !! "f.txt"
       = Some (calculate_hash "v1")
     ∧ SQLiteFileSystemImplementation.get_changes "odd" "K" Scenario.sqlite_odd
       = (Changes {["f.txt" := Change added None None (Some (calculate_hash "v1"))]},
          200)).
Proof.
  repeat split; vm_compute; reflexivity.
Qed.

(** ** Clone *)

Module CloneFacts.

Import GraphDatabaseImplementation.

Lemma graph_data_eta (g : graph_data) :
  GraphData (commits g) (changes g) (branches g) (HEAD g) = g.
Proof. by destruct g. Qed.

(** The document backend's clone of an existing repository to a fresh name
    copies the graph and every object file. *)
Lemma graph_clone_copies data fs g objs :
  validate_repo_name (source_repo data) = true →
  validate_repo_name (target_repo data) = true →
  fs !! get_repo_path (source_repo data) = Some (RepoDir (Some g) objs) →
  fs !! get_repo_path (target_repo data) = None →
  ∃ msg,
    clone_repo None data fs
    = (<[get_repo_path (target_repo data) := RepoDir (Some g) objs]> fs,
       (Cloned msg (length (commits g)) (size (file_set (commits g))), 200)).
Proof.
  intros Hvs Hvt Hs Ht. eexists. unfold clone_repo. rewrite Hvs, Hvt. simpl.
  rewrite (GraphFacts.get_objects_dir_exists _ _ _ Hs). simpl.
  rewrite (GraphFacts.dir_exists_true _ _ _ Hs).
  rewrite (GraphFacts.graph_exists_true _ _ _ _ Hs). simpl.
  unfold dir_exists at 1. rewrite Ht.
  assert (get_repo_path (source_repo data) ≠ get_repo_path (target_repo data)) as Hne
    by (intros Heq; rewrite Heq in Hs; congruence).
  unfold clone_body, create_repo. rewrite Hvt. simpl.
  unfold bind at 1. unfold dir_exists. rewrite Ht.
  unfold make_repo, get_objects_dir, makedirs, init_repo_graph, graph_exists,
    read_graph, write_graph, copy_objects, ret, bind.
  rewrite Ht. simpl.
  repeat (rewrite ?lookup_insert_eq, ?insert_insert_eq; simpl).
  rewrite !lookup_insert_ne, Hs by done. simpl.
  repeat (rewrite ?lookup_insert_eq, ?insert_insert_eq; simpl).
  rewrite !lookup_insert_ne, Hs by done. simpl.
  repeat (rewrite ?lookup_insert_eq, ?insert_insert_eq; simpl).
  rewrite graph_data_eta, (right_id_L ∅ (∪)). reflexivity.
Qed.

(** After a clone in the document backend the target lists the commits the
    source lists, and holds the object files the source holds. *)
Lemma graph_clone_fidelity data fs g objs :
  validate_repo_name (source_repo data) = true →
  validate_repo_name (target_repo data) = true →
  fs !! get_repo_path (source_repo data) = Some (RepoDir (Some g) objs) →
  fs !! get_repo_path (target_repo data) = None →
  get_commits (target_repo data) (clone_repo None data fs).1
  = get_commits (source_repo data) fs
  ∧ objects_of (clone_repo None data fs).1 (target_repo data)
    = objects_of fs (source_repo data)
  ∧ graph_of (clone_repo None data fs).1 (target_repo data)
    = graph_of fs (source_repo data).
Proof.
  intros Hvs Hvt Hs Ht.
  destruct (graph_clone_copies data fs g objs Hvs Hvt Hs Ht) as [msg ->]. simpl.
  unfold get_commits, objects_of, graph_of. by rewrite lookup_insert_eq, Hs.
Qed.

End CloneFacts.

(** C5 fails in the relational backend, whose clone is a pull into the new
    repository. The source holds A and its child B, B with the earlier
    timestamp; the clone succeeds, and the target lists A only. *)
Theorem sqlite_clone_loses_commit :
  (SQLiteFileSystemImplementation.clone_repo None (SyncData "late" "copy")
     Scenario.sqlite_late).2
  = (Pulled "Pulled 1 commits from 'late' to 'copy'" 1 0, 200)
  ∧ listed_ids (SQLiteFileSystemImplementation.get_commits "late" Scenario.sqlite_late)
    = ["A"; "B"]
  ∧ listed_ids
      (SQLiteFileSystemImplementation.get_commits "copy"
         (SQLiteFileSystemImplementation.clone_repo None (SyncData "late" "copy")
            Scenario.sqlite_late).1)
    = ["A"].
Proof.
  repeat split; vm_compute; reflexivity.
Qed.

(** ** The error paths of clone *)

Module GraphCloneErrors.

Import GraphDatabaseImplementation.

(** A clone onto a name that is taken is refused and changes nothing. *)
Lemma graph_clone_target_exists fault data fs g objs dir :
  validate_repo_name (source_repo data) = true →
  validate_repo_name (target_repo data) = true →
  fs !! get_repo_path (source_repo data) = Some (RepoDir (Some g) objs) →
  fs !! get_repo_path (target_repo data) = Some dir →
  clone_repo fault data fs
  = (fs, (Error ("Target repository '" +:+ target_repo data +:+ "' already exists"),
          400)).
Proof.
  intros Hvs Hvt Hs Ht. unfold clone_repo. rewrite Hvs, Hvt. simpl.
  rewrite (GraphFacts.get_objects_dir_exists _ _ _ Hs). simpl.
  rewrite (GraphFacts.dir_exists_true _ _ _ Hs).
  rewrite (GraphFacts.graph_exists_true _ _ _ _ Hs). simpl.
  by rewrite (GraphFacts.dir_exists_true _ _ _ Ht).
Qed.

(** A clone whose copy is interrupted answers 500 and removes whatever it
    had created of the target. *)
Lemma graph_clone_interrupted partial data fs g objs :
  validate_repo_name (source_repo data) = true →
  validate_repo_name (target_repo data) = true →
  fs !! get_repo_path (source_repo data) = Some (RepoDir (Some g) objs) →
  fs !! get_repo_path (target_repo data) = None →
  clone_repo (Some partial) data fs
  = (fs, (Failure "Error cloning repository" OSError, 500)).
Proof.
  intros Hvs Hvt Hs Ht. unfold clone_repo. rewrite Hvs, Hvt. simpl.
  rewrite (GraphFacts.get_objects_dir_exists _ _ _ Hs). simpl.
  rewrite (GraphFacts.dir_exists_true _ _ _ Hs).
  rewrite (GraphFacts.graph_exists_true _ _ _ _ Hs). simpl.
  unfold dir_exists at 1. rewrite Ht. unfold interrupted.
  destruct partial as [dir|]; unfold dir_exists, rmtree; simpl.
  - by rewrite lookup_insert_eq, delete_insert_id.
  - by rewrite Ht.
Qed.

(** A clone from a name that holds no repository answers 404; the directory
    it leaves behind is the source's, so a target of another name is not
    created. *)
Lemma graph_clone_missing_source fault data fs :
  validate_repo_name (source_repo data) = true →
  validate_repo_name (target_repo data) = true →
  graph_exists fs (source_repo data) = false →
  (clone_repo fault data fs).2
  = (Error ("Source repository '" +:+ source_repo data +:+ "' not found"), 404)
  ∧ ∀ d, d ≠ get_repo_path (source_repo data) →
         (clone_repo fault data fs).1 !! d = fs !! d.
Proof.
  intros Hvs Hvt Hs. unfold clone_repo. rewrite Hvs, Hvt. simpl.
  assert (graph_exists (get_objects_dir (source_repo data) fs).1 (source_repo data)
          = false) as ->.
  { unfold get_objects_dir, makedirs, bind, graph_exists in *.
    destruct (fs !! get_repo_path (source_repo data)) as [dir|] eqn:E; simpl.
    - by rewrite E.
    - by rewrite lookup_insert_eq. }
  rewrite orb_true_r. simpl. split; [done|]. intros d Hd.
  unfold get_objects_dir, makedirs, bind.
  destruct (fs !! get_repo_path (source_repo data)); simpl; [done|].
  by rewrite lookup_insert_ne.
Qed.

End GraphCloneErrors.

Module SQLiteCloneErrors.

Import SQLiteFileSystemImplementation.

Lemma sqlite_clone_missing_source fault data fs :
  validate_repo_name (source_repo data) = true →
  validate_repo_name (target_repo data) = true →
  fs !! get_repo_path (source_repo data) = None →
  clone_repo fault data fs
  = (fs, (Error ("Source repository '" +:+ source_repo data +:+ "' not found"), 404)).
Proof.
  intros Hvs Hvt Hs. unfold clone_repo. rewrite Hvs, Hvt. simpl.
  unfold dir_exists. by rewrite Hs.
Qed.

Lemma sqlite_clone_target_exists fault data fs source target :
  validate_repo_name (source_repo data) = true →
  validate_repo_name (target_repo data) = true →
  fs !! get_repo_path (source_repo data) = Some source →
  fs !! get_repo_path (target_repo data) = Some target →
  clone_repo fault data fs
  = (fs, (Error ("Target repository '" +:+ target_repo data +:+ "' already exists"),
          400)).
Proof.
  intros Hvs Hvt Hs Ht. unfold clone_repo. rewrite Hvs, Hvt. simpl.
  unfold dir_exists. by rewrite Hs, Ht.
Qed.

(** A fault while the target is being created reaches the handler of clone,
    which removes the target. *)
Lemma sqlite_clone_fault_in_create partial data fs source :
  validate_repo_name (source_repo data) = true →
  validate_repo_name (target_repo data) = true →
  fs !! get_repo_path (source_repo data) = Some source →
  fs !! get_repo_path (target_repo data) = None →
  clone_repo (Some (FaultInCreate partial)) data fs
  = (fs, (Failure "Error cloning repository" OSError, 500)).
Proof.
  intros Hvs Hvt Hs Ht. unfold clone_repo. rewrite Hvs, Hvt. simpl.
  unfold dir_exists. rewrite Hs, Ht. simpl.
  destruct partial as [db|].
  - by rewrite lookup_insert_eq, delete_insert_id.
  - by rewrite Ht.
Qed.

(** A fault inside the pull that clone delegates to is answered by the pull
    itself: the handler of clone does not run, and the empty target that
    clone created stays in the store. *)
Lemma sqlite_clone_fault_in_pull data fs source :
  validate_repo_name (source_repo data) = true →
  validate_repo_name (target_repo data) = true →
  fs !! get_repo_path (source_repo data) = Some source →
  fs !! get_repo_path (target_repo data) = None →
  clone_repo (Some FaultInPull) data fs
  = (<[get_repo_path (target_repo data) := empty_db]> fs,
     (Failure "Error pulling commits" OperationalError, 500)).
Proof.
  intros Hvs Hvt Hs Ht.
  assert (get_repo_path (source_repo data) ≠ get_repo_path (target_repo data)) as Hne
    by (intros Heq; rewrite Heq in Hs; congruence).
  unfold clone_repo. rewrite Hvs, Hvt. simpl.
  unfold dir_exists at 1 2. rewrite Hs, Ht. simpl.
  unfold create_repo. rewrite Hvt. simpl. unfold dir_exists at 1. rewrite Ht.
  simpl. unfold make_repo. rewrite Ht.
  unfold pull_commits. rewrite Hvs, Hvt. simpl.
  unfold dir_exists. rewrite lookup_insert_ne, Hs by done. simpl.
  rewrite lookup_insert_eq. simpl.
  by rewrite lookup_insert_ne, Hs, lookup_insert_eq by done.
Qed.

End SQLiteCloneErrors.

(** C8 fails in the document backend when the source does not exist: the
    lookup of the source's objects directory creates the directory before
    the existence check. Cloning the missing name onto itself answers 404
    and leaves the target's directory behind, so that creating the
    repository afterwards reports it as existing. *)
Theorem clone_of_missing_source_creates_directory :
  let after :=
    (GraphDatabaseImplementation.clone_repo None (SyncData "ghost" "ghost") ∅).1 in
  (GraphDatabaseImplementation.clone_repo None (SyncData "ghost" "ghost") ∅).2
  = (Error "Source repository 'ghost' not found", 404)
  ∧ GraphDatabaseImplementation.dir_exists ∅ "ghost" = false
  ∧ GraphDatabaseImplementation.dir_exists after "ghost" = true
  ∧ (GraphDatabaseImplementation.create_repo "ghost" after).2
    = Return (Message "Repository 'ghost' already exists", 200).
Proof.
  repeat split; vm_compute; reflexivity.
Qed.

(** ** Names and paths *)

Module PathFacts.

Lemma all_chars_impl (p q : ascii → bool) s :
  (∀ c, p c = true → q c = true) → all_chars p s = true → all_chars q s = true.
Proof.
  intros Hpq. induction s as [|c s IH]; simpl; [done|].
  rewrite !andb_true_iff. intros [Hc Hs]. split; [by apply Hpq | by apply IH].
Qed.

Lemma all_chars_app p s t :
  all_chars p (s +:+ t) = all_chars p s && all_chars p t.
Proof.
  induction s as [|c s IH]; simpl; [done|]. by rewrite IH, andb_assoc.
Qed.

Lemma filter_chars_all p s : all_chars p (PyStr.filter_chars p s) = true.
Proof.
  induction s as [|c s IH]; simpl; [done|].
  destruct (p c) eqn:E; simpl; [by rewrite E|done].
Qed.

Lemma filter_chars_id p s : all_chars p s = true → PyStr.filter_chars p s = s.
Proof.
  induction s as [|c s IH]; simpl; [done|].
  rewrite andb_true_iff. intros [-> Hs]. by rewrite IH.
Qed.

Lemma all_chars_lstrip p s :
  all_chars p s = true → all_chars p (PyStr.lstrip s) = true.
Proof.
  induction s as [|c s IH]; simpl; [done|].
  rewrite andb_true_iff. intros [Hc Hs].
  destruct (PyStr.is_space c); [by apply IH|]. simpl. by rewrite Hc, Hs.
Qed.

Lemma all_chars_rstrip p s :
  all_chars p s = true → all_chars p (PyStr.rstrip s) = true.
Proof.
  induction s as [|c s IH]; simpl; [done|].
  rewrite andb_true_iff. intros [Hc Hs]. specialize (IH Hs).
  destruct (PyStr.rstrip s) as [|d r].
  - destruct (PyStr.is_space c); simpl; [done|]. by rewrite Hc.
  - simpl in *. by rewrite Hc, IH.
Qed.

Lemma rstrip_idem s : PyStr.rstrip (PyStr.rstrip s) = PyStr.rstrip s.
Proof.
  induction s as [|c s IH]; simpl; [done|].
  destruct (PyStr.rstrip s) as [|d r] eqn:E.
  - destruct (PyStr.is_space c) eqn:Ec; simpl; [done|]. by rewrite Ec.
  - change (PyStr.rstrip (String c (String d r))) with
      (match PyStr.rstrip (String d r) with
       | EmptyString => if PyStr.is_space c then EmptyString else String c EmptyString
       | r' => String c r'
       end).
    by rewrite IH.
Qed.

Lemma lstrip_clean s : starts_clean (PyStr.lstrip s) = true.
Proof.
  induction s as [|c s IH]; simpl; [done|].
  destruct (PyStr.is_space c) eqn:E; [done|]. simpl. by rewrite E.
Qed.

Lemma lstrip_id s : starts_clean s = true → PyStr.lstrip s = s.
Proof. destruct s as [|c s]; simpl; [done|]. by intros ->%negb_true_iff. Qed.

Lemma rstrip_clean s : starts_clean s = true → starts_clean (PyStr.rstrip s) = true.
Proof.
  destruct s as [|c s]; simpl; [done|]. intros Hc.
  destruct (PyStr.rstrip s); simpl; [|done].
  apply negb_true_iff in Hc. by rewrite Hc; simpl; rewrite Hc.
Qed.

Lemma strip_idem s : PyStr.strip (PyStr.strip s) = PyStr.strip s.
Proof.
  unfold PyStr.strip.
  rewrite (lstrip_id (PyStr.rstrip _)) by apply rstrip_clean, lstrip_clean.
  apply rstrip_idem.
Qed.

Lemma all_chars_strip p s :
  all_chars p s = true → all_chars p (PyStr.strip s) = true.
Proof. intros. by apply all_chars_rstrip, all_chars_lstrip. Qed.

Lemma sanitize_path_kept p : all_chars kept (sanitize_path p) = true.
Proof. apply all_chars_strip, filter_chars_all. Qed.

Lemma kept_not_separator c : kept c = true → negb (is_separator c) = true.
Proof.
  destruct c as [[] [] [] [] [] [] [] []]; vm_compute; congruence.
Qed.

Lemma rstrip_id s :
  all_chars (λ c, negb (PyStr.is_space c)) s = true → PyStr.rstrip s = s.
Proof.
  induction s as [|c s IH]; simpl; [done|].
  rewrite andb_true_iff. intros [Hc%negb_true_iff Hs]. rewrite (IH Hs), Hc.
  by destruct s.
Qed.

Lemma rstrip_snoc s c :
  PyStr.is_space c = true →
  PyStr.rstrip (s +:+ String c EmptyString) = PyStr.rstrip s.
Proof.
  intros Hc. induction s as [|d s IH]; simpl.
  - by rewrite Hc.
  - by rewrite IH.
Qed.

Lemma name_char_kept c : is_name_char c = true → kept c = true.
Proof.
  destruct c as [[] [] [] [] [] [] [] []]; vm_compute; congruence.
Qed.

Lemma name_char_not_space c :
  is_name_char c = true → negb (PyStr.is_space c) = true.
Proof.
  destruct c as [[] [] [] [] [] [] [] []]; vm_compute; congruence.
Qed.

Lemma lf_is PyStr_c : PyStr.is_lf PyStr_c = true → PyStr_c = PyStr.LF.
Proof.
  destruct PyStr_c as [[] [] [] [] [] [] [] []]; vm_compute; congruence.
Qed.

(** The strings [name_tail] accepts: name characters, then at most one final
    line feed. *)
Lemma name_tail_inv s :
  name_tail s = true →
  ∃ body, all_chars is_name_char body = true
          ∧ (s = body ∨ s = body +:+ String PyStr.LF EmptyString).
Proof.
  induction s as [|c s IH]; simpl.
  - intros _. exists EmptyString. by split; [|left].
  - destruct (is_name_char c) eqn:Ec.
    + intros [body [Hb Hs]]%IH. exists (String c body). simpl. rewrite Ec, Hb.
      split; [done|]. destruct Hs as [-> | ->]; [by left | by right].
    + rewrite andb_true_iff. intros [Hlf Hs]. destruct s; [|done].
      exists EmptyString. split; [done|]. right. simpl. by rewrite (lf_is _ Hlf).
Qed.

Lemma name_tail_intro body :
  all_chars is_name_char body = true →
  name_tail body = true ∧ name_tail (body +:+ String PyStr.LF EmptyString) = true.
Proof.
  induction body as [|c s IH]; simpl; [done|].
  rewrite andb_true_iff. intros [-> Hs]. by apply IH.
Qed.

Lemma sanitize_name body :
  all_chars is_name_char body = true → body ≠ EmptyString →
  sanitize_path body = body
  ∧ sanitize_path (body +:+ String PyStr.LF EmptyString) = body.
Proof.
  intros Hb Hne.
  assert (all_chars kept body = true) as Hk
    by (eapply all_chars_impl; [apply name_char_kept | done]).
  assert (all_chars (λ c, negb (PyStr.is_space c)) body = true) as Hs
    by (eapply all_chars_impl; [apply name_char_not_space | done]).
  assert (starts_clean body = true) as Hc.
  { destruct body; [done|]. simpl in *. by apply andb_true_iff in Hs as [-> _]. }
  unfold sanitize_path. fold kept. split.
  - rewrite filter_chars_id by done. unfold PyStr.strip.
    by rewrite lstrip_id, rstrip_id.
  - rewrite filter_chars_id by (rewrite all_chars_app, Hk; reflexivity).
    unfold PyStr.strip. rewrite lstrip_id.
    + rewrite rstrip_snoc by reflexivity. by apply rstrip_id.
    + destruct body; [done|]. done.
Qed.

(** A name that is accepted names a directory inside the base directory. *)
Lemma valid_names_repository repo_name :
  validate_repo_name repo_name = true → names_repository repo_name = true.
Proof.
  intros Hv. unfold validate_repo_name in Hv.
  destruct repo_name as [|c s]; [done|]. apply andb_true_iff in Hv as [Hc Hs].
  destruct (name_tail_inv _ Hs) as [body [Hb Hsb]].
  assert (all_chars is_name_char (String c body) = true) as Hcb
    by (simpl; by rewrite Hc, Hb).
  destruct (sanitize_name (String c body) Hcb ltac:(done)) as [H1 H2].
  assert (sanitize_path (String c s) = String c body) as Heq.
  { destruct Hsb as [-> | ->]; [done|]. exact H2. }
  unfold names_repository. rewrite Heq.
  assert (String.eqb (String c body) "." = false) as ->.
  { apply String.eqb_neq. intros Hdot. injection Hdot as -> _.
    vm_compute in Hc. discriminate Hc. }
  assert (String.eqb (String c body) ".." = false) as ->.
  { apply String.eqb_neq. intros Hdot. injection Hdot as -> _.
    vm_compute in Hc. discriminate Hc. }
  reflexivity.
Qed.

End PathFacts.

(** X1. [sanitize_path] is idempotent, and what it returns holds no path
    separator, neither [/] nor [\]. *)
Theorem sanitize_path_idempotent_no_separator :
  ∀ path,
    sanitize_path (sanitize_path path) = sanitize_path path
    ∧ all_chars (λ c, negb (is_separator c)) (sanitize_path path) = true.
Proof.
  intros path. split.
  - unfold sanitize_path at 1. fold kept.
    rewrite PathFacts.filter_chars_id by apply PathFacts.sanitize_path_kept.
    unfold sanitize_path. apply PathFacts.strip_idem.
  - eapply PathFacts.all_chars_impl; [apply PathFacts.kept_not_separator|].
    apply PathFacts.sanitize_path_kept.
Qed.

(** X2. A name [validate_repo_name] accepts is made of the characters
    [a-zA-Z0-9_-], followed by at most one line feed, which the pattern's [$]
    lets through; its directory is the name without that line feed, and is
    itself a name that is accepted.  So a name and the name followed by a line
    feed are two valid names of one repository directory. *)
Theorem valid_name_directory :
  ∀ repo_name,
    validate_repo_name repo_name = true →
    all_chars is_name_char (get_repo_path repo_name) = true
    ∧ validate_repo_name (get_repo_path repo_name) = true
    ∧ get_repo_path (get_repo_path repo_name) = get_repo_path repo_name
    ∧ (repo_name = get_repo_path repo_name
       ∨ repo_name = get_repo_path repo_name +:+ String PyStr.LF EmptyString).
Proof.
  intros n Hv. unfold validate_repo_name in Hv.
  destruct n as [|c s]; [done|]. apply andb_true_iff in Hv as [Hc Hs].
  destruct (PathFacts.name_tail_inv _ Hs) as [body [Hb Hsb]].
  assert (all_chars is_name_char (String c body) = true) as Hcb
    by (simpl; by rewrite Hc, Hb).
  destruct (PathFacts.sanitize_name (String c body) Hcb ltac:(done)) as [H1 H2].
  assert (validate_repo_name (String c body) = true) as Hvb.
  { unfold validate_repo_name. rewrite Hc. simpl.
    by apply PathFacts.name_tail_intro. }
  unfold get_repo_path.
  destruct Hsb as [-> | ->].
  - rewrite !H1. by repeat split; [..|left].
  - change (String c (body +:+ String PyStr.LF EmptyString))
      with (String c body +:+ String PyStr.LF EmptyString).
    rewrite H2, !H1. by repeat split; [..|right].
Qed.

Lemma valid_name_directory_witness :
  all_chars is_name_char (get_repo_path Examples.name_lf) = true
  ∧ validate_repo_name (get_repo_path Examples.name_lf) = true
  ∧ get_repo_path (get_repo_path Examples.name_lf) = get_repo_path Examples.name_lf
  ∧ (Examples.name_lf = get_repo_path Examples.name_lf
     ∨ Examples.name_lf = get_repo_path Examples.name_lf +:+ String PyStr.LF EmptyString).
Proof.
  apply (valid_name_directory Examples.name_lf). reflexivity.
Defined.

(** X3. The pattern both backends check is stricter than the rule of the base
    class they override: a name they accept is not empty and holds no [/] and
    no [\]; the base class alone would also accept a name with a dot or a
    space in it. *)
Theorem override_stricter_than_base :
  (∀ repo_name,
      validate_repo_name repo_name = true →
      BaseVCSImplementation.validate_repo_name repo_name = true)
  ∧ BaseVCSImplementation.validate_repo_name "my repo.v2" = true
  ∧ validate_repo_name "my repo.v2" = false.
Proof.
  split; [|by split].
  intros n Hv. unfold validate_repo_name in Hv.
  destruct n as [|c s]; [done|]. apply andb_true_iff in Hv as [Hc Hs].
  unfold BaseVCSImplementation.validate_repo_name.
  destruct (PathFacts.name_tail_inv _ Hs) as [body [Hb Hsb]].
  assert (∀ c, is_name_char c = true → negb (is_separator c) = true) as Himp
    by (intros c' H'; by apply PathFacts.kept_not_separator, PathFacts.name_char_kept).
  cbn [all_chars]. rewrite (Himp _ Hc). simpl.
  destruct Hsb as [-> | ->].
  - by eapply PathFacts.all_chars_impl.
  - rewrite PathFacts.all_chars_app.
    rewrite (PathFacts.all_chars_impl _ _ _ Himp Hb). reflexivity.
Qed.

(** ** The shape of an object name *)

Module HashFacts.

Import Hashlib.

Local Open Scope Z_scope.

Lemma be_bytes_length n x : length (be_bytes n x) = n.
Proof. induction n as [|n IH]; simpl; [done|]. by rewrite IH. Qed.

Lemma be_bytes_range n x : Forall (λ b, 0 ≤ b < 256) (be_bytes n x).
Proof.
  induction n as [|n IH]; simpl; constructor; [|done].
  apply Z.mod_pos_bound. lia.
Qed.

Lemma sha1_length msg : length (sha1 msg) = 20%nat.
Proof.
  unfold sha1. destruct (chunks _ _ _). by rewrite !length_app, !be_bytes_length.
Qed.

Lemma sha1_range msg : Forall (λ b, 0 ≤ b < 256) (sha1 msg).
Proof.
  unfold sha1. destruct (chunks _ _ _).
  repeat (apply Forall_app; split); apply be_bytes_range.
Qed.

Lemma hexdigest_length bs : String.length (hexdigest bs) = (2 * length bs)%nat.
Proof. induction bs as [|b bs IH]; simpl; [done|]. rewrite IH. lia. Qed.

Lemma hex_digit_hex n : 0 ≤ n < 16 → is_hex (hex_digit n) = true.
Proof.
  intros Hn. rewrite <- (Z2Nat.id n) by lia.
  assert (forallb (λ k, is_hex (hex_digit (Z.of_nat k))) (seq 0 16) = true) as Hall
    by (vm_compute; reflexivity).
  rewrite List.forallb_forall in Hall. apply Hall, in_seq. lia.
Qed.

Lemma hexdigest_hex bs :
  Forall (λ b, 0 ≤ b < 256) bs → all_chars is_hex (hexdigest bs) = true.
Proof.
  induction 1 as [|b bs Hb _ IH]; simpl; [done|].
  rewrite IH, !hex_digit_hex; [done| |].
  - apply Z.mod_pos_bound. lia.
  - split; [apply Z.div_pos; lia | apply Z.div_lt_upper_bound; lia].
Qed.

End HashFacts.

(** X4. Whatever the content, [calculate_hash] returns forty characters, each
    one of [0-9a-f]: the name of an object always splits into the two
    characters of its directory and the thirty-eight of its file. *)
Theorem calculate_hash_shape :
  ∀ content,
    String.length (calculate_hash content) = 40
    ∧ all_chars is_hex (calculate_hash content) = true.
Proof.
  intros text. unfold calculate_hash. split.
  - by rewrite HashFacts.hexdigest_length, HashFacts.sha1_length.
  - apply HashFacts.hexdigest_hex, HashFacts.sha1_range.
Qed.

(** ** Creating and deleting a repository *)

Module LifecycleFacts.

Lemma graph_create_fresh fs name :
  validate_repo_name name = true →
  fs !! get_repo_path name = None →
  GraphDatabaseImplementation.create_repo name fs
  = (<[get_repo_path name :=
         GraphDatabaseImplementation.RepoDir
           (Some GraphDatabaseImplementation.empty_graph) ∅]> fs,
     Return (Message ("Repository '" +:+ name +:+ "' created successfully"), 200)).
Proof.
  intros Hv Hfs. unfold GraphDatabaseImplementation.create_repo. rewrite Hv. simpl.
  unfold GraphDatabaseImplementation.dir_exists. rewrite Hfs.
  unfold GraphDatabaseImplementation.make_repo,
    GraphDatabaseImplementation.get_objects_dir,
    GraphDatabaseImplementation.makedirs,
    GraphDatabaseImplementation.init_repo_graph,
    GraphDatabaseImplementation.graph_exists,
    GraphDatabaseImplementation.write_graph, ret, bind.
  rewrite Hfs. simpl. repeat (rewrite ?lookup_insert_eq, ?insert_insert_eq; simpl).
  reflexivity.
Qed.

Lemma sqlite_create_fresh fs name :
  validate_repo_name name = true →
  fs !! get_repo_path name = None →
  SQLiteFileSystemImplementation.create_repo name fs
  = (<[get_repo_path name := SQLiteFileSystemImplementation.empty_db]> fs,
     (Message ("Repository '" +:+ name +:+ "' created successfully"), 200)).
Proof.
  intros Hv Hfs. unfold SQLiteFileSystemImplementation.create_repo. rewrite Hv. simpl.
  unfold SQLiteFileSystemImplementation.dir_exists,
    SQLiteFileSystemImplementation.make_repo. by rewrite Hfs.
Qed.

End LifecycleFacts.

(** X5. In both backends, creating a repository under a valid name that is
    free answers 200 and leaves an empty repository: it lists no commit,
    holds no commit whatever the id asked for, is reported with zero commits,
    zero files and no last commit, and no other directory has changed.
    Creating it again answers 200 as well and changes nothing. *)
Theorem create_repo_makes_empty_repository :
  (∀ (fs : GraphDatabaseImplementation.store) name commit_id,
      validate_repo_name name = true →
      fs !! get_repo_path name = None →
      let fs' := (GraphDatabaseImplementation.create_repo name fs).1 in
      (GraphDatabaseImplementation.create_repo name fs).2
      = Return (Message ("Repository '" +:+ name +:+ "' created successfully"), 200)
      ∧ GraphDatabaseImplementation.get_commits name fs' = (Commits [], 200)
      ∧ GraphDatabaseImplementation.check_commit name commit_id fs'
        = (Exists false, 200)
      ∧ GraphDatabaseImplementation.list_repos fs' !! get_repo_path name
        = Some (RepoStats 0 0 None)
      ∧ (∀ d, d ≠ get_repo_path name → fs' !! d = fs !! d)
      ∧ GraphDatabaseImplementation.create_repo name fs'
        = (fs', Return (Message ("Repository '" +:+ name +:+ "' already exists"), 200)))
  ∧ (∀ (fs : SQLiteFileSystemImplementation.store) name commit_id,
      validate_repo_name name = true →
      fs !! get_repo_path name = None →
      let fs' := (SQLiteFileSystemImplementation.create_repo name fs).1 in
      (SQLiteFileSystemImplementation.create_repo name fs).2
      = (Message ("Repository '" +:+ name +:+ "' created successfully"), 200)
      ∧ SQLiteFileSystemImplementation.get_commits name fs' = (Commits [], 200)
      ∧ SQLiteFileSystemImplementation.check_commit name commit_id fs'
        = (Exists false, 200)
      ∧ SQLiteFileSystemImplementation.list_repos fs' !! get_repo_path name
        = Some (RepoStats 0 0 None)
      ∧ (∀ d, d ≠ get_repo_path name → fs' !! d = fs !! d)
      ∧ SQLiteFileSystemImplementation.create_repo name fs'
        = (fs', (Message ("Repository '" +:+ name +:+ "' already exists"), 200))).
Proof.
  split.
  - intros fs name commit_id Hv Hfs.
    rewrite (LifecycleFacts.graph_create_fresh _ _ Hv Hfs). cbv zeta. simpl.
    unfold GraphDatabaseImplementation.get_commits,
      GraphDatabaseImplementation.check_commit,
      GraphDatabaseImplementation.list_repos,
      GraphDatabaseImplementation.create_repo,
      GraphDatabaseImplementation.dir_exists.
    rewrite lookup_omap, Hv, !lookup_insert_eq. simpl.
    repeat split; try done.
    + intros d Hd. by rewrite lookup_insert_ne.
    + by rewrite lookup_insert_eq.
  - intros fs name commit_id Hv Hfs.
    rewrite (LifecycleFacts.sqlite_create_fresh _ _ Hv Hfs). cbv zeta. simpl.
    unfold SQLiteFileSystemImplementation.get_commits,
      SQLiteFileSystemImplementation.check_commit,
      SQLiteFileSystemImplementation.list_repos,
      SQLiteFileSystemImplementation.create_repo,
      SQLiteFileSystemImplementation.dir_exists.
    rewrite lookup_fmap, Hv, !lookup_insert_eq. simpl.
    repeat split; try done. intros d Hd. by rewrite lookup_insert_ne.
Qed.

Lemma create_repo_makes_empty_repository_witness :
  GraphDatabaseImplementation.get_commits "fresh"
    (GraphDatabaseImplementation.create_repo "fresh" Scenario.graph_ab).1
  = (Commits [], 200)
  ∧ SQLiteFileSystemImplementation.get_commits "fresh"
      (SQLiteFileSystemImplementation.create_repo "fresh" Scenario.sqlite_ab).1
    = (Commits [], 200).
Proof.
  split.
  - refine (proj1 (proj2 (proj1 create_repo_makes_empty_repository
                            Scenario.graph_ab "fresh" "A" _ _)));
      [reflexivity | vm_compute; reflexivity].
  - refine (proj1 (proj2 (proj2 create_repo_makes_empty_repository
                            Scenario.sqlite_ab "fresh" "A" _ _)));
      [reflexivity | vm_compute; reflexivity].
Defined.

(** X6. In both backends, deleting a repository that exists, under a name
    that is accepted, answers 200 and removes the whole directory:
    afterwards its commits, any commit of it and the repository itself are
    answered 404, it is no longer listed, a second delete is answered 404,
    and no other directory has changed.  Deleting a repository right after
    creating it under a free name gives back the store as it was. *)
Theorem delete_repo_removes_repository :
  (∀ outer (fs : GraphDatabaseImplementation.store) name commit_id,
      validate_repo_name name = true →
      GraphDatabaseImplementation.dir_exists fs name = true →
      let fs' := (GraphDatabaseImplementation.delete_repo outer name fs).1 in
      (GraphDatabaseImplementation.delete_repo outer name fs).2
      = (Message ("Repository '" +:+ name +:+ "' deleted successfully"), 200)
      ∧ GraphDatabaseImplementation.get_commits name fs'
        = (Error ("Repository '" +:+ name +:+ "' not found"), 404)
      ∧ GraphDatabaseImplementation.check_commit name commit_id fs'
        = (Exists false, 404)
      ∧ GraphDatabaseImplementation.list_repos fs' !! get_repo_path name = None
      ∧ (∀ d, d ≠ get_repo_path name → fs' !! d = fs !! d)
      ∧ GraphDatabaseImplementation.delete_repo outer name fs'
        = (fs', (Error ("Repository '" +:+ name +:+ "' not found"), 404)))
  ∧ (∀ outer (fs : SQLiteFileSystemImplementation.store) name commit_id,
      validate_repo_name name = true →
      SQLiteFileSystemImplementation.dir_exists fs name = true →
      let fs' := (SQLiteFileSystemImplementation.delete_repo outer name fs).1 in
      (SQLiteFileSystemImplementation.delete_repo outer name fs).2
      = (Message ("Repository '" +:+ name +:+ "' deleted successfully"), 200)
      ∧ SQLiteFileSystemImplementation.get_commits name fs'
        = (Error ("Repository '" +:+ name +:+ "' not found"), 404)
      ∧ SQLiteFileSystemImplementation.check_commit name commit_id fs'
        = (Exists false, 404)
      ∧ SQLiteFileSystemImplementation.list_repos fs' !! get_repo_path name = None
      ∧ (∀ d, d ≠ get_repo_path name → fs' !! d = fs !! d)
      ∧ SQLiteFileSystemImplementation.delete_repo outer name fs'
        = (fs', (Error ("Repository '" +:+ name +:+ "' not found"), 404)))
  ∧ (∀ outer (fs : GraphDatabaseImplementation.store) name,
      validate_repo_name name = true →
      fs !! get_repo_path name = None →
      (GraphDatabaseImplementation.delete_repo outer name
         (GraphDatabaseImplementation.create_repo name fs).1).1 = fs)
  ∧ (∀ outer (fs : SQLiteFileSystemImplementation.store) name,
      validate_repo_name name = true →
      fs !! get_repo_path name = None →
      (SQLiteFileSystemImplementation.delete_repo outer name
         (SQLiteFileSystemImplementation.create_repo name fs).1).1 = fs).
Proof.
  split; [|split; [|split]].
  - intros outer fs name commit_id Hv Hex.
    unfold GraphDatabaseImplementation.delete_repo.
    rewrite (PathFacts.valid_names_repository _ Hv), Hex. cbv zeta. simpl.
    unfold GraphDatabaseImplementation.get_commits,
      GraphDatabaseImplementation.check_commit,
      GraphDatabaseImplementation.list_repos,
      GraphDatabaseImplementation.dir_exists,
      GraphDatabaseImplementation.not_found.
    rewrite lookup_omap, !lookup_delete_eq. simpl.
    repeat split; try done. intros d Hd. by rewrite lookup_delete_ne.
  - intros outer fs name commit_id Hv Hex.
    unfold SQLiteFileSystemImplementation.delete_repo.
    rewrite (PathFacts.valid_names_repository _ Hv), Hex. cbv zeta. simpl.
    unfold SQLiteFileSystemImplementation.get_commits,
      SQLiteFileSystemImplementation.check_commit,
      SQLiteFileSystemImplementation.list_repos,
      SQLiteFileSystemImplementation.dir_exists,
      SQLiteFileSystemImplementation.not_found.
    rewrite lookup_fmap, !lookup_delete_eq. simpl.
    repeat split; try done. intros d Hd. by rewrite lookup_delete_ne.
  - intros outer fs name Hv Hfs.
    rewrite (LifecycleFacts.graph_create_fresh _ _ Hv Hfs).
    simpl. unfold GraphDatabaseImplementation.delete_repo,
      GraphDatabaseImplementation.dir_exists.
    rewrite (PathFacts.valid_names_repository _ Hv), lookup_insert_eq. simpl.
    by apply delete_insert_id.
  - intros outer fs name Hv Hfs.
    rewrite (LifecycleFacts.sqlite_create_fresh _ _ Hv Hfs).
    simpl. unfold SQLiteFileSystemImplementation.delete_repo,
      SQLiteFileSystemImplementation.dir_exists.
    rewrite (PathFacts.valid_names_repository _ Hv), lookup_insert_eq. simpl.
    by apply delete_insert_id.
Qed.

Lemma delete_repo_removes_repository_witness :
  GraphDatabaseImplementation.get_commits "repo"
    (GraphDatabaseImplementation.delete_repo true "repo" Scenario.graph_ab).1
  = (Error "Repository 'repo' not found", 404)
  ∧ SQLiteFileSystemImplementation.get_commits "repo"
      (SQLiteFileSystemImplementation.delete_repo true "repo" Scenario.sqlite_ab).1
    = (Error "Repository 'repo' not found", 404).
Proof.
  split.
  - refine (proj1 (proj2 (proj1 delete_repo_removes_repository true
                            Scenario.graph_ab "repo" "A" _ _))).
    all: vm_compute; reflexivity.
  - refine (proj1 (proj2 (proj1 (proj2 delete_repo_removes_repository) true
                            Scenario.sqlite_ab "repo" "A" _ _))).
    all: vm_compute; reflexivity.
Defined.

(** ** A push appends *)

Module AppendFacts.

Lemma stored_subseteq files : ∀ objs, objs ⊆ stored files objs.
Proof.
  induction files as [|[file_path f] rest IH]; intros objs; simpl; [done|].
  destruct (objs !! calculate_hash (fi_content f)) eqn:E; [apply IH|].
  etrans; [|apply IH]. by apply insert_subseteq.
Qed.

Lemma graph_push_frame data fs d :
  d ≠ get_repo_path (repo_name data) →
  (GraphDatabaseImplementation.push_commit data fs).1 !! d = fs !! d.
Proof.
  intros Hd. unfold GraphDatabaseImplementation.push_commit.
  destruct (negb (validate_repo_name (repo_name data))); [done|].
  rewrite GraphFacts.answer_fst.
  destruct (push_start fs (repo_name data)) as [[g objs]|] eqn:Hstart.
  - destruct (PushFacts.push_start_store _ _ _ _ Hstart) as (fs1 & -> & E & Hframe).
    rewrite <- (Hframe d Hd).
    destruct (OD.mem (id data) (GraphDatabaseImplementation.commits g)) eqn:Hmem.
    + unfold GraphDatabaseImplementation.push_body, bind.
      by rewrite (GraphFacts.read_graph_exists _ _ _ _ E), Hmem.
    + rewrite (PushFacts.push_body_new _ _ _ _ E Hmem). cbv zeta.
      destruct (graph_changes _ _ _ _); simpl; by rewrite lookup_insert_ne.
  - destruct (PushFacts.push_start_None _ _ Hstart) as [-> Hread].
    unfold GraphDatabaseImplementation.push_body, bind. by rewrite Hread.
Qed.

Lemma sqlite_push_frame data fs d :
  d ≠ get_repo_path (repo_name data) →
  (SQLiteFileSystemImplementation.push_commit data fs).1 !! d = fs !! d.
Proof.
  intros Hd. unfold SQLiteFileSystemImplementation.push_commit.
  destruct (negb (validate_repo_name (repo_name data))); [done|].
  unfold SQLiteFileSystemImplementation.transaction.
  rewrite SQLitePushFacts.make_repo_lookup.
  destruct (SQLiteFileSystemImplementation.push_transaction _ _) as [db' [r|e]]; simpl.
  - rewrite lookup_insert_ne by done. by apply SQLitePushFacts.make_repo_other.
  - by apply SQLitePushFacts.make_repo_other.
Qed.

Lemma commits_of_push_start fs repo g objs :
  push_start fs repo = Some (g, objs) →
  commits_of fs repo = GraphDatabaseImplementation.commits g
  ∧ objects_of fs repo = objs
  ∧ graph_of fs repo = g.
Proof.
  unfold push_start, commits_of, objects_of, graph_of.
  destruct (fs !! get_repo_path repo) as [[[g0|] objs0]|]; by intros [= <- <-].
Qed.

Lemma rows_of_db_of fs repo :
  rows_of fs repo = SQLiteFileSystemImplementation.t_commits (db_of fs repo).
Proof. unfold rows_of, db_of. by destruct (fs !! get_repo_path repo). Qed.

End AppendFacts.

(** X7. A push that is answered [pushed successfully] only adds.  In the
    document backend the commits of the repository are the ones it had, in
    their order and unchanged, followed by the new one; every object file it
    had is still there with its content; and the change record of every other
    commit is as it was.  In the relational backend the rows of [commits] are
    the ones it had followed by the new one, and the files and changes of
    every other commit are as they were.  In both, no other repository has
    changed. *)
Theorem push_only_appends :
  (∀ data fs fs' msg n,
      GraphDatabaseImplementation.push_commit data fs = (fs', (Pushed msg n, 200)) →
      commits_of fs' (repo_name data)
      = commits_of fs (repo_name data)
        ++ [(id data,
             GraphDatabaseImplementation.Commit (message data) (author data)
               (timestamp data) (parent_id data) (hashes_of (files data) []))]
      ∧ objects_of fs (repo_name data) ⊆ objects_of fs' (repo_name data)
      ∧ (∀ c, c ≠ id data →
           GraphDatabaseImplementation.changes (graph_of fs' (repo_name data)) !! c
           = GraphDatabaseImplementation.changes (graph_of fs (repo_name data)) !! c)
      ∧ ∀ d, d ≠ get_repo_path (repo_name data) → fs' !! d = fs !! d)
  ∧ (∀ data fs fs' msg n,
      SQLiteFileSystemImplementation.push_commit data fs = (fs', (Pushed msg n, 200)) →
      rows_of fs' (repo_name data)
      = rows_of fs (repo_name data)
        ++ [SQLiteFileSystemImplementation.CommitRow (id data) (message data)
              (author data) (timestamp data) (parent_id data)]
      ∧ (∀ c, c ≠ id data →
           SQLiteFileSystemImplementation.select_files c (db_of fs' (repo_name data))
           = SQLiteFileSystemImplementation.select_files c (db_of fs (repo_name data))
           ∧ SQLiteFileSystemImplementation.select_changes c
               (db_of fs' (repo_name data))
             = SQLiteFileSystemImplementation.select_changes c
                 (db_of fs (repo_name data)))
      ∧ ∀ d, d ≠ get_repo_path (repo_name data) → fs' !! d = fs !! d).
Proof.
  split.
  - intros data fs fs' msg n Hpush.
    pose proof (AppendFacts.graph_push_frame data fs) as Hframe.
    rewrite Hpush in Hframe. simpl in Hframe.
    apply PushFacts.push_commit_pushed in Hpush
      as (g & objs & ch & Hstart & Hmem & _ & _ & Hfs').
    destruct (AppendFacts.commits_of_push_start _ _ _ _ Hstart) as (-> & -> & ->).
    unfold commits_of, objects_of, graph_of. rewrite Hfs'. cbv zeta.
    assert (OD.get (id data) (GraphDatabaseImplementation.commits g) = None) as Hget.
    { unfold OD.mem in Hmem. by destruct (OD.get _ _). }
    split; [|split; [|split]].
    + destruct (GraphDatabaseImplementation.advances _ _); simpl;
        by apply ODFacts.set_fresh.
    + simpl. apply AppendFacts.stored_subseteq.
    + intros c Hc.
      destruct (GraphDatabaseImplementation.advances _ _); simpl;
        by rewrite lookup_insert_ne.
    + exact Hframe.
  - intros data fs fs' msg n Hpush.
    pose proof (AppendFacts.sqlite_push_frame data fs) as Hframe.
    rewrite Hpush in Hframe. simpl in Hframe.
    apply SQLitePushFacts.sqlite_push_commit_pushed in Hpush
      as (_ & _ & fls & ch & chs & Hfls & _ & Hchs & _ & Hfs').
    rewrite !AppendFacts.rows_of_db_of.
    assert (db_of fs' (repo_name data)
            = SQLiteFileSystemImplementation.Database
                (SQLiteFileSystemImplementation.t_commits (db_of fs (repo_name data))
                 ++ [SQLiteFileSystemImplementation.CommitRow (id data) (message data)
                       (author data) (timestamp data) (parent_id data)]) fls chs)
      as -> by (unfold db_of at 1; by rewrite Hfs').
    split; [done|]. split; [|exact Hframe].
    intros c Hc.
    unfold SQLiteFileSystemImplementation.select_files,
      SQLiteFileSystemImplementation.select_changes. simpl.
    by rewrite (ChangeFacts.insert_all_other _ _ _ _ _ Hfls Hc),
      (ChangeFacts.insert_all_other _ _ _ _ _ Hchs Hc).
Qed.

Lemma push_only_appends_witness :
  commits_of Scenario.graph_ab "repo"
  = commits_of Scenario.graph_a "repo"
    ++ [("B", GraphDatabaseImplementation.Commit "second" "alice" "2024-01-02T10:00:00"
                (Some "A") (hashes_of Scenario.files_v2 []))]
  ∧ rows_of Scenario.sqlite_ab "repo"
    = rows_of Scenario.sqlite_a "repo"
      ++ [SQLiteFileSystemImplementation.CommitRow "B" "second" "alice"
            "2024-01-02T10:00:00" (Some "A")].
Proof.
  assert (GraphDatabaseImplementation.push_commit Scenario.commit_b Scenario.graph_a
          = (Scenario.graph_ab, (Pushed "Commit 'B' pushed successfully" 1, 200)))
    as Hg by (vm_compute; reflexivity).
  assert (SQLiteFileSystemImplementation.push_commit Scenario.commit_b Scenario.sqlite_a
          = (Scenario.sqlite_ab, (Pushed "Commit 'B' pushed successfully" 1, 200)))
    as Hs by (vm_compute; reflexivity).
  split.
  - exact (proj1 (proj1 push_only_appends _ _ _ _ _ Hg)).
  - exact (proj1 (proj2 push_only_appends _ _ _ _ _ Hs)).
Defined.

(** ** The order of [get_commits] *)

Module ListingFacts.

Section Desc.

Context {A : Type} (key : A → string).

Lemma insert_desc_perm x l : insert_desc key x l ≡ₚ x :: l.
Proof.
  induction l as [|y l IH]; simpl; [done|].
  destruct (PyStr.ltb (key x) (key y)); [|done].
  rewrite IH. apply Permutation_swap.
Qed.

Lemma sort_desc_perm l : sort_desc key l ≡ₚ l.
Proof.
  induction l as [|x l IH]; simpl; [done|]. by rewrite insert_desc_perm, IH.
Qed.

End Desc.

(** Sortedness goes through a map that keeps the key. *)
Lemma sorted_map {A B} (f : A → B) (ka : A → string) (kb : B → string) l :
  (∀ a, kb (f a) = ka a) →
  StronglySorted (λ a b, PyStr.ltb (ka a) (ka b) = false) l →
  StronglySorted (λ a b, PyStr.ltb (kb a) (kb b) = false) (map f l).
Proof.
  intros Hk. induction 1 as [|x l Hl IH Hx]; simpl; constructor; [done|].
  apply Forall_map. eapply Forall_impl; [exact Hx|].
  intros y Hy. simpl. by rewrite !Hk.
Qed.

End ListingFacts.

(** X8. In both backends [get_commits] of a repository that exists answers
    200 with one entry for every commit of the repository, no more, and the
    entries are ordered by timestamp, latest first: no entry has a timestamp
    smaller than the timestamp of an entry that follows it. *)
Theorem get_commits_lists_latest_first :
  (∀ (fs : GraphDatabaseImplementation.store) name g objs,
      fs !! get_repo_path name
        = Some (GraphDatabaseImplementation.RepoDir (Some g) objs) →
      ∃ l,
        GraphDatabaseImplementation.get_commits name fs = (Commits l, 200)
        ∧ l ≡ₚ map (GraphDatabaseImplementation.summary g)
                 (GraphDatabaseImplementation.commits g)
        ∧ StronglySorted
            (λ a b, PyStr.ltb (cs_timestamp a) (cs_timestamp b) = false) l)
  ∧ (∀ (fs : SQLiteFileSystemImplementation.store) name db,
      fs !! get_repo_path name = Some db →
      ∃ l,
        SQLiteFileSystemImplementation.get_commits name fs = (Commits l, 200)
        ∧ l ≡ₚ map (SQLiteFileSystemImplementation.summary db)
                 (SQLiteFileSystemImplementation.t_commits db)
        ∧ StronglySorted
            (λ a b, PyStr.ltb (cs_timestamp a) (cs_timestamp b) = false) l).
Proof.
  split.
  - intros fs name g objs Hfs. eexists.
    unfold GraphDatabaseImplementation.get_commits. rewrite Hfs.
    split; [reflexivity|]. split.
    + apply ListingFacts.sort_desc_perm.
    + apply OrderFacts.sort_desc_sorted.
  - intros fs name db Hfs. eexists.
    unfold SQLiteFileSystemImplementation.get_commits. rewrite Hfs.
    split; [reflexivity|]. split.
    + by rewrite ListingFacts.sort_desc_perm.
    + apply (ListingFacts.sorted_map _ SQLiteFileSystemImplementation.r_timestamp);
        [done|]. apply OrderFacts.sort_desc_sorted.
Qed.

Lemma get_commits_lists_latest_first_witness :
  (∃ l,
      GraphDatabaseImplementation.get_commits "repo" Scenario.graph_ab = (Commits l, 200)
      ∧ l ≡ₚ map (GraphDatabaseImplementation.summary (graph_of Scenario.graph_ab "repo"))
               (GraphDatabaseImplementation.commits (graph_of Scenario.graph_ab "repo"))
      ∧ StronglySorted
          (λ a b, PyStr.ltb (cs_timestamp a) (cs_timestamp b) = false) l)
  ∧ (∃ l,
      SQLiteFileSystemImplementation.get_commits "repo" Scenario.sqlite_ab
      = (Commits l, 200)
      ∧ l ≡ₚ map (SQLiteFileSystemImplementation.summary (db_of Scenario.sqlite_ab "repo"))
               (SQLiteFileSystemImplementation.t_commits (db_of Scenario.sqlite_ab "repo"))
      ∧ StronglySorted
          (λ a b, PyStr.ltb (cs_timestamp a) (cs_timestamp b) = false) l).
Proof.
  split.
  - apply (proj1 get_commits_lists_latest_first Scenario.graph_ab "repo" _
             (objects_of Scenario.graph_ab "repo")).
    vm_compute. reflexivity.
  - apply (proj2 get_commits_lists_latest_first Scenario.sqlite_ab "repo").
    vm_compute. reflexivity.
Defined.

(** ** Invariants of the graph under push and pull *)

Module GraphInvariants.

Import GraphDatabaseImplementation.

(** One round of the second loop of [pull_commits]. *)
Lemma pull_loop_cons source target g commit_id rest st :
  pull_loop source target g (commit_id :: rest) st
  = if bool_decide (commit_id ∈ st_ids st) then
      pull_loop source target g rest
        (PullState (st_graph st) (st_ids st) (st_pulled st) (st_skipped st + 1))
    else
      match OD.get commit_id (commits g) with
      | None => raise (KeyError commit_id)
      | Some commit_data =>
          if parent_missing (c_parent_id commit_data) (st_ids st)
          then pull_loop source target g rest st
          else
            files_dict <- copy_files source target (c_files commit_data) [] ;;
            pull_loop source target g rest
              (PullState (pulled_graph g (st_graph st) commit_id commit_data files_dict)
                 ({[commit_id]} ∪ st_ids st) (st_pulled st + 1) (st_skipped st))
      end.
Proof.
  simpl. case_bool_decide; [done|].
  destruct (OD.get commit_id (commits g)) as [commit_data|]; [|done].
  destruct (parent_missing _ _); [done|].
  unfold pulled_graph. by destruct (HEAD (st_graph st)).
Qed.

(** A property of the state of the loop that every round keeps holds when
    the loop returns. *)
Lemma pull_loop_invariant (P : pull_state → Prop) source target g :
  (∀ st, P st →
     P (PullState (st_graph st) (st_ids st) (st_pulled st) (st_skipped st + 1))) →
  (∀ st commit_id commit_data files_dict,
     P st → commit_id ∉ st_ids st →
     OD.get commit_id (commits g) = Some commit_data →
     parent_missing (c_parent_id commit_data) (st_ids st) = false →
     P (PullState (pulled_graph g (st_graph st) commit_id commit_data files_dict)
          ({[commit_id]} ∪ st_ids st) (st_pulled st + 1) (st_skipped st))) →
  ∀ order st fs fs' st',
    P st → pull_loop source target g order st fs = (fs', Return st') → P st'.
Proof.
  intros Hskip Hstep.
  induction order as [|commit_id rest IH]; intros st fs fs' st' HP Hloop.
  - by injection Hloop as <- <-.
  - rewrite pull_loop_cons in Hloop. case_bool_decide as Hin.
    { eapply IH; [|exact Hloop]. by apply Hskip. }
    destruct (OD.get commit_id (commits g)) as [commit_data|] eqn:Hget; [|done].
    destruct (parent_missing _ _) eqn:Hpm.
    { by eapply IH. }
    unfold bind in Hloop.
    destruct (copy_files _ _ _ _ fs) as [fs1 [files_dict|e]]; [|done].
    eapply IH; [|exact Hloop]. by apply Hstep.
Qed.

Lemma head_consistent_empty : head_consistent empty_graph.
Proof. split; [done|]. by intros h. Qed.

Lemma mem_set_other {V} k k' (v : V) d :
  OD.mem k' d = true → OD.mem k' (OD.set k v d) = true.
Proof.
  unfold OD.mem. destruct (decide (k = k')) as [->|Hne].
  - by rewrite ODFacts.get_set_eq.
  - by rewrite ODFacts.get_set_ne.
Qed.

Lemma head_consistent_pulled g tg commit_id commit_data files_dict :
  head_consistent tg →
  head_consistent (pulled_graph g tg commit_id commit_data files_dict).
Proof.
  intros [Hmain Hhead]. unfold pulled_graph.
  destruct (HEAD tg) as [h|] eqn:Eh; split; simpl.
  - by rewrite Hmain.
  - intros h' [= <-]. by apply mem_set_other, Hhead.
  - by rewrite lookup_insert_eq.
  - intros h' [= <-]. unfold OD.mem. by rewrite ODFacts.get_set_eq.
Qed.

(** The graph of the target after a pull: the one it had, or the one the
    loop returned. *)
Lemma pull_commits_graph limit data fs :
  graph_of (pull_commits limit data fs).1 (target_repo data)
  = graph_of fs (target_repo data)
  ∨ ∃ sg order st fs1 fs2,
      graph_of fs1 (target_repo data) = graph_of fs (target_repo data)
      ∧ graph_of fs1 (source_repo data) = sg
      ∧ graph_exists fs1 (source_repo data) = true
      ∧ commit_order limit (commits sg) = Some order
      ∧ pull_loop (source_repo data) (target_repo data) sg order
          (PullState (graph_of fs (target_repo data))
             (list_to_set (OD.keys (commits (graph_of fs (target_repo data))))) 0 0) fs1
        = (fs2, Return st)
      ∧ graph_of (pull_commits limit data fs).1 (target_repo data) = st_graph st
      ∧ (pull_commits limit data fs).2
        = (Pulled (pulled_message (source_repo data) (target_repo data) (st_pulled st))
             (st_pulled st) (st_skipped st), 200).
Proof.
  unfold pull_commits.
  destruct (negb (validate_repo_name (source_repo data))
            || negb (validate_repo_name (target_repo data))); [by left|].
  destruct (graph_exists fs (source_repo data)) eqn:Hsrc; [|by left]. simpl.
  set (fs1 := if graph_exists fs (target_repo data) then fs
              else (create_repo (target_repo data) fs).1).
  assert (graph_of fs1 (target_repo data) = graph_of fs (target_repo data)) as H1.
  { unfold fs1. destruct (graph_exists fs (target_repo data)) eqn:Ht; [done|].
    pose proof (GuardFacts.create_repo_commits _ _ Ht) as Hc.
    unfold graph_of, graph_exists in *.
    destruct (fs !! get_repo_path (target_repo data)) as [[[g|] objs]|] eqn:E;
      try done.
    - unfold create_repo. destruct (negb (validate_repo_name _)); simpl;
        [by rewrite E|].
      unfold dir_exists. rewrite E. simpl. by rewrite E.
    - unfold create_repo. destruct (negb (validate_repo_name _)); simpl;
        [by rewrite E|].
      unfold dir_exists. rewrite E.
      unfold make_repo, get_objects_dir, makedirs, init_repo_graph, graph_exists,
        write_graph, ret, bind.
      rewrite E. simpl. repeat (rewrite ?lookup_insert_eq; simpl). done. }
  assert (graph_exists fs1 (source_repo data) = true) as Hsrc1.
  { unfold fs1. destruct (graph_exists fs (target_repo data)) eqn:Ht; [done|].
    apply GraphFacts.graph_exists_inv in Hsrc as (g & objs & Hs).
    destruct (decide (get_repo_path (source_repo data)
                      = get_repo_path (target_repo data))) as [Heq|Hne].
    { unfold graph_exists in Ht. by rewrite <- Heq, Hs in Ht. }
    destruct (GraphFacts.confined_create_repo (get_repo_path (source_repo data))
                (target_repo data) fs ltac:(eauto)) as [_ Hfr].
    unfold graph_exists. by rewrite Hfr, Hs. }
  clearbody fs1. clear Hsrc.
  unfold answer, pull_body, bind.
  apply GraphFacts.graph_exists_inv in Hsrc1 as (sg & sobjs & Hs).
  rewrite (GraphFacts.read_graph_exists _ _ _ _ Hs).
  unfold read_graph.
  destruct (fs1 !! get_repo_path (target_repo data)) as [[[tg|] tobjs]|] eqn:Ht;
    try (left; simpl; unfold graph_of in *; by rewrite Ht in *).
  assert (graph_of fs (target_repo data) = tg) as Htg
    by (rewrite <- H1; unfold graph_of; by rewrite Ht).
  destruct (commit_order limit (commits sg)) as [order|] eqn:Horder.
  2:{ left. simpl. rewrite <- H1. done. }
  destruct (pull_loop _ _ _ _ _ fs1) as [fs2 [st|e]] eqn:Hloop.
  2:{ left. simpl. rewrite <- H1.
      pose proof (GuardFacts.keeps_graphs_pull_loop (source_repo data)
                    (target_repo data) sg order
                    (PullState tg (list_to_set (OD.keys (commits tg))) 0 0) fs1
                    (get_repo_path (target_repo data))) as Hk.
      rewrite Hloop, Ht in Hk. simpl in Hk. unfold graph_of. rewrite Ht.
      destruct (fs2 !! get_repo_path (target_repo data)) as [[[g2|] o2]|];
        by simplify_eq/=. }
  pose proof (GuardFacts.keeps_graphs_pull_loop (source_repo data)
                (target_repo data) sg order
                (PullState tg (list_to_set (OD.keys (commits tg))) 0 0) fs1
                (get_repo_path (target_repo data))) as Hk.
  rewrite Hloop, Ht in Hk. simpl in Hk.
  unfold write_graph.
  destruct (fs2 !! get_repo_path (target_repo data)) as [dir|] eqn:E2; [|done].
  right. exists sg, order, st, fs1, fs2. rewrite Htg. simpl.
  split; [congruence|]. split; [unfold graph_of; by rewrite Hs|].
  split; [unfold graph_exists; by rewrite Hs|].
  split; [done|]. split; [done|]. split; [|done].
  unfold graph_of. by rewrite lookup_insert_eq.
Qed.

(** The graph of the repository after a push: the one it had, or the one
    with the commit added. *)
Lemma push_commit_graph data fs :
  graph_of (push_commit data fs).1 (repo_name data) = graph_of fs (repo_name data)
  ∨ ∃ msg n, push_commit data fs = ((push_commit data fs).1, (Pushed msg n, 200)).
Proof.
  unfold push_commit.
  destruct (negb (validate_repo_name (repo_name data))); [by left|].
  destruct (push_start fs (repo_name data)) as [[g objs]|] eqn:Hstart.
  - destruct (PushFacts.push_start_store _ _ _ _ Hstart) as (fs1 & -> & E & _).
    rewrite (graph_of_push_start _ _ _ _ Hstart).
    destruct (OD.mem (id data) (commits g)) eqn:Hmem.
    + left. rewrite GraphFacts.answer_fst. unfold push_body, bind.
      rewrite (GraphFacts.read_graph_exists _ _ _ _ E), Hmem. simpl.
      unfold graph_of. by rewrite E.
    + unfold answer. rewrite (PushFacts.push_body_new _ _ _ _ E Hmem). cbv zeta.
      destruct (graph_changes _ _ _ _) as [ch|e]; simpl.
      * right. eauto.
      * left. unfold graph_of. by rewrite lookup_insert_eq.
  - destruct (PushFacts.push_start_None _ _ Hstart) as [-> Hread].
    left. rewrite GraphFacts.answer_fst. unfold push_body, bind. by rewrite Hread.
Qed.

End GraphInvariants.

(** X9. In the document backend a push and a pull keep HEAD consistent: if
    HEAD and the branch [main] of the repository name the same commit and the
    graph holds that commit, the same is true after a push to the repository
    and after a pull into it, whatever the push or the pull answers. *)
Theorem head_stays_consistent :
  (∀ data fs,
      head_consistent (graph_of fs (repo_name data)) →
      head_consistent
        (graph_of (GraphDatabaseImplementation.push_commit data fs).1 (repo_name data)))
  ∧ (∀ limit data fs,
      head_consistent (graph_of fs (target_repo data)) →
      head_consistent
        (graph_of (GraphDatabaseImplementation.pull_commits limit data fs).1
           (target_repo data))).
Proof.
  split.
  - intros data fs Hc.
    destruct (GraphInvariants.push_commit_graph data fs) as [->|(msg & n & Hpush)];
      [done|].
    apply PushFacts.push_commit_pushed in Hpush
      as (g & objs & ch & Hstart & Hmem & _ & _ & Hfs').
    rewrite (graph_of_push_start _ _ _ _ Hstart) in Hc. destruct Hc as [Hmain Hhead].
    unfold graph_of. rewrite Hfs'. cbv zeta.
    destruct (GraphDatabaseImplementation.advances _ _); split; simpl.
    + by rewrite lookup_insert_eq.
    + intros h [= <-]. unfold OD.mem. by rewrite ODFacts.get_set_eq.
    + done.
    + intros h Hh. by apply GraphInvariants.mem_set_other, Hhead.
  - intros limit data fs Hc.
    destruct (GraphInvariants.pull_commits_graph limit data fs)
      as [->|(sg & order & st & fs1 & fs2 & _ & _ & _ & _ & Hloop & -> & _)]; [done|].
    refine (GraphInvariants.pull_loop_invariant
              (λ st, head_consistent (GraphDatabaseImplementation.st_graph st))
              _ _ _ _ _ _ _ _ _ _ _ Hloop); [done | | done].
    intros st0 commit_id commit_data files_dict H0 _ _ _. simpl.
    by apply GraphInvariants.head_consistent_pulled.
Qed.

Lemma head_stays_consistent_witness :
  head_consistent (graph_of Scenario.graph_a "repo")
  ∧ head_consistent
      (graph_of
         (GraphDatabaseImplementation.pull_commits Scenario.depth
            (SyncData "repo" "mirror")
            Scenario.graph_ab).1 "mirror").
Proof.
  split.
  - apply (proj1 head_stays_consistent Scenario.commit_a ∅).
    apply GraphInvariants.head_consistent_empty.
  - apply (proj2 head_stays_consistent Scenario.depth (SyncData "repo" "mirror")
             Scenario.graph_ab).
    replace (graph_of Scenario.graph_ab (target_repo (SyncData "repo" "mirror")))
      with GraphDatabaseImplementation.empty_graph by (vm_compute; reflexivity).
    apply GraphInvariants.head_consistent_empty.
Defined.

(** ** The object store stays content-addressed *)

Module ObjectInvariants.

Import GraphDatabaseImplementation.

Lemma preserves_ret {A} P (a : A) : preserves P (ret a).
Proof. by intros fs. Qed.

Lemma preserves_raise {A} P e : preserves P (raise (A := A) e).
Proof. by intros fs. Qed.

Lemma preserves_bind {A B} P (m : io A) (k : A → io B) :
  preserves P m → (∀ a, preserves P (k a)) → preserves P (bind m k).
Proof.
  intros Hm Hk fs H. unfold bind. specialize (Hm fs H).
  destruct (m fs) as [fs' [a|e]]; simpl in *; [|done]. by apply Hk.
Qed.

Lemma preserves_answer P (m : io response) context fs :
  preserves P m → P fs → P (answer m context fs).1.
Proof. intros Hm H. rewrite GraphFacts.answer_fst. by apply Hm. Qed.

Section Target.

Variable t : string.

Lemma addressed_same fs fs' :
  objects_of fs' t = objects_of fs t → addressed t fs → addressed t fs'.
Proof. unfold addressed. by intros ->. Qed.

Lemma objects_of_makedirs fs repo :
  objects_of (makedirs (get_repo_path repo) fs).1 t = objects_of fs t.
Proof.
  unfold makedirs, objects_of.
  destruct (fs !! get_repo_path repo) eqn:E; simpl; [done|].
  rewrite lookup_insert. case_decide as Hd; [|done]. by rewrite <- Hd, E.
Qed.

Lemma addressed_makedirs repo : preserves (addressed t) (makedirs (get_repo_path repo)).
Proof. intros fs. apply addressed_same, objects_of_makedirs. Qed.

Lemma addressed_get_objects_dir repo : preserves (addressed t) (get_objects_dir repo).
Proof.
  apply preserves_bind; [apply addressed_makedirs | intros; apply preserves_ret].
Qed.

Lemma addressed_write_graph repo g : preserves (addressed t) (write_graph repo g).
Proof.
  intros fs. apply addressed_same. unfold write_graph, objects_of.
  destruct (fs !! get_repo_path repo) as [dir|] eqn:E; simpl; [|done].
  rewrite lookup_insert. case_decide as Hd; [|done]. by rewrite <- Hd, E.
Qed.

Lemma addressed_read_graph repo : preserves (addressed t) (read_graph repo).
Proof.
  intros fs. unfold read_graph.
  by destruct (fs !! get_repo_path repo) as [[[g|] objs]|].
Qed.

Lemma addressed_init_repo_graph repo : preserves (addressed t) (init_repo_graph repo).
Proof.
  intros fs. unfold init_repo_graph. destruct (graph_exists fs repo); [done|].
  apply addressed_write_graph.
Qed.

Lemma addressed_make_repo repo : preserves (addressed t) (make_repo repo).
Proof.
  unfold make_repo. apply preserves_bind; [apply addressed_makedirs|]. intros _.
  apply preserves_bind; [apply addressed_get_objects_dir|]. intros _.
  apply addressed_init_repo_graph.
Qed.

Lemma addressed_create_repo repo : preserves (addressed t) (create_repo repo).
Proof.
  unfold create_repo. destruct (negb (validate_repo_name repo)); [apply preserves_ret|].
  intros fs H. destruct (dir_exists fs repo); [done|]. revert fs H.
  apply preserves_bind; [apply addressed_make_repo | intros; apply preserves_ret].
Qed.

Lemma addressed_store_object repo text : preserves (addressed t) (store_object repo text).
Proof.
  intros fs H. unfold addressed in *.
  destruct (decide (get_repo_path repo = get_repo_path t)) as [Heq|Hne].
  - assert (∀ fs0, objects_of fs0 t = objects_of fs0 repo) as Hsame
      by (intros fs0; unfold objects_of; by rewrite Heq).
    rewrite Hsame in *. rewrite ObjectStore.store_object_objects.
    destruct (objects_of fs repo !! calculate_hash text) eqn:E; [done|].
    intros h c. rewrite lookup_insert.
    case_decide; [intros; simplify_eq; done | by apply H].
  - unfold objects_of in *. rewrite ObjectStore.store_object_other; [done|].
    intros Ht. apply Hne. by rewrite Ht.
Qed.

Lemma addressed_get_object_content repo h :
  preserves (addressed t) (get_object_content repo h).
Proof.
  unfold get_object_content.
  apply preserves_bind; [apply addressed_get_objects_dir|]. intros d fs.
  by destruct (fs !! d).
Qed.

Lemma addressed_copy_files source target files acc :
  preserves (addressed t) (copy_files source target files acc).
Proof.
  revert acc. induction files as [|[file_path file_hash] rest IH]; intros acc; simpl.
  - apply preserves_ret.
  - apply preserves_bind; [apply addressed_get_object_content|]. intros [text|].
    + apply preserves_bind; [apply addressed_store_object | intros; apply IH].
    + apply preserves_raise.
Qed.

Lemma addressed_pull_loop source target g order st :
  preserves (addressed t) (pull_loop source target g order st).
Proof.
  revert st. induction order as [|commit_id rest IH]; intros st; simpl.
  - apply preserves_ret.
  - case_bool_decide; [apply IH|].
    destruct (OD.get commit_id (commits g)) as [commit_data|];
      [|apply preserves_raise].
    destruct (parent_missing _ _); [apply IH|].
    apply preserves_bind; [apply addressed_copy_files | intros; apply IH].
Qed.

Lemma addressed_pull_body limit source target :
  preserves (addressed t) (pull_body limit source target).
Proof.
  unfold pull_body.
  apply preserves_bind; [apply addressed_read_graph|]. intros sg.
  apply preserves_bind; [apply addressed_read_graph|]. intros tg.
  destruct (commit_order _); [|apply preserves_raise].
  apply preserves_bind; [apply addressed_pull_loop|]. intros st.
  apply preserves_bind; [apply addressed_write_graph | intros; apply preserves_ret].
Qed.

Lemma addressed_load_files repo files acc :
  preserves (addressed t) (load_files repo files acc).
Proof.
  revert acc. induction files as [|[file_path file_hash] rest IH]; intros acc; simpl.
  - apply preserves_ret.
  - apply preserves_bind; [apply addressed_get_object_content | intros; apply IH].
Qed.

Lemma addressed_store_files repo files acc :
  preserves (addressed t) (store_files repo files acc).
Proof.
  revert acc. induction files as [|[file_path f] rest IH]; intros acc; simpl.
  - apply preserves_ret.
  - apply preserves_bind; [apply addressed_store_object | intros; apply IH].
Qed.

Lemma addressed_calculate_changes repo parent_id files :
  preserves (addressed t) (calculate_changes repo parent_id files).
Proof.
  unfold calculate_changes.
  apply preserves_bind; [apply addressed_read_graph|]. intros g.
  destruct parent_id as [[|a s]|]; try apply preserves_ret.
  apply preserves_bind.
  { unfold load_parent_files. destruct (OD.get _ _);
      [apply addressed_load_files | apply preserves_ret]. }
  intros pf. apply preserves_bind; [apply addressed_load_files|].
  intros cf fs. done.
Qed.

Lemma addressed_push_body data : preserves (addressed t) (push_body data).
Proof.
  unfold push_body.
  apply preserves_bind; [apply addressed_read_graph|]. intros g.
  destruct (OD.mem _ _); [apply preserves_ret|].
  apply preserves_bind; [apply addressed_store_files|]. intros hs.
  apply preserves_bind; [apply addressed_calculate_changes|]. intros ch.
  apply preserves_bind; [apply addressed_write_graph | intros; apply preserves_ret].
Qed.

End Target.

End ObjectInvariants.

(** X10. In the document backend the object store of a repository stays
    content-addressed: if every object file of the repository [t] is named by
    the hash of what it holds, then so it is after any push and after any
    pull, whatever repository they write to and whatever they answer.  A
    pull stores what it copies under the hash of the text it read, not under
    the name the object had in the source. *)
Theorem objects_stay_content_addressed :
  (∀ t data fs,
      content_addressed (objects_of fs t) →
      content_addressed
        (objects_of (GraphDatabaseImplementation.push_commit data fs).1 t))
  ∧ (∀ limit t data fs,
      content_addressed (objects_of fs t) →
      content_addressed
        (objects_of (GraphDatabaseImplementation.pull_commits limit data fs).1 t)).
Proof.
  split.
  - intros t data fs H. unfold GraphDatabaseImplementation.push_commit.
    destruct (negb (validate_repo_name (repo_name data))); [done|].
    apply (ObjectInvariants.preserves_answer (addressed t));
      [apply ObjectInvariants.addressed_push_body|].
    destruct (GraphDatabaseImplementation.dir_exists fs (repo_name data)); [done|].
    by apply ObjectInvariants.addressed_make_repo.
  - intros limit t data fs H. unfold GraphDatabaseImplementation.pull_commits.
    destruct (negb (validate_repo_name (source_repo data))
              || negb (validate_repo_name (target_repo data))); [done|].
    destruct (GraphDatabaseImplementation.graph_exists fs (source_repo data));
      [|done]. simpl.
    apply (ObjectInvariants.preserves_answer (addressed t));
      [apply ObjectInvariants.addressed_pull_body|].
    destruct (GraphDatabaseImplementation.graph_exists fs (target_repo data)); [done|].
    by apply ObjectInvariants.addressed_create_repo.
Qed.

Lemma objects_stay_content_addressed_witness :
  content_addressed (objects_of Scenario.graph_a "repo")
  ∧ content_addressed
      (objects_of
         (GraphDatabaseImplementation.pull_commits Scenario.depth
            (SyncData "repo" "mirror") Scenario.graph_a).1 "mirror").
Proof.
  assert (content_addressed (objects_of (∅ : GraphDatabaseImplementation.store) "repo"))
    as H0 by (intros h c H; vm_compute in H; discriminate H).
  assert (content_addressed (objects_of Scenario.graph_a "mirror"))
    as H1 by (intros h c H; vm_compute in H; discriminate H).
  split.
  - exact (proj1 objects_stay_content_addressed "repo" Scenario.commit_a ∅ H0).
  - exact (proj2 objects_stay_content_addressed Scenario.depth "mirror"
             (SyncData "repo" "mirror") Scenario.graph_a H1).
Defined.

(** ** Invariants of the tables under push and pull *)

Module TableInvariants.

Import SQLiteFileSystemImplementation.

Lemma commit_exists_elem c db :
  commit_exists c db = true ↔ c ∈ map r_id (t_commits db).
Proof.
  unfold commit_exists. rewrite existsb_exists. split.
  - intros (r & Hr & Heq). apply String.eqb_eq in Heq as <-.
    apply list_elem_of_fmap. exists r. split; [done|]. by apply list_elem_of_In.
  - intros (r & -> & Hr)%list_elem_of_fmap. exists r.
    split; [by apply list_elem_of_In | apply String.eqb_refl].
Qed.

Lemma commit_exists_not c db :
  commit_exists c db = false ↔ c ∉ map r_id (t_commits db).
Proof.
  rewrite <- commit_exists_elem. by destruct (commit_exists c db).
Qed.

Lemma well_formed_empty : well_formed empty_db.
Proof.
  split; [constructor|]. split; [by intros r p Hr%elem_of_nil|]. by intros c _.
Qed.

(** The three inserts of one commit, when they succeed. *)
Lemma insert_commit_full r files_rows changes_rows db db' u :
  (insert_commit r ;;;
   insert_files (r_id r) files_rows ;;;
   insert_changes (r_id r) changes_rows) db = (db', Return u) →
  commit_exists (r_id r) db = false
  ∧ ∃ fls chs,
      insert_all (r_id r) files_rows (t_files db) = Return fls
      ∧ insert_all (r_id r) changes_rows (t_changes db) = Return chs
      ∧ db' = Database (t_commits db ++ [r]) fls chs.
Proof.
  unfold insert_commit, insert_files, insert_changes, bind.
  destruct (commit_exists (r_id r) db) eqn:Hex; [done|]. simpl.
  destruct (insert_all (r_id r) files_rows (t_files db)) as [t|e] eqn:Hf; [|done].
  simpl.
  destruct (insert_all (r_id r) changes_rows (t_changes db)) as [t'|e] eqn:Hc; [|done].
  intros [= <- _]. split; [done|]. by exists t, t'.
Qed.

Lemma insert_all_None {V} commit_id (rows : list (string * V)) table t c :
  insert_all commit_id rows table = Return t →
  c ≠ commit_id → table !! c = None → t !! c = None.
Proof.
  intros Hins Hc Hnone. by rewrite (ChangeFacts.insert_all_other _ _ _ _ _ Hins Hc).
Qed.

(** Adding the row of a commit that is new and whose required parent is
    there, with its files and changes, keeps the database well formed. *)
Lemma well_formed_insert db r (fls : gmap string (gmap string file_entry))
    (chs : gmap string (gmap string change)) files_rows changes_rows :
  well_formed db →
  commit_exists (r_id r) db = false →
  (∀ p, required_parent (r_parent_id r) = Some p → commit_exists p db = true) →
  insert_all (r_id r) files_rows (t_files db) = Return fls →
  insert_all (r_id r) changes_rows (t_changes db) = Return chs →
  well_formed (Database (t_commits db ++ [r]) fls chs).
Proof.
  intros (Hnd & Hpar & Hbel) Hex Hp Hfls Hchs.
  assert (∀ c, commit_exists c (Database (t_commits db ++ [r]) fls chs)
               = commit_exists c db || String.eqb (r_id r) c) as Hexs.
  { intros c. unfold commit_exists. simpl. rewrite existsb_app. simpl.
    by rewrite orb_false_r. }
  split; [|split].
  - simpl. rewrite map_app. simpl. apply NoDup_app. split; [done|].
    split; [|apply NoDup_singleton].
    intros x Hx ->%list_elem_of_singleton. by apply commit_exists_not in Hex.
  - intros r' p Hr' Hreq. rewrite Hexs. simpl in Hr'.
    apply elem_of_app in Hr' as [Hr'|Hr'].
    + by rewrite (Hpar _ _ Hr' Hreq).
    + apply list_elem_of_singleton in Hr' as ->. by rewrite (Hp _ Hreq).
  - intros c. rewrite Hexs. intros [Hc Hne]%orb_false_iff.
    apply String.eqb_neq in Hne. destruct (Hbel c Hc) as [Hf Hch]. simpl.
    split; eapply insert_all_None; eauto.
Qed.

(** The database of the repository after a push: the one it had, or the one
    with the commit added. *)
Lemma push_commit_db data fs :
  db_of (push_commit data fs).1 (repo_name data) = db_of fs (repo_name data)
  ∨ ∃ msg n, push_commit data fs = ((push_commit data fs).1, (Pushed msg n, 200)).
Proof.
  unfold push_commit.
  destruct (negb (validate_repo_name (repo_name data))); [by left|].
  unfold transaction. rewrite SQLitePushFacts.make_repo_lookup.
  assert (db_of (make_repo (repo_name data) fs) (repo_name data)
          = db_of fs (repo_name data)) as Hmk.
  { unfold db_of at 1. by rewrite SQLitePushFacts.make_repo_lookup. }
  unfold push_transaction.
  destruct (commit_exists (id data) (db_of fs (repo_name data))).
  { left. simpl. unfold db_of at 1. by rewrite lookup_insert_eq. }
  destruct (missing_parent data (db_of fs (repo_name data))).
  { left. simpl. unfold db_of at 1. by rewrite lookup_insert_eq. }
  unfold insert_commit, insert_files, insert_changes, bind. cbn [r_id].
  destruct (commit_exists (id data) (db_of fs (repo_name data))) eqn:Hex.
  { left. simpl. exact Hmk. }
  cbn [t_commits t_files t_changes].
  destruct (insert_all (id data) (map file_row (files data)) _) as [fls|e];
    [|left; simpl; exact Hmk]. simpl.
  destruct (calculate_changes data _) as [db2 [ch|e]]; [|left; simpl; exact Hmk].
  simpl.
  destruct (insert_all (id data) (map_to_list ch) _) as [chs|e];
    [|left; simpl; exact Hmk].
  simpl. right. eauto.
Qed.

Lemma push_keeps_well_formed data fs :
  well_formed (db_of fs (repo_name data)) →
  well_formed (db_of (push_commit data fs).1 (repo_name data)).
Proof.
  intros Hwf.
  destruct (push_commit_db data fs) as [->|(msg & n & Hpush)]; [done|].
  apply SQLitePushFacts.sqlite_push_commit_pushed in Hpush
    as (Hex & Hmp & fls & ch & chs & Hfls & _ & Hchs & _ & Hfs').
  unfold db_of at 1. rewrite Hfs'. simpl.
  eapply (well_formed_insert _ (CommitRow _ _ _ _ _)); eauto.
  intros p Hp. simpl in Hp. by eapply AbsentParent.missing_parent_None.
Qed.

End TableInvariants.

Module PullTables.

Import SQLiteFileSystemImplementation.

(** A property of the state of the loop of a pull that every round keeps
    holds when the loop returns. *)
Lemma sqlite_pull_loop_invariant (P : pull_state → Prop) source rows :
  (∀ st, P st →
     P (PullState (st_db st) (st_ids st) (st_pulled st) (st_skipped st + 1))) →
  (∀ st r db' u,
     P st → r ∈ rows → r_id r ∉ st_ids st →
     parent_missing (r_parent_id r) (st_ids st) = false →
     (insert_commit r ;;;
      insert_files (r_id r) (map_to_list (select_files (r_id r) source)) ;;;
      insert_changes (r_id r) (map_to_list (select_changes (r_id r) source)))
       (st_db st) = (db', Return u) →
     P (PullState db' ({[r_id r]} ∪ st_ids st) (st_pulled st + 1) (st_skipped st))) →
  ∀ st st', P st → pull_loop source rows st = Return st' → P st'.
Proof.
  intros Hskip Hstep. revert Hstep.
  induction rows as [|r rest IH]; intros Hstep st st' HP Hloop; simpl in Hloop.
  - by injection Hloop as <-.
  - assert (∀ st r0 db' u,
              P st → r0 ∈ rest → r_id r0 ∉ st_ids st →
              parent_missing (r_parent_id r0) (st_ids st) = false →
              (insert_commit r0 ;;;
               insert_files (r_id r0) (map_to_list (select_files (r_id r0) source)) ;;;
               insert_changes (r_id r0) (map_to_list (select_changes (r_id r0) source)))
                (st_db st) = (db', Return u) →
              P (PullState db' ({[r_id r0]} ∪ st_ids st) (st_pulled st + 1)
                   (st_skipped st))) as Hrest.
    { intros st0 r0 db' u H0 Hr0. apply Hstep; [done | by right]. }
    case_bool_decide as Hin.
    { eapply (IH Hrest); [|exact Hloop]. by apply Hskip. }
    destruct (parent_missing _ _) eqn:Hpm.
    { by eapply (IH Hrest). }
    destruct ((insert_commit r ;;; _) (st_db st)) as [db' [u|e]] eqn:Hins; [|done].
    eapply (IH Hrest); [|exact Hloop]. eapply Hstep; eauto. by left.
Qed.

(** The database of the target after a pull: the one it had, or the one the
    loop returned. *)
Lemma pull_commits_db fault data fs :
  db_of (pull_commits fault data fs).1 (target_repo data)
  = db_of fs (target_repo data)
  ∨ ∃ source st,
      fs !! get_repo_path (source_repo data) = Some source
      ∧ pull_loop source (visit_order source)
          (PullState (db_of fs (target_repo data))
             (list_to_set (map r_id (t_commits (db_of fs (target_repo data))))) 0 0)
        = Return st
      ∧ db_of (pull_commits fault data fs).1 (target_repo data) = st_db st
      ∧ (pull_commits fault data fs).2
        = (Pulled (pulled_message (source_repo data) (target_repo data) (st_pulled st))
             (st_pulled st) (st_skipped st), 200).
Proof.
  unfold pull_commits.
  destruct (negb (validate_repo_name (source_repo data))
            || negb (validate_repo_name (target_repo data))); [by left|].
  destruct (dir_exists fs (source_repo data)) eqn:Hsrc; [|by left]. simpl.
  unfold dir_exists in Hsrc.
  destruct (fs !! get_repo_path (source_repo data)) as [sdb|] eqn:Hs; [|done].
  set (fs1 := if dir_exists fs (target_repo data) then fs
              else (create_repo (target_repo data) fs).1).
  assert (db_of fs1 (target_repo data) = db_of fs (target_repo data)) as H1.
  { unfold fs1, dir_exists, create_repo.
    destruct (fs !! get_repo_path (target_repo data)) eqn:Et; [done|].
    destruct (negb (validate_repo_name (target_repo data))); [done|].
    unfold dir_exists. rewrite Et. simpl. unfold db_of at 1.
    rewrite SQLitePushFacts.make_repo_lookup. done. }
  assert (fs1 !! get_repo_path (source_repo data) = Some sdb) as Hs1.
  { unfold fs1, dir_exists.
    destruct (fs !! get_repo_path (target_repo data)) eqn:Et; [done|].
    rewrite SQLiteFacts.create_repo_frame; [done|]. intros Heq. congruence. }
  clearbody fs1. rewrite Hs1.
  destruct (fs1 !! get_repo_path (target_repo data)) as [target|] eqn:Ht;
    [|left; simpl; exact H1].
  assert (db_of fs (target_repo data) = target) as Htg
    by (rewrite <- H1; unfold db_of; by rewrite Ht).
  destruct fault; [left; simpl; exact H1|].
  destruct (pull_loop _ _ _) as [st|e] eqn:Hloop; [|left; simpl; exact H1].
  right. exists sdb, st. rewrite Htg. simpl.
  split; [done|]. split; [done|]. split; [|done].
  unfold db_of. by rewrite lookup_insert_eq.
Qed.

(** A pull that answers [Pulled] ran its loop to the end and committed the
    database the loop returned. *)
Lemma sqlite_pull_commits_pulled fault data fs fs' msg p s :
  pull_commits fault data fs = (fs', (Pulled msg p s, 200)) →
  ∃ source st,
    fs !! get_repo_path (source_repo data) = Some source
    ∧ pull_loop source (visit_order source)
        (PullState (db_of fs (target_repo data))
           (list_to_set (map r_id (t_commits (db_of fs (target_repo data))))) 0 0)
      = Return st
    ∧ db_of fs' (target_repo data) = st_db st
    ∧ p = st_pulled st
    ∧ s = st_skipped st.
Proof.
  unfold pull_commits.
  destruct (negb (validate_repo_name (source_repo data))
            || negb (validate_repo_name (target_repo data))); [done|].
  destruct (dir_exists fs (source_repo data)) eqn:Hsrc; [|done]. simpl.
  unfold dir_exists in Hsrc.
  destruct (fs !! get_repo_path (source_repo data)) as [sdb|] eqn:Hs; [|done].
  set (fs1 := if dir_exists fs (target_repo data) then fs
              else (create_repo (target_repo data) fs).1).
  assert (db_of fs1 (target_repo data) = db_of fs (target_repo data)) as H1.
  { unfold fs1, dir_exists, create_repo.
    destruct (fs !! get_repo_path (target_repo data)) eqn:Et; [done|].
    destruct (negb (validate_repo_name (target_repo data))); [done|].
    unfold dir_exists. rewrite Et. simpl. unfold db_of at 1.
    rewrite SQLitePushFacts.make_repo_lookup. done. }
  assert (fs1 !! get_repo_path (source_repo data) = Some sdb) as Hs1.
  { unfold fs1, dir_exists.
    destruct (fs !! get_repo_path (target_repo data)) eqn:Et; [done|].
    rewrite SQLiteFacts.create_repo_frame; [done|]. intros Heq. congruence. }
  clearbody fs1. rewrite Hs1.
  destruct (fs1 !! get_repo_path (target_repo data)) as [target|] eqn:Ht; [|done].
  assert (db_of fs (target_repo data) = target) as Htg
    by (rewrite <- H1; unfold db_of; by rewrite Ht).
  destruct fault; [done|].
  destruct (pull_loop _ _ _) as [st|e] eqn:Hloop; [|done].
  intros [= <- _ <- <-]. exists sdb, st. rewrite Htg.
  split; [done|]. split; [done|]. split; [|done].
  unfold db_of. by rewrite lookup_insert_eq.
Qed.

Lemma pull_keeps_well_formed fault data fs :
  well_formed (db_of fs (target_repo data)) →
  well_formed (db_of (pull_commits fault data fs).1 (target_repo data)).
Proof.
  intros Hwf.
  destruct (pull_commits_db fault data fs)
    as [->|(source & st & _ & Hloop & -> & _)]; [done|].
  refine (proj1 (sqlite_pull_loop_invariant
            (λ st, well_formed (st_db st)
                   ∧ st_ids st = list_to_set (map r_id (t_commits (st_db st))))
            _ _ _ _ _ _ _ Hloop)); [done | | done].
  intros st0 r db' u [Hwf0 Hids] _ Hnew Hpm Hins. simpl.
  apply TableInvariants.insert_commit_full in Hins
    as (Hex & fls & chs & Hfls & Hchs & ->).
  split.
  - eapply TableInvariants.well_formed_insert; eauto.
    intros p Hp. apply TableInvariants.commit_exists_elem.
    pose proof (SQLiteGuardFacts.sqlite_parent_present _ _ _ Hpm Hp) as Hin.
    rewrite Hids in Hin. by apply elem_of_list_to_set in Hin.
  - simpl. rewrite Hids, map_app, list_to_set_app_L. simpl. set_solver.
Qed.

End PullTables.

(** X11. The relational backend keeps its tables well formed: if the ids of
    [commits] are distinct, the required parent of every row is a row of
    the table, and [files] and [changes] hold rows of commits of the table
    only, then the same is true after a push to the repository and after a
    pull into it, whatever the push or the pull answers. *)
Theorem tables_stay_well_formed :
  (∀ data fs,
      well_formed (db_of fs (repo_name data)) →
      well_formed
        (db_of (SQLiteFileSystemImplementation.push_commit data fs).1 (repo_name data)))
  ∧ (∀ fault data fs,
      well_formed (db_of fs (target_repo data)) →
      well_formed
        (db_of (SQLiteFileSystemImplementation.pull_commits fault data fs).1
           (target_repo data))).
Proof.
  split.
  - apply TableInvariants.push_keeps_well_formed.
  - apply PullTables.pull_keeps_well_formed.
Qed.

Lemma tables_stay_well_formed_witness :
  well_formed (db_of Scenario.sqlite_a "repo")
  ∧ well_formed
      (db_of
         (SQLiteFileSystemImplementation.pull_commits false (SyncData "repo" "mirror")
            Scenario.sqlite_ab).1 "mirror").
Proof.
  split.
  - apply (proj1 tables_stay_well_formed Scenario.commit_a ∅).
    apply TableInvariants.well_formed_empty.
  - apply (proj2 tables_stay_well_formed false (SyncData "repo" "mirror")
             Scenario.sqlite_ab).
    replace (db_of Scenario.sqlite_ab (target_repo (SyncData "repo" "mirror")))
      with SQLiteFileSystemImplementation.empty_db by (vm_compute; reflexivity).
    apply TableInvariants.well_formed_empty.
Defined.

(** ** What a pull adds *)

Module PullFacts.

Import GraphDatabaseImplementation.

Lemma create_repo_other fs repo d :
  d ≠ get_repo_path repo → (create_repo repo fs).1 !! d = fs !! d.
Proof.
  intros Hd. destruct (validate_repo_name repo) eqn:Hv.
  - destruct (fs !! get_repo_path repo) as [dir|] eqn:E.
    + unfold create_repo. rewrite Hv. simpl. unfold dir_exists. by rewrite E.
    + rewrite (LifecycleFacts.graph_create_fresh _ _ Hv E). simpl.
      by rewrite lookup_insert_ne.
  - unfold create_repo. by rewrite Hv.
Qed.

(** A pull that answers [Pulled] read both graphs, ran its loop to the end
    and wrote the graph the loop returned. *)
Lemma pull_commits_pulled limit data fs fs' msg p s :
  pull_commits limit data fs = (fs', (Pulled msg p s, 200)) →
  ∃ sg sobjs tg tobjs order st fs1 fs2 dir,
    fs !! get_repo_path (source_repo data) = Some (RepoDir (Some sg) sobjs)
    ∧ fs1 !! get_repo_path (source_repo data) = Some (RepoDir (Some sg) sobjs)
    ∧ fs1 !! get_repo_path (target_repo data) = Some (RepoDir (Some tg) tobjs)
    ∧ (∀ d, d ≠ get_repo_path (target_repo data) → fs1 !! d = fs !! d)
    ∧ tg = graph_of fs (target_repo data)
    ∧ tobjs = objects_of fs (target_repo data)
    ∧ commit_order limit (commits sg) = Some order
    ∧ pull_loop (source_repo data) (target_repo data) sg order
        (PullState tg (list_to_set (OD.keys (commits tg))) 0 0) fs1
      = (fs2, Return st)
    ∧ fs2 !! get_repo_path (target_repo data) = Some dir
    ∧ fs' = <[get_repo_path (target_repo data) :=
                RepoDir (Some (st_graph st)) (objects dir)]> fs2
    ∧ p = st_pulled st
    ∧ s = st_skipped st.
Proof.
  unfold pull_commits.
  destruct (negb (validate_repo_name (source_repo data))
            || negb (validate_repo_name (target_repo data))); [done|].
  destruct (graph_exists fs (source_repo data)) eqn:Hsrc; [|done]. simpl.
  apply GraphFacts.graph_exists_inv in Hsrc as (sg & sobjs & Hs).
  set (fs1 := if graph_exists fs (target_repo data) then fs
              else (create_repo (target_repo data) fs).1).
  assert (∀ d, d ≠ get_repo_path (target_repo data) → fs1 !! d = fs !! d) as Hframe.
  { intros d Hd. unfold fs1. destruct (graph_exists fs (target_repo data)); [done|].
    by apply create_repo_other. }
  assert (graph_of fs1 (target_repo data) = graph_of fs (target_repo data)
          ∧ (graph_exists fs1 (target_repo data) = true →
             objects_of fs1 (target_repo data) = objects_of fs (target_repo data)))
    as [H1 H2].
  { unfold fs1. destruct (graph_exists fs (target_repo data)) eqn:Ht; [done|].
    unfold graph_of, graph_exists, objects_of in *.
    destruct (fs !! get_repo_path (target_repo data)) as [[[g|] objs]|] eqn:E;
      try done.
    - unfold create_repo. destruct (negb (validate_repo_name _)); simpl;
        [by rewrite E|].
      unfold dir_exists. rewrite E. simpl. by rewrite E.
    - unfold create_repo. destruct (negb (validate_repo_name _)); simpl;
        [by rewrite E|].
      unfold dir_exists. rewrite E.
      unfold make_repo, get_objects_dir, makedirs, init_repo_graph, graph_exists,
        write_graph, ret, bind.
      rewrite E. simpl. repeat (rewrite ?lookup_insert_eq; simpl). done. }
  assert (fs1 !! get_repo_path (source_repo data) = Some (RepoDir (Some sg) sobjs))
    as Hs1.
  { destruct (decide (get_repo_path (source_repo data)
                      = get_repo_path (target_repo data))) as [Heq|Hne].
    - unfold fs1. assert (graph_exists fs (target_repo data) = true) as ->; [|done].
      unfold graph_exists. by rewrite <- Heq, Hs.
    - by rewrite Hframe. }
  clearbody fs1.
  unfold answer, pull_body, bind.
  rewrite (GraphFacts.read_graph_exists _ _ _ _ Hs1).
  unfold read_graph.
  destruct (fs1 !! get_repo_path (target_repo data)) as [[[tg|] tobjs]|] eqn:Ht;
    try done.
  destruct (commit_order limit (commits sg)) as [order|] eqn:Horder; [|done].
  destruct (pull_loop _ _ _ _ _ fs1) as [fs2 [st|e]] eqn:Hloop; [|done].
  unfold write_graph.
  destruct (fs2 !! get_repo_path (target_repo data)) as [dir|] eqn:E2; [|done].
  simpl. intros [= <- _ <- <-].
  exists sg, sobjs, tg, tobjs, order, st, fs1, fs2, dir.
  repeat split; try done.
  - rewrite <- H1. unfold graph_of. by rewrite Ht.
  - rewrite <- H2; [unfold objects_of; by rewrite Ht|].
    unfold graph_exists. by rewrite Ht.
Qed.

End PullFacts.

Module PullCounts.

Lemma insert_rows_union {V} (rows : list (string * V)) : ∀ existing m,
  SQLiteFileSystemImplementation.insert_rows rows existing = Return m →
  m = list_to_map rows ∪ existing.
Proof.
  induction rows as [|[k v] rest IH]; intros existing m Hins; simpl in *.
  - injection Hins as <-. by rewrite (left_id_L ∅ (∪)).
  - destruct (existing !! k) eqn:Hk; [done|].
    destruct (ChangeFacts.insert_rows_NoDup _ _ _ Hins) as [_ Hfree].
    rewrite (IH _ _ Hins).
    assert ((list_to_map rest : gmap string V) !! k = None) as Hrest.
    { apply not_elem_of_list_to_map_1. intros Hin. specialize (Hfree _ Hin).
      by rewrite lookup_insert_eq in Hfree. }
    by rewrite <- insert_union_r, insert_union_l.
Qed.

(** Inserting the rows a [SELECT] returned for a commit into a table that
    holds none for it leaves those rows under the commit. *)
Lemma insert_all_select {V} commit_id (rows : gmap string V) table t :
  SQLiteFileSystemImplementation.insert_all commit_id (map_to_list rows) table
  = Return t →
  table !! commit_id = None →
  default ∅ (t !! commit_id) = rows.
Proof.
  unfold SQLiteFileSystemImplementation.insert_all. intros Hins Hnone.
  destruct (map_to_list rows) as [|kv l] eqn:Hl.
  - injection Hins as <-. rewrite Hnone. simpl.
    by apply map_to_list_empty_iff in Hl.
  - rewrite Hnone in Hins.
    change (default ∅ None) with (∅ : gmap string V) in Hins.
    destruct (SQLiteFileSystemImplementation.insert_rows (kv :: l) ∅)
      as [m|e] eqn:Hrows; [|done].
    injection Hins as <-. rewrite lookup_insert_eq. simpl.
    apply insert_rows_union in Hrows. rewrite (right_id_L ∅ (∪)) in Hrows.
    by rewrite Hrows, <- Hl, list_to_map_to_list.
Qed.

End PullCounts.

(** X12. A pull that is answered [Pulled] added exactly the number of
    commits it reports, each of them a commit of the source that the target
    did not hold.  In the document backend the added commit carries the
    message, author, timestamp and parent_id it has in the source, and the
    change record of the source when there is one.  In the relational
    backend the added row is the row of the source and, the target's tables
    being well formed, its files and its changes are those of the source. *)
Theorem pull_adds_what_it_reports :
  (∀ limit data fs fs' msg p s,
      GraphDatabaseImplementation.pull_commits limit data fs
      = (fs', (Pulled msg p s, 200)) →
      ∃ added,
        commits_of fs' (target_repo data) = commits_of fs (target_repo data) ++ added
        ∧ length added = p
        ∧ ∀ c cd,
            (c, cd) ∈ added →
            OD.get c (commits_of fs (target_repo data)) = None
            ∧ ∃ sc,
                OD.get c (commits_of fs (source_repo data)) = Some sc
                ∧ GraphDatabaseImplementation.c_message cd
                  = GraphDatabaseImplementation.c_message sc
                ∧ GraphDatabaseImplementation.c_author cd
                  = GraphDatabaseImplementation.c_author sc
                ∧ GraphDatabaseImplementation.c_timestamp cd
                  = GraphDatabaseImplementation.c_timestamp sc
                ∧ GraphDatabaseImplementation.c_parent_id cd
                  = GraphDatabaseImplementation.c_parent_id sc
                ∧ ∀ ch,
                    GraphDatabaseImplementation.changes
                      (graph_of fs (source_repo data)) !! c = Some ch →
                    GraphDatabaseImplementation.changes
                      (graph_of fs' (target_repo data)) !! c = Some ch)
  ∧ (∀ fault data fs fs' msg p s,
      SQLiteFileSystemImplementation.pull_commits fault data fs
      = (fs', (Pulled msg p s, 200)) →
      well_formed (db_of fs (target_repo data)) →
      ∃ added,
        rows_of fs' (target_repo data) = rows_of fs (target_repo data) ++ added
        ∧ length added = p
        ∧ ∀ r,
            r ∈ added →
            r ∈ rows_of fs (source_repo data)
            ∧ SQLiteFileSystemImplementation.commit_exists
                (SQLiteFileSystemImplementation.r_id r) (db_of fs (target_repo data))
              = false
            ∧ SQLiteFileSystemImplementation.select_files
                (SQLiteFileSystemImplementation.r_id r) (db_of fs' (target_repo data))
              = SQLiteFileSystemImplementation.select_files
                  (SQLiteFileSystemImplementation.r_id r) (db_of fs (source_repo data))
            ∧ SQLiteFileSystemImplementation.select_changes
                (SQLiteFileSystemImplementation.r_id r) (db_of fs' (target_repo data))
              = SQLiteFileSystemImplementation.select_changes
                  (SQLiteFileSystemImplementation.r_id r)
                  (db_of fs (source_repo data))).
Proof.
  split.
  - intros limit data fs fs' msg p s Hpull.
    apply PullFacts.pull_commits_pulled in Hpull
      as (sg & sobjs & tg & tobjs & order & st & fs1 & fs2 & dir
          & Hs & _ & _ & _ & Htg & _ & _ & Hloop & _ & -> & -> & _).
    assert (commits_of fs (source_repo data) = GraphDatabaseImplementation.commits sg
            ∧ graph_of fs (source_repo data) = sg) as [-> ->]
      by (unfold commits_of, graph_of; by rewrite Hs).
    assert (commits_of fs (target_repo data) = GraphDatabaseImplementation.commits tg)
      as ->.
    { subst tg. unfold commits_of, graph_of.
      by destruct (fs !! get_repo_path (target_repo data)) as [[[g|] objs]|]. }
    assert (∀ g (objs : gmap string string),
              commits_of (<[get_repo_path (target_repo data) :=
                              GraphDatabaseImplementation.RepoDir (Some g) objs]> fs2)
                (target_repo data) = GraphDatabaseImplementation.commits g
              ∧ graph_of (<[get_repo_path (target_repo data) :=
                              GraphDatabaseImplementation.RepoDir (Some g) objs]> fs2)
                  (target_repo data) = g) as Hafter
      by (intros; unfold commits_of, graph_of; by rewrite lookup_insert_eq).
    destruct (Hafter (GraphDatabaseImplementation.st_graph st)
                (GraphDatabaseImplementation.objects dir)) as [-> ->].
    clear Hafter Htg Hs.
    set (P := λ st : GraphDatabaseImplementation.pull_state,
      GraphDatabaseImplementation.st_ids st
      = list_to_set (OD.keys (GraphDatabaseImplementation.commits
                                (GraphDatabaseImplementation.st_graph st)))
      ∧ ∃ added,
          GraphDatabaseImplementation.commits (GraphDatabaseImplementation.st_graph st)
          = GraphDatabaseImplementation.commits tg ++ added
          ∧ length added = GraphDatabaseImplementation.st_pulled st
          ∧ ∀ c cd,
              (c, cd) ∈ added →
              c ∈ GraphDatabaseImplementation.st_ids st
              ∧ OD.get c (GraphDatabaseImplementation.commits tg) = None
              ∧ ∃ sc,
                  OD.get c (GraphDatabaseImplementation.commits sg) = Some sc
                  ∧ GraphDatabaseImplementation.c_message cd
                    = GraphDatabaseImplementation.c_message sc
                  ∧ GraphDatabaseImplementation.c_author cd
                    = GraphDatabaseImplementation.c_author sc
                  ∧ GraphDatabaseImplementation.c_timestamp cd
                    = GraphDatabaseImplementation.c_timestamp sc
                  ∧ GraphDatabaseImplementation.c_parent_id cd
                    = GraphDatabaseImplementation.c_parent_id sc
                  ∧ ∀ ch,
                      GraphDatabaseImplementation.changes sg !! c = Some ch →
                      GraphDatabaseImplementation.changes
                        (GraphDatabaseImplementation.st_graph st) !! c = Some ch).
    assert (P st) as [_ (added & Hadd & Hlen & Hall)].
    { refine (GraphInvariants.pull_loop_invariant P _ _ _ _ _ _ _ _ _ _ _ Hloop).
      - intros st0 [Hids Hadded]. by split.
      - intros st0 commit_id commit_data files_dict [Hids (added & Hadd & Hlen & Hall)]
          Hnew Hget Hpm.
        assert (OD.get commit_id
                  (GraphDatabaseImplementation.commits
                     (GraphDatabaseImplementation.st_graph st0)) = None) as Hfresh.
        { apply ODFacts.get_None. intros Hk. apply Hnew. rewrite Hids.
          by apply elem_of_list_to_set. }
        set (cd' := GraphDatabaseImplementation.Commit
                      (GraphDatabaseImplementation.c_message commit_data)
                      (GraphDatabaseImplementation.c_author commit_data)
                      (GraphDatabaseImplementation.c_timestamp commit_data)
                      (GraphDatabaseImplementation.c_parent_id commit_data) files_dict).
        assert (GraphDatabaseImplementation.commits
                  (pulled_graph sg (GraphDatabaseImplementation.st_graph st0)
                     commit_id commit_data files_dict)
                = GraphDatabaseImplementation.commits
                    (GraphDatabaseImplementation.st_graph st0) ++ [(commit_id, cd')])
          as Hcommits.
        { unfold pulled_graph.
          destruct (GraphDatabaseImplementation.HEAD _); simpl;
            exact (ODFacts.set_fresh _ _ _ Hfresh). }
        assert (∀ c, c ≠ commit_id →
                  GraphDatabaseImplementation.changes
                    (pulled_graph sg (GraphDatabaseImplementation.st_graph st0)
                       commit_id commit_data files_dict) !! c
                  = GraphDatabaseImplementation.changes
                      (GraphDatabaseImplementation.st_graph st0) !! c) as Hother.
        { intros c Hc. unfold pulled_graph. cbv zeta.
          destruct (GraphDatabaseImplementation.changes sg !! commit_id);
            destruct (GraphDatabaseImplementation.HEAD _); simpl;
            by rewrite ?lookup_insert_ne. }
        assert (∀ ch, GraphDatabaseImplementation.changes sg !! commit_id = Some ch →
                  GraphDatabaseImplementation.changes
                    (pulled_graph sg (GraphDatabaseImplementation.st_graph st0)
                       commit_id commit_data files_dict) !! commit_id = Some ch)
          as Hsame.
        { intros ch Hch. unfold pulled_graph. cbv zeta. rewrite Hch.
          destruct (GraphDatabaseImplementation.HEAD _); simpl;
            by rewrite lookup_insert_eq. }
        split; simpl.
        + rewrite Hcommits. unfold OD.keys. rewrite map_app, list_to_set_app_L.
          simpl. fold (OD.keys (GraphDatabaseImplementation.commits
                                  (GraphDatabaseImplementation.st_graph st0))).
          rewrite <- Hids. set_solver.
        + exists (added ++ [(commit_id, cd')]). rewrite Hcommits, Hadd.
          split; [by rewrite app_assoc|].
          split; [rewrite length_app; simpl; lia|].
          intros c cd [Hc|Hc]%elem_of_app.
          * destruct (Hall c cd Hc) as (Hin & Hnone & sc & Hsc & ? & ? & ? & ? & Hch).
            split; [set_solver|]. split; [done|]. exists sc.
            repeat split; try done. intros ch Hsg.
            rewrite Hother; [by apply Hch|]. intros ->. done.
          * apply list_elem_of_singleton in Hc. injection Hc as -> ->.
            split; [set_solver|]. split.
            { rewrite Hadd in Hfresh. apply ODFacts.get_None in Hfresh.
              apply ODFacts.get_None. intros Hin. apply Hfresh.
              unfold OD.keys. rewrite map_app. apply elem_of_app. by left. }
            exists commit_data. repeat split; try done.
      - split; [done|]. exists []. split; [by rewrite app_nil_r|]. split; [done|].
        by intros c cd Hc%elem_of_nil. }
    exists added. split; [done|]. split; [done|].
    intros c cd Hc. destruct (Hall c cd Hc) as (_ & Hnone & Hsc). by split.
  - intros fault data fs fs' msg p s Hpull Hwf.
    apply PullTables.sqlite_pull_commits_pulled in Hpull
      as (source & st & Hs & Hloop & Hdb & -> & _).
    rewrite !AppendFacts.rows_of_db_of, Hdb.
    assert (db_of fs (source_repo data) = source) as ->
      by (unfold db_of; by rewrite Hs).
    set (db0 := db_of fs (target_repo data)) in *.
    set (P := λ st : SQLiteFileSystemImplementation.pull_state,
      well_formed (SQLiteFileSystemImplementation.st_db st)
      ∧ SQLiteFileSystemImplementation.st_ids st
        = list_to_set (map SQLiteFileSystemImplementation.r_id
                         (SQLiteFileSystemImplementation.t_commits
                            (SQLiteFileSystemImplementation.st_db st)))
      ∧ ∃ added,
          SQLiteFileSystemImplementation.t_commits
            (SQLiteFileSystemImplementation.st_db st)
          = SQLiteFileSystemImplementation.t_commits db0 ++ added
          ∧ length added = SQLiteFileSystemImplementation.st_pulled st
          ∧ ∀ r,
              r ∈ added →
              r ∈ SQLiteFileSystemImplementation.t_commits source
              ∧ SQLiteFileSystemImplementation.r_id r
                ∈ SQLiteFileSystemImplementation.st_ids st
              ∧ SQLiteFileSystemImplementation.commit_exists
                  (SQLiteFileSystemImplementation.r_id r) db0 = false
              ∧ SQLiteFileSystemImplementation.select_files
                  (SQLiteFileSystemImplementation.r_id r)
                  (SQLiteFileSystemImplementation.st_db st)
                = SQLiteFileSystemImplementation.select_files
                    (SQLiteFileSystemImplementation.r_id r) source
              ∧ SQLiteFileSystemImplementation.select_changes
                  (SQLiteFileSystemImplementation.r_id r)
                  (SQLiteFileSystemImplementation.st_db st)
                = SQLiteFileSystemImplementation.select_changes
                    (SQLiteFileSystemImplementation.r_id r) source).
    assert (P st) as (_ & _ & added & Hadd & Hlen & Hall).
    { refine (PullTables.sqlite_pull_loop_invariant P _ _ _ _ _ _ _ Hloop).
      - intros st0 (Hwf0 & Hids & Hadded). split; [done|]. split; [done|].
        exact Hadded.
      - intros st0 r db' u (Hwf0 & Hids & added & Hadd & Hlen & Hall)
          Hr Hnew Hpm Hins.
        apply TableInvariants.insert_commit_full in Hins
          as (Hex & fls & chs & Hfls & Hchs & ->).
        destruct (proj2 (proj2 Hwf0) _ Hex) as [Hnf Hnc].
        split; [|split]; simpl.
        + eapply TableInvariants.well_formed_insert; eauto.
          intros q Hq. apply TableInvariants.commit_exists_elem.
          pose proof (SQLiteGuardFacts.sqlite_parent_present _ _ _ Hpm Hq) as Hin.
          rewrite Hids in Hin. by apply elem_of_list_to_set in Hin.
        + rewrite Hids, map_app, list_to_set_app_L. simpl. set_solver.
        + exists (added ++ [r]). rewrite Hadd.
          split; [by rewrite app_assoc|].
          split; [rewrite length_app; simpl; lia|].
          intros r' [Hr'|Hr']%elem_of_app.
          * destruct (Hall r' Hr') as (Hsrc & Hin & Hex0 & Hf & Hc).
            assert (SQLiteFileSystemImplementation.r_id r'
                    ≠ SQLiteFileSystemImplementation.r_id r) as Hne
              by (intros Heq; apply Hnew; by rewrite <- Heq).
            split; [done|]. split; [set_solver|]. split; [done|].
            unfold SQLiteFileSystemImplementation.select_files,
              SQLiteFileSystemImplementation.select_changes in *. simpl.
            by rewrite (ChangeFacts.insert_all_other _ _ _ _ _ Hfls Hne),
              (ChangeFacts.insert_all_other _ _ _ _ _ Hchs Hne).
          * apply list_elem_of_singleton in Hr' as ->.
            split; [by apply SQLiteFacts.sort_asc_elem in Hr|].
            split; [set_solver|]. split.
            { apply TableInvariants.commit_exists_not. intros Hin.
              apply TableInvariants.commit_exists_not in Hex. apply Hex.
              rewrite Hadd, map_app. apply elem_of_app. by left. }
            unfold SQLiteFileSystemImplementation.select_files,
              SQLiteFileSystemImplementation.select_changes at 1. simpl.
            split.
            { exact (PullCounts.insert_all_select _ _ _ _ Hfls Hnf). }
            { exact (PullCounts.insert_all_select _ _ _ _ Hchs Hnc). }
      - split; [done|]. split; [done|]. exists [].
        split; [by rewrite app_nil_r|]. split; [done|]. by intros r Hr%elem_of_nil. }
    exists added. split; [done|]. split; [done|].
    intros r Hr. destruct (Hall r Hr) as (? & _ & ? & ? & ?). by repeat split.
Qed.

Lemma pull_adds_what_it_reports_witness :
  (∃ added,
      commits_of
        (GraphDatabaseImplementation.pull_commits Scenario.depth
           (SyncData "repo" "mirror") Scenario.graph_ab).1 "mirror"
      = commits_of Scenario.graph_ab "mirror" ++ added
      ∧ length added = 2)
  ∧ (∃ added,
      rows_of
        (SQLiteFileSystemImplementation.pull_commits false (SyncData "repo" "mirror")
           Scenario.sqlite_ab).1 "mirror"
      = rows_of Scenario.sqlite_ab "mirror" ++ added
      ∧ length added = 2).
Proof.
  assert (GraphDatabaseImplementation.pull_commits Scenario.depth
            (SyncData "repo" "mirror") Scenario.graph_ab
          = ((GraphDatabaseImplementation.pull_commits Scenario.depth
                (SyncData "repo" "mirror") Scenario.graph_ab).1,
             (Pulled "Pulled 2 commits from 'repo' to 'mirror'" 2 0, 200)))
    as Hg by (vm_compute; reflexivity).
  assert (SQLiteFileSystemImplementation.pull_commits false (SyncData "repo" "mirror")
            Scenario.sqlite_ab
          = ((SQLiteFileSystemImplementation.pull_commits false
                (SyncData "repo" "mirror") Scenario.sqlite_ab).1,
             (Pulled "Pulled 2 commits from 'repo' to 'mirror'" 2 0, 200)))
    as Hs by (vm_compute; reflexivity).
  assert (well_formed (db_of Scenario.sqlite_ab "mirror")) as Hwf.
  { replace (db_of Scenario.sqlite_ab "mirror")
      with SQLiteFileSystemImplementation.empty_db by (vm_compute; reflexivity).
    apply TableInvariants.well_formed_empty. }
  split.
  - destruct (proj1 pull_adds_what_it_reports _ _ _ _ _ _ _ Hg)
      as (added & Hadd & Hlen & _).
    exists added. split; [exact Hadd | exact Hlen].
  - destruct (proj2 pull_adds_what_it_reports _ _ _ _ _ _ _ Hs Hwf)
      as (added & Hadd & Hlen & _).
    exists added. split; [exact Hadd | exact Hlen].
Defined.

(** ** A pull from a history with a dangling parent *)

Module DanglingFacts.

Import GraphDatabaseImplementation.

(** Whatever [visit] newly visits has its parent visited when it returns. *)
Lemma visit_closed cs fuel : ∀ commit_id visited order visited' order',
  visit fuel cs commit_id (visited, order) = Some (visited', order') →
  ∀ v p, v ∈ visited' → v ∉ visited → parent_of cs v = Some p → p ∈ visited'.
Proof.
  induction fuel as [|fuel IH]; intros commit_id visited order visited' order' Hv;
    [done|].
  rewrite VisitFacts.visit_unfold in Hv. case_bool_decide as Hin.
  - injection Hv as <- <-. by intros v p Hv Hnv.
  - destruct (parent_of cs commit_id) as [parent|] eqn:Hp.
    + destruct (visit fuel cs parent ({[commit_id]} ∪ visited, order))
        as [[v1 o1]|] eqn:Hrec; [|done].
      injection Hv as <- <-.
      destruct (VisitFacts.visit_spec cs (λ _, 0) _ _ _ _ _ _ Hrec)
        as (new1 & _ & Hv1 & _ & _ & Hpin & _).
      intros v p Hv Hnv Hvp.
      destruct (decide (v = commit_id)) as [->|Hne].
      * rewrite Hp in Hvp. injection Hvp as <-. rewrite Hv1.
        destruct Hpin as [Hpin|Hpin]; [set_solver|].
        apply elem_of_union. right. by apply elem_of_list_to_set.
      * eapply (IH _ _ _ _ _ Hrec); [done | set_solver | done].
    + injection Hv as <- <-. intros v p Hv Hnv Hvp.
      assert (v = commit_id) as -> by set_solver. congruence.
Qed.

Lemma visit_all_closed cs fuel ids : ∀ visited order visited' order',
  visit_all fuel cs ids (visited, order) = Some (visited', order') →
  (∀ v p, v ∈ visited → parent_of cs v = Some p → p ∈ visited) →
  ∀ v p, v ∈ visited' → parent_of cs v = Some p → p ∈ visited'.
Proof.
  induction ids as [|commit_id ids IH]; intros visited order visited' order' Hv Hcl.
  - simpl in Hv. by injection Hv as <- <-.
  - simpl in Hv.
    destruct (visit fuel cs commit_id (visited, order)) as [[v1 o1]|] eqn:Hone; [|done].
    eapply IH; [exact Hv|]. intros v p Hv1 Hvp.
    destruct (VisitFacts.visit_spec cs (λ _, 0) _ _ _ _ _ _ Hone)
      as (new & _ & Hset & _).
    destruct (decide (v ∈ visited)) as [Hin|Hnin].
    + rewrite Hset. apply elem_of_union. left. by eapply Hcl.
    + by eapply (visit_closed _ _ _ _ _ _ _ Hone).
Qed.

(** The visitation order holds the required parent of every commit, whether
    the source has that parent or not. *)
Lemma commit_order_parents limit cs order c p :
  commit_order limit cs = Some order →
  c ∈ OD.keys cs → parent_of cs c = Some p → p ∈ order.
Proof.
  unfold commit_order. intros Hv Hc Hp.
  destruct (visit_all _ _ _ _) as [[visited' order']|] eqn:Hall; [|done].
  simpl in Hv. injection Hv as <-.
  destruct (VisitFacts.visit_all_spec cs (λ _, 0) _ _ _ _ _ _ Hall)
    as (Hset & _ & Hcov & _); [by rewrite list_to_set_nil | constructor|].
  assert (p ∈ visited') as Hin.
  { eapply (visit_all_closed _ _ _ _ _ _ _ Hall); [set_solver| |exact Hp].
    rewrite Hset. apply elem_of_list_to_set, Hcov. by right. }
  rewrite Hset in Hin. by apply elem_of_list_to_set in Hin.
Qed.

(** The loop of a pull raises when its order holds an id that is neither a
    commit of the source nor an id of the target. *)
Lemma pull_loop_raises source target g x order : ∀ st fs,
  x ∈ order → x ∉ st_ids st → OD.get x (commits g) = None →
  ∃ fs' e, pull_loop source target g order st fs = (fs', Raise e).
Proof.
  induction order as [|y rest IH]; intros st fs Hx Hnew Hget;
    [by apply elem_of_nil in Hx|].
  rewrite GraphInvariants.pull_loop_cons. case_bool_decide as Hin.
  { apply IH; [|done|done]. apply elem_of_cons in Hx as [->|]; done. }
  destruct (OD.get y (commits g)) as [commit_data|] eqn:Hy; [|by eexists _, _].
  assert (x ≠ y) as Hne by (intros ->; congruence).
  apply elem_of_cons in Hx as [|Hx]; [done|].
  destruct (parent_missing _ _); [by apply IH|].
  unfold bind.
  destruct (copy_files _ _ _ _ fs) as [fs1 [files_dict|e]]; [|by eexists _, _].
  apply IH; [done| |done]. simpl. set_solver.
Qed.

End DanglingFacts.

(** X13. In the document backend, a source that holds a commit whose
    required parent is neither a commit of the source nor a commit of the
    target cannot be pulled: the visit puts the missing parent in the order,
    the loop looks it up in the source, and the pull is answered 500 without
    a commit being added to the target. *)
Theorem pull_fails_on_dangling_parent :
  ∀ limit data fs c cd p,
    validate_repo_name (source_repo data) = true →
    validate_repo_name (target_repo data) = true →
    OD.get c (commits_of fs (source_repo data)) = Some cd →
    required_parent (GraphDatabaseImplementation.c_parent_id cd) = Some p →
    OD.get p (commits_of fs (source_repo data)) = None →
    OD.get p (commits_of fs (target_repo data)) = None →
    (∃ e, (GraphDatabaseImplementation.pull_commits limit data fs).2
          = (Failure "Error pulling commits" e, 500))
    ∧ commits_of (GraphDatabaseImplementation.pull_commits limit data fs).1
        (target_repo data)
      = commits_of fs (target_repo data).
Proof.
  intros limit data fs c cd p Hvs Hvt Hc Hp Hps Hpt.
  assert (∀ fs0 repo, commits_of fs0 repo
                      = GraphDatabaseImplementation.commits (graph_of fs0 repo))
    as Hcg.
  { intros fs0 repo. unfold commits_of, graph_of.
    by destruct (fs0 !! get_repo_path repo) as [[[g|] objs]|]. }
  assert (∃ e, (GraphDatabaseImplementation.pull_commits limit data fs).2
               = (Failure "Error pulling commits" e, 500)) as Hfail.
  { unfold GraphDatabaseImplementation.pull_commits. rewrite Hvs, Hvt. simpl.
    destruct (fs !! get_repo_path (source_repo data)) as [[[sg|] sobjs]|] eqn:Hs;
      try (unfold commits_of in Hc; rewrite Hs in Hc; done).
    rewrite (GraphFacts.graph_exists_true _ _ _ _ Hs). simpl.
    set (fs1 := if GraphDatabaseImplementation.graph_exists fs (target_repo data)
                then fs
                else (GraphDatabaseImplementation.create_repo (target_repo data) fs).1).
    assert (fs1 !! get_repo_path (source_repo data)
            = Some (GraphDatabaseImplementation.RepoDir (Some sg) sobjs)) as Hs1.
    { unfold fs1.
      destruct (GraphDatabaseImplementation.graph_exists fs (target_repo data)) eqn:Ht;
        [done|].
      rewrite PullFacts.create_repo_other; [done|]. intros Heq.
      unfold GraphDatabaseImplementation.graph_exists in Ht.
      by rewrite <- Heq, Hs in Ht. }
    assert (commits_of fs1 (target_repo data) = commits_of fs (target_repo data))
      as Hct.
    { unfold fs1.
      destruct (GraphDatabaseImplementation.graph_exists fs (target_repo data)) eqn:Ht;
        [done|].
      rewrite (GuardFacts.create_repo_commits _ _ Ht).
      unfold commits_of, GraphDatabaseImplementation.graph_exists in *.
      by destruct (fs !! get_repo_path (target_repo data)) as [[[g|] objs]|]. }
    clearbody fs1.
    unfold answer, GraphDatabaseImplementation.pull_body, bind.
    rewrite (GraphFacts.read_graph_exists _ _ _ _ Hs1).
    unfold GraphDatabaseImplementation.read_graph.
    destruct (fs1 !! get_repo_path (target_repo data)) as [[[tg|] tobjs]|] eqn:Ht;
      try by eexists.
    unfold commits_of in Hc, Hps. rewrite Hs in Hc, Hps.
    destruct (GraphDatabaseImplementation.commit_order limit
                (GraphDatabaseImplementation.commits sg)) as [order|] eqn:Horder;
      [|by eexists].
    assert (p ∈ order) as Hin.
    { eapply DanglingFacts.commit_order_parents; [exact Horder| |].
      - by eapply ODFacts.get_Some_keys.
      - unfold parent_of. by rewrite Hc. }
    destruct (DanglingFacts.pull_loop_raises (source_repo data) (target_repo data)
                sg p order
                (GraphDatabaseImplementation.PullState tg
                   (list_to_set (OD.keys (GraphDatabaseImplementation.commits tg))) 0 0)
                fs1 Hin) as (fs2 & e & ->); [|done|by eexists].
    simpl. rewrite elem_of_list_to_set. apply ODFacts.get_None.
    rewrite <- Hpt, <- Hct. unfold commits_of. by rewrite Ht. }
  split; [done|]. destruct Hfail as [e He].
  rewrite !Hcg.
  destruct (GraphInvariants.pull_commits_graph limit data fs)
    as [->|(sg & order & st & fs1 & fs2 & _ & _ & _ & _ & _ & _ & Hresp)]; [done|].
  rewrite He in Hresp. done.
Qed.

Lemma pull_fails_on_dangling_parent_witness :
  (∃ e,
      (GraphDatabaseImplementation.pull_commits Scenario.depth
         (SyncData "repo" "mirror") Examples.graph_orphan).2
      = (Failure "Error pulling commits" e, 500))
  ∧ commits_of
      (GraphDatabaseImplementation.pull_commits Scenario.depth
         (SyncData "repo" "mirror") Examples.graph_orphan).1 "mirror"
    = commits_of Examples.graph_orphan "mirror".
Proof.
  apply (pull_fails_on_dangling_parent Scenario.depth (SyncData "repo" "mirror")
           Examples.graph_orphan
           "E"
           (GraphDatabaseImplementation.Commit "orphan" "bob" "2024-01-05T10:00:00"
              (Some "missing") (hashes_of Scenario.files_v1 []))
           "missing").
  - reflexivity.
  - reflexivity.
  - vm_compute. reflexivity.
  - reflexivity.
  - vm_compute. reflexivity.
  - vm_compute. reflexivity.
Defined.

(** ** The history of a file *)

Module HistoryFacts.

Lemma sorted_omap {A B} (f : A → option B) (ka : A → string) (kb : B → string) l :
  (∀ a b, f a = Some b → kb b = ka a) →
  StronglySorted (λ a b, PyStr.ltb (ka a) (ka b) = false) l →
  StronglySorted (λ a b, PyStr.ltb (kb a) (kb b) = false) (omap f l).
Proof.
  intros Hk. induction 1 as [|x l Hl IH Hx]; simpl; [constructor|].
  destruct (f x) as [y|] eqn:Hy; [|done]. constructor; [done|].
  apply Forall_forall. intros z (w & Hw & Hz)%list_elem_of_omap.
  rewrite Forall_forall in Hx. specialize (Hx w Hw). simpl in Hx.
  by rewrite (Hk _ _ Hy), (Hk _ _ Hz).
Qed.

Lemma sqlite_history_timestamp db file_path r e :
  SQLiteFileSystemImplementation.history_of db file_path r = Some e →
  he_timestamp e = SQLiteFileSystemImplementation.r_timestamp r.
Proof.
  unfold SQLiteFileSystemImplementation.history_of.
  destruct (SQLiteFileSystemImplementation.select_changes _ _ !! file_path); [|done].
  by intros [= <-].
Qed.

End HistoryFacts.

(** X14. In both backends [get_commit_history] of a repository that exists
    lists exactly the commits whose change record holds the file: one entry
    per such commit, with the message, author and timestamp of the commit
    and the status and hashes of the record, the diff being given for a
    modified file only; the entries are ordered by timestamp, latest first.
    For a repository that does not exist the answer is 404. *)
Theorem history_lists_the_commits_that_changed_the_file :
  (∀ (fs : GraphDatabaseImplementation.store) name file_path g objs,
      fs !! get_repo_path name
        = Some (GraphDatabaseImplementation.RepoDir (Some g) objs) →
      ∃ l,
        GraphDatabaseImplementation.get_commit_history name file_path fs = inl l
        ∧ StronglySorted
            (λ a b, PyStr.ltb (he_timestamp a) (he_timestamp b) = false) l
        ∧ ∀ e,
            e ∈ l ↔
            ∃ commit_id cd record ci,
              (commit_id, cd) ∈ GraphDatabaseImplementation.commits g
              ∧ GraphDatabaseImplementation.changes g !! commit_id = Some record
              ∧ record !! file_path = Some ci
              ∧ e = HistoryEntry commit_id
                      (GraphDatabaseImplementation.c_message cd)
                      (GraphDatabaseImplementation.c_author cd)
                      (GraphDatabaseImplementation.c_timestamp cd)
                      (change_status ci) (history_diff ci) (previous_hash ci)
                      (current_hash ci))
  ∧ (∀ (fs : SQLiteFileSystemImplementation.store) name file_path db,
      fs !! get_repo_path name = Some db →
      ∃ l,
        SQLiteFileSystemImplementation.get_commit_history name file_path fs = inl l
        ∧ StronglySorted
            (λ a b, PyStr.ltb (he_timestamp a) (he_timestamp b) = false) l
        ∧ ∀ e,
            e ∈ l ↔
            ∃ r ci,
              r ∈ SQLiteFileSystemImplementation.t_commits db
              ∧ SQLiteFileSystemImplementation.select_changes
                  (SQLiteFileSystemImplementation.r_id r) db !! file_path = Some ci
              ∧ e = HistoryEntry (SQLiteFileSystemImplementation.r_id r)
                      (SQLiteFileSystemImplementation.r_message r)
                      (SQLiteFileSystemImplementation.r_author r)
                      (SQLiteFileSystemImplementation.r_timestamp r)
                      (change_status ci) (history_diff ci) (previous_hash ci)
                      (current_hash ci))
  ∧ (∀ (fs : GraphDatabaseImplementation.store) name file_path,
      fs !! get_repo_path name = None →
      GraphDatabaseImplementation.get_commit_history name file_path fs
      = inr (Error ("Repository '" +:+ name +:+ "' not found"), 404))
  ∧ (∀ (fs : SQLiteFileSystemImplementation.store) name file_path,
      fs !! get_repo_path name = None →
      SQLiteFileSystemImplementation.get_commit_history name file_path fs
      = inr (Error ("Repository '" +:+ name +:+ "' not found"), 404)).
Proof.
  split; [|split; [|split]].
  - intros fs name file_path g objs Hfs. eexists.
    unfold GraphDatabaseImplementation.get_commit_history. rewrite Hfs. split; [reflexivity|]. split.
    + apply OrderFacts.sort_desc_sorted.
    + intros e. rewrite OrderFacts.sort_desc_elem, list_elem_of_omap. split.
      * intros ([commit_id cd] & Hin & He). unfold GraphDatabaseImplementation.history_of in He.
        destruct (GraphDatabaseImplementation.changes g !! commit_id)
          as [record|] eqn:Hr; [|done].
        destruct (record !! file_path) as [ci|] eqn:Hci; [|done].
        injection He as <-. by exists commit_id, cd, record, ci.
      * intros (commit_id & cd & record & ci & Hin & Hr & Hci & ->).
        exists (commit_id, cd). split; [done|].
        unfold GraphDatabaseImplementation.history_of. by rewrite Hr, Hci.
  - intros fs name file_path db Hfs. eexists.
    unfold SQLiteFileSystemImplementation.get_commit_history. rewrite Hfs. split; [reflexivity|]. split.
    + eapply (HistoryFacts.sorted_omap _ SQLiteFileSystemImplementation.r_timestamp).
      * intros r e. apply HistoryFacts.sqlite_history_timestamp.
      * apply OrderFacts.sort_desc_sorted.
    + intros e. rewrite list_elem_of_omap. split.
      * intros (r & Hin%OrderFacts.sort_desc_elem & He). unfold SQLiteFileSystemImplementation.history_of in He.
        destruct (SQLiteFileSystemImplementation.select_changes _ _ !! file_path)
          as [ci|] eqn:Hci; [|done].
        injection He as <-. by exists r, ci.
      * intros (r & ci & Hin & Hci & ->). exists r.
        split; [by apply OrderFacts.sort_desc_elem|].
        unfold SQLiteFileSystemImplementation.history_of. by rewrite Hci.
  - intros fs name file_path Hfs. unfold GraphDatabaseImplementation.get_commit_history. by rewrite Hfs.
  - intros fs name file_path Hfs. unfold SQLiteFileSystemImplementation.get_commit_history. by rewrite Hfs.
Qed.

Lemma history_lists_the_commits_that_changed_the_file_witness :
  (∃ l,
      GraphDatabaseImplementation.get_commit_history "repo" "f.txt" Scenario.graph_ab = inl l
      ∧ StronglySorted
          (λ a b, PyStr.ltb (he_timestamp a) (he_timestamp b) = false) l)
  ∧ (∃ l,
      SQLiteFileSystemImplementation.get_commit_history "repo" "f.txt" Scenario.sqlite_ab = inl l
      ∧ StronglySorted
          (λ a b, PyStr.ltb (he_timestamp a) (he_timestamp b) = false) l).
Proof.
  split.
  - destruct (proj1 history_lists_the_commits_that_changed_the_file
                Scenario.graph_ab "repo" "f.txt" (graph_of Scenario.graph_ab "repo")
                (objects_of Scenario.graph_ab "repo"))
      as (l & Hl & Hs & _); [vm_compute; reflexivity|].
    exists l. split; [exact Hl | exact Hs].
  - destruct (proj1 (proj2 history_lists_the_commits_that_changed_the_file)
                Scenario.sqlite_ab "repo" "f.txt" (db_of Scenario.sqlite_ab "repo"))
      as (l & Hl & Hs & _); [vm_compute; reflexivity|].
    exists l. split; [exact Hl | exact Hs].
Defined.

(** ** Reading back what was pushed *)

Module ReadBack.

Lemma find_new_row rows r commit_id :
  SQLiteFileSystemImplementation.r_id r = commit_id →
  existsb (λ r', String.eqb (SQLiteFileSystemImplementation.r_id r') commit_id) rows
  = false →
  List.find (λ r', String.eqb (SQLiteFileSystemImplementation.r_id r') commit_id)
    (rows ++ [r])
  = Some r.
Proof.
  intros <-. induction rows as [|r0 rows IH]; simpl.
  - by rewrite String.eqb_refl.
  - destruct (String.eqb _ _); [done | apply IH].
Qed.

Lemma get_file_rows files path :
  OD.get path (map SQLiteFileSystemImplementation.file_row files)
  = entry_of_info <$> OD.get path files.
Proof.
  induction files as [|[k f] files IH]; simpl; [done|].
  destruct (String.eqb k path); [done | apply IH].
Qed.

(** The rows of [files] of a commit once its files are inserted into a table
    that held none for it. *)
Lemma insert_all_files commit_id files (table t : gmap string (gmap string file_entry)) :
  SQLiteFileSystemImplementation.insert_all commit_id
    (map SQLiteFileSystemImplementation.file_row files) table = Return t →
  table !! commit_id = None →
  ∀ path, default ∅ (t !! commit_id) !! path = entry_of_info <$> OD.get path files.
Proof.
  unfold SQLiteFileSystemImplementation.insert_all. intros Hins Hnone path.
  destruct files as [|kv files].
  - injection Hins as <-. by rewrite Hnone.
  - rewrite Hnone in Hins.
    change (default ∅ None) with (∅ : gmap string file_entry) in Hins.
    destruct (SQLiteFileSystemImplementation.insert_rows _ ∅) as [m|e] eqn:Hrows;
      [|done].
    injection Hins as <-. rewrite lookup_insert_eq. simpl.
    apply PullCounts.insert_rows_union in Hrows.
    rewrite (right_id_L ∅ (∪)) in Hrows.
    by rewrite Hrows, ChangeFacts.get_list_to_map, get_file_rows.
Qed.

End ReadBack.

(** X15. In the relational backend, a commit that was pushed successfully to
    a repository whose tables are well formed is read back as it was sent:
    [get_commit] answers 200 with the id, message, author, timestamp and
    parent_id of the push and, for every path, the hash and the content the
    client sent (the hash is stored as sent, not recomputed); its change
    record is the one [get_changes] returns, and has as many entries as the
    push reported. *)
Theorem sqlite_push_then_get_commit :
  ∀ data fs fs' msg n,
    SQLiteFileSystemImplementation.push_commit data fs = (fs', (Pushed msg n, 200)) →
    well_formed (db_of fs (repo_name data)) →
    ∃ c,
      SQLiteFileSystemImplementation.get_commit (repo_name data) (id data) fs'
      = (CommitFound c, 200)
      ∧ cd_id c = id data
      ∧ cd_message c = message data
      ∧ cd_author c = author data
      ∧ cd_timestamp c = timestamp data
      ∧ cd_parent_id c = parent_id data
      ∧ (∀ path, cd_files c !! path = entry_of_info <$> OD.get path (files data))
      ∧ SQLiteFileSystemImplementation.get_changes (repo_name data) (id data) fs'
        = (Changes (cd_changes c), 200)
      ∧ size (cd_changes c) = n.
Proof.
  intros data fs fs' msg n Hpush (_ & _ & Hbel).
  apply SQLitePushFacts.sqlite_push_commit_pushed in Hpush
    as (Hex & _ & fls & ch & chs & Hfls & _ & Hchs & -> & Hfs').
  destruct (Hbel _ Hex) as [Hnf Hnc].
  eexists. unfold SQLiteFileSystemImplementation.get_commit,
    SQLiteFileSystemImplementation.get_changes. rewrite Hfs'.
  cbn [SQLiteFileSystemImplementation.t_commits].
  rewrite (ReadBack.find_new_row _
             (SQLiteFileSystemImplementation.CommitRow (id data) (message data)
                (author data) (timestamp data) (parent_id data)) (id data)
             eq_refl Hex).
  rewrite SQLitePushFacts.commit_exists_app. cbn [SQLiteFileSystemImplementation.r_id].
  rewrite String.eqb_refl, orb_true_r.
  split; [reflexivity|]. simpl.
  repeat split.
  - intros path. unfold SQLiteFileSystemImplementation.select_files. simpl.
    exact (ReadBack.insert_all_files _ _ _ _ Hfls Hnf path).
  - rewrite map_size_fmap. unfold SQLiteFileSystemImplementation.select_changes.
    simpl. by rewrite (PullCounts.insert_all_select _ _ _ _ Hchs Hnc).
Qed.

Lemma sqlite_push_then_get_commit_witness :
  ∃ c,
    SQLiteFileSystemImplementation.get_commit "repo" "B" Scenario.sqlite_ab
    = (CommitFound c, 200)
    ∧ cd_message c = "second"
    ∧ size (cd_changes c) = 1.
Proof.
  assert (SQLiteFileSystemImplementation.push_commit Scenario.commit_b Scenario.sqlite_a
          = (Scenario.sqlite_ab, (Pushed "Commit 'B' pushed successfully" 1, 200)))
    as Hs by (vm_compute; reflexivity).
  assert (well_formed (db_of Scenario.sqlite_a "repo")) as Hwf.
  { apply (TableInvariants.push_keeps_well_formed Scenario.commit_a ∅).
    apply TableInvariants.well_formed_empty. }
  destruct (sqlite_push_then_get_commit _ _ _ _ _ Hs Hwf)
    as (c & Hc & _ & Hm & _ & _ & _ & _ & _ & Hn).
  exists c. split; [exact Hc|]. split; [exact Hm | exact Hn].
Defined.

Module GraphReadBack.

Import GraphDatabaseImplementation.

Lemma collision_free_spec texts a b :
  collision_free texts = true →
  a ∈ texts → b ∈ texts → calculate_hash a = calculate_hash b → a = b.
Proof.
  unfold collision_free. rewrite List.forallb_forall. intros Hall Ha Hb Hh.
  apply list_elem_of_In in Ha, Hb. specialize (Hall a Ha).
  rewrite List.forallb_forall in Hall. specialize (Hall b Hb).
  rewrite Hh, String.eqb_refl in Hall. simpl in Hall. by apply String.eqb_eq.
Qed.

(** In a content-addressed store whose texts, with those being stored, are
    free of collisions, every text stored is found under its hash. *)
Lemma stored_lookup (universe : list string) files : ∀ objs,
  collision_free universe = true →
  (∀ h c, objs !! h = Some c → h = calculate_hash c ∧ c ∈ universe) →
  (∀ c, c ∈ contents_of files → c ∈ universe) →
  ∀ c, c ∈ contents_of files → stored files objs !! calculate_hash c = Some c.
Proof.
  induction files as [|[file_path f] rest IH]; intros objs Hfree Hobjs Hin c Hc;
    [by apply elem_of_nil in Hc|].
  simpl.
  set (objs1 := match objs !! calculate_hash (fi_content f) with
                | Some _ => objs
                | None => <[calculate_hash (fi_content f) := fi_content f]> objs
                end).
  assert (∀ h c0, objs1 !! h = Some c0 → h = calculate_hash c0 ∧ c0 ∈ universe)
    as Hobjs1.
  { intros h c0. unfold objs1.
    destruct (objs !! calculate_hash (fi_content f)) eqn:E; [apply Hobjs|].
    rewrite lookup_insert. case_decide as Hd; [|apply Hobjs].
    intros [= <-]. split; [done|]. apply Hin. by left. }
  assert (objs1 !! calculate_hash (fi_content f) = Some (fi_content f)) as Hf.
  { unfold objs1.
    destruct (objs !! calculate_hash (fi_content f)) as [c0|] eqn:E;
      [|by rewrite lookup_insert_eq].
    rewrite E. f_equal. destruct (Hobjs _ _ E) as [Hh Hu].
    eapply collision_free_spec; eauto. apply Hin. by left. }
  simpl in Hc. apply elem_of_cons in Hc as [->|Hc].
  - eapply lookup_weaken; [exact Hf | apply AppendFacts.stored_subseteq].
  - apply IH; try done. intros c0 Hc0. apply Hin. by right.
Qed.

Lemma hashes_of_fresh files : ∀ acc,
  NoDup (OD.keys acc ++ OD.keys files) →
  hashes_of files acc
  = acc ++ map (λ kv, (kv.1, calculate_hash (fi_content kv.2))) files.
Proof.
  induction files as [|[k f] rest IH]; intros acc Hnd; simpl.
  - by rewrite app_nil_r.
  - assert (OD.get k acc = None) as Hk.
    { apply ODFacts.get_None. apply NoDup_app in Hnd as (_ & Hdis & _).
      intros Hin. apply (Hdis _ Hin). by left. }
    rewrite (ODFacts.set_fresh _ _ _ Hk), IH.
    + by rewrite <- app_assoc.
    + unfold OD.keys in *. rewrite map_app. simpl. rewrite <- app_assoc. done.
Qed.

Lemma get_hashes files path :
  OD.get path (map (λ kv : string * file_info,
                      (kv.1, calculate_hash (fi_content kv.2))) files)
  = (λ f, calculate_hash (fi_content f)) <$> OD.get path files.
Proof.
  induction files as [|[k f] rest IH]; simpl; [done|].
  destruct (String.eqb k path); [done | apply IH].
Qed.

Lemma keys_hashes files :
  OD.keys (map (λ kv : string * file_info,
                  (kv.1, calculate_hash (fi_content kv.2))) files)
  = OD.keys files.
Proof. unfold OD.keys. rewrite map_map. by apply map_ext. Qed.

Lemma entries_of_lookup objs hs : ∀ acc path,
  NoDup (OD.keys hs) →
  entries_of objs hs acc !! path
  = match OD.get path hs with
    | Some h => Some (FileEntry h (PyStr.universal_newlines <$> objs !! h))
    | None => acc !! path
    end.
Proof.
  induction hs as [|[k h] rest IH]; intros acc path Hnd; simpl; [done|].
  unfold OD.keys in Hnd. simpl in Hnd. apply NoDup_cons in Hnd as [Hk Hnd].
  rewrite IH by done. destruct (String.eqb_spec k path) as [->|Hne].
  - assert (OD.get path rest = None) as -> by by apply ODFacts.get_None.
    by rewrite lookup_insert_eq.
  - destruct (OD.get path rest); [done|]. by rewrite lookup_insert_ne.
Qed.

Lemma get_elem {V} path (d : odict V) v : OD.get path d = Some v → (path, v) ∈ d.
Proof.
  induction d as [|[k v'] d IH]; simpl; [done|].
  destruct (String.eqb_spec k path) as [->|Hne].
  - intros [= ->]. by left.
  - intros H. right. by apply IH.
Qed.

End GraphReadBack.

(** X16. In the document backend, a commit that was pushed successfully is
    read back by [get_commit] with the id, message, author, timestamp and
    parent_id of the push and, for every path, the hash of its content and
    the content as a text-mode read returns it (CR LF and CR come back as
    LF), the store being left as it was.  This holds when the paths of the
    push are distinct, the objects of the repository are named by the hash
    of what they hold, and no two of the texts involved collide: an object
    file found under the hash is not rewritten.  The change record read back
    is the one [get_changes] returns, and has as many entries as the push
    reported. *)
Theorem graph_push_then_get_commit :
  ∀ data fs fs' msg n,
    GraphDatabaseImplementation.push_commit data fs = (fs', (Pushed msg n, 200)) →
    NoDup (OD.keys (files data)) →
    content_addressed (objects_of fs (repo_name data)) →
    collision_free
      (contents_of (files data)
       ++ map snd (map_to_list (objects_of fs (repo_name data)))) = true →
    ∃ c,
      GraphDatabaseImplementation.get_commit (repo_name data) (id data) fs'
      = (fs', (CommitFound c, 200))
      ∧ cd_id c = id data
      ∧ cd_message c = message data
      ∧ cd_author c = author data
      ∧ cd_timestamp c = timestamp data
      ∧ cd_parent_id c = parent_id data
      ∧ (∀ path, cd_files c !! path = read_back <$> OD.get path (files data))
      ∧ GraphDatabaseImplementation.get_changes (repo_name data) (id data) fs'
        = (Changes (cd_changes c), 200)
      ∧ size (cd_changes c) = n.
Proof.
  intros data fs fs' msg n Hpush Hnd Hca Hfree.
  apply PushFacts.push_commit_pushed in Hpush
    as (g & objs & ch & Hstart & Hmem & _ & -> & Hfs').
  destruct (AppendFacts.commits_of_push_start _ _ _ _ Hstart) as (_ & Hobjs & _).
  rewrite Hobjs in Hca, Hfree. clear Hobjs Hstart.
  match type of Hfs' with
  | _ = Some (GraphDatabaseImplementation.RepoDir (Some ?g0) _) =>
      remember g0 as g' eqn:Hg'
  end.
  assert (OD.get (id data) (GraphDatabaseImplementation.commits g')
          = Some (GraphDatabaseImplementation.Commit (message data) (author data)
                    (timestamp data) (parent_id data) (hashes_of (files data) []))
          ∧ GraphDatabaseImplementation.changes g' !! id data = Some ch)
    as [Hget Hch].
  { rewrite Hg'. cbv zeta.
    destruct (GraphDatabaseImplementation.advances _ _); simpl;
      by rewrite ODFacts.get_set_eq, lookup_insert_eq. }
  eexists.
  unfold GraphDatabaseImplementation.get_commit,
    GraphDatabaseImplementation.get_changes.
  rewrite (GraphFacts.graph_exists_true _ _ _ _ Hfs'), Hfs'. simpl.
  unfold answer, bind. rewrite (GraphFacts.read_graph_exists _ _ _ _ Hfs'), Hget.
  rewrite (PushFacts.load_files_exists _ _ _ _ _ Hfs'). simpl.
  unfold OD.mem. rewrite Hget, Hch. simpl.
  split; [reflexivity|]. simpl. repeat split.
  intros path.
  rewrite (GraphReadBack.hashes_of_fresh (files data) []) by done. simpl.
  rewrite GraphReadBack.entries_of_lookup
    by (by rewrite GraphReadBack.keys_hashes).
  rewrite GraphReadBack.get_hashes.
  destruct (OD.get path (files data)) as [f|] eqn:Hf; simpl; [|done].
  unfold read_back. do 2 f_equal.
  erewrite (GraphReadBack.stored_lookup _ (files data) objs Hfree); [done| | |].
  - intros h c0 Hc0. split; [by apply Hca|].
    apply elem_of_app. right. apply list_elem_of_fmap. exists (h, c0).
    split; [done|]. by apply elem_of_map_to_list.
  - intros c0 Hc0. apply elem_of_app. by left.
  - unfold contents_of. apply list_elem_of_fmap. exists (path, f).
    split; [done|]. by apply GraphReadBack.get_elem.
Qed.

Lemma graph_push_then_get_commit_witness :
  ∃ c,
    GraphDatabaseImplementation.get_commit "repo" "W"
      (GraphDatabaseImplementation.push_commit Examples.crlf_push ∅).1
    = ((GraphDatabaseImplementation.push_commit Examples.crlf_push ∅).1,
       (CommitFound c, 200))
    ∧ cd_files c !! "w.txt"
      = read_back <$> OD.get "w.txt" (files Examples.crlf_push).
Proof.
  assert (GraphDatabaseImplementation.push_commit Examples.crlf_push ∅
          = ((GraphDatabaseImplementation.push_commit Examples.crlf_push ∅).1,
             (Pushed "Commit 'W' pushed successfully" 1, 200)))
    as Hpush by (vm_compute; reflexivity).
  assert (NoDup (OD.keys (files Examples.crlf_push))) as Hnd
    by apply NoDup_singleton.
  assert (content_addressed
            (objects_of (∅ : GraphDatabaseImplementation.store)
               (repo_name Examples.crlf_push))) as Hca
    by (intros h c H; vm_compute in H; discriminate H).
  assert (collision_free
            (contents_of (files Examples.crlf_push)
             ++ map snd
                  (map_to_list
                     (objects_of (∅ : GraphDatabaseImplementation.store)
                        (repo_name Examples.crlf_push)))) = true) as Hfree
    by (vm_compute; reflexivity).
  destruct (graph_push_then_get_commit _ _ _ _ _ Hpush Hnd Hca Hfree)
    as (c & Hc & _ & _ & _ & _ & _ & Hfiles & _).
  exists c. split; [exact Hc | exact (Hfiles "w.txt")].
Defined.

(** ** The API key *)

(** X17. [require_api_key] lets a request through in two cases only: the
    server is configured with the key [no-key], or the request carries a
    non-empty [X-API-Key] equal to the configured key, [demo-key] standing
    for a key that is not configured.  So a server without [VCS_API_KEY]
    accepts [demo-key], and a server whose [VCS_API_KEY] is the empty string
    accepts no request. *)
Theorem api_key_gate :
  (∀ vcs_key api_key,
      require_api_key vcs_key api_key = true ↔
      vcs_key = Some "no-key"
      ∨ ∃ key, api_key = Some key ∧ key ≠ "" ∧ key = default "demo-key" vcs_key)
  ∧ (∀ api_key, require_api_key None api_key = true ↔ api_key = Some "demo-key")
  ∧ (∀ api_key, require_api_key (Some "") api_key = false).
Proof.
  assert (∀ vcs_key api_key,
            require_api_key vcs_key api_key = true ↔
            vcs_key = Some "no-key"
            ∨ ∃ key, api_key = Some key ∧ key ≠ "" ∧ key = default "demo-key" vcs_key)
    as Hgate.
  { intros vcs_key api_key. unfold require_api_key.
    case_bool_decide as Hno; [by split; [left|]|].
    destruct api_key as [[|a key]|]; simpl.
    - split; [done|]. intros [?|(k & [= <-] & Hk & _)]; done.
    - case_bool_decide as Heq; simpl.
      + split; [|done]. intros _. right. exists (String a key).
        split; [done|]. split; [done|]. by injection Heq.
      + split; [done|]. intros [?|(k & [= <-] & _ & Hk)]; [done|].
        by rewrite <- Hk in Heq.
    - split; [done|]. intros [?|(k & ? & _)]; done. }
  split; [exact Hgate|]. split.
  - intros api_key. rewrite Hgate. simpl. split.
    + intros [?|(k & -> & _ & ->)]; done.
    + intros ->. right. by exists "demo-key".
  - intros api_key. destruct (require_api_key (Some "") api_key) eqn:E; [|done].
    apply Hgate in E as [?|(k & _ & Hk & ->)]; done.
Qed.

(** ** When a clone of the relational backend is complete *)

Module CompleteFacts.

Import SQLiteFileSystemImplementation.

Section Asc.

Context {A : Type} (key : A → string).

Lemma insert_asc_sorted x l :
  StronglySorted (λ a b, PyStr.ltb (key b) (key a) = false) l →
  StronglySorted (λ a b, PyStr.ltb (key b) (key a) = false) (insert_asc key x l).
Proof.
  induction 1 as [|y l Hl IH Hy]; simpl.
  - repeat constructor.
  - destruct (PyStr.ltb (key y) (key x)) eqn:E.
    + constructor; [done|]. apply Forall_forall. intros w Hw.
      apply SQLiteFacts.insert_asc_elem in Hw as [->|Hw].
      * by apply OrderFacts.ltb_asym.
      * rewrite Forall_forall in Hy. by apply Hy.
    + constructor; [by constructor|]. constructor; [done|].
      apply Forall_forall. intros w Hw. rewrite Forall_forall in Hy.
      eapply OrderFacts.ltb_ge_trans; [by apply Hy | exact E].
Qed.

Lemma sort_asc_sorted l :
  StronglySorted (λ a b, PyStr.ltb (key b) (key a) = false) (sort_asc key l).
Proof.
  induction l as [|x l IH]; simpl; [constructor | by apply insert_asc_sorted].
Qed.

Lemma insert_asc_perm x l : insert_asc key x l ≡ₚ x :: l.
Proof.
  induction l as [|y l IH]; simpl; [done|].
  destruct (PyStr.ltb (key y) (key x)); [|done].
  rewrite IH. apply Permutation_swap.
Qed.

Lemma sort_asc_perm l : sort_asc key l ≡ₚ l.
Proof.
  induction l as [|x l IH]; simpl; [done|]. by rewrite insert_asc_perm, IH.
Qed.

End Asc.

(** In a list sorted by timestamp whose rows are later than their parents,
    every parent comes first. *)
Lemma sorted_parents_before rows : ∀ ids,
  StronglySorted (λ a b, PyStr.ltb (r_timestamp b) (r_timestamp a) = false) rows →
  (∀ r p, r ∈ rows → required_parent (r_parent_id r) = Some p →
     p ∈ ids
     ∨ ∃ q, q ∈ rows ∧ r_id q = p ∧ PyStr.ltb (r_timestamp q) (r_timestamp r) = true) →
  parents_before ids rows.
Proof.
  induction rows as [|r rest IH]; intros ids Hsorted Hpar; simpl; [done|].
  apply StronglySorted_inv in Hsorted as [Hrest Hall].
  rewrite Forall_forall in Hall. split.
  - intros p Hp. destruct (Hpar r p) as [|(q & Hq & Hid & Hlt)]; [by left|done|done|].
    apply elem_of_cons in Hq as [->|Hq].
    + by rewrite OrderFacts.ltb_irrefl in Hlt.
    + rewrite (Hall q Hq) in Hlt. done.
  - apply IH; [done|]. intros r' p Hr' Hp.
    destruct (Hpar r' p) as [Hin|(q & Hq & Hid & Hlt)]; [by right|done| |].
    + left. set_solver.
    + apply elem_of_cons in Hq as [->|Hq].
      * left. set_solver.
      * right. by exists q.
Qed.

Lemma insert_rows_ok {V} (rows : list (string * V)) : ∀ existing,
  NoDup (map fst rows) →
  (∀ k, k ∈ map fst rows → existing !! k = None) →
  ∃ m, insert_rows rows existing = Return m.
Proof.
  induction rows as [|[k v] rest IH]; intros existing Hnd Hfree; simpl; [by eauto|].
  simpl in Hnd. apply NoDup_cons in Hnd as [Hk Hnd].
  rewrite (Hfree k) by (by left). apply IH; [done|].
  intros q Hq. rewrite lookup_insert_ne; [apply Hfree; by right|].
  intros ->. done.
Qed.

(** Inserting what a [SELECT] returned for a commit into a table that holds
    nothing for it succeeds. *)
Lemma insert_all_ok {V} commit_id (rows : gmap string V) table :
  table !! commit_id = None →
  ∃ t, insert_all commit_id (map_to_list rows) table = Return t.
Proof.
  intros Hnone. unfold insert_all.
  destruct (map_to_list rows) as [|kv l] eqn:Hl; [by eauto|].
  rewrite Hnone. change (default ∅ None) with (∅ : gmap string V).
  destruct (insert_rows_ok (kv :: l) ∅) as [m ->]; [| |by eauto].
  - rewrite <- Hl. apply NoDup_fst_map_to_list.
  - intros k _. apply lookup_empty.
Qed.

(** The loop of a pull over rows that are new to the target, each after its
    parent, inserts them all. *)
Lemma pull_loop_all_inserted source rows : ∀ st,
  well_formed (st_db st) →
  st_ids st = list_to_set (map r_id (t_commits (st_db st))) →
  NoDup (map r_id rows) →
  (∀ r, r ∈ rows → r_id r ∉ st_ids st) →
  parents_before (st_ids st) rows →
  ∃ st',
    pull_loop source rows st = Return st'
    ∧ t_commits (st_db st') = t_commits (st_db st) ++ rows
    ∧ st_pulled st' = st_pulled st + length rows
    ∧ st_skipped st' = st_skipped st
    ∧ well_formed (st_db st')
    ∧ (∀ c, c ∉ map r_id rows →
         t_files (st_db st') !! c = t_files (st_db st) !! c
         ∧ t_changes (st_db st') !! c = t_changes (st_db st) !! c)
    ∧ (∀ r, r ∈ rows →
         select_files (r_id r) (st_db st') = select_files (r_id r) source
         ∧ select_changes (r_id r) (st_db st') = select_changes (r_id r) source).
Proof.
  induction rows as [|r rest IH]; intros st Hwf Hids Hnd Hnew Hpar; simpl.
  - exists st. rewrite app_nil_r, Nat.add_0_r.
    split; [done|]. split; [done|]. split; [done|]. split; [done|].
    split; [done|]. split; [done|]. by intros r Hr%elem_of_nil.
  - simpl in Hnd. apply NoDup_cons in Hnd as [Hr Hnd]. destruct Hpar as [Hp Hpar].
    rewrite bool_decide_eq_false_2 by (apply Hnew; by left).
    assert (parent_missing (r_parent_id r) (st_ids st) = false) as ->.
    { unfold parent_missing. destruct (r_parent_id r) as [[|a s]|]; try done.
      rewrite bool_decide_eq_true_2; [done|]. by apply Hp. }
    assert (commit_exists (r_id r) (st_db st) = false) as Hex.
    { apply TableInvariants.commit_exists_not. intros Hin.
      apply (Hnew r); [by left|]. rewrite Hids. by apply elem_of_list_to_set. }
    destruct (proj2 (proj2 Hwf) _ Hex) as [Hnf Hnc].
    destruct (insert_all_ok (r_id r) (select_files (r_id r) source)
                (t_files (st_db st)) Hnf) as [fls Hfls].
    destruct (insert_all_ok (r_id r) (select_changes (r_id r) source)
                (t_changes (st_db st)) Hnc) as [chs Hchs].
    assert ((insert_commit r ;;;
             insert_files (r_id r) (map_to_list (select_files (r_id r) source)) ;;;
             insert_changes (r_id r) (map_to_list (select_changes (r_id r) source)))
              (st_db st)
            = (Database (t_commits (st_db st) ++ [r]) fls chs, Return tt)) as ->.
    { unfold insert_commit, insert_files, insert_changes, bind. rewrite Hex.
      cbn [t_commits t_files t_changes]. rewrite Hfls. simpl. by rewrite Hchs. }
    assert (well_formed (Database (t_commits (st_db st) ++ [r]) fls chs)) as Hwf1.
    { eapply TableInvariants.well_formed_insert; eauto.
      intros p Hreq. apply TableInvariants.commit_exists_elem.
      specialize (Hp _ Hreq). rewrite Hids in Hp. by apply elem_of_list_to_set in Hp. }
    destruct (IH (PullState (Database (t_commits (st_db st) ++ [r]) fls chs)
                    ({[r_id r]} ∪ st_ids st) (st_pulled st + 1) (st_skipped st)))
      as (st' & Hloop & Hrows & Hpulled & Hskipped & Hwf' & Hother & Hsame);
      try done.
    { simpl. rewrite Hids, map_app, list_to_set_app_L. simpl. set_solver. }
    { intros r' Hr'. simpl. apply not_elem_of_union. split.
      - apply not_elem_of_singleton. intros Heq. apply Hr. rewrite <- Heq.
        apply list_elem_of_fmap. by exists r'.
      - apply Hnew. by right. }
    exists st'. split; [exact Hloop|]. simpl in *.
    split; [by rewrite Hrows, <- app_assoc|].
    split; [lia|]. split; [done|]. split; [done|]. split.
    + intros c Hc. apply not_elem_of_cons in Hc as [Hne Hc].
      destruct (Hother c Hc) as [-> ->].
      by rewrite (ChangeFacts.insert_all_other _ _ _ _ _ Hfls Hne),
        (ChangeFacts.insert_all_other _ _ _ _ _ Hchs Hne).
    + intros r' [->|Hr']%elem_of_cons; [|by apply Hsame].
      destruct (Hother (r_id r) Hr) as [Hf Hc]. simpl in Hf, Hc.
      split.
      * unfold select_files at 1. rewrite Hf.
        exact (PullCounts.insert_all_select _ _ _ _ Hfls Hnf).
      * unfold select_changes at 1. rewrite Hc.
        exact (PullCounts.insert_all_select _ _ _ _ Hchs Hnc).
Qed.

End CompleteFacts.

(** X18. In the relational backend a clone is complete when every commit of
    the source is later than its required parent.  For a source whose tables
    are well formed and whose commits all have a timestamp greater than
    their parent's, a clone to a valid name that is free answers 200 with
    every commit pulled and none skipped; the target then holds the rows of
    the source in the order of their timestamps, with the files and the
    changes of the source under every commit, its [get_commits] lists the
    entries of the source's, and the source is as it was. *)
Theorem sqlite_clone_complete :
  ∀ data fs sdb,
    validate_repo_name (source_repo data) = true →
    validate_repo_name (target_repo data) = true →
    fs !! get_repo_path (source_repo data) = Some sdb →
    fs !! get_repo_path (target_repo data) = None →
    well_formed sdb →
    later_than_parent sdb →
    ∃ msg l l',
      (SQLiteFileSystemImplementation.clone_repo None data fs).2
      = (Pulled msg (length (SQLiteFileSystemImplementation.t_commits sdb)) 0, 200)
      ∧ rows_of (SQLiteFileSystemImplementation.clone_repo None data fs).1
          (target_repo data)
        = SQLiteFileSystemImplementation.visit_order sdb
      ∧ (∀ c,
           SQLiteFileSystemImplementation.select_files c
             (db_of (SQLiteFileSystemImplementation.clone_repo None data fs).1
                (target_repo data))
           = SQLiteFileSystemImplementation.select_files c sdb
           ∧ SQLiteFileSystemImplementation.select_changes c
               (db_of (SQLiteFileSystemImplementation.clone_repo None data fs).1
                  (target_repo data))
             = SQLiteFileSystemImplementation.select_changes c sdb)
      ∧ SQLiteFileSystemImplementation.get_commits (source_repo data) fs
        = (Commits l, 200)
      ∧ SQLiteFileSystemImplementation.get_commits (target_repo data)
          (SQLiteFileSystemImplementation.clone_repo None data fs).1
        = (Commits l', 200)
      ∧ l' ≡ₚ l
      ∧ (SQLiteFileSystemImplementation.clone_repo None data fs).1
          !! get_repo_path (source_repo data) = Some sdb.
Proof.
  intros data fs sdb Hvs Hvt Hs Ht Hwf Hlater.
  assert (get_repo_path (source_repo data) ≠ get_repo_path (target_repo data)) as Hne
    by (intros Heq; rewrite Heq in Hs; congruence).
  set (rows := SQLiteFileSystemImplementation.t_commits sdb).
  set (sorted := SQLiteFileSystemImplementation.visit_order sdb).
  assert (sorted ≡ₚ rows) as Hperm by apply CompleteFacts.sort_asc_perm.
  destruct Hwf as (Hnd & Hclosed & Hbel).
  destruct (CompleteFacts.pull_loop_all_inserted sdb sorted
              (SQLiteFileSystemImplementation.PullState
                 SQLiteFileSystemImplementation.empty_db
                 (list_to_set
                    (map SQLiteFileSystemImplementation.r_id
                       (SQLiteFileSystemImplementation.t_commits
                          SQLiteFileSystemImplementation.empty_db))) 0 0))
    as (st' & Hloop & Hrows & Hpulled & Hskipped & _ & Hother & Hsame).
  { apply TableInvariants.well_formed_empty. }
  { done. }
  { by rewrite Hperm. }
  { intros r _. simpl. set_solver. }
  { apply CompleteFacts.sorted_parents_before;
      [apply CompleteFacts.sort_asc_sorted|].
    intros r p Hr Hp. right. rewrite Hperm in Hr.
    specialize (Hclosed r p Hr Hp).
    apply TableInvariants.commit_exists_elem in Hclosed.
    apply list_elem_of_fmap in Hclosed as (q & -> & Hq).
    exists q. split; [by rewrite Hperm|]. split; [done|]. by apply Hlater. }
  simpl in Hrows, Hpulled, Hskipped, Hother.
  assert (SQLiteFileSystemImplementation.clone_repo None data fs
          = (<[get_repo_path (target_repo data) :=
                 SQLiteFileSystemImplementation.st_db st']>
               (<[get_repo_path (target_repo data) :=
                    SQLiteFileSystemImplementation.empty_db]> fs),
             (Pulled
                (SQLiteFileSystemImplementation.pulled_message (source_repo data)
                   (target_repo data) (SQLiteFileSystemImplementation.st_pulled st'))
                (SQLiteFileSystemImplementation.st_pulled st')
                (SQLiteFileSystemImplementation.st_skipped st'), 200))) as Hclone.
  { unfold SQLiteFileSystemImplementation.clone_repo. rewrite Hvs, Hvt. simpl.
    unfold SQLiteFileSystemImplementation.dir_exists at 1 2. rewrite Hs, Ht. simpl.
    rewrite (LifecycleFacts.sqlite_create_fresh _ _ Hvt Ht). simpl.
    unfold SQLiteFileSystemImplementation.pull_commits. rewrite Hvs, Hvt. simpl.
    unfold SQLiteFileSystemImplementation.dir_exists.
    rewrite lookup_insert_ne, Hs by done. simpl.
    rewrite lookup_insert_eq. simpl.
    rewrite lookup_insert_ne, Hs, lookup_insert_eq by done.
    fold sorted. by rewrite Hloop. }
  rewrite Hclone. simpl.
  assert (db_of (<[get_repo_path (target_repo data) :=
                     SQLiteFileSystemImplementation.st_db st']>
                   (<[get_repo_path (target_repo data) :=
                        SQLiteFileSystemImplementation.empty_db]> fs))
            (target_repo data) = SQLiteFileSystemImplementation.st_db st') as Hdb
    by (unfold db_of; by rewrite lookup_insert_eq).
  assert (∀ c,
            SQLiteFileSystemImplementation.select_files c
              (SQLiteFileSystemImplementation.st_db st')
            = SQLiteFileSystemImplementation.select_files c sdb
            ∧ SQLiteFileSystemImplementation.select_changes c
                (SQLiteFileSystemImplementation.st_db st')
              = SQLiteFileSystemImplementation.select_changes c sdb) as Hall.
  { intros c.
    destruct (decide (c ∈ map SQLiteFileSystemImplementation.r_id sorted)) as [Hc|Hc].
    - apply list_elem_of_fmap in Hc as (r & -> & Hr). by apply Hsame.
    - destruct (Hother c Hc) as [Hf Hch].
      assert (SQLiteFileSystemImplementation.commit_exists c sdb = false) as Hex.
      { apply TableInvariants.commit_exists_not. fold rows. by rewrite <- Hperm. }
      destruct (Hbel c Hex) as [Hsf Hsc].
      unfold SQLiteFileSystemImplementation.select_files,
        SQLiteFileSystemImplementation.select_changes.
      by rewrite Hf, Hch, Hsf, Hsc. }
  eexists _, _, _.
  split; [by rewrite Hpulled, Hskipped, Hperm|].
  split; [unfold rows_of; by rewrite lookup_insert_eq|].
  split; [by rewrite Hdb|].
  unfold SQLiteFileSystemImplementation.get_commits.
  rewrite Hs, lookup_insert_eq.
  split; [reflexivity|]. split; [reflexivity|]. split.
  - rewrite Hrows. simpl.
    rewrite (map_ext _ (SQLiteFileSystemImplementation.summary sdb)).
    + apply Permutation_map.
      rewrite !ListingFacts.sort_desc_perm. exact Hperm.
    + intros r. unfold SQLiteFileSystemImplementation.summary.
      by rewrite (proj2 (Hall (SQLiteFileSystemImplementation.r_id r))).
  - by rewrite !lookup_insert_ne.
Qed.
Lemma sqlite_clone_complete_witness :
  ∃ msg l l',
    (SQLiteFileSystemImplementation.clone_repo None (SyncData "repo" "copy")
       Scenario.sqlite_ab).2
    = (Pulled msg 2 0, 200)
    ∧ SQLiteFileSystemImplementation.get_commits "repo" Scenario.sqlite_ab
      = (Commits l, 200)
    ∧ SQLiteFileSystemImplementation.get_commits "copy"
        (SQLiteFileSystemImplementation.clone_repo None (SyncData "repo" "copy")
           Scenario.sqlite_ab).1
      = (Commits l', 200)
    ∧ l' ≡ₚ l.
Proof.
  assert (well_formed (db_of Scenario.sqlite_ab "repo")) as Hwf.
  { apply (TableInvariants.push_keeps_well_formed Scenario.commit_b Scenario.sqlite_a).
    apply (TableInvariants.push_keeps_well_formed Scenario.commit_a ∅).
    apply TableInvariants.well_formed_empty. }
  assert (later_than_parent (db_of Scenario.sqlite_ab "repo")) as Hlater.
  { intros r q.
    replace (SQLiteFileSystemImplementation.t_commits (db_of Scenario.sqlite_ab "repo"))
      with [SQLiteFileSystemImplementation.CommitRow "A" "first" "alice"
              "2024-01-01T10:00:00" None;
            SQLiteFileSystemImplementation.CommitRow "B" "second" "alice"
              "2024-01-02T10:00:00" (Some "A")]
      by (vm_compute; reflexivity).
    intros Hr Hq Hp.
    apply elem_of_cons in Hr as [->|Hr]; [discriminate Hp|].
    apply list_elem_of_singleton in Hr as ->.
    apply elem_of_cons in Hq as [->|Hq]; [vm_compute; reflexivity|].
    apply list_elem_of_singleton in Hq as ->. discriminate Hp. }
  destruct (sqlite_clone_complete (SyncData "repo" "copy") Scenario.sqlite_ab
              (db_of Scenario.sqlite_ab "repo"))
    as (msg & l & l' & Hans & _ & _ & Hl & Hl' & Hperm & _).
  - vm_compute; reflexivity.
  - vm_compute; reflexivity.
  - vm_compute; reflexivity.
  - vm_compute; reflexivity.
  - exact Hwf.
  - exact Hlater.
  - exists msg, l, l'.
    split; [exact Hans|]. split; [exact Hl|]. split; [exact Hl'|exact Hperm].
Defined.

(** ** The endpoints that read one commit *)

Module ReadFacts.

Lemma find_existsb {A} (f : A → bool) l :
  existsb f l = true ↔ ∃ x, List.find f l = Some x.
Proof.
  induction l as [|y l IH]; simpl.
  - split; [done|]. by intros [x Hx].
  - destruct (f y); simpl; [|done]. split; [by exists y|done].
Qed.

Lemma graph_read_agree repo c fs :
  (GraphDatabaseImplementation.check_commit repo c fs = (Exists true, 200)
   ↔ ∃ d, (GraphDatabaseImplementation.get_commit repo c fs).2
          = (CommitFound d, 200))
  ∧ (GraphDatabaseImplementation.check_commit repo c fs = (Exists true, 200)
     ↔ ∃ ch, GraphDatabaseImplementation.get_changes repo c fs = (Changes ch, 200))
  ∧ (∀ d, (GraphDatabaseImplementation.get_commit repo c fs).2
          = (CommitFound d, 200) →
          cd_id d = c
          ∧ GraphDatabaseImplementation.get_changes repo c fs
            = (Changes (cd_changes d), 200)).
Proof.
  unfold GraphDatabaseImplementation.get_commit,
    GraphDatabaseImplementation.check_commit,
    GraphDatabaseImplementation.get_changes,
    GraphDatabaseImplementation.graph_exists,
    GraphDatabaseImplementation.not_found.
  destruct (fs !! get_repo_path repo) as [[[g|] objs]|] eqn:E; simpl.
  2,3: split; [split; [done|by intros [d Hd]]|];
       split; [split; [done|by intros [d Hd]]|done].
  unfold answer, bind, GraphDatabaseImplementation.read_graph. rewrite E.
  unfold OD.mem.
  destruct (OD.get c (GraphDatabaseImplementation.commits g)) as [cm|] eqn:Hc.
  - rewrite (PushFacts.load_files_exists _ _ _ _ _ E). simpl.
    split; [split; [by eexists|done]|].
    split; [split; [by eexists|done]|].
    intros d [= <-]. done.
  - simpl.
    split; [split; [done|by intros [d Hd]]|].
    split; [split; [done|by intros [d Hd]]|done].
Qed.

Lemma sqlite_read_agree repo c fs :
  (SQLiteFileSystemImplementation.check_commit repo c fs = (Exists true, 200)
   ↔ ∃ d, SQLiteFileSystemImplementation.get_commit repo c fs
          = (CommitFound d, 200))
  ∧ (SQLiteFileSystemImplementation.check_commit repo c fs = (Exists true, 200)
     ↔ ∃ ch, SQLiteFileSystemImplementation.get_changes repo c fs
             = (Changes ch, 200))
  ∧ (∀ d, SQLiteFileSystemImplementation.get_commit repo c fs
          = (CommitFound d, 200) →
          cd_id d = c
          ∧ SQLiteFileSystemImplementation.get_changes repo c fs
            = (Changes (cd_changes d), 200)).
Proof.
  unfold SQLiteFileSystemImplementation.get_commit,
    SQLiteFileSystemImplementation.check_commit,
    SQLiteFileSystemImplementation.get_changes,
    SQLiteFileSystemImplementation.not_found,
    SQLiteFileSystemImplementation.commit_exists.
  destruct (fs !! get_repo_path repo) as [db|] eqn:E.
  2: split; [split; [done|by intros [d Hd]]|];
     split; [split; [done|by intros [d Hd]]|done].
  destruct (List.find _ (SQLiteFileSystemImplementation.t_commits db))
    as [r|] eqn:Hf.
  - assert (existsb (λ r, String.eqb (SQLiteFileSystemImplementation.r_id r) c)
              (SQLiteFileSystemImplementation.t_commits db) = true) as ->
      by (apply find_existsb; by exists r).
    split; [split; [by eexists|done]|].
    split; [split; [by eexists|done]|].
    intros d [= <-]. simpl. split; [|done].
    apply find_some in Hf as [_ Hf]. by apply String.eqb_eq in Hf.
  - destruct (existsb _ (SQLiteFileSystemImplementation.t_commits db)) eqn:Hex.
    { apply find_existsb in Hex as [x Hx]. congruence. }
    split; [split; [done|by intros [d Hd]]|].
    split; [split; [done|by intros [d Hd]]|done].
Qed.

End ReadFacts.

(** X19. The endpoints that read one commit agree, in both backends:
    [check_commit] answers that the commit exists exactly when [get_commit]
    answers with the commit, and exactly when [get_changes] answers with a
    change record; the commit [get_commit] answers with has the id that was
    asked for, and its changes are the record [get_changes] returns. *)
Theorem read_endpoints_agree :
  ∀ repo c,
    (∀ fs,
       (GraphDatabaseImplementation.check_commit repo c fs = (Exists true, 200)
        ↔ ∃ d, (GraphDatabaseImplementation.get_commit repo c fs).2
               = (CommitFound d, 200))
       ∧ (GraphDatabaseImplementation.check_commit repo c fs = (Exists true, 200)
          ↔ ∃ ch, GraphDatabaseImplementation.get_changes repo c fs
                  = (Changes ch, 200))
       ∧ (∀ d, (GraphDatabaseImplementation.get_commit repo c fs).2
               = (CommitFound d, 200) →
               cd_id d = c
               ∧ GraphDatabaseImplementation.get_changes repo c fs
                 = (Changes (cd_changes d), 200)))
    ∧ (∀ fs,
         (SQLiteFileSystemImplementation.check_commit repo c fs = (Exists true, 200)
          ↔ ∃ d, SQLiteFileSystemImplementation.get_commit repo c fs
                 = (CommitFound d, 200))
         ∧ (SQLiteFileSystemImplementation.check_commit repo c fs
            = (Exists true, 200)
            ↔ ∃ ch, SQLiteFileSystemImplementation.get_changes repo c fs
                    = (Changes ch, 200))
         ∧ (∀ d, SQLiteFileSystemImplementation.get_commit repo c fs
                 = (CommitFound d, 200) →
                 cd_id d = c
                 ∧ SQLiteFileSystemImplementation.get_changes repo c fs
                   = (Changes (cd_changes d), 200))).
Proof.
  intros repo c. split; intros fs.
  - apply ReadFacts.graph_read_agree.
  - apply ReadFacts.sqlite_read_agree.
Qed.

(** ** The listing of the repositories *)

Module StatsFacts.

Lemma get_Some_elem {V} k (v : V) d : OD.get k d = Some v → (k, v) ∈ d.
Proof.
  induction d as [|[k' v'] d IH]; simpl; [done|].
  destruct (String.eqb k' k) eqn:E.
  - intros [= ->]. apply String.eqb_eq in E as ->. apply list_elem_of_here.
  - intros H. apply list_elem_of_further. by apply IH.
Qed.

End StatsFacts.

(** X20. [list_repos] and [get_commits] agree, in both backends: a
    repository is listed exactly when [get_commits] answers for it with a
    list; the [commit_count] of the listing is the length of that list; and
    the [last_commit] of the listing, when there is one, has the id, the
    message, the author and the timestamp of an entry of that list.  In the
    relational backend [last_commit] is missing only when the list is empty,
    and no entry of the list is later than it. *)
Theorem list_repos_agrees_with_get_commits :
  (∀ (fs : GraphDatabaseImplementation.store) repo,
      (is_Some (GraphDatabaseImplementation.list_repos fs !! get_repo_path repo)
       ↔ ∃ l, GraphDatabaseImplementation.get_commits repo fs = (Commits l, 200))
      ∧ ∀ stats l,
          GraphDatabaseImplementation.list_repos fs !! get_repo_path repo
            = Some stats →
          GraphDatabaseImplementation.get_commits repo fs = (Commits l, 200) →
          commit_count stats = length l
          ∧ ∀ ci, last_commit stats = Some ci →
              ∃ e, e ∈ l ∧ cs_id e = ci_id ci ∧ cs_message e = ci_message ci
                   ∧ cs_author e = ci_author ci
                   ∧ cs_timestamp e = ci_timestamp ci)
  ∧ (∀ (fs : SQLiteFileSystemImplementation.store) repo,
      (is_Some (SQLiteFileSystemImplementation.list_repos fs !! get_repo_path repo)
       ↔ ∃ l, SQLiteFileSystemImplementation.get_commits repo fs = (Commits l, 200))
      ∧ ∀ stats l,
          SQLiteFileSystemImplementation.list_repos fs !! get_repo_path repo
            = Some stats →
          SQLiteFileSystemImplementation.get_commits repo fs = (Commits l, 200) →
          commit_count stats = length l
          ∧ (last_commit stats = None ↔ l = [])
          ∧ ∀ ci, last_commit stats = Some ci →
              (∃ e, e ∈ l ∧ cs_id e = ci_id ci ∧ cs_message e = ci_message ci
                    ∧ cs_author e = ci_author ci
                    ∧ cs_timestamp e = ci_timestamp ci)
              ∧ ∀ e, e ∈ l → PyStr.ltb (ci_timestamp ci) (cs_timestamp e) = false).
Proof.
  split; intros fs repo.
  - unfold GraphDatabaseImplementation.list_repos,
      GraphDatabaseImplementation.get_commits,
      GraphDatabaseImplementation.not_found.
    rewrite lookup_omap.
    destruct (fs !! get_repo_path repo) as [[[g|] objs]|] eqn:E; simpl.
    2,3: split; [split; [by intros [x Hx]|by intros [l Hl]]|done].
    split; [split; [by eexists|by eexists]|].
    intros stats l [= <-] [= <-].
    split.
    { simpl. by rewrite (Permutation_length (ListingFacts.sort_desc_perm _ _)),
        length_map. }
    intros ci. unfold GraphDatabaseImplementation.repo_info. simpl.
    destruct (GraphDatabaseImplementation.HEAD g) as [[|a h]|]; [done| |done].
    destruct (OD.get (String a h) (GraphDatabaseImplementation.commits g))
      as [c|] eqn:Hc; [|done].
    intros [= <-].
    exists (GraphDatabaseImplementation.summary g (String a h, c)).
    split; [|done].
    rewrite ListingFacts.sort_desc_perm.
    apply list_elem_of_fmap. exists (String a h, c).
    split; [done|]. by apply StatsFacts.get_Some_elem.
  - unfold SQLiteFileSystemImplementation.list_repos,
      SQLiteFileSystemImplementation.get_commits,
      SQLiteFileSystemImplementation.not_found.
    rewrite lookup_fmap.
    destruct (fs !! get_repo_path repo) as [db|] eqn:E; simpl.
    2: split; [split; [by intros [x Hx]|by intros [l Hl]]|done].
    split; [split; [by eexists|by eexists]|].
    intros stats l [= <-] [= <-].
    split.
    { simpl. by rewrite length_map,
        (Permutation_length (ListingFacts.sort_desc_perm _ _)). }
    unfold SQLiteFileSystemImplementation.repo_info. simpl.
    destruct (sort_desc SQLiteFileSystemImplementation.r_timestamp
                (SQLiteFileSystemImplementation.t_commits db)) as [|r rest] eqn:Hs.
    { split; [done|]. intros ci Hci. discriminate Hci. }
    split; [done|].
    intros ci [= <-]. simpl. split.
    + exists (SQLiteFileSystemImplementation.summary db r).
      split; [apply list_elem_of_here|done].
    + intros e He.
      change (SQLiteFileSystemImplementation.summary db r
              :: map (SQLiteFileSystemImplementation.summary db) rest)
        with (map (SQLiteFileSystemImplementation.summary db) (r :: rest)) in He.
      apply list_elem_of_fmap in He as (q & -> & Hq). simpl.
      apply (proj2 (OrderFacts.sort_desc_head _ _ _ _ Hs)).
      apply (OrderFacts.sort_desc_elem SQLiteFileSystemImplementation.r_timestamp).
      by rewrite Hs.
Qed.

Lemma list_repos_agrees_with_get_commits_witness :
  (∃ stats l,
      GraphDatabaseImplementation.list_repos Scenario.graph_ab !! "repo" = Some stats
      ∧ GraphDatabaseImplementation.get_commits "repo" Scenario.graph_ab
        = (Commits l, 200)
      ∧ commit_count stats = length l)
  ∧ (∃ stats l,
      SQLiteFileSystemImplementation.list_repos Scenario.sqlite_ab !! "repo"
        = Some stats
      ∧ SQLiteFileSystemImplementation.get_commits "repo" Scenario.sqlite_ab
        = (Commits l, 200)
      ∧ commit_count stats = length l).
Proof.
  split.
  - eexists _, _.
    assert (GraphDatabaseImplementation.list_repos Scenario.graph_ab
              !! get_repo_path "repo" = Some _) as Hl by (vm_compute; reflexivity).
    assert (GraphDatabaseImplementation.get_commits "repo" Scenario.graph_ab
            = (Commits _, 200)) as Hc by (vm_compute; reflexivity).
    split; [exact Hl|]. split; [exact Hc|].
    exact (proj1 (proj2 (proj1 list_repos_agrees_with_get_commits
                           Scenario.graph_ab "repo") _ _ Hl Hc)).
  - eexists _, _.
    assert (SQLiteFileSystemImplementation.list_repos Scenario.sqlite_ab
              !! get_repo_path "repo" = Some _) as Hl by (vm_compute; reflexivity).
    assert (SQLiteFileSystemImplementation.get_commits "repo" Scenario.sqlite_ab
            = (Commits _, 200)) as Hc by (vm_compute; reflexivity).
    split; [exact Hl|]. split; [exact Hc|].
    exact (proj1 (proj2 (proj2 list_repos_agrees_with_get_commits
                           Scenario.sqlite_ab "repo") _ _ Hl Hc)).
Defined.

(** ** What a clone of the document backend can be asked *)

Module CloneReads.

Import GraphDatabaseImplementation.

(** The answers of the reading endpoints depend on the directory of the
    repository only. *)
Lemma get_commit_same fs1 fs2 r1 r2 c g objs :
  fs1 !! get_repo_path r1 = Some (RepoDir (Some g) objs) →
  fs2 !! get_repo_path r2 = Some (RepoDir (Some g) objs) →
  (get_commit r1 c fs1).2 = (get_commit r2 c fs2).2.
Proof.
  intros H1 H2. unfold get_commit, graph_exists. rewrite H1, H2. simpl.
  unfold answer, bind, read_graph. rewrite H1, H2.
  destruct (OD.get c (commits g)) as [cm|]; [|done].
  by rewrite (PushFacts.load_files_exists _ _ _ _ _ H1),
    (PushFacts.load_files_exists _ _ _ _ _ H2).
Qed.

End CloneReads.

(** X21. A clone of the document backend is exact.  For valid names, a
    source that holds a graph and a target name that is free, [clone_repo]
    answers 200 with the number of commits of the source and leaves the
    source as it was; afterwards [get_commits], [get_commit], [get_changes],
    [check_commit] and [get_commit_history] answer on the target what they
    answer on the source, and [list_repos] reports the same statistics for
    both. *)
Theorem graph_clone_is_exact :
  ∀ data fs g objs,
    validate_repo_name (source_repo data) = true →
    validate_repo_name (target_repo data) = true →
    fs !! get_repo_path (source_repo data)
      = Some (GraphDatabaseImplementation.RepoDir (Some g) objs) →
    fs !! get_repo_path (target_repo data) = None →
    (∃ msg files,
       (GraphDatabaseImplementation.clone_repo None data fs).2
       = (Cloned msg (length (GraphDatabaseImplementation.commits g)) files, 200))
    ∧ (GraphDatabaseImplementation.clone_repo None data fs).1
        !! get_repo_path (source_repo data)
      = Some (GraphDatabaseImplementation.RepoDir (Some g) objs)
    ∧ GraphDatabaseImplementation.get_commits (target_repo data)
        (GraphDatabaseImplementation.clone_repo None data fs).1
      = GraphDatabaseImplementation.get_commits (source_repo data) fs
    ∧ (∀ c,
         (GraphDatabaseImplementation.get_commit (target_repo data) c
            (GraphDatabaseImplementation.clone_repo None data fs).1).2
         = (GraphDatabaseImplementation.get_commit (source_repo data) c fs).2
         ∧ GraphDatabaseImplementation.get_changes (target_repo data) c
             (GraphDatabaseImplementation.clone_repo None data fs).1
           = GraphDatabaseImplementation.get_changes (source_repo data) c fs
         ∧ GraphDatabaseImplementation.check_commit (target_repo data) c
             (GraphDatabaseImplementation.clone_repo None data fs).1
           = GraphDatabaseImplementation.check_commit (source_repo data) c fs)
    ∧ (∀ file_path,
         GraphDatabaseImplementation.get_commit_history (target_repo data) file_path
           (GraphDatabaseImplementation.clone_repo None data fs).1
         = GraphDatabaseImplementation.get_commit_history (source_repo data)
             file_path fs)
    ∧ GraphDatabaseImplementation.list_repos
        (GraphDatabaseImplementation.clone_repo None data fs).1
        !! get_repo_path (target_repo data)
      = GraphDatabaseImplementation.list_repos fs
          !! get_repo_path (source_repo data).
Proof.
  intros data fs g objs Hvs Hvt Hs Ht.
  assert (get_repo_path (source_repo data) ≠ get_repo_path (target_repo data)) as Hne
    by (intros Heq; rewrite Heq in Hs; congruence).
  destruct (CloneFacts.graph_clone_copies data fs g objs Hvs Hvt Hs Ht) as [msg ->].
  simpl.
  assert ((<[get_repo_path (target_repo data) :=
               GraphDatabaseImplementation.RepoDir (Some g) objs]> fs)
            !! get_repo_path (target_repo data)
          = Some (GraphDatabaseImplementation.RepoDir (Some g) objs)) as Htg
    by apply lookup_insert_eq.
  split; [by eexists _, _|].
  split; [by rewrite lookup_insert_ne|].
  split.
  { unfold GraphDatabaseImplementation.get_commits. by rewrite Htg, Hs. }
  split.
  { intros c. split; [exact (CloneReads.get_commit_same _ _ _ _ c g objs Htg Hs)|].
    unfold GraphDatabaseImplementation.get_changes,
      GraphDatabaseImplementation.check_commit. by rewrite Htg, Hs. }
  split.
  { intros file_path. unfold GraphDatabaseImplementation.get_commit_history.
    by rewrite Htg, Hs. }
  unfold GraphDatabaseImplementation.list_repos.
  by rewrite !lookup_omap, Htg, Hs.
Qed.

Lemma graph_clone_is_exact_witness :
  GraphDatabaseImplementation.get_commits "copy"
    (GraphDatabaseImplementation.clone_repo None (SyncData "repo" "copy")
       Scenario.graph_ab).1
  = GraphDatabaseImplementation.get_commits "repo" Scenario.graph_ab.
Proof.
  refine (proj1 (proj2 (proj2 (graph_clone_is_exact (SyncData "repo" "copy")
                                 Scenario.graph_ab
                                 (graph_of Scenario.graph_ab "repo")
                                 (objects_of Scenario.graph_ab "repo") _ _ _ _)))).
  all: vm_compute; reflexivity.
Defined.

(** X22. A clone followed by the deletion of the target gives back the
    store the clone started from, in both backends: for valid names, a
    source that exists and a target name that is free, [delete_repo] of the
    target after [clone_repo] answers 200 and leaves every directory as it
    was before the clone. *)
Theorem clone_then_delete_restores :
  (∀ outer data fs g objs,
      validate_repo_name (source_repo data) = true →
      validate_repo_name (target_repo data) = true →
      fs !! get_repo_path (source_repo data)
        = Some (GraphDatabaseImplementation.RepoDir (Some g) objs) →
      fs !! get_repo_path (target_repo data) = None →
      ∃ msg,
        GraphDatabaseImplementation.delete_repo outer (target_repo data)
          (GraphDatabaseImplementation.clone_repo None data fs).1
        = (fs, (Message msg, 200)))
  ∧ (∀ outer data fs sdb,
      validate_repo_name (source_repo data) = true →
      validate_repo_name (target_repo data) = true →
      fs !! get_repo_path (source_repo data) = Some sdb →
      fs !! get_repo_path (target_repo data) = None →
      ∃ msg,
        SQLiteFileSystemImplementation.delete_repo outer (target_repo data)
          (SQLiteFileSystemImplementation.clone_repo None data fs).1
        = (fs, (Message msg, 200))).
Proof.
  split.
  - intros outer data fs g objs Hvs Hvt Hs Ht.
    destruct (CloneFacts.graph_clone_copies data fs g objs Hvs Hvt Hs Ht) as [msg ->].
    simpl. eexists.
    unfold GraphDatabaseImplementation.delete_repo,
      GraphDatabaseImplementation.dir_exists.
    rewrite (PathFacts.valid_names_repository _ Hvt), lookup_insert_eq. simpl. by rewrite delete_insert_id.
  - intros outer data fs sdb Hvs Hvt Hs Ht.
    assert (get_repo_path (source_repo data) ≠ get_repo_path (target_repo data))
      as Hne by (intros Heq; rewrite Heq in Hs; congruence).
    assert (∃ db, (SQLiteFileSystemImplementation.clone_repo None data fs).1
                  = <[get_repo_path (target_repo data) := db]> fs) as [db ->].
    { unfold SQLiteFileSystemImplementation.clone_repo. rewrite Hvs, Hvt. simpl.
      unfold SQLiteFileSystemImplementation.dir_exists at 1 2. rewrite Hs, Ht. simpl.
      rewrite (LifecycleFacts.sqlite_create_fresh _ _ Hvt Ht). simpl.
      unfold SQLiteFileSystemImplementation.pull_commits. rewrite Hvs, Hvt. simpl.
      unfold SQLiteFileSystemImplementation.dir_exists.
      rewrite lookup_insert_ne, Hs by done. simpl.
      rewrite lookup_insert_eq. simpl.
      rewrite lookup_insert_ne, Hs, lookup_insert_eq by done.
      destruct (SQLiteFileSystemImplementation.pull_loop _ _ _) as [st|e]; simpl.
      - eexists. by rewrite insert_insert_eq.
      - by eexists. }
    eexists.
    unfold SQLiteFileSystemImplementation.delete_repo,
      SQLiteFileSystemImplementation.dir_exists.
    rewrite (PathFacts.valid_names_repository _ Hvt), lookup_insert_eq. simpl. by rewrite delete_insert_id.
Qed.

Lemma clone_then_delete_restores_witness :
  (∃ msg,
      GraphDatabaseImplementation.delete_repo true "copy"
        (GraphDatabaseImplementation.clone_repo None (SyncData "repo" "copy")
           Scenario.graph_ab).1
      = (Scenario.graph_ab, (Message msg, 200)))
  ∧ (∃ msg,
      SQLiteFileSystemImplementation.delete_repo true "copy"
        (SQLiteFileSystemImplementation.clone_repo None (SyncData "late" "copy")
           Scenario.sqlite_late).1
      = (Scenario.sqlite_late, (Message msg, 200))).
Proof.
  split.
  - refine (proj1 clone_then_delete_restores true (SyncData "repo" "copy")
              Scenario.graph_ab (graph_of Scenario.graph_ab "repo")
              (objects_of Scenario.graph_ab "repo") _ _ _ _).
    all: vm_compute; reflexivity.
  - refine (proj2 clone_then_delete_restores true (SyncData "late" "copy")
              Scenario.sqlite_late Scenario.late_db _ _ _ _).
    all: vm_compute; reflexivity.
Defined.

(** ** A pull into a target that is up to date *)

Module UpToDate.

(** Every commit the visit adds to the order is the one it starts from or
    the required parent of a commit it adds. *)
Lemma visit_within cs (Q : string → Prop) fuel :
  (∀ c p, Q c → parent_of cs c = Some p → Q p) →
  ∀ commit_id visited order visited' order',
    GraphDatabaseImplementation.visit fuel cs commit_id (visited, order)
      = Some (visited', order') →
    Q commit_id → Forall Q order → Forall Q order'.
Proof.
  intros Hcl.
  induction fuel as [|fuel IH]; intros commit_id visited order visited' order' Hv Hc Ho;
    [done|].
  rewrite VisitFacts.visit_unfold in Hv. case_bool_decide as Hin.
  { by injection Hv as <- <-. }
  destruct (parent_of cs commit_id) as [p|] eqn:Hp.
  - destruct (GraphDatabaseImplementation.visit fuel cs p _) as [[v1 o1]|] eqn:Hrec;
      [|done].
    injection Hv as <- <-.
    apply Forall_app. split; [|by constructor].
    eapply IH; [exact Hrec| |exact Ho]. by eapply Hcl.
  - injection Hv as <- <-. apply Forall_app. split; [done|by constructor].
Qed.

Lemma visit_all_within cs (Q : string → Prop) fuel ids :
  (∀ c p, Q c → parent_of cs c = Some p → Q p) →
  Forall Q ids →
  ∀ visited order visited' order',
    GraphDatabaseImplementation.visit_all fuel cs ids (visited, order)
      = Some (visited', order') →
    Forall Q order → Forall Q order'.
Proof.
  intros Hcl Hids. induction Hids as [|c ids Hc Hids IH];
    intros visited order visited' order' Hv Ho; simpl in Hv.
  - by injection Hv as <- <-.
  - destruct (GraphDatabaseImplementation.visit fuel cs c (visited, order))
      as [[v1 o1]|] eqn:Hvis; [|done].
    eapply IH; [exact Hv|]. by eapply visit_within.
Qed.

(** The loop of the document backend's pull over commits the target holds:
    nothing is read or written, every commit is counted as skipped. *)
Lemma graph_pull_loop_skips s t source order : ∀ st fs,
  Forall (λ k, k ∈ GraphDatabaseImplementation.st_ids st) order →
  GraphDatabaseImplementation.pull_loop s t source order st fs
  = (fs, Return (GraphDatabaseImplementation.PullState
                   (GraphDatabaseImplementation.st_graph st)
                   (GraphDatabaseImplementation.st_ids st)
                   (GraphDatabaseImplementation.st_pulled st)
                   (GraphDatabaseImplementation.st_skipped st + length order))).
Proof.
  induction order as [|k order IH]; intros st fs Hall; simpl.
  - rewrite Nat.add_0_r. by destruct st.
  - apply Forall_cons in Hall as [Hk Hall].
    rewrite bool_decide_eq_true_2 by done.
    rewrite IH by done. simpl. do 3 f_equal. lia.
Qed.

Lemma sqlite_pull_loop_skips source rows : ∀ st,
  Forall (λ r, SQLiteFileSystemImplementation.r_id r
               ∈ SQLiteFileSystemImplementation.st_ids st) rows →
  SQLiteFileSystemImplementation.pull_loop source rows st
  = Return (SQLiteFileSystemImplementation.PullState
              (SQLiteFileSystemImplementation.st_db st)
              (SQLiteFileSystemImplementation.st_ids st)
              (SQLiteFileSystemImplementation.st_pulled st)
              (SQLiteFileSystemImplementation.st_skipped st + length rows)).
Proof.
  induction rows as [|r rows IH]; intros st Hall; simpl.
  - rewrite Nat.add_0_r. by destruct st.
  - apply Forall_cons in Hall as [Hk Hall].
    rewrite bool_decide_eq_true_2 by done.
    rewrite IH by done. simpl. do 2 f_equal. lia.
Qed.

End UpToDate.

(** X23. A pull into a target that is up to date changes nothing.  Document
    backend: when the target holds every commit of the source and every
    parent a commit of the source names, [pull_commits] answers 200 with no
    commit pulled and every visited commit skipped, and the whole store is
    as it was.  Relational backend: when the target holds the id of every
    row of the source, [pull_commits] answers 200 with no commit pulled and
    as many skipped as the source has rows, and the store is as it was.
    Both cover a pull of a repository into itself. *)
Theorem pull_into_up_to_date_target :
  (∀ limit data fs sg sobjs tg tobjs,
      length (GraphDatabaseImplementation.commits sg) < limit →
      validate_repo_name (source_repo data) = true →
      validate_repo_name (target_repo data) = true →
      fs !! get_repo_path (source_repo data)
        = Some (GraphDatabaseImplementation.RepoDir (Some sg) sobjs) →
      fs !! get_repo_path (target_repo data)
        = Some (GraphDatabaseImplementation.RepoDir (Some tg) tobjs) →
      (∀ k, k ∈ OD.keys (GraphDatabaseImplementation.commits sg) →
            OD.mem k (GraphDatabaseImplementation.commits tg) = true) →
      (∀ k p, parent_of (GraphDatabaseImplementation.commits sg) k = Some p →
              OD.mem p (GraphDatabaseImplementation.commits tg) = true) →
      ∃ msg order,
        GraphDatabaseImplementation.commit_order limit
          (GraphDatabaseImplementation.commits sg) = Some order
        ∧ GraphDatabaseImplementation.pull_commits limit data fs
          = (fs, (Pulled msg 0 (length order), 200)))
  ∧ (∀ data fs sdb tdb,
      validate_repo_name (source_repo data) = true →
      validate_repo_name (target_repo data) = true →
      fs !! get_repo_path (source_repo data) = Some sdb →
      fs !! get_repo_path (target_repo data) = Some tdb →
      (∀ r, r ∈ SQLiteFileSystemImplementation.t_commits sdb →
            SQLiteFileSystemImplementation.commit_exists
              (SQLiteFileSystemImplementation.r_id r) tdb = true) →
      ∃ msg,
        SQLiteFileSystemImplementation.pull_commits false data fs
        = (fs, (Pulled msg 0
                  (length (SQLiteFileSystemImplementation.t_commits sdb)), 200))).
Proof.
  split.
  - intros limit data fs sg sobjs tg tobjs Hlimit Hvs Hvt Hs Ht Hkeys Hparents.
    destruct (VisitFacts.commit_order_total limit
                (GraphDatabaseImplementation.commits sg) Hlimit)
      as [order Horder].
    set (Q := λ k : string,
           k ∈ (list_to_set (OD.keys (GraphDatabaseImplementation.commits tg))
                : gset string)).
    assert (∀ k, OD.mem k (GraphDatabaseImplementation.commits tg) = true → Q k)
      as HQ.
    { intros k Hk. unfold Q. apply elem_of_list_to_set. by apply ODFacts.mem_keys. }
    assert (Forall Q order) as Hall.
    { unfold GraphDatabaseImplementation.commit_order in Horder.
      destruct (GraphDatabaseImplementation.visit_all _ _ _ _)
        as [[visited' order']|] eqn:Hv; [|done].
      simpl in Horder. injection Horder as ->.
      eapply (UpToDate.visit_all_within _ Q); [| |exact Hv|by constructor].
      - intros c p _ Hp. apply HQ. by eapply Hparents.
      - apply Forall_forall. intros k Hk. by apply HQ, Hkeys. }
    eexists _, order. split; [done|].
    unfold GraphDatabaseImplementation.pull_commits. rewrite Hvs, Hvt. simpl.
    rewrite (GraphFacts.graph_exists_true _ _ _ _ Hs),
      (GraphFacts.graph_exists_true _ _ _ _ Ht). simpl.
    unfold answer, GraphDatabaseImplementation.pull_body, bind,
      GraphDatabaseImplementation.read_graph. rewrite Hs, Ht, Horder.
    rewrite UpToDate.graph_pull_loop_skips by exact Hall. simpl.
    unfold GraphDatabaseImplementation.write_graph. rewrite Ht. simpl.
    by rewrite insert_id.
  - intros data fs sdb tdb Hvs Hvt Hs Ht Hids.
    eexists.
    unfold SQLiteFileSystemImplementation.pull_commits. rewrite Hvs, Hvt. simpl.
    unfold SQLiteFileSystemImplementation.dir_exists. rewrite Hs, Ht. simpl.
    rewrite Hs, Ht. rewrite UpToDate.sqlite_pull_loop_skips.
    + simpl. rewrite insert_id by done.
      unfold SQLiteFileSystemImplementation.visit_order.
      by rewrite (Permutation_length (CompleteFacts.sort_asc_perm _ _)).
    + simpl. apply Forall_forall. intros r Hr.
      apply elem_of_list_to_set, TableInvariants.commit_exists_elem, Hids.
      apply (SQLiteFacts.sort_asc_elem SQLiteFileSystemImplementation.r_timestamp).
      exact Hr.
Qed.

Lemma pull_into_up_to_date_target_witness :
  (∃ msg,
      GraphDatabaseImplementation.pull_commits Scenario.depth
        (SyncData "repo" "repo") Scenario.graph_ab
      = (Scenario.graph_ab, (Pulled msg 0 2, 200)))
  ∧ (∃ msg,
      SQLiteFileSystemImplementation.pull_commits false (SyncData "late" "late")
        Scenario.sqlite_late
      = (Scenario.sqlite_late, (Pulled msg 0 2, 200))).
Proof.
  split.
  - destruct (proj1 pull_into_up_to_date_target Scenario.depth
                (SyncData "repo" "repo")
                Scenario.graph_ab (graph_of Scenario.graph_ab "repo")
                (objects_of Scenario.graph_ab "repo")
                (graph_of Scenario.graph_ab "repo")
                (objects_of Scenario.graph_ab "repo"))
      as (msg & order & Horder & Hpull).
    + vm_compute. lia.
    + vm_compute; reflexivity.
    + vm_compute; reflexivity.
    + vm_compute; reflexivity.
    + vm_compute; reflexivity.
    + intros k Hk. by apply ODFacts.mem_keys.
    + intros k p Hp. unfold parent_of in Hp.
      destruct (OD.get k (GraphDatabaseImplementation.commits
                            (graph_of Scenario.graph_ab "repo")))
        as [c|] eqn:Hg; [|discriminate Hp].
      apply StatsFacts.get_Some_elem in Hg.
      replace (GraphDatabaseImplementation.commits (graph_of Scenario.graph_ab "repo"))
        with [("A", GraphDatabaseImplementation.Commit "first" "alice"
                      "2024-01-01T10:00:00" None
                      [("f.txt", calculate_hash "v1")]);
              ("B", GraphDatabaseImplementation.Commit "second" "alice"
                      "2024-01-02T10:00:00" (Some "A")
                      [("f.txt", calculate_hash "v2")])] in Hg
        by (vm_compute; reflexivity).
      apply elem_of_cons in Hg as [Hg|Hg].
      { injection Hg as -> ->. discriminate Hp. }
      apply list_elem_of_singleton in Hg. injection Hg as -> ->.
      injection Hp as <-. vm_compute; reflexivity.
    + exists msg.
      assert (order = ["A"; "B"]) as ->.
      { assert (GraphDatabaseImplementation.commit_order Scenario.depth
                  (GraphDatabaseImplementation.commits
                     (graph_of Scenario.graph_ab "repo")) = Some ["A"; "B"]) as Ho
          by (vm_compute; reflexivity).
        rewrite Ho in Horder. injection Horder as <-. reflexivity. }
      exact Hpull.
  - refine (proj2 pull_into_up_to_date_target (SyncData "late" "late")
              Scenario.sqlite_late Scenario.late_db Scenario.late_db _ _ _ _ _).
    1-4: vm_compute; reflexivity.
    intros r Hr. by apply TableInvariants.commit_exists_elem, list_elem_of_fmap_2.
Defined.

(** ** A pull into a repository that does not exist yet *)

Module FreshPull.

Import GraphDatabaseImplementation.

Lemma before_cons_inv p c k rest :
  before p c (k :: rest) → (p = k ∧ c ∈ rest) ∨ before p c rest.
Proof.
  intros (l1 & l2 & l3 & Heq). destruct l1 as [|a l1]; simpl in Heq.
  - injection Heq as -> ->. left. split; [done|].
    apply elem_of_app. right. apply list_elem_of_here.
  - injection Heq as -> ->. right. by exists l1, l2, l3.
Qed.

Lemma before_elem p c l : before p c l → c ∈ l.
Proof.
  intros (l1 & l2 & l3 & ->). apply elem_of_app. right.
  apply list_elem_of_further, elem_of_app. right. apply list_elem_of_here.
Qed.

Lemma store_object_ok repo text fs dir :
  fs !! get_repo_path repo = Some dir →
  ∃ fs' dir',
    store_object repo text fs = (fs', Return (calculate_hash text))
    ∧ fs' !! get_repo_path repo = Some dir'
    ∧ graph_json dir' = graph_json dir
    ∧ ∀ d, d ≠ get_repo_path repo → fs' !! d = fs !! d.
Proof.
  intros E. unfold store_object, bind.
  rewrite (GraphFacts.get_objects_dir_exists _ _ _ E). rewrite E.
  destruct (objects dir !! calculate_hash text).
  - by exists fs, dir.
  - eexists _, _. split; [done|]. rewrite lookup_insert_eq.
    split; [done|]. split; [done|].
    intros d Hd. by rewrite lookup_insert_ne.
Qed.

(** The files of a commit are copied when the source holds their objects. *)
Lemma copy_files_ok s t sdir files : ∀ acc fs tdir,
  get_repo_path s ≠ get_repo_path t →
  fs !! get_repo_path s = Some sdir →
  fs !! get_repo_path t = Some tdir →
  (∀ p h, (p, h) ∈ files → is_Some (objects sdir !! h)) →
  ∃ fs' files_dict tdir',
    copy_files s t files acc fs = (fs', Return files_dict)
    ∧ fs' !! get_repo_path s = Some sdir
    ∧ fs' !! get_repo_path t = Some tdir'
    ∧ graph_json tdir' = graph_json tdir.
Proof.
  induction files as [|[p h] files IH]; intros acc fs tdir Hne Hs Ht Hobjs; simpl.
  - by exists fs, acc, tdir.
  - unfold bind at 1. rewrite (GraphFacts.get_object_content_exists _ _ _ _ Hs).
    destruct (Hobjs p h) as [text Htext]; [apply list_elem_of_here|].
    rewrite Htext. simpl.
    destruct (store_object_ok t (PyStr.universal_newlines text) fs tdir Ht)
      as (fs1 & tdir1 & Hst & Ht1 & Hg1 & Hframe).
    unfold bind. rewrite Hst.
    destruct (IH (OD.set p (calculate_hash (PyStr.universal_newlines text)) acc)
                fs1 tdir1 Hne)
      as (fs' & files_dict & tdir' & Hcopy & Hs' & Ht' & Hg'); [| done | |].
    + by rewrite Hframe.
    + intros p' h' Hin. apply (Hobjs p' h'). by apply list_elem_of_further.
    + exists fs', files_dict, tdir'. by rewrite Hg', Hg1.
Qed.

Lemma parent_not_missing c ids :
  (∀ p, required_parent (c_parent_id c) = Some p → p ∈ ids) →
  parent_missing (c_parent_id c) ids = false.
Proof.
  unfold parent_missing. destruct (c_parent_id c) as [[|a p]|]; simpl; [done| |done].
  intros H. by rewrite bool_decide_eq_true_2 by by apply H.
Qed.

(** The loop of a pull over commits that the target does not hold, whose
    objects the source holds and whose parents come first: every one of
    them is added. *)
Lemma pull_loop_all s t sg sobjs order : ∀ st fs tdir,
  get_repo_path s ≠ get_repo_path t →
  fs !! get_repo_path s = Some (RepoDir (Some sg) sobjs) →
  fs !! get_repo_path t = Some tdir →
  st_ids st = list_to_set (OD.keys (commits (st_graph st))) →
  NoDup order →
  (∀ k, k ∈ order → k ∉ st_ids st) →
  (∀ k, k ∈ order →
        ∃ c, OD.get k (commits sg) = Some c
             ∧ ∀ p h, (p, h) ∈ c_files c → is_Some (sobjs !! h)) →
  (∀ k p, k ∈ order → parent_of (commits sg) k = Some p →
          p ∈ st_ids st ∨ before p k order) →
  ∃ fs' st' tdir',
    pull_loop s t sg order st fs = (fs', Return st')
    ∧ fs' !! get_repo_path t = Some tdir'
    ∧ graph_json tdir' = graph_json tdir
    ∧ st_pulled st' = st_pulled st + length order
    ∧ st_skipped st' = st_skipped st
    ∧ OD.keys (commits (st_graph st')) = OD.keys (commits (st_graph st)) ++ order
    ∧ HEAD (st_graph st')
      = match HEAD (st_graph st) with Some h => Some h | None => head order end.
Proof.
  induction order as [|k rest IH];
    intros st fs tdir Hne Hs Ht Hids Hnd Hnew Hsrc Hpar; simpl.
  - exists fs, st, tdir. rewrite Nat.add_0_r, app_nil_r.
    split; [done|]. split; [done|]. split; [done|]. split; [done|].
    split; [done|]. split; [done|]. by destruct (HEAD (st_graph st)).
  - apply NoDup_cons in Hnd as [Hk Hnd].
    rewrite bool_decide_eq_false_2 by (apply Hnew; apply list_elem_of_here).
    destruct (Hsrc k) as (c & Hc & Hobjs); [apply list_elem_of_here|].
    rewrite Hc. rewrite parent_not_missing.
    2:{ intros p Hp.
        destruct (Hpar k p) as [Hin|Hb]; [apply list_elem_of_here| |done|].
        { unfold parent_of. by rewrite Hc. }
        apply before_cons_inv in Hb as [[_ Hin]|Hb]; [done|].
        by apply before_elem in Hb. }
    destruct (copy_files_ok s t (RepoDir (Some sg) sobjs) (c_files c) [] fs tdir
                Hne Hs Ht Hobjs)
      as (fs1 & files_dict & tdir1 & Hcopy & Hs1 & Ht1 & Hg1).
    unfold bind. rewrite Hcopy.
    assert (OD.get k (commits (st_graph st)) = None) as Hfresh.
    { apply ODFacts.get_None. intros Hin.
      apply (Hnew k); [apply list_elem_of_here|].
      rewrite Hids. by apply elem_of_list_to_set. }
    match goal with
    | |- ∃ _ _ _, pull_loop _ _ _ _ ?st1 _ = _ ∧ _ =>
        destruct (IH st1 fs1 tdir1 Hne Hs1 Ht1)
          as (fs' & st' & tdir' & Hloop & Ht' & Hg' & Hp' & Hsk' & Hkeys' & Hhead')
    end.
    + simpl. rewrite Hids.
      destruct (HEAD (st_graph st)); simpl;
        rewrite (ODFacts.keys_set_fresh _ _ _ Hfresh), list_to_set_app_L;
        set_solver.
    + done.
    + intros k' Hk'. simpl. intros [Heq%elem_of_singleton|Hin]%elem_of_union.
      * by subst k'.
      * apply (Hnew k'); [by apply list_elem_of_further|done].
    + intros k' Hk'. apply Hsrc. by apply list_elem_of_further.
    + intros k' p Hk' Hp. simpl.
      destruct (Hpar k' p) as [Hin|Hb]; [by apply list_elem_of_further|done| |].
      * left. set_solver.
      * apply before_cons_inv in Hb as [[-> _]|Hb]; [left; set_solver|by right].
    + exists fs', st', tdir'. rewrite Hloop. split; [done|]. split; [done|].
      split; [by rewrite Hg', Hg1|].
      split; [rewrite Hp'; simpl; lia|]. split; [by rewrite Hsk'|].
      split.
      * rewrite Hkeys'.
        destruct (HEAD (st_graph st)); simpl;
          by rewrite (ODFacts.keys_set_fresh _ _ _ Hfresh), <- app_assoc.
      * rewrite Hhead'. by destruct (HEAD (st_graph st)).
Qed.

End FreshPull.

(** X24. A pull of the document backend into a repository that does not
    exist yet takes every commit of the source, when the recursion limit
    exceeds the number of commits, the parent links of the source are
    acyclic, every parent named is a commit of the source and the source
    holds the object of every file.  The pull answers 200
    with as many commits pulled as the source has ids and none skipped; the
    target then holds exactly these commits, in the order of the visit, and
    its HEAD is the first commit pulled. *)
Theorem graph_pull_into_new_repository :
  ∀ limit data fs sg sobjs,
    length (GraphDatabaseImplementation.commits sg) < limit →
    validate_repo_name (source_repo data) = true →
    validate_repo_name (target_repo data) = true →
    fs !! get_repo_path (source_repo data)
      = Some (GraphDatabaseImplementation.RepoDir (Some sg) sobjs) →
    fs !! get_repo_path (target_repo data) = None →
    acyclic (parent_of (GraphDatabaseImplementation.commits sg)) →
    (∀ k p, parent_of (GraphDatabaseImplementation.commits sg) k = Some p →
            p ∈ OD.keys (GraphDatabaseImplementation.commits sg)) →
    (∀ k c p h,
        OD.get k (GraphDatabaseImplementation.commits sg) = Some c →
        (p, h) ∈ GraphDatabaseImplementation.c_files c →
        is_Some (sobjs !! h)) →
    ∃ msg order,
      GraphDatabaseImplementation.commit_order limit
        (GraphDatabaseImplementation.commits sg) = Some order
      ∧ (∀ k, k ∈ order ↔ k ∈ OD.keys (GraphDatabaseImplementation.commits sg))
      ∧ (GraphDatabaseImplementation.pull_commits limit data fs).2
        = (Pulled msg (length order) 0, 200)
      ∧ OD.keys (commits_of (GraphDatabaseImplementation.pull_commits limit data fs).1
                   (target_repo data))
        = order
      ∧ GraphDatabaseImplementation.HEAD
          (graph_of (GraphDatabaseImplementation.pull_commits limit data fs).1
             (target_repo data))
        = head order.
Proof.
  intros limit data fs sg sobjs Hlimit Hvs Hvt Hs Ht Hacyclic Hclosed Hobjs.
  assert (get_repo_path (source_repo data) ≠ get_repo_path (target_repo data)) as Hne
    by (intros Heq; rewrite Heq in Hs; congruence).
  destruct (VisitFacts.commit_order_total limit
              (GraphDatabaseImplementation.commits sg) Hlimit)
    as [order Horder].
  destruct (VisitFacts.commit_order_spec _ _ _ Horder) as (Hnd & Hkeys & Hfirst).
  assert (Forall (λ k, k ∈ OD.keys (GraphDatabaseImplementation.commits sg)) order)
    as Hwithin.
  { pose proof Horder as Ho. unfold GraphDatabaseImplementation.commit_order in Ho.
    destruct (GraphDatabaseImplementation.visit_all _ _ _ _)
      as [[visited' order']|] eqn:Hv; [|done].
    simpl in Ho. injection Ho as ->.
    eapply (UpToDate.visit_all_within _
              (λ k, k ∈ OD.keys (GraphDatabaseImplementation.commits sg)));
      [| |exact Hv|by constructor].
    - intros c p _ Hp. by eapply Hclosed.
    - by apply Forall_forall. }
  rewrite Forall_forall in Hwithin.
  set (fs1 := <[get_repo_path (target_repo data) :=
                 GraphDatabaseImplementation.RepoDir
                   (Some GraphDatabaseImplementation.empty_graph) ∅]> fs).
  destruct (FreshPull.pull_loop_all (source_repo data) (target_repo data) sg sobjs
              order
              (GraphDatabaseImplementation.PullState
                 GraphDatabaseImplementation.empty_graph
                 (list_to_set
                    (OD.keys (GraphDatabaseImplementation.commits
                                GraphDatabaseImplementation.empty_graph))) 0 0)
              fs1
              (GraphDatabaseImplementation.RepoDir
                 (Some GraphDatabaseImplementation.empty_graph) ∅) Hne)
    as (fs' & st' & tdir' & Hloop & Ht' & _ & Hpulled & Hskipped & Hkeys' & Hhead).
  { unfold fs1. by rewrite lookup_insert_ne. }
  { unfold fs1. by rewrite lookup_insert_eq. }
  { done. }
  { done. }
  { intros k _. simpl. set_solver. }
  { intros k Hk.
    destruct (OD.get k (GraphDatabaseImplementation.commits sg)) as [c|] eqn:Hc.
    - exists c. split; [done|]. intros p h. by apply (Hobjs k).
    - apply ODFacts.get_None in Hc. by destruct Hc; apply Hwithin. }
  { intros k p Hk Hp. right. by apply (Hfirst Hacyclic). }
  simpl in Hpulled, Hskipped, Hkeys', Hhead.
  assert (GraphDatabaseImplementation.pull_commits limit data fs
          = (<[get_repo_path (target_repo data) :=
                 GraphDatabaseImplementation.RepoDir
                   (Some (GraphDatabaseImplementation.st_graph st'))
                   (GraphDatabaseImplementation.objects tdir')]> fs',
             (Pulled
                (GraphDatabaseImplementation.pulled_message (source_repo data)
                   (target_repo data) (GraphDatabaseImplementation.st_pulled st'))
                (GraphDatabaseImplementation.st_pulled st')
                (GraphDatabaseImplementation.st_skipped st'), 200))) as Hpull.
  { unfold GraphDatabaseImplementation.pull_commits. rewrite Hvs, Hvt. simpl.
    rewrite (GraphFacts.graph_exists_true _ _ _ _ Hs). simpl.
    unfold GraphDatabaseImplementation.graph_exists at 1. rewrite Ht.
    rewrite (LifecycleFacts.graph_create_fresh _ _ Hvt Ht). simpl. fold fs1.
    unfold answer, GraphDatabaseImplementation.pull_body, bind,
      GraphDatabaseImplementation.read_graph.
    unfold fs1 at 1 2. rewrite lookup_insert_ne, Hs by done.
    rewrite lookup_insert_eq, Horder. fold fs1.
    rewrite Hloop. unfold GraphDatabaseImplementation.write_graph. by rewrite Ht'. }
  exists (GraphDatabaseImplementation.pulled_message (source_repo data)
            (target_repo data) (GraphDatabaseImplementation.st_pulled st')), order.
  split; [done|].
  split; [intros k; split; [apply Hwithin|apply Hkeys]|].
  rewrite Hpull. simpl.
  split; [by rewrite Hpulled, Hskipped|].
  unfold commits_of, graph_of. rewrite lookup_insert_eq.
  split; [exact Hkeys'|exact Hhead].
Qed.

(** The commits of the repository of the scenario, in the document backend. *)
Module ScenarioFacts.

Lemma graph_ab_commits k c :
  OD.get k (GraphDatabaseImplementation.commits
              (graph_of Scenario.graph_ab "repo")) = Some c →
  (k, c) = ("A", GraphDatabaseImplementation.Commit "first" "alice"
                   "2024-01-01T10:00:00" None
                   [("f.txt", calculate_hash "v1")])
  ∨ (k, c) = ("B", GraphDatabaseImplementation.Commit "second" "alice"
                     "2024-01-02T10:00:00" (Some "A")
                     [("f.txt", calculate_hash "v2")]).
Proof.
  intros Hg. apply StatsFacts.get_Some_elem in Hg.
  replace (GraphDatabaseImplementation.commits (graph_of Scenario.graph_ab "repo"))
    with [("A", GraphDatabaseImplementation.Commit "first" "alice"
                  "2024-01-01T10:00:00" None
                  [("f.txt", calculate_hash "v1")]);
          ("B", GraphDatabaseImplementation.Commit "second" "alice"
                  "2024-01-02T10:00:00" (Some "A")
                  [("f.txt", calculate_hash "v2")])] in Hg
    by (vm_compute; reflexivity).
  apply elem_of_cons in Hg as [Hg|Hg]; [left; exact Hg|].
  apply list_elem_of_singleton in Hg. right. exact Hg.
Qed.

Lemma graph_ab_parent k p :
  parent_of (GraphDatabaseImplementation.commits
               (graph_of Scenario.graph_ab "repo")) k = Some p →
  k = "B" ∧ p = "A".
Proof.
  intros Hp. unfold parent_of in Hp.
  destruct (OD.get k _) as [c|] eqn:Hg; [|discriminate Hp].
  destruct (graph_ab_commits k c Hg) as [Heq|Heq]; injection Heq as -> ->.
  - discriminate Hp.
  - injection Hp as <-. split; reflexivity.
Qed.

Lemma graph_ab_objects k c p h :
  OD.get k (GraphDatabaseImplementation.commits
              (graph_of Scenario.graph_ab "repo")) = Some c →
  (p, h) ∈ GraphDatabaseImplementation.c_files c →
  is_Some (objects_of Scenario.graph_ab "repo" !! h).
Proof.
  intros Hg Hin.
  destruct (graph_ab_commits k c Hg) as [Heq|Heq]; injection Heq as -> ->.
  - change ((p, h) ∈ [("f.txt", calculate_hash "v1")]) in Hin.
    apply list_elem_of_singleton in Hin. apply pair_equal_spec in Hin as [_ Hh].
    rewrite Hh. exists "v1". vm_compute; reflexivity.
  - change ((p, h) ∈ [("f.txt", calculate_hash "v2")]) in Hin.
    apply list_elem_of_singleton in Hin. apply pair_equal_spec in Hin as [_ Hh].
    rewrite Hh. exists "v2". vm_compute; reflexivity.
Qed.

End ScenarioFacts.

Lemma graph_pull_into_new_repository_witness :
  ∃ msg,
    (GraphDatabaseImplementation.pull_commits Scenario.depth (SyncData "repo" "fresh")
       Scenario.graph_ab).2
    = (Pulled msg 2 0, 200)
    ∧ OD.keys (commits_of
                 (GraphDatabaseImplementation.pull_commits Scenario.depth
                    (SyncData "repo" "fresh") Scenario.graph_ab).1 "fresh")
      = ["A"; "B"]
    ∧ GraphDatabaseImplementation.HEAD
        (graph_of
           (GraphDatabaseImplementation.pull_commits Scenario.depth
              (SyncData "repo" "fresh") Scenario.graph_ab).1 "fresh")
      = Some "A".
Proof.
  destruct (graph_pull_into_new_repository Scenario.depth (SyncData "repo" "fresh")
              Scenario.graph_ab (graph_of Scenario.graph_ab "repo")
              (objects_of Scenario.graph_ab "repo"))
    as (msg & order & Horder & _ & Hans & Hkeys & Hhead).
  - vm_compute. lia.
  - vm_compute; reflexivity.
  - vm_compute; reflexivity.
  - vm_compute; reflexivity.
  - vm_compute; reflexivity.
  - exists Scenario.rank_ab.
    intros c p Hp. destruct (ScenarioFacts.graph_ab_parent c p Hp) as [-> ->].
    vm_compute. lia.
  - intros k p Hp. destruct (ScenarioFacts.graph_ab_parent k p Hp) as [-> ->].
    apply ODFacts.mem_keys. vm_compute; reflexivity.
  - exact ScenarioFacts.graph_ab_objects.
  - assert (order = ["A"; "B"]) as ->.
    { assert (GraphDatabaseImplementation.commit_order Scenario.depth
                (GraphDatabaseImplementation.commits
                   (graph_of Scenario.graph_ab "repo")) = Some ["A"; "B"]) as Ho
        by (vm_compute; reflexivity).
      rewrite Ho in Horder. injection Horder as <-. reflexivity. }
    exists msg. split; [exact Hans|]. split; [exact Hkeys|exact Hhead].
Defined.
